(* ===== verification/_CoqProject ===== *)
-Q . S2P
Prelude.v
Bytes.v
BitOps.v
Memory.v
Packet.v
Checksum.v
TcpProtocol.v
TcpStateMachine.v
Fifo.v
RingSlots.v
PacketRing.v
Allocator.v
MemoryPool.v
TcpReassembly.v
TcpRetransmission.v
TcpCongestion.v
UdpProtocol.v
UdpFeedback.v
BatchIo.v
Epoll.v
IoUring.v
Handles.v
BusyPoll.v
IoStatus.v
Tracer.v
MpscQueue.v
MpscThreads.v
MpscRaces.v
PacketRingSpsc.v
Messages.v
OrderReceiver.v
OrderGateway.v
OrderStream.v
GatewayLoop.v
Doubles.v
Percentile.v
OrderClient.v
OrderExchange.v
MarketFeed.v
Sockets.v
Endpoints.v
Options.v
Rates.v
Reports.v
Simulation.v
GatewayProgram.v
PublisherProgram.v
FeedProgram.v
ClientProgram.v
Numa.v
