(* ===== verification/Prelude.v ===== *)
(** * USN-HFT-SIM: a user-space network stack, verified

    The repository is a header-only C++20 network stack for trading simulations
    (src/include/usn) with applications that use it: an order gateway and client
    that exchange the stack's TCP frames over a stream socket, a market data
    publisher and its subscribers over UDP multicast, and two drivers that run
    them (src/apps).  This library models the headers and the applications' logic
    and proves what each component promises.  It is a shallow embedding: a C++ function is a Rocq
    function of the same name, an object is a record passed and returned, [M] is
    a state-and-failure monad over a byte-addressed memory, and undefined
    behaviour (an access outside a buffer) is [None].  Machine integers are [Z],
    with [wrap w] (here: [u8] to [u64]) wherever C++ would wrap.

    ** Files and what they model

    - [Prelude]: integers of a given width, vectors, list lemmas, tactics.
    - [Bytes], [BitOps], [Memory]: byte order, bit tricks and masks
      ([round_up_power_of_two]), the byte store with [load] and [store].
    - [Packet]: core/packet.hpp.
    - [Checksum], [TcpProtocol]: protocol/tcp_protocol.hpp.  The header record,
      the five builders, [parse], [validate_checksum], [parse_and_validate].
      The packed header struct of the source has 21 bytes; the model keeps it.
    - [TcpStateMachine]: protocol/tcp_state_machine.hpp.  [handle_incoming] is
      split where the code has its early returns ([incoming_ack],
      [incoming_payload], [incoming_fin]).
    - [TcpReassembly], [TcpRetransmission], [TcpCongestion]: the headers of the
      same name.  [std::map] is an association list kept sorted by key.
    - [UdpProtocol], [UdpFeedback]: protocol/udp_protocol.hpp, udp_feedback.hpp.
    - [Fifo], [RingSlots]: the bounded-queue interface (a class with its laws)
      and the lemmas on circular buffers that both queues use.
    - [PacketRing], [PacketRingSpsc]: core/packet_ring.hpp; the operations, and
      the same operations as steps of two interleaved threads.
    - [MpscQueue], [MpscThreads], [MpscRaces]: core/mpsc_queue.hpp, likewise
      with any number of producers; and the same runs with the happens-before
      order of the source's memory orders, ended by the first race on a slot.
    - [Allocator], [MemoryPool]: the allocator interface and its two
      implementations, core/memory_pool.hpp and optimization/zero_copy.hpp.
    - [BatchIo], [Epoll], [IoUring], [BusyPoll], [IoStatus]: src/include/usn/io.
      The kernel and liburing are parameters: sequences of answers, or functions
      with their documented behaviour as named hypotheses.
    - [Handles]: constructors and destructors of the objects that own a kernel
      resource, and the operations refused when it could not be acquired.
    - [Tracer], [Reports]: core/tracing.hpp, and the lines of [key=value] words
      that it and the programs print.
    - [Doubles], [Percentile], [Rates]: binary64 arithmetic; the percentiles of
      the programs; the rates, from the command line to the draws.
    - [Sockets]: protocol/tcp_socket.hpp and udp_socket.hpp; the kernel's
      descriptor table is the state, its answers are arguments.
    - [Numa]: optimization/numa_utils.hpp; libnuma's answers are a record.
    - [Messages]: apps/common/messages.hpp, the records and their bytes.
    - [OrderReceiver], [OrderGateway], [GatewayLoop], [OrderStream],
      [GatewayProgram]: apps/order_tcp/order_gateway.cpp.  In-order delivery for
      any handler; the processing of one packet; a round of the event loop; whole
      request streams; [main], with its descriptors, registrations and output.
    - [OrderClient], [ClientProgram], [OrderExchange]:
      apps/order_tcp/order_client.cpp, the request loop and [main], and the client
      and the gateway together.
    - [MarketFeed], [PublisherProgram], [FeedProgram]: apps/market_udp, what both
      programs do with an increment, and their [main]s.
    - [Endpoints]: how these programs open their sockets.
    - [Options], [Simulation]: the command lines of all programs, and
      apps/run_sim_market.cpp and run_sim_order.cpp.

    ** How the parts interact

    Builders write a frame into memory and return a [Packet]; [parse] and
    [parse_and_validate] read it; the state machine consumes parsed headers, and
    the handshake and the close are proved over the frames actually built.
    [BatchIo] pushes received packets into a ring through the [BoundedFifo]
    interface, and any client of [BlockAllocator] may use either pool.
    [IoStatus] unifies the backends' results for the applications' loops.

    The gateway hands in-order payloads to its order handler and the others to
    the reassembly buffer; [OrderReceiver] proves once, for any handler, that the
    arrival order does not matter, and [OrderStream] instantiates it with the
    gateway's.  The client tracks what it sends with the retransmission queue,
    the estimator and the congestion window; [OrderExchange] runs client and
    gateway against each other, each in a memory of its own, frames passing as
    byte lists.  The market feed composes the publisher's pool and [encapsulate]
    with the subscriber's [parse] and [observe].  The drivers print the values
    that the programs' own scanners read back.

    Each [main] is a function of its arguments and of what it meets: a list of
    passes, rounds or iterations, each a record of the signals, kernel answers,
    clock readings and random draws it leads to.  It returns the exit code, the
    lines it printed, what it wrote and the descriptors that stay open, and is
    built from the components above: the gateway's loop from the epoll, TCP and
    memory models, the subscriber's from the busy-poll loop, the batch receive
    and the ring.

    ** What the theorems show

    - Wire formats: every built frame parses back ([build_parse_roundtrip],
      [encapsulate_parse_roundtrip]), acceptance is characterised exactly
      ([parse_and_validate_iff]), the corruption of a byte is detected, and the checksums
      are compared with the RFCs' ones ([tcp_checksum_rfc_iff],
      [udp_checksum_rfc_iff]).  The overlap of window and checksum in the TCP
      header is made precise in [build_validates_iff].
    - Connections: [handle_incoming] refines an abstract lifecycle machine, which
      never reverts and whose lives are listed ([lifecycle_never_reverts]);
      acknowledgments only advance ([acknowledgments_only_advance]); the three-way
      handshake and the four-way close succeed.
    - Streams: reassembly is independent of the arrival order, hole queries are
      exact, acknowledgments and time-outs remove and return exactly the right
      segments, retransmission is bounded, the congestion window is exact and
      stays in its bounds.
    - Queues: both refine a bounded list when used by one thread
      ([ring_refines_queue], [mpsc_refines_queue]).  With two threads the ring
      delivers in order and exactly once, free of data races and wait-free
      ([spsc_linearizable], [spsc_wait_free]).  The queue of many producers does
      so only as long as nothing races, which excludes taking the newest value of
      a producer ([mpsc_exactly_once], [mpsc_slot_race]).
    - Pools: a client never holds overlapping blocks.
    - Orders: the gateway serves a request stream exactly once and in stream
      order ([gateway_serves_stream]); client and gateway books stay equal over
      any number of exchanges ([orders_stay_in_sync]); the client's records of
      outstanding segments agree ([client_records_agree]).
      The client's program is a run of that loop ([program_follows_loop]) whose
      final report balances ([client_report_balances]); the gateway's descriptors,
      registrations and connections correspond as long as descriptors fit into a
      packet's port or no connection is dropped at a deadline
      ([gateway_tracks_descriptors]).
    - Market data: a subscriber's gaps and reorder counts are explained by the
      publisher's drops and swaps ([feed_gaps_explained]), which are exactly those
      it was asked for ([publisher_drops_exactly], [rates_reach_draws]).  The
      subscriber's program itself never handles a packet
      ([subscriber_reports_zero], [market_run_reports_zero]).
    - Reports: percentiles, computed in floating point, are exact order statistics
      ([percentile_exact]).
    - Sockets and processes: descriptors are owned exactly once and never leak
      ([sockets_own_descriptors]); the drivers stop every child they started
      ([children_all_stopped]), their options arrive ([simulation_options_arrive])
      and their report is what the subscribers printed ([market_report_exact]).
    - I/O: waits with a timeout end within it, with a status that matches what
      happened; the batch receive stores the longest prefix that fits; an object
      that owns a kernel resource releases it once ([scope_releases]).
    Where the code misbehaves the theorem states what it does
    ([ring_stuck_at_wrap], [mpsc_full_report_iff], [mpsc_slot_race],
    [nonblocking_wait_repeats_head], [idle_resets_defeat_timeout],
    [epoll_user_data_lost], [recv_batch_reuses_buffers], [double_free_aliases],
    [udp_recv_batch_dangles], [udp_create_leaks], [gateway_round_dangles],
    [gateway_never_established], [reconnect_starves], [unanswered_request_waits],
    [teardown_never_sends], [subscriber_stops_at_once], [burst_interval_defined],
    [stop_before_start_lost], [wide_descriptor_misread], [market_overflow]).
    [gateway_serves_stream] and [orders_stay_in_sync] take each packet's storage
    as live while it is processed, which [gateway_round_dangles] shows the event
    loop does not secure.

    ** Bounds and fuel

    Loops that are not structural take fuel, and a theorem shows that the fuel is
    enough: 4 folds for a checksum (a sum below 2^32 needs three), one more
    iteration than segments for [pop_contiguous], [avoidance_fuel] for the
    avoidance loop, one more than the milliseconds of the timeout for bounded
    waits.  Waits without a timeout run as long as the environment lets them;
    their theorems say when they end.  Queue theorems assume that fewer than
    2^64 elements pass through a queue; [ring_stuck_at_wrap] shows what happens
    after.

    ** Not modelled

    Weak memory beyond the order of slot accesses: an atomic load reads the latest
    value.  The system
    calls and liburing themselves (their answers are parameters), and with them
    the effect of locking pages, prefetching and binding threads on the machine.
    Of the applications: clock readings, random draws and signals, which are
    inputs; sleeping and pacing, which have no effect on the modelled state; what
    the programs write to standard error; and the usage messages.  Tests and
    benchmarks exercise the library and are not part of it. *)
From Stdlib Require Export ZArith Lia.
From stdpp Require Export base tactics numbers option list gmap.

#[export] Set Default Goal Selector "!".

Declare Scope usn_scope.
Delimit Scope usn_scope with usn.
Open Scope Z_scope.

(** ** Machine-width unsigned integers

    An unsigned [w]-bit C++ integer is a [Z] in [0, 2^w); every arithmetic
    operation that C++ evaluates in that type is followed by [wrap w]. *)
Definition wrap (w x : Z) : Z := x mod 2 ^ w.

Abbreviation u8 := (wrap 8).
Abbreviation u16 := (wrap 16).
Abbreviation u32 := (wrap 32).
Abbreviation u64 := (wrap 64).

(** [SIZE_MAX] for the 64-bit [std::size_t] of the target platform. *)
Definition SIZE_MAX : Z := 2 ^ 64 - 1.

(** The value [x] fits in [w] bits. *)
Definition in_width (w x : Z) : Prop := 0 <= x < 2 ^ w.

#[export] Instance in_width_dec w x : Decision (in_width w x).
Proof. unfold in_width. apply _. Defined.

Create HintDb usn discriminated.

Section Wrap.
Context (w : Z) (Hw : 0 <= w).

Lemma wrap_range x : in_width w (wrap w x).
Proof using Hw. apply Z.mod_pos_bound. lia. Qed.

Lemma wrap_small x : in_width w x -> wrap w x = x.
Proof using. intros H. apply Z.mod_small, H. Qed.

Lemma wrap_wrap x : wrap w (wrap w x) = wrap w x.
Proof using Hw. apply wrap_small, wrap_range. Qed.

Lemma wrap_add_l x y : wrap w (wrap w x + y) = wrap w (x + y).
Proof using Hw. unfold wrap. by rewrite Zplus_mod_idemp_l. Qed.

Lemma wrap_add_r x y : wrap w (x + wrap w y) = wrap w (x + y).
Proof using Hw. unfold wrap. by rewrite Zplus_mod_idemp_r. Qed.

Lemma wrap_sub_l x y : wrap w (wrap w x - y) = wrap w (x - y).
Proof using Hw. unfold wrap. by rewrite Zminus_mod_idemp_l. Qed.

Lemma wrap_sub_r x y : wrap w (x - wrap w y) = wrap w (x - y).
Proof using Hw. unfold wrap. by rewrite Zminus_mod_idemp_r. Qed.

Lemma wrap_le x : 0 <= x -> wrap w x <= x.
Proof using Hw. intros. apply Z.mod_le; lia. Qed.
End Wrap.

#[export] Hint Resolve wrap_range : usn.
#[export] Hint Extern 1 (in_width _ _) => (unfold in_width; lia) : usn.
#[export] Hint Extern 2 (0 <= _) => lia : usn.

(** [wrap_simpl] removes every [wrap] whose argument provably fits. *)
Ltac wrap_simpl :=
  repeat match goal with
  | |- context [wrap ?w ?x] =>
      rewrite (wrap_small w x) by (unfold in_width in *; lia)
  end.
Ltac wrap_simpl_in H :=
  repeat match type of H with
  | context [wrap ?w ?x] =>
      rewrite (wrap_small w x) in H by (unfold in_width in *; lia)
  end.

(** Reflect every boolean comparison of the goal and the hypotheses. *)
Ltac bool_cases :=
  repeat match goal with
  | |- context [Z.eqb ?a ?b] => destruct (Z.eqb_spec a b)
  | |- context [Z.leb ?a ?b] => destruct (Z.leb_spec a b)
  | |- context [Z.ltb ?a ?b] => destruct (Z.ltb_spec a b)
  | H : context [Z.eqb ?a ?b] |- _ => destruct (Z.eqb_spec a b)
  | H : context [Z.leb ?a ?b] |- _ => destruct (Z.leb_spec a b)
  | H : context [Z.ltb ?a ?b] |- _ => destruct (Z.ltb_spec a b)
  end.

(** ** Lists *)
Section Splice.
Context {A : Type}.
Implicit Types l d : list A.

(** [splice off d l] overwrites [l] with [d] from index [off] on. *)
Definition splice (off : nat) d l : list A :=
  take off l ++ d ++ drop (off + length d) l.

Lemma length_splice off d l :
  (off + length d <= length l)%nat -> length (splice off d l) = length l.
Proof.
  intros. unfold splice. rewrite !length_app, length_take, length_drop. lia.
Qed.

Lemma splice_lookup_in off d l i :
  (off + length d <= length l)%nat -> (off <= i < off + length d)%nat ->
  splice off d l !! i = d !! (i - off)%nat.
Proof.
  intros Hl Hi. unfold splice.
  rewrite lookup_app_r by (rewrite length_take; lia).
  rewrite length_take, Nat.min_l by lia.
  by rewrite lookup_app_l by lia.
Qed.

Lemma splice_lookup_out off d l i :
  (off + length d <= length l)%nat -> (i < off \/ off + length d <= i)%nat ->
  splice off d l !! i = l !! i.
Proof.
  intros Hl Hi. unfold splice. destruct (decide (i < off)%nat).
  - rewrite lookup_app_l by (rewrite length_take; lia).
    by rewrite lookup_take_lt by lia.
  - rewrite !lookup_app_r; rewrite ?length_take, ?Nat.min_l by lia; try lia.
    rewrite lookup_drop. f_equal. lia.
Qed.

Lemma Forall_splice (P : A -> Prop) off d l :
  Forall P d -> Forall P l -> Forall P (splice off d l).
Proof.
  intros. unfold splice. repeat apply Forall_app_2; auto using Forall_take, Forall_drop.
Qed.

Lemma splice_insert_in off d l i x :
  (off + length d <= length l)%nat -> (off <= i < off + length d)%nat ->
  splice off d (<[i := x]> l) = splice off d l.
Proof.
  intros Hl Hi. unfold splice.
  by rewrite take_insert_ge, drop_insert_lt by lia.
Qed.

Lemma splice_insert_out off d l i x :
  (off + length d <= length l)%nat -> (i < off \/ off + length d <= i)%nat ->
  splice off d (<[i := x]> l) = <[i := x]> (splice off d l).
Proof.
  intros Hl Hi. apply list_eq. intros j.
  destruct (decide (off <= j < off + length d)%nat).
  - rewrite list_lookup_insert_ne by lia.
    by rewrite !splice_lookup_in by (rewrite ?length_insert; lia).
  - rewrite splice_lookup_out by (rewrite ?length_insert; lia).
    destruct (decide (i = j)) as [->|].
    + destruct (decide (j < length l)%nat).
      * by rewrite !list_lookup_insert_eq by (rewrite ?length_splice; lia).
      * rewrite !list_insert_ge by (rewrite ?length_splice; lia).
        by rewrite splice_lookup_out by lia.
    + rewrite !list_lookup_insert_ne by done. by rewrite splice_lookup_out by lia.
Qed.
End Splice.

(** [zsum l]: the mathematical sum of a list of integers. *)
Definition zsum (l : list Z) : Z := foldr Z.add 0 l.

Lemma zsum_app l1 l2 : zsum (l1 ++ l2) = zsum l1 + zsum l2.
Proof. induction l1; simpl; lia. Qed.

Lemma zsum_nonneg l : Forall (fun x => 0 <= x) l -> 0 <= zsum l.
Proof. induction 1; simpl; lia. Qed.

(** ** Vectors indexed by a machine integer

    [v[i]] of [std::vector] is undefined behaviour out of range: both accesses
    are [None] there. *)
Section Vector.
Context {A : Type}.
Implicit Types l : list A.

Definition index l (i : Z) : option A := if i <? 0 then None else l !! Z.to_nat i.

Definition assign l (i : Z) (x : A) : option (list A) :=
  if (0 <=? i) && (i <? Z.of_nat (length l)) then Some (<[Z.to_nat i := x]> l) else None.

Lemma index_in l i : 0 <= i < Z.of_nat (length l) -> is_Some (index l i).
Proof.
  intros. unfold index. destruct (Z.ltb_spec i 0); [lia|]. apply lookup_lt_is_Some. lia.
Qed.

Lemma index_Some_range l i x : index l i = Some x -> 0 <= i < Z.of_nat (length l).
Proof.
  unfold index. destruct (Z.ltb_spec i 0); [done|]. intros Hl%lookup_lt_Some. lia.
Qed.

Lemma assign_in l i x :
  0 <= i < Z.of_nat (length l) -> assign l i x = Some (<[Z.to_nat i := x]> l).
Proof.
  intros. unfold assign. destruct (Z.leb_spec 0 i), (Z.ltb_spec i (Z.of_nat (length l))); done || lia.
Qed.

Lemma assign_length l i x l' : assign l i x = Some l' -> length l' = length l.
Proof. unfold assign. case_match; [|done]. intros [= <-]. apply length_insert. Qed.

Lemma index_insert l i j x :
  0 <= i < Z.of_nat (length l) -> 0 <= j ->
  index (<[Z.to_nat i := x]> l) j = if i =? j then Some x else index l j.
Proof.
  intros Hi Hj. unfold index. destruct (Z.ltb_spec j 0); [lia|].
  destruct (Z.eqb_spec i j) as [->|].
  - apply list_lookup_insert_eq. lia.
  - apply list_lookup_insert_ne. lia.
Qed.

Lemma index_replicate n i x : 0 <= i < Z.of_nat n -> index (replicate n x) i = Some x.
Proof.
  intros. unfold index. destruct (Z.ltb_spec i 0); [lia|]. apply lookup_replicate_2. lia.
Qed.
End Vector.

(** ** Filtering *)
Lemma Forall_filter_keep {A} (P Q : A -> Prop) `{!forall x, Decision (Q x)} (l : list A) :
  Forall P l -> Forall P (filter Q l).
Proof. rewrite !Forall_forall. intros HP x [_ Hx]%list_elem_of_filter. auto. Qed.

Lemma filter_all {A} (Q : A -> Prop) `{!forall x, Decision (Q x)} (l : list A) :
  Forall Q l -> filter Q l = l.
Proof.
  induction 1 as [|x l Hx _ IH]; [done|]. by rewrite filter_cons, decide_True, IH by done.
Qed.

Lemma filter_none {A} (Q : A -> Prop) `{!forall x, Decision (Q x)} (l : list A) :
  Forall (fun x => ~ Q x) l -> filter Q l = [].
Proof.
  induction 1 as [|x l Hx _ IH]; [done|]. by rewrite filter_cons, decide_False, IH by done.
Qed.

Lemma filter_split {A} (Q : A -> Prop) `{!forall x, Decision (Q x)} (l : list A) :
  length l = (length (filter Q l) + length (filter (fun x => ~ Q x) l))%nat.
Proof.
  induction l as [|x l IH]; [done|]. rewrite !filter_cons. cbn [length].
  destruct (decide (Q x)); [rewrite decide_False by tauto|rewrite decide_True by done];
    cbn [length]; lia.
Qed.

(** ** Sublists *)
Lemma Forall_sublist {A} (P : A -> Prop) (k l : list A) : k `sublist_of` l -> Forall P l -> Forall P k.
Proof.
  induction 1 as [|x k l _ IH|x k l _ IH]; [done| |]; intros [Hx Hl]%Forall_cons; [|by apply IH].
  constructor; [done|by apply IH].
Qed.
