(* ===== verification/Bytes.v ===== *)
(** * Bytes: object representations and byte order

    The C++ code copies structures to and from buffers with [std::memcpy] and
    converts fields with [htons]/[ntohs]/[htonl]/[ntohl].  This file gives the
    object representation of an unsigned integer on the little-endian target
    ([le_bytes], [le_val]) and the byte-order conversions as byte reversal of
    that representation. *)
From S2P Require Import Prelude.

(** A byte is an 8-bit unsigned integer. *)
Abbreviation byte := (in_width 8).
Abbreviation bytes := (Forall byte).

(** The [n] bytes of [x], least significant first. *)
Fixpoint le_bytes (n : nat) (x : Z) : list Z :=
  match n with
  | O => []
  | S n => x mod 256 :: le_bytes n (x / 256)
  end.

(** The unsigned integer whose little-endian representation is [bs]. *)
Fixpoint le_val (bs : list Z) : Z :=
  match bs with
  | [] => 0
  | b :: bs => b + 256 * le_val bs
  end.

(** Byte swap of an [n]-byte integer. *)
Definition bswap (n : nat) (x : Z) : Z := le_val (rev (le_bytes n x)).

(** The [n] bytes of [x], most significant first (network order). *)
Definition be_bytes (n : nat) (x : Z) : list Z := rev (le_bytes n x).

(** [htons], [ntohs], [htonl], [ntohl] on a little-endian host. *)
Definition htons (x : Z) : Z := bswap 2 x.
Definition ntohs (x : Z) : Z := bswap 2 x.
Definition htonl (x : Z) : Z := bswap 4 x.
Definition ntohl (x : Z) : Z := bswap 4 x.

Lemma length_le_bytes n x : length (le_bytes n x) = n.
Proof. revert x; induction n; intros; simpl; auto. Qed.

Lemma byte_mod x : byte (x mod 256).
Proof. apply Z.mod_pos_bound. lia. Qed.

Lemma byte_high x : in_width 16 x -> byte (x / 256).
Proof.
  unfold in_width. intros. split; [apply Z.div_pos|apply Z.div_lt_upper_bound]; lia.
Qed.

#[export] Hint Resolve byte_mod byte_high : usn.

Lemma le_bytes_bytes n x : bytes (le_bytes n x).
Proof.
  revert x; induction n; intros; simpl; constructor; auto.
  pose proof (Z.mod_pos_bound x 256). unfold in_width. lia.
Qed.

Lemma le_val_range bs : bytes bs -> 0 <= le_val bs < 256 ^ Z.of_nat (length bs).
Proof.
  induction 1 as [|b bs Hb _ IH]; [simpl; lia|].
  change (le_val (b :: bs)) with (b + 256 * le_val bs).
  rewrite length_cons, Nat2Z.inj_succ, Z.pow_succ_r by lia.
  unfold in_width in Hb. nia.
Qed.

Lemma le_val_le_bytes n x : le_val (le_bytes n x) = x mod 256 ^ Z.of_nat n.
Proof.
  revert x; induction n as [|n IH]; intros x.
  { by rewrite Z.mod_1_r. }
  change (le_val (le_bytes (S n) x)) with (x mod 256 + 256 * le_val (le_bytes n (x / 256))).
  rewrite IH, Nat2Z.inj_succ, Z.pow_succ_r, Z.rem_mul_r by lia. done.
Qed.

Lemma le_bytes_le_val bs : bytes bs -> le_bytes (length bs) (le_val bs) = bs.
Proof.
  induction 1 as [|b bs Hb _ IH]; [done|].
  unfold in_width in Hb. simpl. rewrite Z.mul_comm.
  rewrite Z.mod_add, Z.div_add, Z.mod_small, Z.div_small by lia.
  by rewrite Z.add_0_l, IH.
Qed.

Lemma le_bytes_small n x :
  0 <= x < 256 ^ Z.of_nat n -> le_val (le_bytes n x) = x.
Proof. intros. rewrite le_val_le_bytes. by apply Z.mod_small. Qed.

(** The bytes of a swapped integer are the bytes of the integer, reversed. *)
Lemma le_bytes_bswap n x : le_bytes n (bswap n x) = rev (le_bytes n x).
Proof.
  unfold bswap.
  rewrite <- (length_le_bytes n x) at 1. rewrite <- length_rev.
  apply le_bytes_le_val, Forall_rev, le_bytes_bytes.
Qed.

Lemma bswap_range n x : 0 <= bswap n x < 256 ^ Z.of_nat n.
Proof.
  unfold bswap. rewrite <- (length_le_bytes n x) at 3. rewrite <- length_rev.
  apply le_val_range, Forall_rev, le_bytes_bytes.
Qed.

Lemma bswap_bswap n x : 0 <= x < 256 ^ Z.of_nat n -> bswap n (bswap n x) = x.
Proof.
  intros. unfold bswap at 1. rewrite le_bytes_bswap, rev_involutive.
  by apply le_bytes_small.
Qed.

Lemma le_val_be_bytes n x : le_val (be_bytes n x) = bswap n x.
Proof. done. Qed.

Lemma length_be_bytes n x : length (be_bytes n x) = n.
Proof. unfold be_bytes. by rewrite length_rev, length_le_bytes. Qed.

Lemma be_bytes_bytes n x : bytes (be_bytes n x).
Proof. apply Forall_rev, le_bytes_bytes. Qed.

Lemma ntohs_htons x : in_width 16 x -> ntohs (htons x) = x.
Proof. apply (bswap_bswap 2). Qed.

Lemma ntohl_htonl x : in_width 32 x -> ntohl (htonl x) = x.
Proof. apply (bswap_bswap 4). Qed.

Lemma htons_range x : in_width 16 (htons x).
Proof. apply (bswap_range 2). Qed.

Lemma htonl_range x : in_width 32 (htonl x).
Proof. apply (bswap_range 4). Qed.

(** [ntohs] of the little-endian word [b0, b1] is the big-endian word. *)
Lemma ntohs_word b0 b1 : byte b0 -> byte b1 -> ntohs (b0 + 256 * b1) = b1 + 256 * b0.
Proof.
  intros H0 H1. unfold ntohs, bswap.
  replace (b0 + 256 * b1) with (le_val [b0; b1]) by (simpl; lia).
  change 2%nat with (length [b0; b1]).
  rewrite le_bytes_le_val by auto. simpl. lia.
Qed.

Lemma le_bytes_2 x : in_width 16 x -> le_bytes 2 x = [x mod 256; x / 256].
Proof.
  intros [? ?]. simpl. f_equal. f_equal. apply Z.mod_small.
  split; [apply Z.div_pos; lia|apply Z.div_lt_upper_bound; lia].
Qed.

Lemma le_bytes_htons x : in_width 16 x -> le_bytes 2 (htons x) = [x / 256; x mod 256].
Proof.
  intros H. unfold htons. by rewrite le_bytes_bswap, le_bytes_2.
Qed.

#[export] Hint Resolve le_bytes_bytes be_bytes_bytes htons_range htonl_range : usn.

(** Fields of an object representation *)
(** The [n]-byte field at offset [off]. *)
Definition field (bs : list Z) (off n : nat) : Z := le_val (take n (drop off bs)).

Lemma field_pair bs i a b :
  bs !! i = Some a -> bs !! S i = Some b -> field bs i 2 = le_val [a; b].
Proof.
  intros Ha Hb. unfold field. by rewrite (drop_S _ _ _ Ha), (drop_S _ _ _ Hb).
Qed.

Lemma ntohs_pair a b : byte a -> byte b -> ntohs (le_val [a; b]) = 256 * a + b.
Proof. intros. cbn [le_val]. rewrite Z.mul_0_r, Z.add_0_r, ntohs_word by done. lia. Qed.

Lemma field_width bs off n : bytes bs -> in_width (8 * Z.of_nat n) (field bs off n).
Proof.
  intros Hb. unfold field, in_width.
  assert (bytes (take n (drop off bs))) as H by (by apply Forall_take, Forall_drop).
  apply le_val_range in H. split; [lia|]. eapply Z.lt_le_trans; [apply H|].
  change 256 with (2 ^ 8). rewrite <- Z.pow_mul_r by lia. apply Z.pow_le_mono_r; [lia|].
  rewrite length_take. lia.
Qed.
