(* ===== verification/BitOps.v ===== *)
(** * BitOps: rounding up to a power of two, and masking

    [PacketRing] and [MpscQueue] both keep a capacity that is a power of two
    and reduce a position to a slot index with [pos & mask]; both have the same
    private function [round_up_power_of_two].  This file models it once and
    proves what the two containers rely on. *)
From S2P Require Import Prelude.

(** One step [n |= n >> k] of the bit-smearing cascade. *)
Definition smear (k n : Z) : Z := Z.lor n (Z.shiftr n k).

(** [round_up_power_of_two] on a 64-bit [size_type] (the [if constexpr] branch
    is taken).  The final [n + 1] wraps. *)
Definition round_up_power_of_two (n : Z) : Z :=
  if n =? 0 then 1 else
  let n := u64 (n - 1) in
  let n := smear 1 n in
  let n := smear 2 n in
  let n := smear 4 n in
  let n := smear 8 n in
  let n := smear 16 n in
  let n := smear 32 n in
  u64 (n + 1).

(** [smeared m n r]: bit [i] of [r] is set iff some bit of [n] in [i, i+m) is. *)
Definition smeared (m n r : Z) : Prop :=
  forall i, 0 <= i ->
    Z.testbit r i = true <-> exists j, i <= j < i + m /\ Z.testbit n j = true.

Lemma smear_bit k n i :
  0 <= i -> Z.testbit (smear k n) i = Z.testbit n i || Z.testbit n (i + k).
Proof. intros. unfold smear. by rewrite Z.lor_spec, Z.shiftr_spec. Qed.

Lemma smeared_init n : smeared 1 n n.
Proof.
  intros i Hi. split; [intros H; exists i; split; [lia|done]|].
  intros (j & Hj & H). by replace i with j by lia.
Qed.

Lemma smeared_step m n r : 0 <= m -> smeared m n r -> smeared (m + m) n (smear m r).
Proof.
  intros Hm H i Hi. rewrite smear_bit, orb_true_iff, (H i), (H (i + m)) by lia.
  split.
  - intros [(j & ? & ?)|(j & ? & ?)]; exists j; split; (lia || done).
  - intros (j & ? & ?). destruct (Z.lt_ge_cases j (i + m)); [left|right];
      exists j; split; (lia || done).
Qed.

Lemma smear_nonneg k n : 0 <= n -> 0 <= smear k n.
Proof. intros. unfold smear. rewrite Z.lor_nonneg, Z.shiftr_nonneg. lia. Qed.

(** Smearing 64 bits of a positive number gives all ones up to its top bit. *)
Lemma smeared_ones m n r :
  0 < n -> Z.log2 n < m -> 0 <= r -> smeared m n r -> r = Z.ones (Z.log2 n + 1).
Proof.
  intros Hn Hm Hr H. apply Z.bits_inj_iff'. intros i Hi.
  pose proof (Z.log2_nonneg n).
  destruct (Z.le_gt_cases i (Z.log2 n)).
  - rewrite Z.ones_spec_low by lia. apply H; [done|].
    exists (Z.log2 n). split; [lia|]. by apply Z.bit_log2.
  - rewrite Z.ones_spec_high by lia. apply not_true_is_false. intros Hb.
    apply H in Hb as (j & Hj & Hb); [|done].
    rewrite Z.bits_above_log2 in Hb; [done|lia|lia].
Qed.

Definition smear_all (n : Z) : Z :=
  smear 32 (smear 16 (smear 8 (smear 4 (smear 2 (smear 1 n))))).

Lemma smear_all_ones n :
  0 < n < 2 ^ 64 -> smear_all n = Z.ones (Z.log2 n + 1).
Proof.
  intros [Hn Hlt]. apply (smeared_ones 64 n); [done| | |].
  - apply Z.log2_lt_pow2; lia.
  - unfold smear_all. do 6 apply smear_nonneg. lia.
  - unfold smear_all.
    pose proof (smeared_init n) as H. do 6 (apply smeared_step in H; [|lia]). exact H.
Qed.

(** For [1 <= n <= 2^63] the result is the least power of two that is at least [n]. *)
Lemma round_up_power_of_two_spec n :
  1 <= n <= 2 ^ 63 ->
  exists k, 0 <= k <= 63 /\ round_up_power_of_two n = 2 ^ k /\
    n <= 2 ^ k /\ (forall j, 0 <= j -> n <= 2 ^ j -> k <= j).
Proof.
  intros Hn. unfold round_up_power_of_two.
  destruct (Z.eqb_spec n 0); [lia|]. wrap_simpl. fold (smear_all (n - 1)).
  destruct (decide (n = 1)) as [->|].
  { exists 0. repeat split; (lia || done). }
  rewrite smear_all_ones by lia.
  pose proof (Z.log2_nonneg (n - 1)).
  pose proof (Z.log2_spec (n - 1) ltac:(lia)) as [Hlo Hhi].
  assert (Z.log2 (n - 1) < 63) by (apply Z.log2_lt_pow2; lia).
  exists (Z.log2 (n - 1) + 1).
  assert (0 < 2 ^ (Z.log2 (n - 1) + 1) <= 2 ^ 63).
  { split; [apply Z.pow_pos_nonneg; lia|apply Z.pow_le_mono_r; lia]. }
  split; [lia|]. split; [|split].
  - rewrite Z.ones_equiv. wrap_simpl. lia.
  - unfold Z.succ in Hhi. lia.
  - intros j Hj Hle. enough (Z.log2 (n - 1) < j) by lia.
    apply (Z.pow_lt_mono_r_iff 2); lia.
Qed.

Lemma round_up_bounds n : 1 <= n <= 2 ^ 63 -> n <= round_up_power_of_two n < 2 * n.
Proof.
  intros Hn. destruct (round_up_power_of_two_spec n Hn) as (k & Hk & -> & Hle & Hmin). split; [done|].
  destruct (decide (k = 0)) as [->|]; [lia|].
  destruct (Z.lt_ge_cases (2 ^ k) (2 * n)) as [|Hge]; [done|].
  replace k with (Z.succ (k - 1)) in Hge by lia. rewrite Z.pow_succ_r in Hge by lia.
  specialize (Hmin (k - 1)). lia.
Qed.

(** Above [2^63] the cascade fills all 64 bits and the increment wraps to 0. *)
Lemma round_up_power_of_two_overflow n :
  2 ^ 63 < n < 2 ^ 64 -> round_up_power_of_two n = 0.
Proof.
  intros Hn. unfold round_up_power_of_two.
  destruct (Z.eqb_spec n 0); [lia|]. wrap_simpl. fold (smear_all (n - 1)).
  rewrite smear_all_ones by lia.
  assert (Z.log2 (n - 1) = 63) as -> by (apply Z.log2_unique; lia).
  vm_compute. done.
Qed.

(** [pos & mask] is the position modulo the capacity. *)
Lemma land_mask pos k : 0 <= k -> Z.land pos (2 ^ k - 1) = pos mod 2 ^ k.
Proof.
  intros. replace (2 ^ k - 1) with (Z.ones k) by (rewrite Z.ones_equiv; lia).
  by apply Z.land_ones.
Qed.

(** Two positions less than a capacity apart never share a slot. *)
Lemma mod_window_inj c a i j :
  0 < c -> 0 <= i < c -> 0 <= j < c -> (a + i) mod c = (a + j) mod c -> i = j.
Proof.
  intros Hc Hi Hj H.
  assert ((i - j) mod c = 0) as Hd.
  { replace (i - j) with (a + i - (a + j)) by lia.
    by rewrite Zminus_mod, H, Z.sub_diag. }
  apply Z.mod_divide in Hd as [q Hq]; [|lia].
  assert (-1 < q < 1) by (split; apply (Z.mul_lt_mono_pos_r c); lia).
  assert (q = 0) as -> by lia. lia.
Qed.

(** Masks of the wire code. *)
Lemma land_15 x : Z.land x 15 = x mod 16.
Proof. apply (Z.land_ones x 4). lia. Qed.

Lemma land_255 x : Z.land x 255 = x mod 256.
Proof. apply (Z.land_ones x 8). lia. Qed.

(** Testing a bit with a one-bit mask. *)
Lemma land_bit_eqb x i : 0 <= i -> (Z.land x (Z.shiftl 1 i) =? 0) = negb (Z.testbit x i).
Proof.
  intros Hi. rewrite Z.shiftl_1_l. destruct (Z.testbit x i) eqn:E; cbn [negb].
  - apply Z.eqb_neq. intros H. apply (f_equal (fun z => Z.testbit z i)) in H.
    by rewrite Z.land_spec, E, Z.pow2_bits_true, Z.bits_0 in H.
  - apply Z.eqb_eq, Z.bits_inj'. intros j Hj.
    rewrite Z.land_spec, Z.bits_0, Z.pow2_bits_eqb by done.
    destruct (Z.eqb_spec i j) as [<-|]; [by rewrite E|by rewrite andb_false_r].
Qed.

(** Bits of a byte shifted into the high half do not disturb the low half. *)
Lemma lor_high_low x y i :
  0 <= i < 8 -> Z.testbit (Z.lor (u16 (Z.shiftl x 8)) y) i = Z.testbit y i.
Proof.
  intros Hi. unfold wrap.
  by rewrite Z.lor_spec, Z.mod_pow2_bits_low, Z.shiftl_spec_low by lia.
Qed.
