(* ===== verification/Memory.v ===== *)
(** * Memory: byte-addressed memory and the effect monad of the wire code

    Buffers, packets and payloads are raw [uint8_t*] in the source, several of
    them pointing into the same storage.  A pointer is an address ([Z], with
    [nullptr] = 0), a memory maps the addresses of live storage to bytes, and a
    function that reads or writes memory is a computation [M A]: it returns its
    result with the new memory, or [None] when it would access an address
    outside live storage (undefined behaviour in C++). *)
From S2P Require Import Prelude Bytes.

Abbreviation ptr := Z.
Abbreviation mem := (gmap Z Z).

Definition nullptr : ptr := 0.

Definition M (A : Type) : Type := mem -> option (A * mem).

#[export] Instance M_ret : MRet M := fun A x m => Some (x, m).
#[export] Instance M_bind : MBind M := fun A B f c m =>
  match c m with Some (x, m') => f x m' | None => None end.

(** Reading the [n] bytes at [p]. *)
Fixpoint read_bytes (m : mem) (p : ptr) (n : nat) : option (list Z) :=
  match n with
  | O => Some []
  | S n => b ← m !! p; bs ← read_bytes m (p + 1) n; Some (b :: bs)
  end.

(** Writing the bytes [bs] at [p]. *)
Fixpoint write_bytes (m : mem) (p : ptr) (bs : list Z) : option mem :=
  match bs with
  | [] => Some m
  | b :: bs =>
      match m !! p with
      | Some _ => write_bytes (<[p := b]> m) (p + 1) bs
      | None => None
      end
  end.

(** [std::memcpy] out of and into memory, and single-byte stores. *)
Definition load (p : ptr) (n : nat) : M (list Z) :=
  fun m => bs ← read_bytes m p n; Some (bs, m).
Definition store (p : ptr) (bs : list Z) : M unit :=
  fun m => m' ← write_bytes m p bs; Some (tt, m').

(** A pure computation that may be undefined. *)
Definition lift {A} (o : option A) : M A := fun m => x ← o; Some (x, m).

(** [valid m p n]: the [n] bytes at [p] are live storage. *)
Definition valid (m : mem) (p : ptr) (n : nat) : Prop :=
  forall i, 0 <= i < Z.of_nat n -> is_Some (m !! (p + i)).

(** Memories whose live cells hold bytes. *)
Definition byte_mem (m : mem) : Prop := forall a b, m !! a = Some b -> byte b.

Lemma read_bytes_lookup m p n bs :
  read_bytes m p n = Some bs <->
  length bs = n /\ forall i, (i < n)%nat -> m !! (p + Z.of_nat i) = bs !! i.
Proof.
  revert p bs. induction n as [|n IH]; intros p bs; simpl.
  { split; [intros [= <-]; split; [done|lia]|].
    intros [Hl _]. by destruct bs. }
  split.
  - intros H. destruct (m !! p) as [b|] eqn:Hp; [|done]. simpl in H.
    destruct (read_bytes m (p + 1) n) as [bs'|] eqn:Hr; [|done].
    simpl in H. injection H as <-. apply IH in Hr as [<- Hr].
    split; [done|]. intros [|i] Hi; simpl.
    + by rewrite Z.add_0_r.
    + rewrite <- Hr by lia. f_equal. lia.
  - intros [Hl H]. destruct bs as [|b bs]; [done|].
    pose proof (H 0%nat ltac:(lia)) as H0. rewrite Z.add_0_r in H0.
    rewrite H0. simpl.
    rewrite (proj2 (IH (p + 1) bs)); [done|]. split; [by injection Hl|].
    intros i Hi. specialize (H (S i) ltac:(lia)). simpl in H.
    rewrite <- H. f_equal. lia.
Qed.

Lemma read_bytes_length m p n bs : read_bytes m p n = Some bs -> length bs = n.
Proof. intros H%read_bytes_lookup. apply H. Qed.

Lemma read_bytes_ext m m' p n :
  (forall i, 0 <= i < Z.of_nat n -> m' !! (p + i) = m !! (p + i)) ->
  read_bytes m' p n = read_bytes m p n.
Proof.
  revert p. induction n as [|n IH]; intros p H; [done|]. simpl.
  pose proof (H 0 ltac:(lia)) as H0. rewrite Z.add_0_r in H0. rewrite H0.
  rewrite IH; [done|]. intros i Hi. rewrite <- Z.add_assoc. apply H. lia.
Qed.

Lemma read_bytes_valid m p n : valid m p n <-> is_Some (read_bytes m p n).
Proof.
  split.
  - revert p. induction n as [|n IH]; intros p H; [by eexists|]. simpl.
    destruct (H 0 ltac:(lia)) as [b Hb]. rewrite Z.add_0_r in Hb. rewrite Hb.
    destruct (IH (p + 1)) as [bs ->]; [|by eexists].
    intros i Hi. rewrite <- Z.add_assoc. apply H. lia.
  - intros [bs H] i Hi. apply read_bytes_lookup in H as [Hl H].
    rewrite <- (Z2Nat.id i) by lia. rewrite H by lia.
    apply lookup_lt_is_Some. lia.
Qed.

Lemma read_bytes_bytes m p n bs : byte_mem m -> read_bytes m p n = Some bs -> bytes bs.
Proof.
  intros Hm [Hl H]%read_bytes_lookup. apply Forall_lookup. intros i b Hb.
  apply (Hm (p + Z.of_nat i)). rewrite H; [done|].
  rewrite <- Hl. by eapply lookup_lt_Some.
Qed.

(** Reading a prefix or an inner range of a range that reads. *)
Lemma read_bytes_sub m p n bs off k :
  read_bytes m p n = Some bs -> (off + k <= n)%nat ->
  read_bytes m (p + Z.of_nat off) k = Some (take k (drop off bs)).
Proof.
  intros [Hl H]%read_bytes_lookup Hk. apply read_bytes_lookup.
  split; [rewrite length_take, length_drop; lia|]. intros i Hi.
  rewrite lookup_take_lt, lookup_drop by lia. rewrite <- H by lia. f_equal. lia.
Qed.

Lemma write_bytes_spec m p bs m' :
  write_bytes m p bs = Some m' ->
  forall a, m' !! a =
    if decide (p <= a < p + Z.of_nat (length bs)) then bs !! Z.to_nat (a - p) else m !! a.
Proof.
  revert m p. induction bs as [|b bs IH]; intros m p H a; simpl in H.
  { injection H as <-. simpl. by rewrite decide_False by lia. }
  destruct (m !! p) eqn:Hp; [|done]. rewrite (IH _ _ H a), length_cons.
  repeat case_decide; try lia.
  - replace (Z.to_nat (a - p)) with (S (Z.to_nat (a - (p + 1)))) by lia. done.
  - replace a with p by lia. by rewrite lookup_insert_eq, Z.sub_diag.
  - rewrite lookup_insert_ne by lia. done.
Qed.

Lemma write_bytes_valid m p bs :
  valid m p (length bs) <-> is_Some (write_bytes m p bs).
Proof.
  revert m p. induction bs as [|b bs IH]; intros m p; simpl.
  { split; [by eexists|]. intros _ i Hi. simpl in Hi. lia. }
  split.
  - intros H. destruct (H 0 ltac:(lia)) as [c Hc]. rewrite Z.add_0_r in Hc.
    rewrite Hc. apply IH. intros i Hi.
    destruct (decide (p + 1 + i = p)); [lia|].
    rewrite lookup_insert_ne by lia. rewrite <- Z.add_assoc. apply H. lia.
  - destruct (m !! p) eqn:Hp; [|by intros []]. intros H%IH i Hi.
    destruct (decide (i = 0)) as [->|]; [by rewrite Z.add_0_r, Hp|].
    specialize (H (i - 1) ltac:(lia)). rewrite lookup_insert_ne in H by lia.
    by replace (p + i) with (p + 1 + (i - 1)) by lia.
Qed.

(** A store changes nothing outside its range. *)
Lemma write_bytes_outside m p bs m' a :
  write_bytes m p bs = Some m' -> a < p \/ p + Z.of_nat (length bs) <= a ->
  m' !! a = m !! a.
Proof. intros H Ha. rewrite (write_bytes_spec _ _ _ _ H). by rewrite decide_False by lia. Qed.

Lemma write_bytes_dom m p bs m' :
  write_bytes m p bs = Some m' -> forall a, is_Some (m' !! a) <-> is_Some (m !! a).
Proof.
  intros H a. rewrite (write_bytes_spec _ _ _ _ H). case_decide; [|done].
  split; intros _.
  - assert (valid m p (length bs)) as Hv by (apply write_bytes_valid; eauto).
    replace a with (p + (a - p)) by lia. apply Hv. lia.
  - apply lookup_lt_is_Some. lia.
Qed.

(** A store inside a range that reads as [old] overwrites that part of it. *)
Lemma read_write_splice m p n old off bs m' :
  read_bytes m p n = Some old -> (off + length bs <= n)%nat ->
  write_bytes m (p + Z.of_nat off) bs = Some m' ->
  read_bytes m' p n = Some (splice off bs old).
Proof.
  intros [Hl Hr]%read_bytes_lookup Hoff Hw. apply read_bytes_lookup.
  split; [rewrite length_splice; lia|]. intros i Hi.
  rewrite (write_bytes_spec _ _ _ _ Hw). case_decide.
  - rewrite splice_lookup_in by lia. f_equal. lia.
  - rewrite splice_lookup_out by lia. by apply Hr.
Qed.

(** A store outside a range leaves what it reads. *)
Lemma read_write_outside m p n q bs m' :
  write_bytes m q bs = Some m' ->
  p + Z.of_nat n <= q \/ q + Z.of_nat (length bs) <= p ->
  read_bytes m' p n = read_bytes m p n.
Proof.
  intros Hw Hd. apply read_bytes_ext. intros i Hi.
  apply (write_bytes_outside _ _ _ _ _ Hw). lia.
Qed.

(** [valid] survives a store. *)
Lemma write_bytes_keeps_valid m p bs m' q n :
  write_bytes m p bs = Some m' -> valid m q n -> valid m' q n.
Proof. intros Hw Hv i Hi. by apply (write_bytes_dom _ _ _ _ Hw), Hv. Qed.

Lemma valid_sub m p n off k :
  valid m p n -> (off + k <= n)%nat -> valid m (p + Z.of_nat off) k.
Proof. intros H Hk i Hi. rewrite <- Z.add_assoc. apply H. lia. Qed.

Lemma valid_dom m m' p n :
  (forall a, is_Some (m' !! a) <-> is_Some (m !! a)) -> valid m p n -> valid m' p n.
Proof. intros H V i Hi. apply H, V, Hi. Qed.

Lemma byte_mem_write m p bs m' :
  byte_mem m -> bytes bs -> write_bytes m p bs = Some m' -> byte_mem m'.
Proof.
  intros Hm Hb Hw a b. rewrite (write_bytes_spec _ _ _ _ Hw). case_decide.
  - intros Hl. by eapply Forall_lookup_1 in Hl.
  - apply Hm.
Qed.

(** A store into a live buffer succeeds, with the effect on that buffer and on
    everything else.  Every frame builder is a sequence of such stores. *)
Lemma store_step m p n old off bs :
  read_bytes m p n = Some old -> (off + length bs <= n)%nat ->
  exists m', store (p + Z.of_nat off) bs m = Some (tt, m') /\
    read_bytes m' p n = Some (splice off bs old) /\
    (forall a, a < p \/ p + Z.of_nat n <= a -> m' !! a = m !! a) /\
    (forall a, is_Some (m' !! a) <-> is_Some (m !! a)).
Proof.
  intros Hr Hoff.
  assert (valid m p n) as Hv by (apply read_bytes_valid; eauto).
  destruct (proj1 (write_bytes_valid m (p + Z.of_nat off) bs)) as [m' Hw].
  { by eapply valid_sub. }
  exists m'. unfold store. rewrite Hw. split_and!; [done| | |].
  - by eapply read_write_splice.
  - intros a Ha. eapply write_bytes_outside; [done|]. lia.
  - by eapply write_bytes_dom.
Qed.

(** Running a sequence of computations. *)
Lemma bind_inv {A B} (c : M A) (f : A -> M B) m r :
  (x ← c; f x) m = Some r -> exists x m', c m = Some (x, m') /\ f x m' = Some r.
Proof. unfold mbind, M_bind. destruct (c m) as [[x m']|]; [|done]. by exists x, m'. Qed.

Lemma bind_run {A B} (c : M A) (f : A -> M B) m x m' r :
  c m = Some (x, m') -> f x m' = r -> (c ≫= f) m = r.
Proof. intros H1 H2. unfold mbind, M_bind. by rewrite H1. Qed.

Lemma load_run m p n bs : read_bytes m p n = Some bs -> load p n m = Some (bs, m).
Proof. intros H. unfold load. by rewrite H. Qed.

(** The effect of a computation that fills the [n]-byte buffer at [p]: the
    buffer reads as [new] afterwards and nothing else changes. *)
Definition fills (m : mem) (p : ptr) (n : nat) (new : list Z) (m' : mem) : Prop :=
  read_bytes m' p n = Some new /\
  (forall a, a < p \/ p + Z.of_nat n <= a -> m' !! a = m !! a) /\
  (forall a, is_Some (m' !! a) <-> is_Some (m !! a)).

Lemma fills_trans m p n l1 m1 l2 m2 :
  fills m p n l1 m1 -> fills m1 p n l2 m2 -> fills m p n l2 m2.
Proof.
  intros (_ & Ho & Hd) (Hr & Ho' & Hd'). split_and!; [done| |].
  - intros a Ha. by rewrite Ho', Ho.
  - intros a. by rewrite Hd', Hd.
Qed.

Lemma fills_outside m p n l m' q k :
  fills m p n l m' -> p + Z.of_nat n <= q \/ q + Z.of_nat k <= p ->
  read_bytes m' q k = read_bytes m q k.
Proof.
  intros (_ & Ho & _) Hq. apply read_bytes_ext. intros i Hi. apply Ho. lia.
Qed.

Lemma store_fills m p n old off bs :
  read_bytes m p n = Some old -> (off + length bs <= n)%nat ->
  exists m', store (p + Z.of_nat off) bs m = Some (tt, m') /\
    fills m p n (splice off bs old) m'.
Proof. apply store_step. Qed.

(** A store at the start of live storage. *)
Lemma store_prefix m p n bs :
  valid m p n -> (length bs <= n)%nat ->
  exists m', store p bs m = Some (tt, m') /\ read_bytes m' p (length bs) = Some bs /\
    (forall a, a < p \/ p + Z.of_nat n <= a -> m' !! a = m !! a) /\
    (forall a, is_Some (m' !! a) <-> is_Some (m !! a)).
Proof.
  intros Hv Hl.
  destruct (proj1 (read_bytes_valid m p (length bs))) as [old Hr].
  { intros i Hi. apply Hv. lia. }
  destruct (store_step m p (length bs) old 0 bs Hr) as (m' & E & Hr' & Ho & Hd); [lia|].
  rewrite Z.add_0_r in E. exists m'. split_and!; try done.
  - rewrite Hr'. f_equal. unfold splice. rewrite take_0, drop_ge by (apply read_bytes_length in Hr; lia).
    apply app_nil_r.
  - intros a Ha. apply Ho. lia.
Qed.

(** ** Live storage of a whole region *)
Fixpoint alloc (m : mem) (p : ptr) (bs : list Z) : mem :=
  match bs with
  | [] => m
  | b :: bs => <[p := b]> (alloc m (p + 1) bs)
  end.

(** Storage that goes out of scope. *)
Fixpoint free (m : mem) (p : ptr) (n : nat) : mem :=
  match n with
  | O => m
  | S n => delete p (free m (p + 1) n)
  end.

Lemma free_lookup m p n a :
  free m p n !! a = if bool_decide (p <= a < p + Z.of_nat n) then None else m !! a.
Proof.
  revert p. induction n as [|n IH]; intros p; cbn [free].
  - by rewrite bool_decide_eq_false_2 by lia.
  - destruct (decide (a = p)) as [->|].
    + rewrite lookup_delete_eq. by rewrite bool_decide_eq_true_2 by lia.
    + rewrite lookup_delete_ne, IH by done. by do 2 case_bool_decide; try lia.
Qed.

Lemma alloc_lookup_ne m p bs a :
  ~ p <= a < p + Z.of_nat (length bs) -> alloc m p bs !! a = m !! a.
Proof.
  revert p. induction bs as [|b bs IH]; intros p H; [done|]. cbn [alloc length] in *.
  rewrite lookup_insert_ne by lia. apply IH. lia.
Qed.

Lemma valid_alloc m p bs : valid (alloc m p bs) p (length bs).
Proof.
  revert p. induction bs as [|b bs IH]; intros p i Hi; cbn [length alloc] in *; [lia|].
  destruct (decide (i = 0)) as [->|].
  - rewrite Z.add_0_r, lookup_insert_eq. by eexists.
  - rewrite lookup_insert_ne by lia. replace (p + i) with (p + 1 + (i - 1)) by lia. apply IH. lia.
Qed.

(** A local variable: its storage, initialised to [bs], is live while [body] runs. *)
Definition with_local {A} (p : ptr) (bs : list Z) (body : M A) : M A := fun m =>
  '(x, m) ← body (alloc m p bs); Some (x, free m p (length bs)).

(** A block of fresh storage leaves memory as it was, if its body writes nowhere
    else. *)
Lemma with_local_run {A} p bs (body : M A) m x w :
  (forall a, p <= a < p + Z.of_nat (length bs) -> m !! a = None) ->
  body (alloc m p bs) = Some (x, w) ->
  (forall a, a < p \/ p + Z.of_nat (length bs) <= a -> w !! a = alloc m p bs !! a) ->
  with_local p bs body m = Some (x, m).
Proof.
  intros Hf Hb Hw. unfold with_local. rewrite Hb. cbn [mbind option_bind]. do 2 f_equal.
  apply map_eq. intros a. rewrite free_lookup. case_bool_decide; [by rewrite Hf|].
  rewrite Hw by lia. by apply alloc_lookup_ne.
Qed.

Lemma with_local_inv {A} p bs (body : M A) m x m' : with_local p bs body m = Some (x, m') ->
  exists w, body (alloc m p bs) = Some (x, w).
Proof. unfold with_local. intros ([y w] & E & [= <- _])%bind_Some. by exists w. Qed.

Lemma alloc_byte_mem m p bs : byte_mem m -> bytes bs -> byte_mem (alloc m p bs).
Proof.
  intros Hm Hb. revert p. induction Hb as [|b bs Hb _ IH]; intros p; [done|].
  intros a x. simpl. destruct (decide (p = a)) as [->|].
  - rewrite lookup_insert_eq. by intros [= <-].
  - rewrite lookup_insert_ne by done. apply IH.
Qed.

(** Overwriting one byte of a range that reads. *)
Lemma read_bytes_insert m p n bs i b' :
  read_bytes m p n = Some bs -> 0 <= i < Z.of_nat n ->
  read_bytes (<[p + i := b']> m) p n = Some (<[Z.to_nat i := b']> bs) /\
  bs !! Z.to_nat i = m !! (p + i).
Proof.
  intros [Hl Hr]%read_bytes_lookup Hi. split.
  - apply read_bytes_lookup. split; [by rewrite length_insert|]. intros j Hj.
    destruct (decide (j = Z.to_nat i)) as [->|].
    + rewrite list_lookup_insert_eq by lia. rewrite Z2Nat.id by lia. apply lookup_insert_eq.
    + rewrite list_lookup_insert_ne by done. rewrite <- Hr by done. apply lookup_insert_ne. lia.
  - rewrite <- Hr by lia. by rewrite Z2Nat.id by lia.
Qed.
