(* ===== verification/Packet.v ===== *)
(** * Packet: the metadata record that travels through rings and protocols
    (core/packet.hpp) *)
From S2P Require Import Prelude Bytes Memory.

(** [struct Packet]; the alignment attribute has no observable effect here. *)
Record Packet := mkPacket {
  data : ptr;
  len : Z;
  timestamp : Z;
  port : Z;
  pflags : Z;
}.

#[export] Instance Packet_eq_dec : EqDecision Packet.
Proof. solve_decision. Defined.

(** The default constructor, and [reset], which restores the same value. *)
Definition Packet_default : Packet := mkPacket nullptr 0 0 0 0.
Definition Packet_new (d : ptr) (l : Z) (ts : Z) : Packet := mkPacket d l ts 0 0.
Definition reset (p : Packet) : Packet := mkPacket nullptr 0 0 0 0.
Definition packet_valid (p : Packet) : bool :=
  negb (p.(data) =? nullptr) && (0 <? p.(len)).

#[export] Instance Packet_inhabited : Inhabited Packet := populate Packet_default.
