(* ===== verification/Checksum.v ===== *)
(** * Checksum: the one's-complement sum shared by the TCP and UDP code

    [TcpProtocol::calculate_checksum] and [UdpProtocol::calculate_checksum] are
    the same function up to the protocol word.  The file models the loop over
    16-bit words, the trailing odd byte, the folding loop with its fuel, and
    proves that folding terminates and computes the residue modulo [2^16-1]. *)
From S2P Require Import Prelude Bytes Memory.

(** The word loop [for i < len/2] followed by the odd-byte branch.  [sum] is a
    [uint32_t], so every addition wraps.  The odd byte is shifted into the high
    half and then swapped, so it lands in the low half. *)
Fixpoint sum_words (sum : Z) (bs : list Z) : Z :=
  match bs with
  | b0 :: b1 :: bs => sum_words (u32 (sum + ntohs (b0 + 256 * b1))) bs
  | [b] => u32 (sum + ntohs (u16 (Z.shiftl b 8)))
  | [] => sum
  end.

(** One iteration of [sum = (sum & 0xFFFF) + (sum >> 16)]. *)
Definition fold_step (sum : Z) : Z :=
  u32 (Z.land sum 65535 + Z.shiftr sum 16).

(** [while (sum >> 16)]; [None] when the fuel runs out. *)
Fixpoint fold_carry (fuel : nat) (sum : Z) : option Z :=
  match fuel with
  | O => None
  | S fuel => if Z.shiftr sum 16 =? 0 then Some sum else fold_carry fuel (fold_step sum)
  end.

(** The six additions of the pseudo header: both addresses as network-order
    halves, the protocol word, and the 16-bit length. *)
Definition pseudo_sum (proto len src_ip dst_ip : Z) : Z :=
  let sum := 0 in
  let sum := u32 (sum + ntohs (u16 (Z.shiftr src_ip 16))) in
  let sum := u32 (sum + ntohs (u16 (Z.land src_ip 65535))) in
  let sum := u32 (sum + ntohs (u16 (Z.shiftr dst_ip 16))) in
  let sum := u32 (sum + ntohs (u16 (Z.land dst_ip 65535))) in
  let sum := u32 (sum + ntohs proto) in
  u32 (sum + ntohs (htons (u16 len))).

(** Three iterations are always enough for a 32-bit sum ([fold_carry_total]). *)
Definition fold_fuel : nat := 4.

Definition checksum_of (proto : Z) (bs : list Z) (len src_ip dst_ip : Z) : option Z :=
  sum ← fold_carry fold_fuel (sum_words (pseudo_sum proto len src_ip dst_ip) bs);
  Some (u16 (Z.lnot sum)).

(** ** Specification: residues modulo 65535 *)

(** The representative in [1, 65535] (0 only for a zero sum) that folding yields. *)
Definition ones_residue (s : Z) : Z :=
  if s =? 0 then 0 else (s - 1) mod 65535 + 1.

(** The mathematical sum of the words of [bs], with the odd byte in the low half. *)
Fixpoint word_total (bs : list Z) : Z :=
  match bs with
  | b0 :: b1 :: bs => (b1 + 256 * b0) + word_total bs
  | [b] => b
  | [] => 0
  end.

Lemma pair_ind (P : list Z -> Prop) :
  P [] -> (forall b, P [b]) -> (forall b0 b1 bs, P bs -> P (b0 :: b1 :: bs)) ->
  forall bs, P bs.
Proof.
  intros H0 H1 H2 bs. cut (P bs /\ forall b, P (b :: bs)); [tauto|].
  induction bs as [|b bs [IH1 IH2]]; auto.
Qed.

Lemma fold_step_eq s :
  in_width 32 s -> fold_step s = s mod 65536 + s / 65536.
Proof.
  intros [? ?]. unfold fold_step.
  change 65535 with (Z.ones 16). rewrite Z.land_ones, Z.shiftr_div_pow2 by lia.
  change (2 ^ 16) with 65536.
  pose proof (Z.mod_pos_bound s 65536). pose proof (Z.div_lt_upper_bound s 65536 65536).
  pose proof (Z.div_pos s 65536). apply wrap_small. unfold in_width. lia.
Qed.

Lemma fold_step_range s :
  in_width 32 s -> in_width 32 (fold_step s) /\ fold_step s <= 131070.
Proof.
  intros H. rewrite fold_step_eq by done. destruct H.
  pose proof (Z.mod_pos_bound s 65536). pose proof (Z.div_lt_upper_bound s 65536 65536).
  pose proof (Z.div_pos s 65536). unfold in_width. lia.
Qed.

(** Folding keeps the residue. *)
Lemma ones_residue_fold s : in_width 32 s -> ones_residue (fold_step s) = ones_residue s.
Proof.
  intros H. rewrite fold_step_eq by done. destruct H. unfold ones_residue.
  pose proof (Z.div_mod s 65536 ltac:(lia)) as E.
  pose proof (Z.mod_pos_bound s 65536 ltac:(lia)). pose proof (Z.div_pos s 65536).
  destruct (Z.eqb_spec s 0) as [->|]; [done|].
  destruct (Z.eqb_spec (s mod 65536 + s / 65536) 0); [lia|].
  f_equal. rewrite E at 3.
  replace (65536 * (s / 65536) + s mod 65536 - 1)
    with (s mod 65536 + s / 65536 - 1 + (s / 65536) * 65535) by lia.
  by rewrite Z.mod_add.
Qed.

Lemma ones_residue_small s : in_width 16 s -> ones_residue s = s.
Proof.
  intros [? ?]. unfold ones_residue. destruct (Z.eqb_spec s 0); [done|].
  rewrite Z.mod_small; lia.
Qed.

Lemma shiftr16_zero s : 0 <= s -> Z.shiftr s 16 = 0 <-> s < 65536.
Proof.
  intros. rewrite Z.shiftr_div_pow2 by lia. change (2 ^ 16) with 65536.
  split; intros H1.
  - pose proof (Z.div_mod s 65536 ltac:(lia)). pose proof (Z.mod_pos_bound s 65536). lia.
  - apply Z.div_small. lia.
Qed.

(** The folding loop terminates on every 32-bit sum, within the fuel used, with
    the 16-bit one's-complement residue. *)
Lemma fold_carry_total s :
  in_width 32 s -> fold_carry fold_fuel s = Some (ones_residue s).
Proof.
  assert (step : forall n t r, in_width 32 t ->
    (65536 <= t -> fold_carry n (fold_step t) = Some r) -> ones_residue t = r ->
    fold_carry (S n) t = Some r).
  { intros n t r Ht Hrec <-. simpl. destruct (Z.eqb_spec (Z.shiftr t 16) 0) as [E|E].
    - rewrite shiftr16_zero in E by apply Ht. rewrite ones_residue_small; [done|].
      destruct Ht. by split.
    - apply Hrec. rewrite shiftr16_zero in E by apply Ht. lia. }
  intros H0. pose proof (fold_step_range s H0) as [H1 B1].
  pose proof (fold_step_range _ H1) as [H2 B2].
  apply step; [done| |done]. intros _.
  apply step; [done| |by apply ones_residue_fold]. intros G1.
  apply step; [done| |by rewrite !ones_residue_fold]. intros G2.
  rewrite (fold_step_eq (fold_step s)) in G2 by done.
  pose proof (Z.div_mod (fold_step s) 65536 ltac:(lia)).
  assert (fold_step s / 65536 = 1) by (apply Z.le_antisymm; [apply Z.lt_succ_r, Z.div_lt_upper_bound; lia|apply Z.div_le_lower_bound; lia]).
  lia.
Qed.

(** ** The word loop adds the words *)

Lemma word_total_nonneg bs : bytes bs -> 0 <= word_total bs.
Proof.
  induction bs as [|b|b0 b1 bs IH] using pair_ind; simpl; rewrite ?Forall_cons;
    unfold in_width; [lia|lia|]. intros (? & ? & ?%IH). lia.
Qed.

Lemma word_total_bound bs :
  bytes bs -> 2 * word_total bs <= 65535 * (Z.of_nat (length bs) + 1).
Proof.
  induction bs as [|b|b0 b1 bs IH] using pair_ind; rewrite ?Forall_cons;
    unfold in_width; [simpl; lia|simpl; lia|].
  intros (? & ? & ?%IH). rewrite !length_cons. cbn [word_total]. lia.
Qed.

Lemma odd_byte b : byte b -> ntohs (u16 (Z.shiftl b 8)) = b.
Proof.
  intros Hb. unfold in_width in Hb. rewrite Z.shiftl_mul_pow2 by lia. wrap_simpl.
  replace (b * 2 ^ 8) with (0 + 256 * b) by lia. rewrite ntohs_word; unfold in_width; lia.
Qed.

Lemma sum_words_total s bs :
  bytes bs -> 0 <= s -> s + word_total bs < 2 ^ 32 -> sum_words s bs = s + word_total bs.
Proof.
  revert s. induction bs as [|b|b0 b1 bs IH] using pair_ind; intros s Hb Hs Hlt.
  - simpl. lia.
  - apply Forall_cons in Hb as [Hb _]. cbn [sum_words word_total] in *.
    rewrite odd_byte by done. unfold in_width in Hb. by wrap_simpl.
  - apply Forall_cons in Hb as [H0 Hb]. apply Forall_cons in Hb as [H1 Hb].
    cbn [sum_words word_total] in *. rewrite ntohs_word by done.
    pose proof (word_total_nonneg bs Hb). unfold in_width in *. wrap_simpl.
    rewrite IH by (done || lia). lia.
Qed.

(** Sum with any byte list spliced in at an even offset. *)
Lemma word_total_app l1 l2 :
  Nat.Even (length l1) -> word_total (l1 ++ l2) = word_total l1 + word_total l2.
Proof.
  induction l1 as [|b|b0 b1 l1 IH] using pair_ind; simpl; [done| |].
  - by intros H%Nat.even_spec.
  - intros H%Nat.even_spec. rewrite IH; [lia|]. by apply Nat.even_spec.
Qed.

(** Replacing one byte changes the sum by its change, weighted 1 or 256. *)
Lemma word_total_insert bs i b b' :
  bs !! i = Some b ->
  exists k, (k = 1 \/ k = 256) /\ word_total (<[i := b']> bs) = word_total bs + (b' - b) * k.
Proof.
  revert i. induction bs as [|c|c0 c1 bs IH] using pair_ind; intros i Hi; [done| |].
  - destruct i; [|done]. injection Hi as ->. exists 1. simpl. lia.
  - destruct i as [|[|i]].
    + injection Hi as ->. exists 256. split; [by right|]. cbn. lia.
    + injection Hi as ->. exists 1. split; [by left|]. cbn. lia.
    + destruct (IH i Hi) as (k & Hk & E). exists k. split; [done|].
      change (<[S (S i):=b']> (c0 :: c1 :: bs)) with (c0 :: c1 :: <[i:=b']> bs).
      cbn [word_total]. lia.
Qed.

(** ** Residue algebra *)

Lemma ones_residue_range s : 0 < s -> 1 <= ones_residue s <= 65535.
Proof.
  intros. unfold ones_residue. destruct (Z.eqb_spec s 0); [lia|].
  pose proof (Z.mod_pos_bound (s - 1) 65535). lia.
Qed.

Lemma ones_residue_mod s : 0 < s -> ones_residue s mod 65535 = s mod 65535.
Proof.
  intros. unfold ones_residue. destruct (Z.eqb_spec s 0); [lia|].
  rewrite Z.add_mod_idemp_l by lia. f_equal. lia.
Qed.

Lemma ones_residue_eq s t :
  0 < s -> 0 < t -> ones_residue s = ones_residue t <-> s mod 65535 = t mod 65535.
Proof.
  intros Hs Ht. split; intros H.
  - by rewrite <- (ones_residue_mod s), <- (ones_residue_mod t), H.
  - unfold ones_residue. destruct (Z.eqb_spec s 0), (Z.eqb_spec t 0); try lia.
    by rewrite Zminus_mod, H, <- Zminus_mod.
Qed.

(** Adding the complement makes the folded sum all ones. *)
Lemma ones_residue_complement s :
  0 < s -> ones_residue (s + (65535 - ones_residue s)) = 65535.
Proof.
  intros Hs. pose proof (ones_residue_range s Hs).
  change 65535 with (ones_residue 65535) at 2. apply ones_residue_eq; [lia..|].
  rewrite Z.add_sub_assoc, Zminus_mod, ones_residue_mod, <- Zminus_mod by done.
  replace (s + 65535 - s) with 65535 by lia. done.
Qed.

Lemma complement16 r : in_width 16 r -> u16 (Z.lnot r) = 65535 - r.
Proof.
  intros H. unfold wrap. replace (Z.lnot r) with (65535 - r + -1 * 2 ^ 16).
  - unfold in_width in H. rewrite Z.mod_add, Z.mod_small; lia.
  - pose proof (Z.add_lnot_diag r). lia.
Qed.

(** ** The pseudo header *)

Lemma ntohs_range x : in_width 16 (ntohs x).
Proof. apply (bswap_range 2). Qed.

Lemma pseudo_sum_range proto n src dst :
  ntohs proto <= pseudo_sum proto n src dst <= 6 * 65535.
Proof.
  unfold pseudo_sum.
  pose proof (ntohs_range (u16 (Z.shiftr src 16))). pose proof (ntohs_range (u16 (Z.land src 65535))).
  pose proof (ntohs_range (u16 (Z.shiftr dst 16))). pose proof (ntohs_range (u16 (Z.land dst 65535))).
  pose proof (ntohs_range proto). pose proof (ntohs_range (htons (u16 n))).
  unfold in_width in *. wrap_simpl. lia.
Qed.

(** The value of the checksum: the complement of the residue of the whole sum. *)
Lemma checksum_of_spec proto bs n src dst :
  bytes bs -> Z.of_nat (length bs) <= 65536 ->
  checksum_of proto bs n src dst =
    Some (65535 - ones_residue (pseudo_sum proto n src dst + word_total bs)).
Proof.
  intros Hb Hlen. unfold checksum_of.
  pose proof (pseudo_sum_range proto n src dst). pose proof (ntohs_range proto) as Hp.
  pose proof (word_total_bound bs Hb). pose proof (word_total_nonneg bs Hb).
  unfold in_width in Hp. rewrite sum_words_total by (done || lia).
  rewrite fold_carry_total by (unfold in_width; lia). simpl. f_equal. apply complement16.
  destruct (Z.eq_dec (pseudo_sum proto n src dst + word_total bs) 0) as [->|]; [by vm_compute|].
  pose proof (ones_residue_range (pseudo_sum proto n src dst + word_total bs)).
  unfold in_width. lia.
Qed.

(** ** The Internet checksum of RFC 768 and RFC 793, for comparison *)

(** Big-endian words, a trailing odd byte padded with a zero byte on the right. *)
Fixpoint be_total (bs : list Z) : Z :=
  match bs with
  | b0 :: b1 :: bs => (256 * b0 + b1) + be_total bs
  | [b] => 256 * b
  | [] => 0
  end.

(** Source and destination address, zero, protocol, length. *)
Definition pseudo_header (proto n src dst : Z) : list Z :=
  le_bytes 4 src ++ le_bytes 4 dst ++ [0; proto] ++ rev (le_bytes 2 n).

Definition rfc_checksum (proto : Z) (bs : list Z) (n src dst : Z) : Z :=
  65535 - ones_residue (be_total (pseudo_header proto n src dst ++ bs)).

Lemma word_total_be bs :
  word_total bs =
    be_total bs - (if Nat.odd (length bs) then 255 * List.last bs 0 else 0).
Proof.
  induction bs as [|b|b0 b1 bs IH] using pair_ind; [done|simpl; lia|].
  cbn [word_total be_total]. rewrite IH, !length_cons, Nat.odd_succ, Nat.even_succ.
  destruct (Nat.odd (length bs)) eqn:E; [|lia].
  destruct bs; [done|]. change (List.last (b0 :: b1 :: z :: bs) 0) with (List.last (z :: bs) 0). lia.
Qed.

Lemma be_total_app l1 l2 :
  Nat.Even (length l1) -> be_total (l1 ++ l2) = be_total l1 + be_total l2.
Proof.
  induction l1 as [|b|b0 b1 l1 IH] using pair_ind; simpl; [done| |].
  - by intros H%Nat.even_spec.
  - intros H%Nat.even_spec. rewrite IH; [lia|]. by apply Nat.even_spec.
Qed.

Lemma ntohs_u16 x : ntohs (u16 x) = x / 256 mod 256 + 256 * (x mod 256).
Proof.
  unfold wrap. replace (x mod 2 ^ 16) with (x mod 256 + 256 * (x / 256 mod 256)).
  - apply ntohs_word; unfold in_width; apply Z.mod_pos_bound; lia.
  - change (2 ^ 16) with (256 * 256). by rewrite Z.rem_mul_r by lia.
Qed.

Lemma addr_halves a :
  ntohs (u16 (Z.shiftr a 16)) + ntohs (u16 (Z.land a 65535)) = be_total (le_bytes 4 a).
Proof.
  change 65535 with (Z.ones 16). rewrite Z.land_ones by lia. fold (wrap 16 a).
  rewrite wrap_wrap, !ntohs_u16, Z.shiftr_div_pow2 by lia.
  cbn [le_bytes be_total]. change (2 ^ 16) with (256 * 256).
  rewrite <- !Z.div_div by lia. lia.
Qed.

(** The code adds the protocol word byte-swapped: [256 * proto] for [proto]. *)
Lemma pseudo_sum_be proto n src dst :
  byte proto -> in_width 16 n ->
  pseudo_sum proto n src dst = be_total (pseudo_header proto n src dst) + 255 * proto.
Proof.
  intros Hp Hn. pose proof (pseudo_sum_range proto n src dst) as Hr. revert Hr.
  unfold pseudo_sum, pseudo_header.
  rewrite !be_total_app by (rewrite ?length_le_bytes; apply Nat.even_spec; done).
  rewrite <- !addr_halves.
  pose proof (ntohs_range (u16 (Z.shiftr src 16))). pose proof (ntohs_range (u16 (Z.land src 65535))).
  pose proof (ntohs_range (u16 (Z.shiftr dst 16))). pose proof (ntohs_range (u16 (Z.land dst 65535))).
  rewrite (wrap_small 16 n) by done. rewrite ntohs_htons by done.
  assert (ntohs proto = 256 * proto) as ->.
  { replace proto with (proto + 256 * 0) at 1 by lia. rewrite ntohs_word; unfold in_width in *; lia. }
  rewrite le_bytes_2 by done. cbn [rev app be_total].
  pose proof (Z.div_mod n 256). unfold in_width in *. wrap_simpl. lia.
Qed.

(** The code's checksum is the RFC's exactly when the segment has odd length and
    its last byte happens to equal the protocol number. *)
Lemma checksum_rfc_iff proto bs n src dst :
  byte proto -> 0 < proto -> in_width 16 n -> bytes bs -> Z.of_nat (length bs) <= 65536 ->
  checksum_of proto bs n src dst = Some (rfc_checksum proto bs n src dst) <->
  Nat.Odd (length bs) /\ List.last bs 0 = proto.
Proof.
  intros Hp Hp0 Hn Hb Hlen. rewrite checksum_of_spec by done. unfold rfc_checksum.
  assert (Nat.Even (length (pseudo_header proto n src dst))) as Hev.
  { unfold pseudo_header. rewrite !length_app, length_rev, !length_le_bytes.
    by apply Nat.even_spec. }
  pose proof (pseudo_sum_range proto n src dst) as Hr. rewrite pseudo_sum_be in Hr by done.
  rewrite (be_total_app _ bs Hev), pseudo_sum_be, word_total_be by done.
  pose proof (word_total_nonneg bs Hb) as Hw. rewrite word_total_be in Hw.
  assert (ntohs proto = 256 * proto) as Hnp.
  { replace proto with (proto + 256 * 0) at 1 by lia. rewrite ntohs_word; unfold in_width in *; lia. }
  set (P := be_total (pseudo_header _ _ _ _)) in *. set (B := be_total bs) in *.
  assert (byte (List.last bs 0)) as Hlast.
  { destruct bs as [|b bs'] using rev_ind; [simpl; unfold in_width; lia|].
    rewrite last_last. apply Forall_app in Hb as [_ Hb]. by apply Forall_cons in Hb as [? _]. }
  unfold in_width in Hp, Hlast. rewrite <- Nat.odd_spec.
  assert (forall x y : Z, Some (65535 - x) = Some (65535 - y) <-> x = y) as ->.
  { intros x y. split; [intros [= H]; lia|by intros ->]. }
  destruct (Nat.odd (length bs)) eqn:E.
  - rewrite ones_residue_eq by lia. split.
    + intros H. split; [done|].
      assert ((255 * (proto - List.last bs 0)) mod 65535 = 0) as H'.
      { replace (255 * (proto - List.last bs 0))
          with (P + 255 * proto + (B - 255 * List.last bs 0) - (P + B)) by lia.
        by rewrite Zminus_mod, H, Z.sub_diag. }
      apply Z.mod_divide in H' as [q Hq]; [|lia]. lia.
    + intros [_ ->]. f_equal. lia.
  - rewrite ones_residue_eq by lia. split; [|by intros [? _]].
    intros H. exfalso.
    assert ((255 * proto) mod 65535 = 0) as H'.
    { replace (255 * proto) with (P + 255 * proto + (B - 0) - (P + B)) by lia.
      by rewrite Zminus_mod, H, Z.sub_diag. }
    apply Z.mod_divide in H' as [q Hq]; [|lia]. lia.
Qed.

(** A residue difference smaller than the modulus is visible. *)
Lemma ones_residue_diff P T k d :
  0 < P -> 0 <= T -> 0 <= T + d * k -> -255 <= d <= 255 -> d <> 0 -> k = 1 \/ k = 256 ->
  ones_residue (P + (T + d * k)) <> ones_residue (P + T).
Proof.
  intros HP HT HT' Hd Hd0 Hk H. apply ones_residue_eq in H; [|lia..].
  assert ((d * k) mod 65535 = 0) as H0.
  { replace (d * k) with (P + (T + d * k) - (P + T)) by lia.
    by rewrite Zminus_mod, H, Z.sub_diag. }
  apply Z.mod_divide in H0 as [q Hq]; [|lia]. lia.
Qed.
