(* ===== verification/TcpProtocol.v ===== *)
(** * TcpProtocol: TCP frame construction, parsing and checksums
    (protocol/tcp_protocol.hpp) *)
From S2P Require Import Prelude Bytes BitOps Memory Packet Checksum.

(** [enum class TcpState]. *)
Inductive TcpState : Set :=
  | CLOSED | LISTEN | SYN_SENT | SYN_RECEIVED | ESTABLISHED | FIN_WAIT_1
  | FIN_WAIT_2 | CLOSE_WAIT | CLOSING | LAST_ACK | TIME_WAIT.

#[export] Instance TcpState_eq_dec : EqDecision TcpState.
Proof. solve_decision. Defined.

(** [struct TcpHeader], packed: 21 bytes, since the 16-bit [flags] member
    follows the byte of the two 4-bit fields. *)
Record TcpHeader := mkTcpHeader {
  source_port : Z;
  dest_port : Z;
  seq_num : Z;
  ack_num : Z;
  data_offset : Z;
  reserved : Z;
  flags : Z;
  window : Z;
  checksum : Z;
  urgent_ptr : Z;
}.

(** [std::memset(&header, 0, sizeof(header))]. *)
Definition TcpHeader_zero : TcpHeader := mkTcpHeader 0 0 0 0 0 0 0 0 0 0.

(** [to_network_order] and [to_host_order] convert every multi-byte field
    except [flags]. *)
Definition to_network_order (h : TcpHeader) : TcpHeader :=
  mkTcpHeader (htons h.(source_port)) (htons h.(dest_port)) (htonl h.(seq_num))
    (htonl h.(ack_num)) h.(data_offset) h.(reserved) h.(flags) (htons h.(window))
    (htons h.(checksum)) (htons h.(urgent_ptr)).

Definition to_host_order (h : TcpHeader) : TcpHeader :=
  mkTcpHeader (ntohs h.(source_port)) (ntohs h.(dest_port)) (ntohl h.(seq_num))
    (ntohl h.(ack_num)) h.(data_offset) h.(reserved) h.(flags) (ntohs h.(window))
    (ntohs h.(checksum)) (ntohs h.(urgent_ptr)).

Definition has_flag (bit : Z) (h : TcpHeader) : bool :=
  negb (Z.land h.(flags) (Z.shiftl 1 bit) =? 0).
Definition has_syn : TcpHeader -> bool := has_flag 1.
Definition has_ack : TcpHeader -> bool := has_flag 4.
Definition has_fin : TcpHeader -> bool := has_flag 0.
Definition has_rst : TcpHeader -> bool := has_flag 2.

(** [struct TcpConnection]. *)
Record TcpConnection := mkTcpConnection {
  local_ip : Z;
  remote_ip : Z;
  local_port : Z;
  remote_port : Z;
  send_seq : Z;
  recv_seq : Z;
  send_ack : Z;
  recv_ack : Z;
  state : TcpState;
  window_size : Z;
  recv_window : Z;
  peer_window : Z;
}.

(** The default constructor. *)
Definition TcpConnection_default : TcpConnection :=
  mkTcpConnection 0 0 0 0 0 0 0 0 CLOSED 65535 65535 65535.

(** Every field of a connection fits its C++ type. *)
Record conn_ok (c : TcpConnection) : Prop := {
  ok_local_ip : in_width 32 c.(local_ip);
  ok_remote_ip : in_width 32 c.(remote_ip);
  ok_local_port : in_width 16 c.(local_port);
  ok_remote_port : in_width 16 c.(remote_port);
  ok_send_seq : in_width 32 c.(send_seq);
  ok_recv_seq : in_width 32 c.(recv_seq);
  ok_send_ack : in_width 32 c.(send_ack);
  ok_recv_ack : in_width 32 c.(recv_ack);
  ok_window_size : in_width 16 c.(window_size);
  ok_recv_window : in_width 32 c.(recv_window);
  ok_peer_window : in_width 32 c.(peer_window);
}.

(** ** Object representation of the packed header *)
Definition header_repr (h : TcpHeader) : list Z :=
  le_bytes 2 h.(source_port) ++ le_bytes 2 h.(dest_port) ++ le_bytes 4 h.(seq_num) ++
  le_bytes 4 h.(ack_num) ++ [Z.lor h.(data_offset) (Z.shiftl h.(reserved) 4)] ++
  le_bytes 2 h.(flags) ++ le_bytes 2 h.(window) ++ le_bytes 2 h.(checksum) ++
  le_bytes 2 h.(urgent_ptr).

Definition header_of_repr (bs : list Z) : TcpHeader :=
  mkTcpHeader (field bs 0 2) (field bs 2 2) (field bs 4 4) (field bs 8 4)
    (Z.land (field bs 12 1) 15) (Z.shiftr (field bs 12 1) 4) (field bs 13 2)
    (field bs 15 2) (field bs 17 2) (field bs 19 2).

Definition kHeaderLen : Z := 20.
Definition tcp_proto_word : Z := 6.

(** [calculate_checksum] over memory. *)
Definition calculate_checksum_bytes (bs : list Z) (src_ip dst_ip : Z) : option Z :=
  checksum_of tcp_proto_word bs (Z.of_nat (length bs)) src_ip dst_ip.

Definition calculate_checksum (d : ptr) (n : nat) (src_ip dst_ip : Z) : M Z :=
  bs ← load d n;
  lift (calculate_checksum_bytes bs src_ip dst_ip).

(** The four writes by which every [create_*] lays its header out: twelve bytes
    of the representation, the data-offset and flag bytes, and six more bytes
    copied from offset 14 of the representation to offset 14 of the frame. *)
Definition emit_header (buffer : ptr) (h : TcpHeader) : M unit :=
  store buffer (take 12 (header_repr h)) ;;
  store (buffer + 12) [u8 (Z.lor (Z.shiftl h.(data_offset) 4)
                                 (Z.land (Z.shiftr h.(flags) 8) 15))] ;;
  store (buffer + 13) [Z.land h.(flags) 255] ;;
  store (buffer + 14) (take 6 (drop 14 (header_repr h))).

(** Checksum of the frame, stored in network order at offset 16. *)
Definition emit_checksum (buffer : ptr) (n : nat) (src_ip dst_ip : Z) : M unit :=
  c ← calculate_checksum buffer n src_ip dst_ip;
  store (buffer + 16) (le_bytes 2 (htons c)).

Definition create_syn (src_port dst_port src_ip dst_ip seq : Z) (out_buffer : ptr) : M Packet :=
  let header := mkTcpHeader src_port dst_port seq 0 5 0 (Z.shiftl 1 1) 65535 0 0 in
  let buffer := out_buffer in
  let header := to_network_order header in
  emit_header buffer header ;;
  emit_checksum buffer 20 src_ip dst_ip ;;
  mret (Packet_new buffer kHeaderLen 0).

Definition create_syn_ack (conn : TcpConnection) (seq ack : Z) (out_buffer : ptr) : M Packet :=
  let header := mkTcpHeader conn.(local_port) conn.(remote_port) seq ack 5 0
    (Z.lor (Z.shiftl 1 1) (Z.shiftl 1 4)) conn.(window_size) 0 0 in
  let buffer := out_buffer in
  let header := to_network_order header in
  emit_header buffer header ;;
  emit_checksum buffer 20 conn.(local_ip) conn.(remote_ip) ;;
  mret (Packet_new buffer kHeaderLen 0).

Definition create_ack (conn : TcpConnection) (ack : Z) (out_buffer : ptr) : M Packet :=
  let header := mkTcpHeader conn.(local_port) conn.(remote_port) conn.(send_seq) ack 5 0
    (Z.shiftl 1 4) conn.(window_size) 0 0 in
  let buffer := out_buffer in
  let header := to_network_order header in
  emit_header buffer header ;;
  emit_checksum buffer 20 conn.(local_ip) conn.(remote_ip) ;;
  mret (Packet_new buffer kHeaderLen 0).

Definition create_data (conn : TcpConnection) (d : ptr) (n : nat) (out_buffer : ptr) : M Packet :=
  let total_len := (20 + n)%nat in
  let buffer := out_buffer in
  let header := mkTcpHeader conn.(local_port) conn.(remote_port) conn.(send_seq)
    conn.(recv_seq) 5 0 (Z.lor (Z.shiftl 1 4) (Z.shiftl 1 3)) conn.(window_size) 0 0 in
  let header := to_network_order header in
  emit_header buffer header ;;
  bs ← load d n;
  store (buffer + kHeaderLen) bs ;;
  emit_checksum buffer total_len conn.(local_ip) conn.(remote_ip) ;;
  mret (Packet_new buffer (Z.of_nat total_len) 0).

Definition create_fin (conn : TcpConnection) (out_buffer : ptr) : M Packet :=
  let header := mkTcpHeader conn.(local_port) conn.(remote_port) conn.(send_seq)
    conn.(recv_seq) 5 0 (Z.lor (Z.shiftl 1 0) (Z.shiftl 1 4)) conn.(window_size) 0 0 in
  let buffer := out_buffer in
  let header := to_network_order header in
  emit_header buffer header ;;
  emit_checksum buffer 20 conn.(local_ip) conn.(remote_ip) ;;
  mret (Packet_new buffer kHeaderLen 0).

(** The out-parameters of [parse]: they keep their value on the first early
    return, and [header] only is assigned before the second. *)
Record Parsed := mkParsed {
  p_header : TcpHeader;
  p_payload : ptr;
  p_payload_len : Z;
}.

Definition parse (packet : Packet) (out : Parsed) : M (bool * Parsed) :=
  if packet.(len) <? kHeaderLen then mret (false, out) else
  h12 ← load packet.(data) 12;
  h6 ← load (packet.(data) + 14) 6;
  let object := splice 14 h6 (splice 0 h12 (replicate 21 0)) in
  let header := header_of_repr object in
  b12 ← load (packet.(data) + 12) 1;
  b13 ← load (packet.(data) + 13) 1;
  let data_offset_byte := le_val b12 in
  let header := mkTcpHeader header.(source_port) header.(dest_port) header.(seq_num)
    header.(ack_num) (Z.land (Z.shiftr data_offset_byte 4) 15) header.(reserved)
    (Z.lor (u16 (Z.shiftl (Z.land data_offset_byte 15) 8)) (le_val b13))
    header.(window) header.(checksum) header.(urgent_ptr) in
  let header := to_host_order header in
  let header_len := header.(data_offset) * 4 in
  if (header_len <? kHeaderLen) || (packet.(len) <? header_len) then
    mret (false, mkParsed header out.(p_payload) out.(p_payload_len))
  else
    mret (true, mkParsed header (packet.(data) + header_len) (packet.(len) - header_len)).

(** [is_malformed_header]. *)
Definition is_malformed_header (h : TcpHeader) : bool :=
  if h.(data_offset) <? 5 then true else has_syn h && has_fin h.

(** [validate_checksum]: a private copy with the checksum field cleared. *)
Definition validate_checksum (packet : Packet) (src_ip dst_ip : Z) : M bool :=
  if (packet.(data) =? nullptr) || (packet.(len) <? kHeaderLen) then mret false else
  tmp ← load packet.(data) (Z.to_nat packet.(len));
  let stored := ntohs (field tmp 16 2) in
  let tmp := splice 16 [0; 0] tmp in
  calc ← lift (calculate_checksum_bytes tmp src_ip dst_ip);
  mret (stored =? calc).

Definition parse_and_validate (packet : Packet) (src_ip dst_ip : Z) (out : Parsed)
    : M (bool * Parsed) :=
  r ← parse packet out;
  let '(ok, out) := r in
  if negb ok then mret (false, out) else
  if is_malformed_header out.(p_header) then mret (false, out) else
  v ← validate_checksum packet src_ip dst_ip;
  mret (v, out).

(** ** What the builders put on the wire *)

(** A header every builder produces: no options, flags in one byte, checksum
    and urgent pointer still zero. *)
Record plain_header (h : TcpHeader) : Prop := {
  pl_sport : in_width 16 h.(source_port);
  pl_dport : in_width 16 h.(dest_port);
  pl_seq : in_width 32 h.(seq_num);
  pl_ack : in_width 32 h.(ack_num);
  pl_off : h.(data_offset) = 5;
  pl_res : h.(reserved) = 0;
  pl_flags : in_width 8 h.(flags);
  pl_window : in_width 16 h.(window);
  pl_checksum : h.(checksum) = 0;
  pl_urgent : h.(urgent_ptr) = 0;
}.

(** The twenty header bytes before the checksum is stored.  The window occupies
    bytes 15 and 16, one byte later than in RFC 793. *)
Definition header_bytes (h : TcpHeader) : list Z :=
  be_bytes 2 h.(source_port) ++ be_bytes 2 h.(dest_port) ++ be_bytes 4 h.(seq_num) ++
  be_bytes 4 h.(ack_num) ++
  [80; h.(flags); 0; h.(window) / 256; h.(window) mod 256; 0; 0; 0].

(** The checksum the builders compute over header and payload. *)
Definition frame_checksum (h : TcpHeader) (payload : list Z) (src_ip dst_ip : Z) : Z :=
  let bs := header_bytes h ++ payload in
  65535 - ones_residue (pseudo_sum tcp_proto_word (Z.of_nat (length bs)) src_ip dst_ip
                        + word_total bs).

(** The finished frame: the checksum overwrites bytes 16 and 17. *)
Definition wire (h : TcpHeader) (payload : list Z) (src_ip dst_ip : Z) : list Z :=
  let c := frame_checksum h payload src_ip dst_ip in
  splice 16 [c / 256; c mod 256] (header_bytes h ++ payload).

Lemma length_header_bytes h : length (header_bytes h) = 20%nat.
Proof. unfold header_bytes. by rewrite !length_app, !length_be_bytes. Qed.

Lemma header_bytes_bytes h : plain_header h -> bytes (header_bytes h).
Proof.
  intros [].
  unfold header_bytes.
  repeat first [apply Forall_app_2 | apply Forall_cons; split]; auto with usn.
Qed.

Lemma header_repr_network h :
  plain_header h ->
  header_repr (to_network_order h) =
    be_bytes 2 h.(source_port) ++ be_bytes 2 h.(dest_port) ++ be_bytes 4 h.(seq_num) ++
    be_bytes 4 h.(ack_num) ++
    [5; h.(flags); 0; h.(window) / 256; h.(window) mod 256; 0; 0; 0; 0].
Proof.
  intros []. unfold header_repr, to_network_order; cbn [source_port dest_port seq_num ack_num data_offset reserved flags window checksum urgent_ptr].
  rewrite pl_off0, pl_res0, pl_checksum0, pl_urgent0.
  unfold in_width in pl_flags0.
  rewrite (le_bytes_2 (flags h)), (le_bytes_htons (window h)) by (unfold in_width in *; lia).
  rewrite Z.mod_small, Z.div_small by lia.
  unfold htons, htonl. by rewrite !le_bytes_bswap.
Qed.

(** Laying out the header fills the first twenty bytes of the buffer. *)
Lemma emit_header_fills h m p n old :
  plain_header h -> read_bytes m p n = Some old -> (20 <= n)%nat ->
  exists m', emit_header p (to_network_order h) m = Some (tt, m') /\
    fills m p n (splice 0 (header_bytes h) old) m'.
Proof.
  intros Hh Hr Hn. pose proof (header_repr_network h Hh) as Hrep.
  destruct Hh. unfold in_width in pl_flags0.
  unfold emit_header. rewrite Hrep.
  cbn [to_network_order data_offset flags]. rewrite pl_off0.
  replace (Z.shiftr (flags h) 8) with 0
    by (rewrite Z.shiftr_div_pow2, Z.div_small by lia; done).
  change 255 with (Z.ones 8). rewrite Z.land_ones, (Z.mod_small (flags h)) by lia.
  change (u8 _) with 80.
  destruct (store_fills m p n old 0 (take 12 (be_bytes 2 (source_port h) ++
    be_bytes 2 (dest_port h) ++ be_bytes 4 (seq_num h) ++ be_bytes 4 (ack_num h) ++
    [5; flags h; 0; window h / 256; window h mod 256; 0; 0; 0; 0])) Hr) as (m1 & E1 & F1).
  { rewrite length_take. lia. }
  rewrite Z.add_0_r in E1.
  destruct (store_fills m1 p n _ 12 [80] (proj1 F1)) as (m2 & E2 & F2); [simpl; lia|].
  destruct (store_fills m2 p n _ 13 [flags h] (proj1 F2)) as (m3 & E3 & F3); [simpl; lia|].
  destruct (store_fills m3 p n _ 14 [0; window h / 256; window h mod 256; 0; 0; 0] (proj1 F3))
    as (m4 & E4 & F4); [simpl; lia|].
  exists m4. split.
  - repeat (eapply bind_run; [eassumption|]). exact E4.
  - pose proof (fills_trans _ _ _ _ _ _ _ (fills_trans _ _ _ _ _ _ _
      (fills_trans _ _ _ _ _ _ _ F1 F2) F3) F4) as F.
    replace (splice 0 (header_bytes h) old) with
      (splice 14 [0; window h / 256; window h mod 256; 0; 0; 0] (splice 13 [flags h]
        (splice 12 [80] (splice 0 (take 12 (be_bytes 2 (source_port h) ++
          be_bytes 2 (dest_port h) ++ be_bytes 4 (seq_num h) ++ be_bytes 4 (ack_num h) ++
          [5; flags h; 0; window h / 256; window h mod 256; 0; 0; 0; 0])) old)))); [done|].
    apply read_bytes_length in Hr. subst n.
    do 20 (destruct old as [|? old]; [simpl in Hn; lia|]). done.
Qed.

(** Storing the checksum over a buffer whose first [k] bytes are the frame. *)
Lemma emit_checksum_fills m p n k bs rest sip dip :
  read_bytes m p n = Some (bs ++ rest) -> length bs = k -> (18 <= k)%nat ->
  bytes bs -> Z.of_nat k <= 65536 ->
  exists m', emit_checksum p k sip dip m = Some (tt, m') /\
    let c := 65535 - ones_residue (pseudo_sum tcp_proto_word (Z.of_nat k) sip dip + word_total bs) in
    fills m p n (splice 16 [c / 256; c mod 256] bs ++ rest) m'.
Proof.
  intros Hr Hk H18 Hb Hlen. set (c := 65535 - _).
  assert (in_width 16 c) as Hc.
  { unfold c. pose proof (pseudo_sum_range tcp_proto_word (Z.of_nat k) sip dip) as Hp.
    change (ntohs tcp_proto_word) with 1536 in Hp.
    pose proof (word_total_nonneg bs Hb).
    pose proof (ones_residue_range (pseudo_sum tcp_proto_word (Z.of_nat k) sip dip + word_total bs)).
    unfold in_width. lia. }
  pose proof (read_bytes_length _ _ _ _ Hr) as Hn. rewrite length_app in Hn.
  destruct (store_fills m p n (bs ++ rest) 16 [c / 256; c mod 256] Hr) as (m' & E & F).
  { simpl. lia. }
  exists m'. split.
  - unfold emit_checksum. eapply bind_run.
    + unfold calculate_checksum. eapply bind_run.
      * apply load_run. rewrite <- (Z.add_0_r p). apply (read_bytes_sub _ _ _ _ 0 k Hr). lia.
      * unfold lift, calculate_checksum_bytes. rewrite drop_0, take_app_length' by done.
        rewrite checksum_of_spec by (done || lia). rewrite Hk. reflexivity.
    + rewrite le_bytes_htons by done. exact E.
  - cbv zeta. replace (splice 16 [c / 256; c mod 256] bs ++ rest)
      with (splice 16 [c / 256; c mod 256] (bs ++ rest)); [done|].
    unfold splice. rewrite take_app_le, drop_app_le by (simpl; lia).
    by rewrite <- !app_assoc.
Qed.

(** The wire format spelled out. *)
Lemma wire_eq h payload sip dip :
  wire h payload sip dip =
    be_bytes 2 h.(source_port) ++ be_bytes 2 h.(dest_port) ++ be_bytes 4 h.(seq_num) ++
    be_bytes 4 h.(ack_num) ++
    [80; h.(flags); 0; h.(window) / 256; frame_checksum h payload sip dip / 256;
     frame_checksum h payload sip dip mod 256; 0; 0] ++ payload.
Proof. reflexivity. Qed.

Lemma length_wire h payload sip dip :
  length (wire h payload sip dip) = (20 + length payload)%nat.
Proof. rewrite wire_eq, !length_app, !length_be_bytes. reflexivity. Qed.

Lemma frame_checksum_range h payload sip dip :
  plain_header h -> bytes payload -> in_width 16 (frame_checksum h payload sip dip).
Proof.
  intros Hh Hb. unfold frame_checksum.
  pose proof (pseudo_sum_range tcp_proto_word
    (Z.of_nat (length (header_bytes h ++ payload))) sip dip) as Hp.
  change (ntohs tcp_proto_word) with 1536 in Hp.
  pose proof (word_total_nonneg (header_bytes h ++ payload)
    (Forall_app_2 _ _ _ (header_bytes_bytes h Hh) Hb)).
  match goal with |- in_width 16 (65535 - ones_residue ?s) =>
    pose proof (ones_residue_range s) end.
  unfold in_width. lia.
Qed.

Lemma wire_bytes h payload sip dip :
  plain_header h -> bytes payload -> bytes (wire h payload sip dip).
Proof.
  intros Hh Hb. pose proof (frame_checksum_range h payload sip dip Hh Hb).
  apply Forall_splice; [auto 6 with usn|]. apply Forall_app_2; [by apply header_bytes_bytes|done].
Qed.

(** The common tail of the four builders without a payload. *)
Lemma emit_bare h m p sip dip :
  plain_header h -> valid m p 20 ->
  exists m', (emit_header p (to_network_order h) ;; emit_checksum p 20 sip dip ;;
              mret (Packet_new p kHeaderLen 0)) m = Some (Packet_new p 20 0, m') /\
    fills m p 20 (wire h [] sip dip) m'.
Proof.
  intros Hh [old Hr]%read_bytes_valid.
  destruct (emit_header_fills h m p 20 old Hh Hr) as (m1 & E1 & F1); [lia|].
  destruct (emit_checksum_fills m1 p 20 20 (header_bytes h) [] sip dip) as (m2 & E2 & F2).
  - rewrite app_nil_r. destruct F1 as [-> _]. f_equal.
    unfold splice. rewrite take_0, length_header_bytes, drop_ge, app_nil_r; [done|].
    by rewrite (read_bytes_length _ _ _ _ Hr).
  - apply length_header_bytes.
  - lia.
  - by apply header_bytes_bytes.
  - lia.
  - exists m2. split.
    + eapply bind_run; [exact E1|]. eapply bind_run; [exact E2|]. done.
    + eapply fills_trans; [exact F1|]. unfold wire, frame_checksum.
      rewrite !app_nil_r, length_header_bytes in *. exact F2.
Qed.

Definition conn_header (c : TcpConnection) (seq ack fl : Z) : TcpHeader :=
  mkTcpHeader c.(local_port) c.(remote_port) seq ack 5 0 fl c.(window_size) 0 0.
Definition syn_header (sp dp seq : Z) : TcpHeader := mkTcpHeader sp dp seq 0 5 0 2 65535 0 0.

Lemma conn_header_plain c seq ack fl :
  conn_ok c -> in_width 32 seq -> in_width 32 ack -> in_width 8 fl ->
  plain_header (conn_header c seq ack fl).
Proof. intros [] ? ? ?. by split. Qed.

Lemma create_syn_fills sp dp sip dip seq m p :
  in_width 16 sp -> in_width 16 dp -> in_width 32 seq -> valid m p 20 ->
  exists m', create_syn sp dp sip dip seq p m = Some (Packet_new p 20 0, m') /\
    fills m p 20 (wire (syn_header sp dp seq) [] sip dip) m'.
Proof. intros. apply emit_bare; [|done]. split; simpl; auto with usn. Qed.

Lemma create_syn_ack_fills c seq ack m p :
  conn_ok c -> in_width 32 seq -> in_width 32 ack -> valid m p 20 ->
  exists m', create_syn_ack c seq ack p m = Some (Packet_new p 20 0, m') /\
    fills m p 20 (wire (conn_header c seq ack 18) [] c.(local_ip) c.(remote_ip)) m'.
Proof. intros. apply (emit_bare (conn_header c seq ack 18)); [|done]. apply conn_header_plain; auto with usn. Qed.

Lemma create_ack_fills c ack m p :
  conn_ok c -> in_width 32 ack -> valid m p 20 ->
  exists m', create_ack c ack p m = Some (Packet_new p 20 0, m') /\
    fills m p 20 (wire (conn_header c c.(send_seq) ack 16) [] c.(local_ip) c.(remote_ip)) m'.
Proof.
  intros Hc ? ?. apply (emit_bare (conn_header c c.(send_seq) ack 16)); [|done].
  apply conn_header_plain; auto with usn. apply Hc.
Qed.

Lemma create_fin_fills c m p :
  conn_ok c -> valid m p 20 ->
  exists m', create_fin c p m = Some (Packet_new p 20 0, m') /\
    fills m p 20 (wire (conn_header c c.(send_seq) c.(recv_seq) 17) []
                       c.(local_ip) c.(remote_ip)) m'.
Proof.
  intros Hc ?. apply (emit_bare (conn_header c c.(send_seq) c.(recv_seq) 17)); [|done].
  apply conn_header_plain; auto with usn; apply Hc.
Qed.

(** [create_data] with a payload that does not overlap the frame buffer. *)
Lemma create_data_fills c d n m p payload :
  conn_ok c -> valid m p (20 + n) -> read_bytes m d n = Some payload -> bytes payload ->
  Z.of_nat n <= 65516 ->
  (p + Z.of_nat (20 + n) <= d \/ d + Z.of_nat n <= p) ->
  exists m', create_data c d n p m = Some (Packet_new p (20 + Z.of_nat n) 0, m') /\
    fills m p (20 + n) (wire (conn_header c c.(send_seq) c.(recv_seq) 24) payload
                             c.(local_ip) c.(remote_ip)) m'.
Proof.
  intros Hc [old Hr]%read_bytes_valid Hd Hb Hn Hdis.
  pose proof (read_bytes_length _ _ _ _ Hd) as Hpl.
  pose proof (read_bytes_length _ _ _ _ Hr) as Hol.
  set (h := conn_header c c.(send_seq) c.(recv_seq) 24).
  assert (plain_header h) as Hh by (apply conn_header_plain; auto with usn; apply Hc).
  destruct (emit_header_fills h m p (20 + n) old Hh Hr) as (m1 & E1 & F1); [lia|].
  destruct (store_fills m1 p (20 + n) _ 20 payload (proj1 F1)) as (m2 & E2 & F2); [lia|].
  destruct (emit_checksum_fills m2 p (20 + n) (20 + n) (header_bytes h ++ payload) []
              c.(local_ip) c.(remote_ip)) as (m3 & E3 & F3).
  - destruct F2 as [-> _]. f_equal. rewrite app_nil_r.
    unfold splice at 2. rewrite take_0. cbn [app].
    unfold splice. rewrite take_app_length' by (by rewrite length_header_bytes).
    rewrite drop_ge by (rewrite length_app, length_drop, length_header_bytes; lia).
    by rewrite app_nil_r.
  - by rewrite length_app, length_header_bytes, Hpl.
  - lia.
  - apply Forall_app. split; [by apply header_bytes_bytes|done].
  - lia.
  - exists m3. split.
    + eapply bind_run; [exact E1|]. eapply bind_run.
      { apply load_run. rewrite (fills_outside _ _ _ _ _ d n F1); [exact Hd|lia]. }
      eapply bind_run; [exact E2|]. eapply bind_run; [exact E3|].
      unfold mret, M_ret. by replace (Z.of_nat (20 + n)) with (20 + Z.of_nat n) by lia.
    + eapply fills_trans; [exact F1|]. eapply fills_trans; [exact F2|].
      unfold wire, frame_checksum. cbv zeta in F3. rewrite app_nil_r in F3.
      rewrite length_app, length_header_bytes, Hpl. exact F3.
Qed.

(** ** Parsing *)

(** What [parse] extracts from the first twenty bytes. *)
Definition parsed_header (bs : list Z) : TcpHeader :=
  to_host_order (mkTcpHeader (field bs 0 2) (field bs 2 2) (field bs 4 4) (field bs 8 4)
    (Z.land (Z.shiftr (field bs 12 1) 4) 15) 0
    (Z.lor (u16 (Z.shiftl (Z.land (field bs 12 1) 15) 8)) (field bs 13 1))
    (field bs 15 2) (field bs 17 2) (field bs 19 1)).

Lemma parse_run packet out m bs :
  kHeaderLen <= packet.(len) -> read_bytes m packet.(data) 20 = Some bs ->
  parse packet out m =
    let header := parsed_header bs in
    let header_len := header.(data_offset) * 4 in
    if (header_len <? kHeaderLen) || (packet.(len) <? header_len)
    then Some ((false, mkParsed header out.(p_payload) out.(p_payload_len)), m)
    else Some ((true, mkParsed header (packet.(data) + header_len)
                               (packet.(len) - header_len)), m).
Proof.
  intros Hlen Hr. unfold parse. destruct (Z.ltb_spec (len packet) kHeaderLen); [lia|].
  pose proof (read_bytes_length _ _ _ _ Hr) as Hl.
  pose proof (read_bytes_sub _ _ _ _ 0 12 Hr ltac:(lia)) as H0. rewrite Z.add_0_r in H0.
  pose proof (read_bytes_sub _ _ _ _ 14 6 Hr ltac:(lia)) as H14.
  pose proof (read_bytes_sub _ _ _ _ 12 1 Hr ltac:(lia)) as H12.
  pose proof (read_bytes_sub _ _ _ _ 13 1 Hr ltac:(lia)) as H13.
  do 4 (eapply bind_run; [apply load_run; eassumption|]).
  do 20 (destruct bs as [|? bs]; [discriminate Hl|]). destruct bs; [|discriminate Hl].
  cbv zeta. case_match eqn:E; unfold parsed_header in *; cbn in *.
  - case_match; [done|]. congruence.
  - case_match; [congruence|done].
Qed.

Lemma parse_short packet out m :
  packet.(len) < kHeaderLen -> parse packet out m = Some ((false, out), m).
Proof. intros. unfold parse. by destruct (Z.ltb_spec (len packet) kHeaderLen); [|lia]. Qed.

(** ** The five builders together *)
Inductive frame : Type :=
  | FSyn (sp dp sip dip seq : Z)
  | FSynAck (c : TcpConnection) (seq ack : Z)
  | FAck (c : TcpConnection) (ack : Z)
  | FData (c : TcpConnection) (d : ptr) (payload : list Z)
  | FFin (c : TcpConnection).

Definition build (f : frame) (out_buffer : ptr) : M Packet :=
  match f with
  | FSyn sp dp sip dip seq => create_syn sp dp sip dip seq out_buffer
  | FSynAck c seq ack => create_syn_ack c seq ack out_buffer
  | FAck c ack => create_ack c ack out_buffer
  | FData c d payload => create_data c d (length payload) out_buffer
  | FFin c => create_fin c out_buffer
  end.

Definition frame_header (f : frame) : TcpHeader :=
  match f with
  | FSyn sp dp _ _ seq => syn_header sp dp seq
  | FSynAck c seq ack => conn_header c seq ack 18
  | FAck c ack => conn_header c c.(send_seq) ack 16
  | FData c _ _ => conn_header c c.(send_seq) c.(recv_seq) 24
  | FFin c => conn_header c c.(send_seq) c.(recv_seq) 17
  end.

Definition frame_payload (f : frame) : list Z :=
  match f with FData _ _ payload => payload | _ => [] end.

Definition frame_src (f : frame) : Z :=
  match f with
  | FSyn _ _ sip _ _ => sip
  | FSynAck c _ _ | FAck c _ | FData c _ _ | FFin c => c.(local_ip)
  end.
Definition frame_dst (f : frame) : Z :=
  match f with
  | FSyn _ _ _ dip _ => dip
  | FSynAck c _ _ | FAck c _ | FData c _ _ | FFin c => c.(remote_ip)
  end.

(** The caller's obligations: field widths, a live output buffer, and for
    [create_data] a live payload that does not overlap it. *)
Definition frame_ok (f : frame) (m : mem) (p : ptr) : Prop :=
  plain_header (frame_header f) /\ valid m p (20 + length (frame_payload f)) /\
  match f with
  | FSyn _ _ _ _ _ => True
  | FSynAck c _ _ | FAck c _ | FFin c => conn_ok c
  | FData c d payload =>
      conn_ok c /\ read_bytes m d (length payload) = Some payload /\ bytes payload /\
      Z.of_nat (length payload) <= 65516 /\
      (p + Z.of_nat (20 + length payload) <= d \/ d + Z.of_nat (length payload) <= p)
  end.

Definition frame_wire (f : frame) : list Z :=
  wire (frame_header f) (frame_payload f) (frame_src f) (frame_dst f).

Lemma build_fills f m p :
  frame_ok f m p ->
  exists m', build f p m = Some (Packet_new p (20 + Z.of_nat (length (frame_payload f))) 0, m') /\
    fills m p (20 + length (frame_payload f)) (frame_wire f) m'.
Proof.
  intros (Hh & Hv & Hf). destruct Hh. destruct f; cbn in *.
  - by apply create_syn_fills.
  - by apply create_syn_ack_fills.
  - by apply create_ack_fills.
  - destruct Hf as (? & ? & ? & ? & ?). by apply create_data_fills.
  - by apply create_fin_fills.
Qed.

Lemma frame_payload_bytes f m p : frame_ok f m p -> bytes (frame_payload f).
Proof. intros (_ & _ & H). destruct f; simpl; try constructor. apply H. Qed.

(** The header a receiver reconstructs from a frame with checksum [c]: the low
    byte of the window is the checksum's high byte, and the checksum's low byte
    is read as its high byte. *)
Definition received (h : TcpHeader) (c : Z) : TcpHeader :=
  mkTcpHeader h.(source_port) h.(dest_port) h.(seq_num) h.(ack_num) 5 0 h.(flags)
    (256 * (h.(window) / 256) + c / 256) (256 * (c mod 256)) 0.

Lemma parsed_header_parts s d q a b12 b13 b14 b15 b16 b17 b18 b19 :
  length s = 2%nat -> length d = 2%nat -> length q = 4%nat -> length a = 4%nat ->
  parsed_header (s ++ d ++ q ++ a ++ [b12; b13; b14; b15; b16; b17; b18; b19]) =
    mkTcpHeader (ntohs (le_val s)) (ntohs (le_val d)) (ntohl (le_val q)) (ntohl (le_val a))
      (Z.land (Z.shiftr (le_val [b12]) 4) 15) 0
      (Z.lor (u16 (Z.shiftl (Z.land (le_val [b12]) 15) 8)) (le_val [b13]))
      (ntohs (le_val [b15; b16])) (ntohs (le_val [b17; b18])) (ntohs (le_val [b19])).
Proof.
  intros. destruct s as [|? [|? []]]; try done. destruct d as [|? [|? []]]; try done.
  destruct q as [|? [|? [|? [|? []]]]]; try done.
  destruct a as [|? [|? [|? [|? []]]]]; try done.
Qed.

Lemma drop_wire h payload sip dip : drop 20 (wire h payload sip dip) = payload.
Proof. rewrite wire_eq. cbn -[Z.div Z.modulo]. reflexivity. Qed.

Lemma take_wire h payload sip dip :
  take 20 (wire h payload sip dip) =
    be_bytes 2 h.(source_port) ++ be_bytes 2 h.(dest_port) ++ be_bytes 4 h.(seq_num) ++
    be_bytes 4 h.(ack_num) ++
    [80; h.(flags); 0; h.(window) / 256; frame_checksum h payload sip dip / 256;
     frame_checksum h payload sip dip mod 256; 0; 0].
Proof.
  rewrite wire_eq, !app_assoc.
  match goal with |- context [?l ++ payload] =>
    match l with context [be_bytes] =>
      change (take 20 (l ++ payload) = l); apply take_app_length' end end.
  by rewrite !length_app, !length_be_bytes.
Qed.

Lemma parsed_wire h payload sip dip :
  plain_header h -> bytes payload ->
  parsed_header (take 20 (wire h payload sip dip)) =
    received h (frame_checksum h payload sip dip).
Proof.
  intros Hh Hb. pose proof (frame_checksum_range h payload sip dip Hh Hb) as Hc.
  rewrite take_wire. set (c := frame_checksum h payload sip dip) in *. clearbody c.
  destruct Hh. rewrite parsed_header_parts by apply length_be_bytes.
  rewrite !le_val_be_bytes. fold (htons (source_port h)) (htons (dest_port h)).
  fold (htonl (seq_num h)) (htonl (ack_num h)).
  rewrite !ntohs_htons, !ntohl_htonl by done.
  rewrite (ntohs_pair (window h / 256)) by auto with usn.
  rewrite (ntohs_pair (c mod 256) 0) by auto with usn.
  unfold received. f_equal.
  - cbn [le_val]. change (u16 _) with 0. rewrite Z.lor_0_l. lia.
  - lia.
Qed.

Lemma parse_wire_run f p out m' :
  plain_header (frame_header f) -> bytes (frame_payload f) ->
  read_bytes m' p (20 + length (frame_payload f)) = Some (frame_wire f) ->
  parse (Packet_new p (20 + Z.of_nat (length (frame_payload f))) 0) out m' =
      Some ((true, mkParsed
        (received (frame_header f)
          (frame_checksum (frame_header f) (frame_payload f) (frame_src f) (frame_dst f)))
        (p + 20) (Z.of_nat (length (frame_payload f)))), m').
Proof.
  intros Hf Hb Hr.
  pose proof (read_bytes_sub _ _ _ _ 0 20 Hr ltac:(lia)) as H20. rewrite Z.add_0_r, drop_0 in H20.
  erewrite parse_run; [|cbn; unfold kHeaderLen; lia|exact H20].
  unfold frame_wire. rewrite parsed_wire by done.
  cbv zeta. cbn [received data_offset len data Packet_new].
  destruct (Z.ltb_spec (5 * 4) kHeaderLen); [unfold kHeaderLen in *; lia|].
  destruct (Z.ltb_spec (20 + Z.of_nat (length (frame_payload f))) (5 * 4)); [lia|].
  cbn [orb]. repeat f_equal. lia.
Qed.

(** C7: Every frame the library builds parses back: [parse] accepts it, finds the
    payload right behind the header with the right length and bytes, and
    recovers ports, sequence and acknowledgment numbers and flags exactly; the
    window and checksum fields come back as [received] says. *)
Theorem build_parse_roundtrip f m p out :
  frame_ok f m p ->
  exists m', build f p m = Some (Packet_new p (20 + Z.of_nat (length (frame_payload f))) 0, m') /\
    parse (Packet_new p (20 + Z.of_nat (length (frame_payload f))) 0) out m' =
      Some ((true, mkParsed
        (received (frame_header f)
          (frame_checksum (frame_header f) (frame_payload f) (frame_src f) (frame_dst f)))
        (p + 20) (Z.of_nat (length (frame_payload f)))), m') /\
    read_bytes m' (p + 20) (length (frame_payload f)) = Some (frame_payload f).
Proof.
  intros Hf. destruct (build_fills f m p Hf) as (m' & E & Hr & _).
  exists m'. split; [done|].
  pose proof (read_bytes_sub _ _ _ _ 20 (length (frame_payload f)) Hr ltac:(lia)) as Hp.
  split.
  - apply parse_wire_run; [apply Hf|by eapply frame_payload_bytes|done].
  - change (Z.of_nat 20) with 20 in Hp. rewrite Hp. f_equal. unfold frame_wire.
    rewrite drop_wire. apply take_ge. lia.
Qed.

(** ** Checksum validation *)

Lemma validate_run packet sip dip m bs :
  packet.(data) <> nullptr -> kHeaderLen <= packet.(len) <= 65536 ->
  read_bytes m packet.(data) (Z.to_nat packet.(len)) = Some bs -> bytes bs ->
  validate_checksum packet sip dip m =
    Some (ntohs (field bs 16 2) =?
          65535 - ones_residue (pseudo_sum tcp_proto_word packet.(len) sip dip
                                + word_total (splice 16 [0; 0] bs)), m).
Proof.
  intros Hd [Hl Hu] Hr Hb. pose proof (read_bytes_length _ _ _ _ Hr) as Hlen.
  unfold kHeaderLen in Hl. unfold validate_checksum.
  destruct (Z.eqb_spec (data packet) nullptr); [done|].
  destruct (Z.ltb_spec (len packet) kHeaderLen); [unfold kHeaderLen in *; lia|]. cbn [orb].
  eapply bind_run; [by apply load_run|].
  assert (length (splice 16 [0; 0] bs) = length bs) as Hs by (apply length_splice; simpl; lia).
  eapply bind_run.
  - unfold lift, calculate_checksum_bytes. rewrite checksum_of_spec; [reflexivity| |lia].
    apply Forall_splice; auto with usn.
  - unfold mret, M_ret. rewrite Hs, Hlen, Z2Nat.id by lia. reflexivity.
Qed.

Lemma wire_cleared h payload sip dip :
  splice 16 [0; 0] (wire h payload sip dip) = splice 16 [0; 0] (header_bytes h ++ payload).
Proof. reflexivity. Qed.

Lemma cleared_total h payload :
  word_total (header_bytes h ++ payload) =
    word_total (splice 16 [0; 0] (header_bytes h ++ payload)) + 256 * (h.(window) mod 256).
Proof.
  set (A := be_bytes 2 (source_port h) ++ be_bytes 2 (dest_port h) ++ be_bytes 4 (seq_num h) ++
            be_bytes 4 (ack_num h)).
  assert (splice 16 [0; 0] (header_bytes h ++ payload) =
          A ++ [80; flags h; 0; window h / 256; 0; 0; 0; 0] ++ payload) as -> by reflexivity.
  assert (header_bytes h ++ payload =
          A ++ [80; flags h; 0; window h / 256; window h mod 256; 0; 0; 0] ++ payload)
    as -> by reflexivity.
  assert (Nat.Even (length A)).
  { unfold A. rewrite !length_app, !length_be_bytes. by apply Nat.even_spec. }
  rewrite !(word_total_app A) by done. cbn [word_total app]. lia.
Qed.

(** A frame fresh from any builder passes [validate_checksum] exactly when the
    low byte of its advertised window is zero: the builders sum the window's low
    byte at offset 16, which the checksum then overwrites.  The default window
    65535, which [create_syn] always uses, never validates. *)
Theorem build_validates_iff f m p :
  frame_ok f m p -> p <> nullptr ->
  exists m', build f p m = Some (Packet_new p (20 + Z.of_nat (length (frame_payload f))) 0, m') /\
    validate_checksum (Packet_new p (20 + Z.of_nat (length (frame_payload f))) 0)
      (frame_src f) (frame_dst f) m' =
    Some ((frame_header f).(window) mod 256 =? 0, m').
Proof.
  intros Hf Hp. destruct (build_fills f m p Hf) as (m' & E & Hr & _).
  exists m'. split; [done|]. pose proof (frame_payload_bytes f m p Hf) as Hpb.
  destruct Hf as (Hh & _ & Hf).
  assert (Z.of_nat (length (frame_payload f)) <= 65516) as Hlen.
  { destruct f; cbn [frame_payload length]; lia. }
  assert (in_width 16 (frame_checksum (frame_header f) (frame_payload f) (frame_src f) (frame_dst f)))
    as Hc by (by apply frame_checksum_range).
  erewrite validate_run; [|done|cbn; unfold kHeaderLen; lia| |].
  2:{ cbn [len data Packet_new]. rewrite Z2Nat.inj_add, Nat2Z.id by lia. exact Hr. }
  2:{ by apply wire_bytes. }
  f_equal. f_equal. cbn [len Packet_new]. unfold frame_wire. rewrite wire_cleared.
  assert (field (wire (frame_header f) (frame_payload f) (frame_src f) (frame_dst f)) 16 2 =
    le_val [frame_checksum (frame_header f) (frame_payload f) (frame_src f) (frame_dst f) / 256;
            frame_checksum (frame_header f) (frame_payload f) (frame_src f) (frame_dst f) mod 256])
    as -> by reflexivity.
  rewrite ntohs_pair by auto with usn. rewrite <- Z.div_mod by lia.
  unfold frame_checksum. rewrite cleared_total, length_app, length_header_bytes.
  replace (Z.of_nat (20 + length (frame_payload f))) with (20 + Z.of_nat (length (frame_payload f))) by lia.
  set (h := frame_header f) in *. set (P := pseudo_sum _ _ _ _).
  set (T := word_total (splice _ _ _)).
  assert (0 < P) as HP.
  { pose proof (pseudo_sum_range tcp_proto_word (20 + Z.of_nat (length (frame_payload f)))
      (frame_src f) (frame_dst f)) as Hr'. change (ntohs tcp_proto_word) with 1536 in Hr'.
    unfold P. lia. }
  assert (0 <= T) as HT.
  { apply word_total_nonneg, Forall_splice; [auto with usn|].
    apply Forall_app_2; [by apply header_bytes_bytes|done]. }
  pose proof (Z.mod_pos_bound (window h) 256 ltac:(lia)) as Hw.
  destruct (Z.eqb_spec (window h mod 256) 0) as [->|Hne].
  { apply Z.eqb_eq. do 3 f_equal. lia. }
  apply Z.eqb_neq. intros Heq.
  assert (ones_residue (P + (T + 256 * (window h mod 256))) = ones_residue (P + T)) as H by lia.
  apply ones_residue_eq in H; [|lia..].
  assert ((256 * (window h mod 256)) mod 65535 = 0) as H0.
  { replace (256 * (window h mod 256)) with (P + (T + 256 * (window h mod 256)) - (P + T)) by lia.
    by rewrite Zminus_mod, H, Z.sub_diag. }
  rewrite Z.mod_small in H0; lia.
Qed.

(** [parse] never leaves the packet: given twenty readable header bytes (none
    when the packet is shorter) it is defined on every packet; when it accepts,
    header and payload tile the packet exactly and the data offset is at least
    five words, and when it rejects, the payload outputs are untouched. *)
Theorem parse_bounds packet out m :
  (kHeaderLen <= packet.(len) -> valid m packet.(data) 20) ->
  exists ok o, parse packet out m = Some ((ok, o), m) /\
    if ok then
      5 <= o.(p_header).(data_offset) <= 15 /\
      o.(p_payload) = packet.(data) + 4 * o.(p_header).(data_offset) /\
      packet.(data) + kHeaderLen <= o.(p_payload) /\ 0 <= o.(p_payload_len) /\
      o.(p_payload) + o.(p_payload_len) = packet.(data) + packet.(len)
    else
      o.(p_payload) = out.(p_payload) /\ o.(p_payload_len) = out.(p_payload_len) /\
      (packet.(len) < kHeaderLen -> o = out).
Proof.
  intros Hv. destruct (Z.lt_ge_cases (len packet) kHeaderLen) as [Hs|Hl].
  { exists false, out. split; [by apply parse_short|done]. }
  destruct (proj1 (read_bytes_valid m (data packet) 20) (Hv Hl)) as [bs Hr].
  rewrite (parse_run packet out m bs Hl Hr). cbv zeta.
  assert (0 <= data_offset (parsed_header bs) <= 15).
  { unfold parsed_header, to_host_order. cbn [data_offset].
    rewrite land_15. pose proof (Z.mod_pos_bound (Z.shiftr (field bs 12 1) 4) 16). lia. }
  destruct (Z.ltb_spec (data_offset (parsed_header bs) * 4) kHeaderLen).
  { do 2 eexists. split; [done|]. cbn. split_and!; [done|done|lia]. }
  destruct (Z.ltb_spec (len packet) (data_offset (parsed_header bs) * 4)).
  { do 2 eexists. split; [done|]. cbn. split_and!; [done|done|lia]. }
  do 2 eexists. split; [done|]. cbn [p_header p_payload p_payload_len].
  unfold kHeaderLen in *. lia.
Qed.

(** C14: [parse_and_validate] accepts a packet only when its header length is
    legal, SYN and FIN are not both set, and the stored checksum matches the
    recomputed one; conversely such a packet is accepted. *)
Theorem parse_and_validate_iff packet sip dip out m bs :
  packet.(data) <> nullptr -> kHeaderLen <= packet.(len) <= 65536 ->
  read_bytes m packet.(data) (Z.to_nat packet.(len)) = Some bs -> bytes bs ->
  exists ok o, parse_and_validate packet sip dip out m = Some ((ok, o), m) /\
    (ok = true <->
      5 <= Z.shiftr (field bs 12 1) 4 /\ 4 * Z.shiftr (field bs 12 1) 4 <= packet.(len) /\
      (Z.testbit (field bs 13 1) 1 && Z.testbit (field bs 13 1) 0) = false /\
      ntohs (field bs 16 2) =
        65535 - ones_residue (pseudo_sum tcp_proto_word packet.(len) sip dip
                              + word_total (splice 16 [0; 0] bs))).
Proof.
  intros Hd Hl Hr Hb. pose proof (read_bytes_length _ _ _ _ Hr) as Hlen.
  assert (20 <= length bs)%nat as H20 by (unfold kHeaderLen in Hl; lia).
  pose proof (read_bytes_sub _ _ _ _ 0 20 Hr ltac:(lia)) as Hr20.
  rewrite Z.add_0_r, drop_0 in Hr20.
  pose proof (parse_run packet out m _ (proj1 Hl) Hr20) as Hp. cbv zeta in Hp.
  set (ph := parsed_header (take 20 bs)) in *.
  assert (data_offset ph = Z.shiftr (field bs 12 1) 4 /\
          (forall i, 0 <= i < 8 -> has_flag i ph = Z.testbit (field bs 13 1) i)) as [Hoff Hfl].
  { do 20 (destruct bs as [|? bs]; [simpl in H20; lia|]).
    repeat match goal with H : bytes (_ :: _) |- _ => apply Forall_cons in H as [? H] end.
    unfold ph, parsed_header, to_host_order. split.
    - cbn [data_offset]. rewrite land_15.
      unfold field; cbn [take drop le_val]. rewrite Z.mul_0_r, Z.add_0_r.
      apply Z.mod_small. rewrite Z.shiftr_div_pow2 by lia. unfold in_width in *.
      split; [apply Z.div_pos; lia|apply Z.div_lt_upper_bound; lia].
    - intros i Hi. unfold has_flag. cbn [flags]. rewrite land_bit_eqb, negb_involutive by lia.
      by apply lor_high_low. }
  unfold parse_and_validate, mbind, M_bind. rewrite Hp, Hoff.
  pose proof (validate_run packet sip dip m bs Hd Hl Hr Hb) as Hval.
  assert (is_malformed_header ph = (Z.shiftr (field bs 12 1) 4 <? 5) ||
     (Z.testbit (field bs 13 1) 1 && Z.testbit (field bs 13 1) 0)) as Hmal.
  { unfold is_malformed_header, has_syn, has_fin. rewrite Hoff, !Hfl by lia.
    by destruct (_ <? 5). }
  unfold kHeaderLen in *.
  destruct (Z.ltb_spec (Z.shiftr (field bs 12 1) 4 * 4) 20).
  { do 2 eexists. split; [reflexivity|]. split; [done|lia]. }
  destruct (Z.ltb_spec (len packet) (Z.shiftr (field bs 12 1) 4 * 4)).
  { do 2 eexists. split; [reflexivity|]. split; [done|lia]. }
  cbn [orb negb p_header]. rewrite Hmal.
  destruct (Z.ltb_spec (Z.shiftr (field bs 12 1) 4) 5); [lia|]. cbn [orb].
  destruct (_ && _).
  { do 2 eexists. split; [reflexivity|]. split; [done|by intros (_ & _ & ? & _)]. }
  rewrite Hval. do 2 eexists. split; [reflexivity|]. rewrite Z.eqb_eq.
  split; [intros; split_and!; (done || lia)|by intros (_ & _ & _ & ?)].
Qed.

(** On the byte level: the stored field and the sum cannot both change so that
    they agree again. *)
Lemma checksum_equation_unique bs n b b' len sip dip :
  bytes bs -> byte b' -> 20 <= Z.of_nat (length bs) <= 65536 -> bs !! n = Some b -> b' <> b ->
  let calc bs := 65535 - ones_residue (pseudo_sum tcp_proto_word len sip dip
                                       + word_total (splice 16 [0; 0] bs)) in
  ntohs (field bs 16 2) = calc bs -> ntohs (field (<[n := b']> bs) 16 2) <> calc (<[n := b']> bs).
Proof.
  intros Hb Hb' Hlen Hbn Hne calc Hv. unfold calc in *. pose proof (lookup_lt_Some _ _ _ Hbn) as Hn.
  destruct (lookup_lt_is_Some_2 bs 16) as [x Hx]; [lia|].
  destruct (lookup_lt_is_Some_2 bs 17) as [y Hy]; [lia|].
  pose proof (Forall_lookup_1 _ _ _ _ Hb Hx) as Hxb. pose proof (Forall_lookup_1 _ _ _ _ Hb Hy) as Hyb.
  pose proof (Forall_lookup_1 _ _ _ _ Hb Hbn) as Hbb.
  assert (Hcl : bytes (splice 16 [0; 0] bs)) by (apply Forall_splice; auto with usn).
  pose proof (word_total_nonneg _ Hcl) as HT.
  pose proof (pseudo_sum_range tcp_proto_word len sip dip) as HP.
  change (ntohs tcp_proto_word) with 1536 in HP.
  destruct (decide (16 <= n < 18)%nat) as [Hin|Hout].
  - rewrite splice_insert_in by (simpl; lia). rewrite <- Hv.
    rewrite (field_pair bs 16 x y), ntohs_pair by done.
    assert (n = 16 \/ n = 17)%nat as [E|E] by lia; rewrite E in *.
    + rewrite (field_pair _ 16 b' y) by (rewrite ?list_lookup_insert_eq, ?list_lookup_insert_ne by lia; done).
      rewrite ntohs_pair by done. rewrite Hx in Hbn. injection Hbn as ->. lia.
    + rewrite (field_pair _ 16 x b') by (rewrite ?list_lookup_insert_eq, ?list_lookup_insert_ne by lia; done).
      rewrite ntohs_pair by done. rewrite Hy in Hbn. injection Hbn as ->. lia.
  - rewrite splice_insert_out by (simpl; lia).
    rewrite (field_pair _ 16 x y) by (rewrite list_lookup_insert_ne by lia; done).
    rewrite (field_pair bs 16 x y) in Hv by done. rewrite Hv.
    assert (splice 16 [0; 0] bs !! n = Some b) as Hsn by (by rewrite splice_lookup_out by (simpl; lia)).
    destruct (word_total_insert _ n b b' Hsn) as (k & Hk & E). rewrite E.
    intros H. apply (ones_residue_diff (pseudo_sum tcp_proto_word len sip dip)
      (word_total (splice 16 [0; 0] bs)) k (b' - b)); unfold in_width in *; try lia.
    rewrite <- E. apply word_total_nonneg. by apply Forall_insert.
Qed.

(** Any single-byte corruption of a segment that validates is detected,
    whether it hits the header, the checksum field or the payload. *)
Theorem validate_detects_corruption packet sip dip m i b b' :
  kHeaderLen <= packet.(len) <= 65536 -> byte_mem m -> byte b' ->
  0 <= i < packet.(len) -> m !! (packet.(data) + i) = Some b -> b' <> b ->
  validate_checksum packet sip dip m = Some (true, m) ->
  validate_checksum packet sip dip (<[packet.(data) + i := b']> m) =
    Some (false, <[packet.(data) + i := b']> m).
Proof.
  intros Hl Hm Hb' Hi Hmb Hne Hv. pose proof Hl as Hl'. unfold kHeaderLen in Hl'.
  assert (packet.(data) <> nullptr) as Hd.
  { intros E. unfold validate_checksum in Hv. rewrite E in Hv. done. }
  destruct (read_bytes m packet.(data) (Z.to_nat packet.(len))) as [bs|] eqn:Hr.
  2:{ unfold validate_checksum in Hv.
      destruct (Z.eqb_spec (data packet) nullptr); [done|].
      destruct (Z.ltb_spec (len packet) kHeaderLen); [lia|]. cbn [orb] in Hv.
      unfold mbind, M_bind, load in Hv. by rewrite Hr in Hv. }
  pose proof (read_bytes_bytes _ _ _ _ Hm Hr) as Hb.
  pose proof (read_bytes_length _ _ _ _ Hr) as Hlen.
  destruct (read_bytes_insert _ _ _ _ i b' Hr) as [Hr' Hbn]; [lia|]. rewrite Hmb in Hbn.
  assert (bytes (<[Z.to_nat i := b']> bs)) as Hbi by by apply Forall_insert.
  rewrite (validate_run _ _ _ _ bs) in Hv by done.
  rewrite (validate_run _ _ _ _ (<[Z.to_nat i := b']> bs)) by done.
  injection Hv as Hv%Z.eqb_eq. f_equal. f_equal. apply Z.eqb_neq.
  eapply checksum_equation_unique; (done || lia).
Qed.

(** C39: The TCP checksum the code computes agrees with the Internet checksum of
    RFC 793 exactly on segments of odd length whose last byte is 6 (the protocol
    number): the protocol word is added byte-swapped and a trailing odd byte is
    added as a low byte. *)
Theorem tcp_checksum_rfc_iff bs sip dip :
  bytes bs -> Z.of_nat (length bs) <= 65535 ->
  calculate_checksum_bytes bs sip dip =
    Some (rfc_checksum tcp_proto_word bs (Z.of_nat (length bs)) sip dip) <->
  Nat.Odd (length bs) /\ List.last bs 0 = tcp_proto_word.
Proof.
  intros. unfold calculate_checksum_bytes.
  apply (checksum_rfc_iff tcp_proto_word bs (Z.of_nat (length bs)) sip dip);
    unfold in_width, tcp_proto_word; (lia || assumption).
Qed.

(** ** Witnesses *)
Definition demo_mem : mem := alloc (alloc ∅ 100 (replicate 24 0)) 200 [104; 105].
Definition demo_conn : TcpConnection :=
  mkTcpConnection 16777343 16777343 9101 9000 1 1 0 0 CLOSED 65535 65535 65535.
Definition demo_frame : frame := FData demo_conn 200 [104; 105].

Lemma demo_conn_ok : conn_ok demo_conn.
Proof. split; unfold in_width; simpl; lia. Qed.

Lemma demo_frame_ok : frame_ok demo_frame demo_mem 100.
Proof.
  split; [by apply conn_header_plain; [apply demo_conn_ok|unfold in_width; simpl; lia..]|].
  split; [apply read_bytes_valid; eexists; vm_compute; reflexivity|].
  split; [apply demo_conn_ok|]. split; [vm_compute; reflexivity|].
  split; [repeat apply Forall_cons_2; (apply Forall_nil_2 || (unfold in_width; lia))|].
  simpl. lia.
Qed.

Definition demo_out : Parsed := mkParsed TcpHeader_zero nullptr 0.

Lemma build_parse_roundtrip_witness :
  exists m', build demo_frame 100 demo_mem = Some (Packet_new 100 22 0, m') /\
    parse (Packet_new 100 22 0) demo_out m' =
      Some ((true, mkParsed (received (frame_header demo_frame)
        (frame_checksum (frame_header demo_frame) [104; 105] 16777343 16777343)) 120 2), m') /\
    read_bytes m' 120 2 = Some [104; 105].
Proof. exact (build_parse_roundtrip demo_frame demo_mem 100 demo_out demo_frame_ok). Defined.

Lemma build_validates_iff_witness :
  exists m', build demo_frame 100 demo_mem = Some (Packet_new 100 22 0, m') /\
    validate_checksum (Packet_new 100 22 0) 16777343 16777343 m' = Some (false, m').
Proof.
  apply (build_validates_iff demo_frame demo_mem 100 demo_frame_ok). discriminate.
Defined.

(** An ACK whose window is a multiple of 256 validates. *)
Definition demo_ack_bytes : list Z :=
  frame_wire (FAck (mkTcpConnection 16777343 16777343 9101 9000 1 1 0 0 CLOSED 65280 65535 65535) 7).
Definition demo_ack_mem : mem := alloc ∅ 100 demo_ack_bytes.

Lemma demo_ack_bytes_ok : bytes demo_ack_bytes.
Proof.
  apply wire_bytes; [|constructor].
  by split; unfold in_width; simpl; lia.
Qed.

Lemma parse_bounds_witness :
  exists ok o, parse (Packet_new 100 20 0) demo_out demo_ack_mem = Some ((ok, o), demo_ack_mem) /\
    if ok then
      5 <= o.(p_header).(data_offset) <= 15 /\
      o.(p_payload) = 100 + 4 * o.(p_header).(data_offset) /\
      100 + kHeaderLen <= o.(p_payload) /\ 0 <= o.(p_payload_len) /\
      o.(p_payload) + o.(p_payload_len) = 100 + 20
    else o.(p_payload) = nullptr /\ o.(p_payload_len) = 0 /\ (20 < kHeaderLen -> o = demo_out).
Proof.
  apply (parse_bounds (Packet_new 100 20 0) demo_out demo_ack_mem).
  intros _. apply read_bytes_valid. eexists. vm_compute. reflexivity.
Defined.

Lemma parse_and_validate_iff_witness :
  exists ok o, parse_and_validate (Packet_new 100 20 0) 16777343 16777343 demo_out demo_ack_mem =
      Some ((ok, o), demo_ack_mem) /\
    (ok = true <->
      5 <= Z.shiftr (field demo_ack_bytes 12 1) 4 /\
      4 * Z.shiftr (field demo_ack_bytes 12 1) 4 <= 20 /\
      (Z.testbit (field demo_ack_bytes 13 1) 1 && Z.testbit (field demo_ack_bytes 13 1) 0) = false /\
      ntohs (field demo_ack_bytes 16 2) =
        65535 - ones_residue (pseudo_sum tcp_proto_word 20 16777343 16777343
                              + word_total (splice 16 [0; 0] demo_ack_bytes))).
Proof.
  apply (parse_and_validate_iff (Packet_new 100 20 0)).
  - discriminate.
  - split; discriminate.
  - vm_compute. reflexivity.
  - exact demo_ack_bytes_ok.
Defined.

Lemma validate_detects_corruption_witness :
  validate_checksum (Packet_new 100 20 0) 16777343 16777343 (<[100 + 4 := 77]> demo_ack_mem) =
    Some (false, <[100 + 4 := 77]> demo_ack_mem).
Proof.
  apply (validate_detects_corruption (Packet_new 100 20 0) 16777343 16777343 demo_ack_mem 4 0 77).
  - split; discriminate.
  - apply alloc_byte_mem; [by intros ??|exact demo_ack_bytes_ok].
  - split; [discriminate|reflexivity].
  - split; [discriminate|reflexivity].
  - vm_compute. reflexivity.
  - discriminate.
  - vm_compute. reflexivity.
Defined.

Lemma tcp_checksum_rfc_iff_witness :
  calculate_checksum_bytes [1; 2; 6] 16777343 16777343 =
    Some (rfc_checksum tcp_proto_word [1; 2; 6] 3 16777343 16777343) <->
  Nat.Odd 3 /\ List.last [1; 2; 6] 0 = tcp_proto_word.
Proof.
  apply (tcp_checksum_rfc_iff [1; 2; 6]).
  - repeat apply Forall_cons_2; (apply Forall_nil_2 || (split; [discriminate|reflexivity])).
  - discriminate.
Defined.
