(* ===== verification/TcpStateMachine.v ===== *)
(** * TcpStateMachine: connection lifecycle, window updates and segment handling
    (protocol/tcp_state_machine.hpp) *)
From S2P Require Import Prelude Bytes Memory Packet TcpProtocol.

(** ** Assignments to single connection fields *)
Definition set_state (c : TcpConnection) (s : TcpState) : TcpConnection :=
  mkTcpConnection c.(local_ip) c.(remote_ip) c.(local_port) c.(remote_port) c.(send_seq)
    c.(recv_seq) c.(send_ack) c.(recv_ack) s c.(window_size) c.(recv_window) c.(peer_window).
Definition set_send_seq (c : TcpConnection) (x : Z) : TcpConnection :=
  mkTcpConnection c.(local_ip) c.(remote_ip) c.(local_port) c.(remote_port) x
    c.(recv_seq) c.(send_ack) c.(recv_ack) c.(state) c.(window_size) c.(recv_window) c.(peer_window).
Definition set_recv_seq (c : TcpConnection) (x : Z) : TcpConnection :=
  mkTcpConnection c.(local_ip) c.(remote_ip) c.(local_port) c.(remote_port) c.(send_seq)
    x c.(send_ack) c.(recv_ack) c.(state) c.(window_size) c.(recv_window) c.(peer_window).
Definition set_send_ack (c : TcpConnection) (x : Z) : TcpConnection :=
  mkTcpConnection c.(local_ip) c.(remote_ip) c.(local_port) c.(remote_port) c.(send_seq)
    c.(recv_seq) x c.(recv_ack) c.(state) c.(window_size) c.(recv_window) c.(peer_window).
Definition set_recv_ack (c : TcpConnection) (x : Z) : TcpConnection :=
  mkTcpConnection c.(local_ip) c.(remote_ip) c.(local_port) c.(remote_port) c.(send_seq)
    c.(recv_seq) c.(send_ack) x c.(state) c.(window_size) c.(recv_window) c.(peer_window).

(** [can_transition]. *)
Definition can_transition (from to : TcpState) : bool :=
  match from with
  | CLOSED => bool_decide (to = LISTEN) || bool_decide (to = SYN_SENT)
  | LISTEN => bool_decide (to = SYN_RECEIVED) || bool_decide (to = CLOSED)
  | SYN_SENT => bool_decide (to = ESTABLISHED) || bool_decide (to = CLOSED)
  | SYN_RECEIVED => bool_decide (to = ESTABLISHED) || bool_decide (to = CLOSED)
  | ESTABLISHED => bool_decide (to = FIN_WAIT_1) || bool_decide (to = CLOSE_WAIT)
  | FIN_WAIT_1 =>
      bool_decide (to = FIN_WAIT_2) || bool_decide (to = CLOSING) || bool_decide (to = TIME_WAIT)
  | FIN_WAIT_2 => bool_decide (to = TIME_WAIT)
  | CLOSE_WAIT => bool_decide (to = LAST_ACK)
  | CLOSING => bool_decide (to = TIME_WAIT)
  | LAST_ACK => bool_decide (to = CLOSED)
  | TIME_WAIT => bool_decide (to = CLOSED)
  end.

(** Operations return their [bool] with the updated connection. *)
Definition transition_state (conn : TcpConnection) (to : TcpState) : bool * TcpConnection :=
  if negb (can_transition conn.(state) to) then (false, conn) else (true, set_state conn to).

Definition initiate_close (conn : TcpConnection) : bool * TcpConnection :=
  if bool_decide (conn.(state) = ESTABLISHED) then transition_state conn FIN_WAIT_1
  else if bool_decide (conn.(state) = CLOSE_WAIT) then transition_state conn LAST_ACK
  else (false, conn).

Definition should_send_keepalive (now_ms last_activity_ms interval_ms : Z) : bool :=
  (last_activity_ms <? now_ms) && (interval_ms <=? u64 (now_ms - last_activity_ms)).

Definition create_keepalive (conn : TcpConnection) (out_buffer : ptr) : M Packet :=
  create_ack conn conn.(send_ack) out_buffer.

Definition can_send (conn : TcpConnection) (payload_len : Z) : bool :=
  payload_len <=? conn.(peer_window).

Definition on_window_update (conn : TcpConnection) (w : Z) : TcpConnection :=
  mkTcpConnection conn.(local_ip) conn.(remote_ip) conn.(local_port) conn.(remote_port)
    conn.(send_seq) conn.(recv_seq) conn.(send_ack) conn.(recv_ack) conn.(state) w
    conn.(recv_window) w.

(** The last part of [handle_incoming]: a FIN advances past the segment and
    drives the closing transitions. *)
Definition incoming_fin (conn : TcpConnection) (header : TcpHeader) (payload_len : Z)
    : bool * TcpConnection :=
  if has_fin header then
    let conn :=
      if (0 <? payload_len) && (u32 (header.(seq_num) + u32 payload_len) =? conn.(recv_seq))
      then set_recv_seq conn (u32 (conn.(recv_seq) + 1))
      else set_recv_seq conn (u32 (u32 (header.(seq_num) + u32 payload_len) + 1)) in
    let conn := set_send_ack conn conn.(recv_seq) in
    if bool_decide (conn.(state) = ESTABLISHED) then transition_state conn CLOSE_WAIT else
    if bool_decide (conn.(state) = FIN_WAIT_1) then transition_state conn CLOSING else
    if bool_decide (conn.(state) = FIN_WAIT_2) || bool_decide (conn.(state) = FIN_WAIT_1)
    then transition_state conn TIME_WAIT else (true, conn)
  else (true, conn).

(** In-order payload advances the receive sequence; an older segment is tolerated. *)
Definition incoming_payload (conn : TcpConnection) (header : TcpHeader) (payload_len : Z)
    : bool * TcpConnection :=
  if (0 <? payload_len) && (header.(seq_num) =? conn.(recv_seq)) then
    let conn := set_recv_seq conn (u32 (conn.(recv_seq) + u32 payload_len)) in
    incoming_fin (set_send_ack conn conn.(recv_seq)) header payload_len
  else if (0 <? payload_len) && (header.(seq_num) <? conn.(recv_seq)) then (true, conn)
  else incoming_fin conn header payload_len.

(** The acknowledgment part, with its early return for a non-advancing ACK. *)
Definition incoming_ack (conn : TcpConnection) (header : TcpHeader) (payload_len : Z)
    : bool * TcpConnection :=
  if has_ack header then
    if (header.(ack_num) <=? conn.(recv_ack)) && negb (has_fin header) then (true, conn) else
    let conn := set_recv_ack conn header.(ack_num) in
    if bool_decide (conn.(state) = SYN_RECEIVED) then transition_state conn ESTABLISHED else
    if bool_decide (conn.(state) = FIN_WAIT_1) then
      if has_fin header then transition_state conn TIME_WAIT else transition_state conn FIN_WAIT_2
    else if bool_decide (conn.(state) = CLOSING) then transition_state conn TIME_WAIT
    else if bool_decide (conn.(state) = LAST_ACK) then transition_state conn CLOSED
    else incoming_payload conn header payload_len
  else incoming_payload conn header payload_len.

Definition handle_incoming (conn : TcpConnection) (header : TcpHeader) (payload_len : Z)
    : bool * TcpConnection :=
  let conn := on_window_update conn header.(window) in
  if has_syn header then
    let conn := set_recv_seq conn (u32 (header.(seq_num) + 1)) in
    if bool_decide (conn.(state) = LISTEN) then
      transition_state (set_send_ack conn conn.(recv_seq)) SYN_RECEIVED
    else if bool_decide (conn.(state) = SYN_SENT) && has_ack header then
      transition_state (set_send_ack conn header.(ack_num)) ESTABLISHED
    else incoming_ack conn header payload_len
  else incoming_ack conn header payload_len.

(** ** The operations as events *)
Inductive event : Type :=
  | Incoming (h : TcpHeader) (payload_len : Z)
  | InitiateClose
  | WindowUpdate (w : Z).

Definition apply_event (e : event) (c : TcpConnection) : bool * TcpConnection :=
  match e with
  | Incoming h n => handle_incoming c h n
  | InitiateClose => initiate_close c
  | WindowUpdate w => (true, on_window_update c w)
  end.

(** Segments and windows whose fields fit their types. *)
Definition event_ok (e : event) : Prop :=
  match e with
  | Incoming h n => in_width 32 h.(seq_num) /\ in_width 32 h.(ack_num) /\
                    in_width 16 h.(window) /\ in_width 64 n
  | InitiateClose => True
  | WindowUpdate w => in_width 16 w
  end.

(** A connection evolves by events and by explicit [transition_state] calls
    (the only way out of CLOSED). *)
Inductive step : TcpConnection -> TcpConnection -> Prop :=
  | step_event e c : event_ok e -> step c (snd (apply_event e c))
  | step_transition to c : step c (snd (transition_state c to)).

(** [follows c s]: state [s] is the state of [c] or one legal edge away. *)
Definition follows (c : TcpConnection) (s : TcpState) : Prop :=
  s = c.(state) \/ can_transition c.(state) s = true.

Create HintDb conn discriminated.

(** ** Legality of every operation *)
Lemma follows_transition c0 c s :
  state c = state c0 -> follows c0 (state (snd (transition_state c s))).
Proof.
  intros E. unfold follows, transition_state. rewrite E.
  destruct (can_transition (state c0) s) eqn:H; cbn [negb snd state set_state]; auto.
Qed.

(** [accepted s r]: the operation succeeded and its state is [s] or one legal edge away. *)
Definition accepted (s : TcpState) (r : bool * TcpConnection) : Prop :=
  fst r = true /\ (state (snd r) = s \/ can_transition s (state (snd r)) = true).

Lemma accepted_same c s : state c = s -> accepted s (true, c).
Proof. intros. split; auto. Qed.

Lemma accepted_transition c s to :
  state c = s -> can_transition s to = true -> accepted s (transition_state c to).
Proof. intros E H. unfold transition_state, accepted. rewrite E, H. auto. Qed.

Lemma incoming_fin_accepted c h n s : state c = s -> accepted s (incoming_fin c h n).
Proof.
  intros <-. unfold incoming_fin. destruct (has_fin h); [|by apply accepted_same].
  match goal with |- context [set_send_ack ?c1 _] => set (c' := c1) end.
  assert (state c' = state c) as E by (unfold c'; by destruct (_ && _)). cbn zeta.
  change (state (set_send_ack c' (recv_seq c'))) with (state c').
  repeat case_bool_decide; cbn [orb]; try (by apply accepted_same);
    apply accepted_transition; try done; rewrite <- E;
    match goal with H : state c' = _ |- _ => rewrite H; reflexivity end.
Qed.

Lemma incoming_payload_accepted c h n s : state c = s -> accepted s (incoming_payload c h n).
Proof.
  intros <-. unfold incoming_payload.
  repeat case_match; first [by apply incoming_fin_accepted|by apply accepted_same].
Qed.

Lemma incoming_ack_accepted c h n s : state c = s -> accepted s (incoming_ack c h n).
Proof.
  intros <-. unfold incoming_ack. destruct (has_ack h); [|by apply incoming_payload_accepted].
  destruct (_ && _); [by apply accepted_same|]. cbn zeta.
  change (state (set_recv_ack c (ack_num h))) with (state c).
  repeat case_bool_decide; repeat case_match; try (by apply incoming_payload_accepted);
    apply accepted_transition; try done; by match goal with H : state c = _ |- _ => rewrite H end.
Qed.

Lemma handle_incoming_accepted c h n : accepted (state c) (handle_incoming c h n).
Proof.
  unfold handle_incoming. destruct (has_syn h); [|by apply incoming_ack_accepted]. cbn zeta.
  change (state (set_recv_seq (on_window_update c (window h)) (u32 (seq_num h + 1)))) with (state c).
  repeat case_bool_decide; destruct (has_ack h); cbn [andb];
    try (by apply incoming_ack_accepted);
    apply accepted_transition; try done; by match goal with H : state c = _ |- _ => rewrite H end.
Qed.

Lemma initiate_close_follows c : follows c (state (snd (initiate_close c))).
Proof.
  unfold initiate_close.
  repeat case_bool_decide; first [by apply follows_transition|by left].
Qed.

Lemma apply_event_follows e c : follows c (state (snd (apply_event e c))).
Proof.
  destruct e as [h n| |w]; cbn [apply_event snd].
  - apply handle_incoming_accepted.
  - apply initiate_close_follows.
  - by left.
Qed.

(** ** Fields fit their types *)
Lemma conn_ok_set_state c s : conn_ok c -> conn_ok (set_state c s).
Proof. by intros []. Qed.
Lemma conn_ok_set_recv_seq c x : conn_ok c -> in_width 32 x -> conn_ok (set_recv_seq c x).
Proof. by intros []. Qed.
Lemma conn_ok_set_send_ack c x : conn_ok c -> in_width 32 x -> conn_ok (set_send_ack c x).
Proof. by intros []. Qed.
Lemma conn_ok_set_recv_ack c x : conn_ok c -> in_width 32 x -> conn_ok (set_recv_ack c x).
Proof. by intros []. Qed.
Lemma conn_ok_window c w : conn_ok c -> in_width 16 w -> conn_ok (on_window_update c w).
Proof. intros [] ?. split; simpl; try done. unfold in_width in *; lia. Qed.
Lemma conn_ok_transition c s : conn_ok c -> conn_ok (snd (transition_state c s)).
Proof. intros. unfold transition_state. by destruct (negb _); [|apply conn_ok_set_state]. Qed.

Lemma u32_range x : in_width 32 (u32 x).
Proof. apply wrap_range. lia. Qed.

#[export] Hint Resolve conn_ok_set_state conn_ok_set_recv_seq conn_ok_set_send_ack
  conn_ok_set_recv_ack conn_ok_window conn_ok_transition u32_range ok_recv_seq : conn.
#[export] Hint Extern 1 (conn_ok (snd (true, _))) => cbn [snd] : conn.

Lemma conn_ok_fin c h n : conn_ok c -> conn_ok (snd (incoming_fin c h n)).
Proof.
  intros. unfold incoming_fin. destruct (has_fin h); [|done].
  destruct (_ && _); repeat case_match; cbn [snd]; eauto 10 with conn.
Qed.

Lemma conn_ok_payload c h n : conn_ok c -> conn_ok (snd (incoming_payload c h n)).
Proof.
  intros. unfold incoming_payload.
  repeat case_match; try apply conn_ok_fin; cbn [snd]; eauto 10 with conn.
Qed.

Lemma conn_ok_ack c h n :
  conn_ok c -> in_width 32 h.(ack_num) -> conn_ok (snd (incoming_ack c h n)).
Proof.
  intros. unfold incoming_ack.
  repeat case_match; try apply conn_ok_payload; cbn [snd]; eauto 10 with conn.
Qed.

Lemma conn_ok_incoming c h n :
  conn_ok c -> event_ok (Incoming h n) -> conn_ok (snd (handle_incoming c h n)).
Proof.
  intros Hc (? & ? & ? & ?). unfold handle_incoming.
  repeat case_match; try apply conn_ok_ack; eauto 10 with conn.
Qed.

(** Every operation keeps the fields in their widths. *)
Lemma conn_ok_event e c : conn_ok c -> event_ok e -> conn_ok (snd (apply_event e c)).
Proof.
  intros Hc He. destruct e as [h n| |w]; cbn [apply_event snd].
  - by apply conn_ok_incoming.
  - unfold initiate_close. repeat case_match; cbn [snd]; eauto 10 with conn.
  - by apply conn_ok_window.
Qed.

(** ** The lifecycle as an abstract machine

    [next_state] is the specification of [handle_incoming] on states alone: the
    flags of the segment, whether it counts as [fresh] (its acknowledgment
    advances or it carries a FIN) and whether its payload is [old]. *)
Definition fin_next (s : TcpState) (fin : bool) : TcpState :=
  match s with
  | ESTABLISHED => if fin then CLOSE_WAIT else s
  | FIN_WAIT_1 => if fin then CLOSING else s
  | FIN_WAIT_2 => if fin then TIME_WAIT else s
  | _ => s
  end.

Definition ack_next (s : TcpState) (ack fin fresh old : bool) : TcpState :=
  let tail := if old then s else fin_next s fin in
  if negb ack then tail else
  if negb fresh then s else
  match s with
  | SYN_RECEIVED => ESTABLISHED
  | FIN_WAIT_1 => if fin then TIME_WAIT else FIN_WAIT_2
  | CLOSING => TIME_WAIT
  | LAST_ACK => CLOSED
  | _ => tail
  end.

Definition next_state (s : TcpState) (syn ack fin fresh old : bool) : TcpState :=
  match s with
  | LISTEN => if syn then SYN_RECEIVED else LISTEN
  | SYN_SENT => if syn && ack then ESTABLISHED else SYN_SENT
  | _ => ack_next s ack fin fresh old
  end.

Definition fresh (c : TcpConnection) (h : TcpHeader) : bool :=
  (c.(recv_ack) <? h.(ack_num)) || has_fin h.
Definition old_payload (c : TcpConnection) (h : TcpHeader) (n : Z) : bool :=
  (0 <? n) && (h.(seq_num) <? if has_syn h then u32 (h.(seq_num) + 1) else c.(recv_seq)).

Lemma transition_state_to c s0 s :
  state c = s0 -> can_transition s0 s = true -> state (snd (transition_state c s)) = s.
Proof. intros <- H. unfold transition_state. by rewrite H. Qed.

Lemma incoming_fin_state c h n :
  state (snd (incoming_fin c h n)) = fin_next (state c) (has_fin h).
Proof.
  unfold incoming_fin. destruct (has_fin h); [|cbn [snd]; by destruct (state c)].
  match goal with |- context [set_send_ack ?c1 _] => set (c' := c1) end.
  assert (state c' = state c) as E by (unfold c'; by destruct (_ && _)). cbn zeta.
  change (state (set_send_ack c' (recv_seq c'))) with (state c'). rewrite E.
  destruct (state c) eqn:S; repeat case_bool_decide; cbn [orb]; try congruence;
    try exact E;
    (eapply transition_state_to; [exact E|reflexivity]).
Qed.

Lemma incoming_payload_state c h n :
  state (snd (incoming_payload c h n)) =
    if (0 <? n) && (seq_num h <? recv_seq c) then state c else fin_next (state c) (has_fin h).
Proof.
  unfold incoming_payload. destruct (Z.ltb_spec 0 n); cbn [andb];
    [|apply incoming_fin_state].
  destruct (Z.eqb_spec (seq_num h) (recv_seq c)).
  - destruct (Z.ltb_spec (seq_num h) (recv_seq c)); [lia|].
    etransitivity; [apply incoming_fin_state|reflexivity].
  - destruct (seq_num h <? recv_seq c); [done|]. apply incoming_fin_state.
Qed.

Lemma incoming_ack_state c h n :
  state (snd (incoming_ack c h n)) =
    ack_next (state c) (has_ack h) (has_fin h) (fresh c h)
             ((0 <? n) && (seq_num h <? recv_seq c)).
Proof.
  unfold incoming_ack, ack_next, fresh.
  destruct (has_ack h); cbn [negb]; [|apply incoming_payload_state].
  rewrite Z.leb_antisym. destruct (recv_ack c <? ack_num h); cbn [negb andb orb];
    [|destruct (has_fin h) eqn:F; cbn [negb]; [|done]]; cbn zeta;
    change (state (set_recv_ack c (ack_num h))) with (state c);
    destruct (state c) eqn:S; repeat case_bool_decide; try congruence;
    try (etransitivity; [apply incoming_payload_state|];
         change (state (set_recv_ack c (ack_num h))) with (state c); rewrite ?S, ?F; done);
    try (eapply transition_state_to; [exact S|reflexivity]).
  destruct (has_fin h); eapply transition_state_to; (exact S || reflexivity).
Qed.

Lemma handle_incoming_state c h n :
  state (snd (handle_incoming c h n)) =
    next_state (state c) (has_syn h) (has_ack h) (has_fin h) (fresh c h) (old_payload c h n).
Proof.
  unfold handle_incoming, old_payload, next_state. destruct (has_syn h) eqn:Y; cbn zeta.
  - change (state (set_recv_seq (on_window_update c (window h)) (u32 (seq_num h + 1)))) with (state c).
    destruct (state c) eqn:S; repeat case_bool_decide; try congruence; cbn [andb];
      try (etransitivity; [apply incoming_ack_state|]; cbn [state on_window_update set_recv_seq];
           rewrite S; reflexivity).
    + eapply transition_state_to; [exact S|reflexivity].
    + destruct (has_ack h) eqn:A.
      * eapply transition_state_to; [exact S|reflexivity].
      * etransitivity; [apply incoming_ack_state|]. cbn [state on_window_update set_recv_seq].
        rewrite S, A. unfold ack_next. cbn [negb fin_next]. by destruct (_ && _).
  - etransitivity; [apply incoming_ack_state|]. cbn [state on_window_update recv_seq].
    unfold fresh. cbn [recv_ack on_window_update].
    destruct (state c) eqn:S; try reflexivity; unfold ack_next; cbn [fin_next andb];
      by repeat case_match.
Qed.

(** The parts of a connection a segment leaves alone, once its window is recorded. *)
Definition ident (c : TcpConnection) :=
  (c.(local_ip), c.(remote_ip), c.(local_port), c.(remote_port), c.(send_seq),
   c.(window_size), c.(recv_window), c.(peer_window)).

Lemma transition_state_ident c s : ident (snd (transition_state c s)) = ident c.
Proof. unfold transition_state. by destruct (negb _). Qed.

Lemma incoming_fin_ident c h n : ident (snd (incoming_fin c h n)) = ident c.
Proof.
  unfold incoming_fin. destruct (has_fin h); [|done]. cbn zeta.
  destruct (_ && _); repeat case_bool_decide; cbn [orb]; rewrite ?transition_state_ident; done.
Qed.

Lemma incoming_payload_ident c h n : ident (snd (incoming_payload c h n)) = ident c.
Proof.
  unfold incoming_payload. repeat case_match; rewrite ?incoming_fin_ident; done.
Qed.

Lemma incoming_ack_ident c h n : ident (snd (incoming_ack c h n)) = ident c.
Proof.
  unfold incoming_ack.
  repeat case_match; rewrite ?transition_state_ident, ?incoming_payload_ident; done.
Qed.

Lemma handle_incoming_ident c h n :
  ident (snd (handle_incoming c h n)) = ident (on_window_update c (window h)).
Proof.
  unfold handle_incoming.
  repeat case_match; rewrite ?transition_state_ident, ?incoming_ack_ident; done.
Qed.

(** ** Correctness of the state machine *)

(** C3: [handle_incoming] refines the abstract lifecycle machine: it always
    succeeds, its next state is the one [next_state] prescribes from the flags,
    the freshness of the acknowledgment and the age of the payload; it records
    the advertised window, and leaves endpoints and send sequence alone. *)
Theorem handle_incoming_refines_lifecycle c h n :
  exists c', handle_incoming c h n = (true, c') /\
    state c' = next_state (state c) (has_syn h) (has_ack h) (has_fin h) (fresh c h)
                          (old_payload c h n) /\
    ident c' = ident (on_window_update c (window h)).
Proof.
  pose proof (handle_incoming_state c h n) as Hs. pose proof (handle_incoming_ident c h n) as Hi.
  destruct (handle_incoming_accepted c h n) as [Hr _].
  destruct (handle_incoming c h n) as [r c']. cbn in *. subst r. by exists c'.
Qed.

Definition run_events (es : list event) (c : TcpConnection) : TcpConnection :=
  foldl (fun c e => snd (apply_event e c)) c es.

Lemma closed_stays e c : state c = CLOSED -> state (snd (apply_event e c)) = CLOSED.
Proof.
  intros E. destruct e as [h n| |w]; cbn [apply_event snd].
  - rewrite handle_incoming_state, E. unfold next_state, ack_next. cbn [fin_next].
    by repeat case_match.
  - unfold initiate_close. by rewrite E.
  - done.
Qed.

(** CLOSED is absorbing for traffic: no sequence of received segments,
    close requests and window updates ever leaves it, only an explicit
    [transition_state] to LISTEN or SYN_SENT does. *)
Theorem closed_absorbs_traffic es c s :
  state c = CLOSED ->
  state (run_events es c) = CLOSED /\
  (state (snd (transition_state (run_events es c) s)) <> CLOSED <-> s = LISTEN \/ s = SYN_SENT).
Proof.
  intros Hc. assert (state (run_events es c) = CLOSED) as E.
  { unfold run_events. revert c Hc. induction es as [|e es IH]; intros c Hc; [done|].
    cbn [foldl]. by apply IH, closed_stays. }
  split; [done|]. unfold transition_state. rewrite E.
  destruct s; cbn [can_transition]; repeat case_bool_decide; try congruence;
    cbn [orb negb snd]; rewrite ?E; cbn [state set_state];
    split; (by intros [|] || by auto || by intros []).
Qed.

(** *** Acknowledgments *)

(** The acknowledgment of an event, after [a]: a FIN brings its own, any other
    segment counts only if it is ahead. *)
Definition acked (a : Z) (e : event) : Z :=
  match e with
  | Incoming h _ => if has_ack h then if has_fin h then h.(ack_num) else Z.max a h.(ack_num) else a
  | _ => a
  end.

Definition without_fin (e : event) : Prop := match e with Incoming h _ => has_fin h = false | _ => True end.

Definition opening (s : TcpState) : bool := bool_decide (s = LISTEN) || bool_decide (s = SYN_SENT).

Lemma transition_state_recv_ack c s : recv_ack (snd (transition_state c s)) = recv_ack c.
Proof. unfold transition_state. by destruct (negb _). Qed.

Lemma incoming_fin_recv_ack c h n : recv_ack (snd (incoming_fin c h n)) = recv_ack c.
Proof.
  unfold incoming_fin. destruct (has_fin h); [|done]. cbn zeta.
  destruct (_ && _); repeat case_bool_decide; cbn [orb]; rewrite ?transition_state_recv_ack; done.
Qed.

Lemma incoming_payload_recv_ack c h n : recv_ack (snd (incoming_payload c h n)) = recv_ack c.
Proof. unfold incoming_payload. repeat case_match; rewrite ?incoming_fin_recv_ack; done. Qed.

Lemma incoming_ack_recv_ack c h n : recv_ack (snd (incoming_ack c h n)) = acked (recv_ack c) (Incoming h n).
Proof.
  unfold incoming_ack, acked. destruct (has_ack h); [|apply incoming_payload_recv_ack].
  destruct (has_fin h), (Z.leb_spec (ack_num h) (recv_ack c)); cbn [andb negb snd]; [..|lia|];
    repeat case_match; rewrite ?transition_state_recv_ack, ?incoming_payload_recv_ack; cbn [recv_ack set_recv_ack]; lia.
Qed.

Lemma event_recv_ack e c : opening (state c) = false -> recv_ack (snd (apply_event e c)) = acked (recv_ack c) e.
Proof.
  unfold opening. intros [H1 H2]%orb_false_iff. destruct e as [h n| |w]; cbn [apply_event]; [| |done].
  - unfold handle_incoming. set (c1 := on_window_update c _).
    change (recv_ack c) with (recv_ack c1). change (state c) with (state c1) in *. destruct (has_syn h).
    + cbn [state set_recv_seq]. rewrite H1, H2. cbn [andb]. by rewrite incoming_ack_recv_ack.
    + apply incoming_ack_recv_ack.
  - unfold initiate_close. repeat case_match; rewrite ?transition_state_recv_ack; done.
Qed.

Lemma event_stays_open e c : opening (state c) = false -> opening (state (snd (apply_event e c))) = false.
Proof.
  intros H. destruct (decide (state c = CLOSED)) as [E|E]; [by rewrite closed_stays|].
  destruct (apply_event_follows e c) as [->|Ht]; [done|].
  destruct (state c), (state (snd (apply_event e c))); done.
Qed.

Lemma acked_le a e : without_fin e -> a <= acked a e.
Proof. destruct e as [h n| |w]; cbn; [|lia..]. intros ->. destruct (has_ack h); lia. Qed.

Lemma acked_mono es a : Forall without_fin es -> a <= foldl acked a es.
Proof.
  intros H. revert a. induction H as [|e es He _ IH]; intros a; cbn [foldl]; [lia|].
  specialize (IH (acked a e)). pose proof (acked_le a e He). lia.
Qed.

Lemma acked_covers es a h n : Forall without_fin es -> Incoming h n ∈ es -> has_ack h = true ->
  ack_num h <= foldl acked a es.
Proof.
  intros H Hin Ha. revert a. induction H as [|e es He Hes IH]; intros a; [by apply elem_of_nil in Hin|].
  cbn [foldl]. apply elem_of_cons in Hin as [<-|Hin]; [|by apply IH].
  pose proof (acked_mono es (acked a (Incoming h n)) Hes). cbn in *. rewrite Ha, He in *. lia.
Qed.

Lemma acked_perm es es' a : es' ≡ₚ es -> Forall without_fin es -> foldl acked a es' = foldl acked a es.
Proof.
  intros Hp. revert a. induction Hp as [|e es' es _ IH|e e' es|es1 es2 es3 H1 IH1 H2 IH2]; intros a Hf; cbn [foldl].
  - done.
  - apply Forall_cons in Hf as [_ Hf]. by apply IH.
  - apply Forall_cons in Hf as [He [He' _]%Forall_cons]. f_equal.
    destruct e as [h n| |w], e' as [h' n'| |w']; cbn in *; rewrite ?He, ?He'; try done.
    destruct (has_ack h), (has_ack h'); lia.
  - rewrite IH1; [by apply IH2|by rewrite H2].
Qed.

(** C24: Acknowledgments only advance.  On a connection past its opening, whatever
    segments arrive and however they are interleaved with window updates and a
    close, the acknowledgment on record is the greatest one received, duplicates
    and old ones included, except that a FIN always brings its own; so without a
    FIN it does not depend on the order of arrival. *)
Theorem acknowledgments_only_advance es c :
  opening (state c) = false ->
  recv_ack (run_events es c) = foldl acked (recv_ack c) es /\
  (Forall without_fin es ->
     recv_ack c <= recv_ack (run_events es c) /\
     (forall h n, Incoming h n ∈ es -> has_ack h = true -> ack_num h <= recv_ack (run_events es c)) /\
     forall es', es' ≡ₚ es -> recv_ack (run_events es' c) = recv_ack (run_events es c)).
Proof.
  intros Hc. assert (forall es, recv_ack (run_events es c) = foldl acked (recv_ack c) es) as E.
  { clear es. intros es. revert c Hc. induction es as [|e es IH]; intros c Hc; [done|].
    unfold run_events in *. cbn [foldl]. rewrite IH by by apply event_stays_open. by rewrite event_recv_ack. }
  split; [apply E|]. intros Hf. rewrite E. split; [|split].
  - apply acked_mono, Hf.
  - intros h n Hin Ha. by eapply acked_covers.
  - intros es' Hp. rewrite !E. by apply acked_perm.
Qed.

(** *** The lifecycle *)

(** Position of a state on the way from opening to closing. *)
Definition rank (s : TcpState) : nat :=
  match s with
  | CLOSED => 0
  | LISTEN | SYN_SENT => 1
  | SYN_RECEIVED => 2
  | ESTABLISHED => 3
  | FIN_WAIT_1 | CLOSE_WAIT => 4
  | FIN_WAIT_2 | CLOSING | LAST_ACK => 5
  | TIME_WAIT => 6
  end.

(** A run of operations, explicit transitions included, that does not close the
    connection, with the states it enters. *)
Inductive run_through : TcpConnection -> list TcpState -> TcpConnection -> Prop :=
  | rt_nil c : run_through c [] c
  | rt_same c c1 l c2 : step c c1 -> state c1 = state c -> run_through c1 l c2 -> run_through c l c2
  | rt_change c c1 l c2 : step c c1 -> state c1 <> state c -> state c1 <> CLOSED -> run_through c1 l c2 ->
      run_through c (state c1 :: l) c2.

Lemma can_transition_rank s s' :
  can_transition s s' = true -> s' = CLOSED \/ (rank s < rank s')%nat.
Proof. destruct s, s'; vm_compute; try discriminate; (by left) || (right; lia). Qed.

Lemma step_rank c c' : step c c' -> state c' <> state c -> state c' <> CLOSED -> (rank (state c) < rank (state c'))%nat.
Proof.
  intros Hs Hn Hc. assert (follows c (state c')) as [?|H]; [|done|].
  { destruct Hs; [apply apply_event_follows|by apply follows_transition]. }
  by apply can_transition_rank in H as [?|?].
Qed.

Lemma run_through_ranks c l c' : run_through c l c' ->
  Forall (fun s => (rank (state c) < rank s)%nat) l /\ NoDup l /\ (length l + rank (state c) <= 6)%nat.
Proof.
  induction 1 as [c|c c1 l c2 _ E _ IH|c c1 l c2 Hs Hn Hc _ (IH1 & IH2 & IH3)].
  - split_and!; [constructor|constructor|destruct (state c); cbn; lia].
  - by rewrite E in IH.
  - pose proof (step_rank c c1 Hs Hn Hc). split_and!.
    + constructor; [done|]. eapply Forall_impl; [exact IH1|]. cbn. lia.
    + constructor; [|done]. intros Hin. rewrite Forall_forall in IH1. specialize (IH1 _ Hin). lia.
    + cbn [length]. lia.
Qed.

(** The states a connection visits under received segments, close requests and
    window updates. *)
Fixpoint entered (c : TcpConnection) (es : list event) : list TcpState :=
  match es with
  | [] => []
  | e :: es =>
      let c' := snd (apply_event e c) in
      if decide (state c' = state c) then entered c' es else state c' :: entered c' es
  end.
Definition visited (c : TcpConnection) (es : list event) : list TcpState := state c :: entered c es.

(** What may follow a state to the end of the connection. *)
Definition futures (s : TcpState) : list (list TcpState) :=
  let closing := [[FIN_WAIT_1; FIN_WAIT_2; TIME_WAIT]; [FIN_WAIT_1; CLOSING; TIME_WAIT]; [FIN_WAIT_1; TIME_WAIT];
                  [CLOSE_WAIT; LAST_ACK; CLOSED]] in
  match s with
  | CLOSED | TIME_WAIT => [[]]
  | LISTEN => map (app [SYN_RECEIVED; ESTABLISHED]) closing
  | SYN_SENT => map (app [ESTABLISHED]) closing
  | SYN_RECEIVED => map (app [ESTABLISHED]) closing
  | ESTABLISHED => closing
  | FIN_WAIT_1 => [[FIN_WAIT_2; TIME_WAIT]; [CLOSING; TIME_WAIT]; [TIME_WAIT]]
  | FIN_WAIT_2 | CLOSING => [[TIME_WAIT]]
  | CLOSE_WAIT => [[LAST_ACK; CLOSED]]
  | LAST_ACK => [[CLOSED]]
  end.

Lemma event_next e c : let s' := state (snd (apply_event e c)) in
  s' = state c \/ forall l, l ∈ futures s' -> s' :: l ∈ futures (state c).
Proof.
  destruct e as [h n| |w]; cbn [apply_event]; [| |by left].
  - cbv zeta. rewrite handle_incoming_state. unfold next_state, ack_next, fin_next.
    destruct (state c), (has_syn h), (has_ack h), (has_fin h), (fresh c h), (old_payload c h n); cbn;
      (by left) || (right; intros l Hl; revert l Hl; apply Forall_forall; repeat constructor; set_solver).
  - unfold initiate_close. destruct (state c) eqn:E; cbn; rewrite ?E; try (by left);
      unfold transition_state; rewrite E; cbn; right; intros l Hl; revert l Hl;
      apply Forall_forall; repeat constructor; set_solver.
Qed.

Lemma entered_future es c : exists l, l ∈ futures (state c) /\ entered c es `prefix_of` l.
Proof.
  revert c. induction es as [|e es IH]; intros c; cbn [entered].
  { destruct (futures (state c)) as [|l ls] eqn:E; [by destruct (state c)|].
    exists l. split; [by left|apply prefix_nil]. }
  destruct (IH (snd (apply_event e c))) as (l & Hl & Hp).
  case_decide as Hs; [rewrite <- Hs; by exists l|]. destruct (event_next e c) as [?|Hn]; [done|].
  exists (state (snd (apply_event e c)) :: l). split; [by apply Hn|]. by apply prefix_cons.
Qed.

(** A segment with these flags and this acknowledgment. *)
Definition segment (fl ack : Z) : event := Incoming (mkTcpHeader 0 0 0 ack 5 0 fl 65535 0 0) 0.

(** Traffic that takes a connection whose first acknowledgment is [a] into the
    given state, and what the last acknowledgment may be in each state. *)
Definition traffic (a : Z) (s : TcpState) : event :=
  match s with
  | SYN_RECEIVED => segment 2 0
  | ESTABLISHED => segment 18 (a + 1)
  | FIN_WAIT_1 | LAST_ACK => InitiateClose
  | FIN_WAIT_2 | CLOSED => segment 16 (a + 2)
  | CLOSING | CLOSE_WAIT => segment 1 0
  | _ => segment 17 0
  end.

Definition ack_bound (a : Z) (s : TcpState) : Z :=
  match s with
  | LISTEN | SYN_SENT | SYN_RECEIVED => a
  | ESTABLISHED | FIN_WAIT_1 | CLOSE_WAIT | LAST_ACK => a + 1
  | _ => a + 2
  end.

Lemma opening_recv_ack h n c :
  opening (state c) = true -> has_syn h = true -> has_ack h = true \/ state c = LISTEN ->
  recv_ack (snd (handle_incoming c h n)) = recv_ack c.
Proof.
  unfold opening, handle_incoming. intros Ho Hs Ha. cbv zeta. rewrite Hs. cbn [state set_recv_seq on_window_update].
  destruct (bool_decide (state c = LISTEN)) eqn:El; [by rewrite transition_state_recv_ack|].
  cbn [orb] in Ho. rewrite Ho. cbn [andb]. destruct Ha as [Ha|Ha]; [rewrite Ha; by rewrite transition_state_recv_ack|].
  by apply bool_decide_eq_false in El.
Qed.

Lemma traffic_step a c s l :
  0 <= a -> recv_ack c <= ack_bound a (state c) -> s :: l ∈ futures (state c) ->
  let c' := snd (apply_event (traffic a s) c) in
  state c' = s /\ s <> state c /\ l ∈ futures s /\ recv_ack c' <= ack_bound a s.
Proof.
  intros Ha Hr Hl. cbv zeta.
  assert (state (snd (apply_event (traffic a s) c)) = s /\ s <> state c /\ l ∈ futures s) as (E & En & Hf).
  { destruct (state c) eqn:Es; cbn in Hl, Hr; rewrite ?elem_of_cons, ?elem_of_nil in Hl; destruct_or?; try done;
      injection Hl as -> ->; (split; [|split; [done|cbn; set_solver]]);
      cbn [traffic apply_event segment]; unfold initiate_close, transition_state; rewrite ?Es; try reflexivity;
      rewrite handle_incoming_state, Es; unfold fresh, has_syn, has_ack, has_fin, has_flag;
      cbn -[Z.ltb Z.add]; rewrite ?orb_true_r; try (rewrite (proj2 (Z.ltb_lt _ _)) by lia); reflexivity. }
  split; [done|]. split; [done|]. split; [done|].
  destruct (opening (state c)) eqn:Eo.
  - destruct (state c) eqn:Es; try discriminate Eo; cbn in Hl, Hr; rewrite ?elem_of_cons, ?elem_of_nil in Hl;
      destruct_or?; try done; injection Hl as -> ->; cbn [traffic apply_event segment];
      (rewrite opening_recv_ack; [cbn; lia|by rewrite Es|done|rewrite Es; by auto]).
  - rewrite event_recv_ack by done. destruct (state c) eqn:Es; try discriminate Eo; cbn in Hl, Hr;
      rewrite ?elem_of_cons, ?elem_of_nil in Hl; destruct_or?; try done; injection Hl as -> ->; unfold acked, traffic, segment, has_ack, has_fin, has_flag;
      cbn -[Z.max Z.add]; repeat match goal with |- context [negb ?b] => let v := eval vm_compute in (negb b) in change (negb b) with v end;
      cbn -[Z.max Z.add]; lia.
Qed.

Lemma traffic_realizes a c l :
  0 <= a < 2 ^ 32 - 2 -> recv_ack c <= ack_bound a (state c) -> l ∈ futures (state c) ->
  Forall event_ok (map (traffic a) l) /\ visited c (map (traffic a) l) = state c :: l.
Proof.
  intros Ha Hr Hl. split.
  - apply Forall_map, Forall_true. intros s. destruct s; cbn; unfold in_width; lia || done.
  - unfold visited. f_equal. revert c Hr Hl. induction l as [|s l IH]; intros c Hr Hl; [done|]. cbn [map entered].
    destruct (traffic_step a c s l) as (E & En & Hf & Hb); [lia|done|done|].
    rewrite decide_False by (by rewrite E). rewrite E. f_equal. apply IH; by rewrite E.
Qed.

(** C29: A connection never goes back, and its life is one of eight.  Along any run
    of operations that does not close it, explicit transitions included, no state
    is entered twice and at most seven are visited.  Under traffic alone, a
    connection that is opened visits the states of one of four lives on each
    side, in order and at most six, and stops nowhere else; and traffic can take
    it through each of them. *)
Theorem lifecycle_never_reverts c :
  (forall l c', run_through c l c' -> NoDup (state c :: l) /\ (length (state c :: l) <= 7)%nat) /\
  (opening (state c) = true ->
     length (futures (state c)) = 4%nat /\ Forall (fun l => (length l <= 5)%nat) (futures (state c)) /\
     (forall es, exists l, l ∈ futures (state c) /\ visited c es `prefix_of` state c :: l) /\
     (0 <= recv_ack c < 2 ^ 32 - 2 -> forall l, l ∈ futures (state c) ->
        exists es, Forall event_ok es /\ visited c es = state c :: l)).
Proof.
  split; [|intros Ho; split_and!].
  - intros l c' H. apply run_through_ranks in H as (H1 & H2 & H3). split; [|cbn [length]; lia].
    constructor; [|done]. intros Hin. rewrite Forall_forall in H1. specialize (H1 _ Hin). lia.
  - by destruct (state c).
  - destruct (state c); try done; repeat constructor; cbn; lia.
  - intros es. destruct (entered_future es c) as (l & Hl & Hp). exists l. split; [done|]. by apply prefix_cons.
  - intros Ha l Hl. exists (map (traffic (recv_ack c)) l). apply traffic_realizes; [done| |done].
    destruct (state c); try discriminate Ho; cbn; lia.
Qed.

(** ** Two endpoints exchanging frames *)
Definition no_out : Parsed := mkParsed TcpHeader_zero nullptr 0.

(** Build [f] at [p], parse it on the other side and hand it to [peer]. *)
Definition send_to (f : frame) (p : ptr) (peer : TcpConnection) : M TcpConnection :=
  packet ← build f p;
  r ← parse packet no_out;
  let '(ok, o) := r in
  if negb ok then mret peer else
  mret (snd (handle_incoming peer o.(p_header) o.(p_payload_len))).

Lemma send_to_run f p peer m :
  frame_ok f m p ->
  exists m' k, send_to f p peer m =
      Some (snd (handle_incoming peer (received (frame_header f) k)
                   (Z.of_nat (length (frame_payload f)))), m') /\
    in_width 16 k /\ forall a, is_Some (m' !! a) <-> is_Some (m !! a).
Proof.
  intros Hf. destruct (build_fills f m p Hf) as (m' & E & F).
  pose proof (parse_wire_run f p no_out m' (proj1 Hf) (frame_payload_bytes f m p Hf) (proj1 F)) as Hp.
  eexists m', _. split; [|split].
  - unfold send_to. eapply bind_run; [exact E|]. eapply bind_run; [exact Hp|]. reflexivity.
  - apply frame_checksum_range; [apply Hf|by eapply frame_payload_bytes].
  - apply F.
Qed.

Lemma transition_state_legal c s :
  can_transition c.(state) s = true -> transition_state c s = (true, set_state c s).
Proof. intros H. unfold transition_state. by rewrite H. Qed.

(** Segments by kind. *)
Lemma incoming_syn_listen c h n :
  state c = LISTEN -> has_syn h = true ->
  snd (handle_incoming c h n) =
    set_state (set_send_ack (set_recv_seq (on_window_update c h.(window)) (u32 (h.(seq_num) + 1)))
                 (u32 (h.(seq_num) + 1))) SYN_RECEIVED.
Proof.
  intros E Y. unfold handle_incoming. rewrite Y. cbn zeta.
  rewrite bool_decide_eq_true_2 by exact E.
  by rewrite transition_state_legal by (cbn [state set_send_ack set_recv_seq on_window_update]; by rewrite E).
Qed.

Lemma incoming_syn_ack_sent c h n :
  state c = SYN_SENT -> has_syn h = true -> has_ack h = true ->
  snd (handle_incoming c h n) =
    set_state (set_send_ack (set_recv_seq (on_window_update c h.(window)) (u32 (h.(seq_num) + 1)))
                 h.(ack_num)) ESTABLISHED.
Proof.
  intros E Y A. unfold handle_incoming. rewrite Y, A. cbn zeta.
  rewrite bool_decide_eq_false_2 by (cbn; by rewrite E).
  rewrite bool_decide_eq_true_2 by exact E. cbn [andb].
  by rewrite transition_state_legal by (cbn [state set_send_ack set_recv_seq on_window_update]; by rewrite E).
Qed.

(** The target of a bare acknowledgment. *)
Definition ack_target (s : TcpState) : option TcpState :=
  match s with
  | SYN_RECEIVED => Some ESTABLISHED
  | FIN_WAIT_1 => Some FIN_WAIT_2
  | CLOSING => Some TIME_WAIT
  | LAST_ACK => Some CLOSED
  | _ => None
  end.

Lemma incoming_pure_ack c h s :
  ack_target (state c) = Some s -> has_syn h = false -> has_ack h = true -> has_fin h = false ->
  snd (handle_incoming c h 0) =
    if h.(ack_num) <=? c.(recv_ack) then on_window_update c h.(window)
    else set_state (set_recv_ack (on_window_update c h.(window)) h.(ack_num)) s.
Proof.
  intros T Y A F. unfold handle_incoming, incoming_ack. rewrite Y, A, F. cbn zeta.
  cbn [recv_ack on_window_update]. destruct (_ <=? _); cbn [negb andb]; [done|].
  change (state (set_recv_ack (on_window_update c (window h)) (ack_num h))) with (state c).
  destruct (state c) eqn:E; cbn in T; try discriminate; injection T as <-;
    repeat case_bool_decide; try congruence; cbn zeta;
    rewrite transition_state_legal by
      (change (state (set_recv_ack (on_window_update c (window h)) (ack_num h))) with (state c);
       by rewrite E); done.
Qed.

(** A FIN that also acknowledges, in the states where it closes our receive side. *)
Definition fin_target (s : TcpState) : option TcpState :=
  match s with
  | ESTABLISHED => Some CLOSE_WAIT
  | FIN_WAIT_2 => Some TIME_WAIT
  | _ => None
  end.

Lemma incoming_fin_ack c h s :
  fin_target (state c) = Some s -> has_syn h = false -> has_ack h = true -> has_fin h = true ->
  in_width 32 h.(seq_num) ->
  snd (handle_incoming c h 0) =
    set_state (set_send_ack (set_recv_seq (set_recv_ack (on_window_update c h.(window)) h.(ack_num))
      (u32 (h.(seq_num) + 1))) (u32 (h.(seq_num) + 1))) s.
Proof.
  intros T Y A F W. unfold handle_incoming, incoming_ack, incoming_payload, incoming_fin.
  rewrite Y, A, F. cbn zeta. cbn [Z.ltb Z.compare andb negb].
  change (u32 0) with 0. rewrite Z.add_0_r, (wrap_small 32 (seq_num h)) by done.
  rewrite !andb_false_r.
  change (state (set_recv_ack (on_window_update c (window h)) (ack_num h))) with (state c).
  match goal with |- context [state (set_send_ack ?x ?y)] =>
    change (state (set_send_ack x y)) with (state c) end.
  destruct (state c) eqn:E; cbn in T; try discriminate; injection T as <-;
    repeat case_bool_decide; try congruence; cbn [orb];
    by rewrite transition_state_legal by (cbn; by rewrite E).
Qed.

(** The three-way handshake as the endpoints run it. *)
Definition handshake (client server : TcpConnection) (p : ptr)
    : M (TcpConnection * TcpConnection) :=
  let client := snd (transition_state client SYN_SENT) in
  let server := snd (transition_state server LISTEN) in
  server ← send_to (FSyn client.(local_port) client.(remote_port) client.(local_ip)
                         client.(remote_ip) client.(send_seq)) p server;
  client ← send_to (FSynAck server server.(send_seq) server.(recv_seq)) p client;
  server ← send_to (FAck client client.(recv_seq)) p server;
  mret (client, server).

Lemma bare_ok f m p :
  plain_header (frame_header f) -> valid m p 20 ->
  match f with FSyn _ _ _ _ _ => True | FSynAck c _ _ | FAck c _ | FFin c => conn_ok c
             | FData _ _ _ => False end ->
  frame_ok f m p.
Proof. intros H V C. destruct f; split_and!; (done || exact V). Qed.

Lemma received_window_range h k :
  plain_header h -> in_width 16 k -> in_width 16 (window (received h k)).
Proof. intros [] ?. cbn [window received]. unfold in_width in *.
  change (2 ^ 16) with 65536 in *. Z.to_euclidean_division_equations. lia.
Qed.

(** Delivering a frame without payload. *)
Lemma send_bare f p peer m :
  plain_header (frame_header f) -> valid m p 20 ->
  match f with FSyn _ _ _ _ _ => True | FSynAck c _ _ | FAck c _ | FFin c => conn_ok c
             | FData _ _ _ => False end ->
  exists m' k, send_to f p peer m =
      Some (snd (handle_incoming peer (received (frame_header f) k) 0), m') /\
    in_width 16 (window (received (frame_header f) k)) /\ valid m' p 20.
Proof.
  intros Hh Hv Hc.
  destruct (send_to_run f p peer m) as (m' & k & E & Hk & Hd); [by apply bare_ok|].
  assert (frame_payload f = []) as Hp by by destruct f.
  rewrite Hp in E. exists m', k. split; [exact E|]. split; [by apply received_window_range|].
  by eapply valid_dom.
Qed.

Ltac bare_side :=
  first [assumption | apply u32_range
        | apply conn_header_plain; auto 10 using ok_send_seq, ok_recv_seq, ok_send_ack with conn usn
        | by eauto 12 with conn].

(** C20: The three-way handshake through the wire code: starting from CLOSED,
    the client always reaches ESTABLISHED with the server's initial sequence
    number plus one as its receive sequence, and the server's receive sequence
    is the client's plus one.  The server reaches ESTABLISHED exactly when its
    own incremented sequence number exceeds the last acknowledgment it
    recorded, compared as plain integers (so an initial sequence number of
    2^32 - 1 leaves it in SYN_RECEIVED).  The client records its own sequence,
    not the server's, as the number to acknowledge next. *)
Theorem three_way_handshake client server p m :
  conn_ok client -> conn_ok server -> state client = CLOSED -> state server = CLOSED ->
  valid m p 20 ->
  exists client' server' m', handshake client server p m = Some ((client', server'), m') /\
    state client' = ESTABLISHED /\
    recv_seq client' = u32 (send_seq server + 1) /\
    recv_seq server' = u32 (send_seq client + 1) /\
    send_ack server' = recv_seq server' /\
    send_ack client' = u32 (send_seq client + 1) /\
    state server' = (if recv_ack server <? u32 (send_seq server + 1)
                     then ESTABLISHED else SYN_RECEIVED).
Proof.
  intros Hc Hs Ec Es Hv. unfold handshake.
  rewrite !transition_state_legal by (by rewrite ?Ec, ?Es). cbn [snd].
  set (c1 := set_state client SYN_SENT). set (s1 := set_state server LISTEN).
  assert (conn_ok c1 /\ conn_ok s1) as [Hc1 Hs1] by (split; by apply conn_ok_set_state).
  destruct (send_bare (FSyn (local_port c1) (remote_port c1) (local_ip c1) (remote_ip c1)
    (send_seq c1)) p s1 m) as (m1 & k1 & E1 & W1 & V1); [|exact Hv|done|].
  { destruct Hc1. split; cbn; auto with usn. }
  rewrite (incoming_syn_listen s1) in E1 by reflexivity.
  match type of E1 with _ = Some (?x, _) => set (s2 := x) in E1 end.
  assert (conn_ok s2) as Hs2 by (unfold s2; bare_side).
  destruct (send_bare (FSynAck s2 (send_seq s2) (recv_seq s2)) p c1 m1)
    as (m2 & k2 & E2 & W2 & V2); [|exact V1|done|].
  { apply conn_header_plain; auto with usn; apply Hs2. }
  rewrite (incoming_syn_ack_sent c1) in E2 by reflexivity.
  match type of E2 with _ = Some (?x, _) => set (c2 := x) in E2 end.
  assert (conn_ok c2) as Hc2.
  { unfold c2. apply conn_ok_set_state, conn_ok_set_send_ack; [|apply Hs2]. bare_side. }
  destruct (send_bare (FAck c2 (recv_seq c2)) p s2 m2) as (m3 & k3 & E3 & W3 & V3);
    [|exact V2|done|].
  { apply conn_header_plain; auto with usn; apply Hc2. }
  rewrite (incoming_pure_ack s2 _ ESTABLISHED) in E3 by reflexivity.
  do 3 eexists. split.
  { eapply bind_run; [exact E1|]. eapply bind_run; [exact E2|]. eapply bind_run; [exact E3|].
    reflexivity. }
  change (recv_ack s2) with (recv_ack server).
  change (ack_num (received (frame_header (FAck c2 (recv_seq c2))) k3)) with (u32 (send_seq server + 1)).
  rewrite Z.leb_antisym. split_and!; try done; by destruct (_ <? _).
Qed.

(** The four-way close: [a] closes first, [b] acknowledges and closes in turn. *)
Definition teardown (a b : TcpConnection) (p : ptr) : M (TcpConnection * TcpConnection) :=
  let a := snd (initiate_close a) in
  b ← send_to (FFin a) p b;
  a ← send_to (FAck b b.(send_ack)) p a;
  let b := snd (initiate_close b) in
  a ← send_to (FFin b) p a;
  b ← send_to (FAck a a.(send_ack)) p b;
  mret (a, b).

Lemma initiate_close_from c s :
  state c = s -> (s = ESTABLISHED \/ s = CLOSE_WAIT) ->
  snd (initiate_close c) = set_state c (match s with CLOSE_WAIT => LAST_ACK | _ => FIN_WAIT_1 end).
Proof.
  intros E [-> | ->]; unfold initiate_close; rewrite E;
    repeat case_bool_decide; try congruence;
    by rewrite transition_state_legal by (by rewrite E).
Qed.

(** Delivering a FIN, and delivering an advancing acknowledgment. *)
Lemma send_fin x y p m s :
  conn_ok x -> conn_ok y -> fin_target (state y) = Some s -> valid m p 20 ->
  exists y' m', send_to (FFin x) p y m = Some (y', m') /\ valid m' p 20 /\ conn_ok y' /\
    state y' = s /\ recv_seq y' = u32 (send_seq x + 1) /\ send_ack y' = u32 (send_seq x + 1) /\
    recv_ack y' = recv_seq x /\ send_seq y' = send_seq y.
Proof.
  intros Hx Hy T Hv.
  destruct (send_bare (FFin x) p y m) as (m' & k & E & W & V); [|exact Hv|done|].
  { apply conn_header_plain; auto with usn; apply Hx. }
  rewrite (incoming_fin_ack y _ s) in E by (first [exact T|reflexivity|apply Hx]).
  do 2 eexists. split; [exact E|]. split; [done|]. split; [|done].
  apply conn_ok_set_state, conn_ok_set_send_ack; [|apply u32_range].
  apply conn_ok_set_recv_seq; [|apply u32_range].
  apply conn_ok_set_recv_ack; [by apply conn_ok_window|apply Hx].
Qed.

Lemma send_ack_to x y ack p m s :
  conn_ok x -> conn_ok y -> ack_target (state y) = Some s -> valid m p 20 ->
  in_width 32 ack -> recv_ack y < ack ->
  exists y' m', send_to (FAck x ack) p y m = Some (y', m') /\ valid m' p 20 /\ conn_ok y' /\
    state y' = s /\ recv_seq y' = recv_seq y /\ send_ack y' = send_ack y /\
    recv_ack y' = ack /\ send_seq y' = send_seq y.
Proof.
  intros Hx Hy T Hv Hw Hlt.
  destruct (send_bare (FAck x ack) p y m) as (m' & k & E & W & V); [|exact Hv|done|].
  { apply conn_header_plain; auto with usn; apply Hx. }
  rewrite (incoming_pure_ack y _ s) in E by (first [exact T|reflexivity]).
  change (ack_num (received (frame_header (FAck x ack)) k)) with ack in E.
  rewrite (proj2 (Z.leb_gt ack (recv_ack y)) Hlt) in E.
  do 2 eexists. split; [exact E|]. split; [done|]. split; [|done].
  apply conn_ok_set_state, conn_ok_set_recv_ack; [by apply conn_ok_window|done].
Qed.

(** C15: The graceful close through the wire code: two established endpoints
    that are synchronised and whose sequence numbers do not wrap end with the
    initiator in TIME_WAIT and the other side CLOSED, each having consumed
    exactly the FIN of its peer. *)
Theorem graceful_close a b p m :
  conn_ok a -> conn_ok b -> state a = ESTABLISHED -> state b = ESTABLISHED ->
  recv_seq a = send_seq b -> recv_ack a <= send_seq a -> send_seq a < 2 ^ 32 - 1 ->
  send_seq b < 2 ^ 32 - 1 -> valid m p 20 ->
  exists a' b' m', teardown a b p m = Some ((a', b'), m') /\
    state a' = TIME_WAIT /\ state b' = CLOSED /\
    recv_seq a' = send_seq b + 1 /\ recv_seq b' = send_seq a + 1.
Proof.
  intros Ha Hb Ea Eb Hsync Hra Hwa Hwb Hv.
  assert (u32 (send_seq a + 1) = send_seq a + 1 /\ u32 (send_seq b + 1) = send_seq b + 1)
    as [Ua Ub] by (destruct (ok_send_seq a Ha), (ok_send_seq b Hb);
                   split; apply wrap_small; unfold in_width; lia).
  unfold teardown. rewrite (initiate_close_from a _ Ea) by auto.
  set (a1 := set_state a FIN_WAIT_1).
  assert (conn_ok a1) as Ha1 by by apply conn_ok_set_state.
  destruct (send_fin a1 b p m CLOSE_WAIT)
    as (b1 & m1 & E1 & V1 & Hb1 & Sb1 & Rb1 & Ab1 & Kb1 & Nb1); [done|done|by rewrite Eb|done|].
  change (send_seq a1) with (send_seq a) in *. change (recv_seq a1) with (recv_seq a) in *.
  destruct (send_ack_to b1 a1 (send_ack b1) p m1 FIN_WAIT_2)
    as (a2 & m2 & E2 & V2 & Ha2 & Sa2 & Ra2 & Aa2 & Ka2 & Na2);
    [done|done|done|done|apply Hb1|change (recv_ack a1) with (recv_ack a); lia|].
  assert (conn_ok (set_state b1 LAST_ACK)) as Hb2 by by apply conn_ok_set_state.
  destruct (send_fin (set_state b1 LAST_ACK) a2 p m2 TIME_WAIT)
    as (a3 & m3 & E3 & V3 & Ha3 & Sa3 & Ra3 & Aa3 & Ka3 & Na3); [done|done|by rewrite Sa2|done|].
  change (send_seq (set_state b1 LAST_ACK)) with (send_seq b1) in *.
  destruct (send_ack_to a3 (set_state b1 LAST_ACK) (send_ack a3) p m3 CLOSED)
    as (b4 & m4 & E4 & V4 & Hb4 & Sb4 & Rb4 & Ab4 & Kb4 & Nb4);
    [done|done|done|done|apply Ha3|cbn [recv_ack set_state]; rewrite Aa3, Nb1; lia|].
  exists a3, b4, m4. split.
  { eapply bind_run; [exact E1|]. eapply bind_run; [exact E2|].
    rewrite (initiate_close_from b1 CLOSE_WAIT) by auto.
    eapply bind_run; [exact E3|]. by eapply bind_run; [exact E4|]. }
  split_and!; [done|done| |].
  - by rewrite Ra3, Nb1.
  - rewrite Rb4. cbn [recv_seq set_state]. by rewrite Rb1.
Qed.

(** What a data segment does to an established connection: the payload
    advances the receive sequence only when it is exactly in order and its
    acknowledgment number exceeds the recorded one; with a repeated
    acknowledgment, in-order payload is dropped without being acknowledged. *)
Theorem data_segment_effect c h n :
  state c = ESTABLISHED -> has_syn h = false -> has_ack h = true -> has_fin h = false ->
  0 < n ->
  exists c', handle_incoming c h n = (true, c') /\ state c' = ESTABLISHED /\
    (recv_seq c', send_ack c') =
      (if (recv_ack c <? ack_num h) && (seq_num h =? recv_seq c)
       then (u32 (recv_seq c + u32 n), u32 (recv_seq c + u32 n))
       else (recv_seq c, send_ack c)) /\
    recv_ack c' = Z.max (recv_ack c) (ack_num h).
Proof.
  intros E Y A F Hn.
  unfold handle_incoming, incoming_ack, incoming_payload, incoming_fin. rewrite Y, A, F.
  cbn zeta. cbn [recv_ack on_window_update negb]. rewrite andb_true_r, Z.leb_antisym.
  destruct (Z.ltb_spec (recv_ack c) (ack_num h)); cbn [negb].
  - change (state (set_recv_ack (on_window_update c (window h)) (ack_num h))) with (state c).
    rewrite E. repeat (rewrite bool_decide_eq_false_2 by done).
    destruct (Z.ltb_spec 0 n); [|lia]. cbn [andb recv_seq set_recv_ack on_window_update].
    destruct (seq_num h =? recv_seq c); [|destruct (seq_num h <? recv_seq c)];
      eexists; (split; [reflexivity|]); cbn; split_and!; (done || lia).
  - eexists. split; [reflexivity|]. cbn [andb]. cbn. split_and!; (done || lia).
Qed.

(** A FIN that also acknowledges new data, received in FIN_WAIT_1, moves to
    TIME_WAIT but is not itself consumed: neither the receive sequence nor the
    number to acknowledge advances past it; the same segment in FIN_WAIT_2
    advances both. *)
Theorem fin_ack_in_fin_wait c h :
  has_syn h = false -> has_ack h = true -> has_fin h = true -> in_width 32 h.(seq_num) ->
  (state c = FIN_WAIT_1 ->
     state (snd (handle_incoming c h 0)) = TIME_WAIT /\
     recv_seq (snd (handle_incoming c h 0)) = recv_seq c /\
     send_ack (snd (handle_incoming c h 0)) = send_ack c) /\
  (state c = FIN_WAIT_2 ->
     state (snd (handle_incoming c h 0)) = TIME_WAIT /\
     recv_seq (snd (handle_incoming c h 0)) = u32 (seq_num h + 1) /\
     send_ack (snd (handle_incoming c h 0)) = u32 (seq_num h + 1)).
Proof.
  intros Y A F W. split; intros E.
  - unfold handle_incoming, incoming_ack. rewrite Y, A, F. cbn zeta.
    cbn [negb]. rewrite andb_false_r.
    change (state (set_recv_ack (on_window_update c (window h)) (ack_num h))) with (state c).
    rewrite E, bool_decide_eq_false_2, bool_decide_eq_true_2 by done.
    by rewrite transition_state_legal by (cbn; by rewrite E).
  - rewrite (incoming_fin_ack c h TIME_WAIT) by (rewrite ?E; done). done.
Qed.

(** A keepalive is due exactly when at least the interval, and at least one
    millisecond, has passed; the frame sent then is an empty acknowledgment of
    the current receive position that leaves the peer's lifecycle as a
    non-advancing ACK does. *)
Theorem keepalive_behaviour conn peer now last_ms interval p m :
  conn_ok conn -> in_width 64 now -> in_width 64 last_ms -> valid m p 20 ->
  recv_ack peer = send_ack conn -> state peer = ESTABLISHED ->
  (should_send_keepalive now last_ms interval = true <->
     Z.max 1 interval <= now - last_ms) /\
  exists m' k, create_keepalive conn p m = Some (Packet_new p 20 0, m') /\
    parse (Packet_new p 20 0) no_out m' =
      Some ((true, mkParsed (received (conn_header conn (send_seq conn) (send_ack conn) 16) k)
                            (p + 20) 0), m') /\
    snd (handle_incoming peer (received (conn_header conn (send_seq conn) (send_ack conn) 16) k) 0) =
      on_window_update peer (256 * (window_size conn / 256) + k / 256).
Proof.
  intros Hc Hn Hl Hv Hra Es. split.
  - unfold should_send_keepalive. rewrite andb_true_iff, Z.ltb_lt, Z.leb_le.
    unfold in_width in *. split.
    + intros [? H]. rewrite wrap_small in H by (unfold in_width; lia). lia.
    + intros. rewrite wrap_small by (unfold in_width; lia). lia.
  - assert (frame_ok (FAck conn (send_ack conn)) m p) as Hf.
    { apply bare_ok; [|done|done]. apply conn_header_plain; auto with usn; apply Hc. }
    destruct (build_fills _ m p Hf) as (m' & E & F).
    pose proof (parse_wire_run _ p no_out m' (proj1 Hf) (frame_payload_bytes _ m p Hf) (proj1 F)) as Hp.
    do 2 eexists. split; [exact E|]. split; [exact Hp|].
    cbn [frame_header]. unfold handle_incoming, incoming_ack.
    set (h := received _ _). change (has_syn h) with false. change (has_ack h) with true.
    change (has_fin h) with false. cbn zeta.
    change (ack_num h) with (send_ack conn). cbn [recv_ack on_window_update].
    by rewrite Hra, Z.leb_refl.
Qed.

(** ** Witnesses *)
Definition demo_peer : TcpConnection :=
  mkTcpConnection 16777343 16777343 9000 9101 500 1 0 0 CLOSED 65535 65535 65535.
Definition demo_est (c : TcpConnection) (rs : Z) : TcpConnection :=
  set_state (set_recv_seq c rs) ESTABLISHED.
Definition demo_data : TcpHeader := mkTcpHeader 9101 9000 500 7 5 0 24 100 0 0.
Definition demo_fin : TcpHeader := mkTcpHeader 9101 9000 500 7 5 0 17 100 0 0.
Definition demo_buf : mem := alloc ∅ 100 (replicate 20 0).

Lemma demo_peer_ok : conn_ok demo_peer.
Proof. split; unfold in_width; simpl; lia. Qed.

Lemma demo_buf_valid : valid demo_buf 100 20.
Proof. apply read_bytes_valid. eexists. vm_compute. reflexivity. Qed.

Ltac concrete := first [exact demo_peer_ok | exact demo_conn_ok | exact demo_buf_valid
  | apply conn_ok_set_state, conn_ok_set_recv_seq; [first [exact demo_peer_ok|exact demo_conn_ok]|]
  | reflexivity | discriminate | idtac].

(** Two acknowledgments that arrive in the wrong order. *)
Lemma acknowledgments_only_advance_witness :
  recv_ack (run_events [segment 16 9; segment 16 7] (demo_est demo_peer 1)) = 9.
Proof.
  rewrite (proj1 (acknowledgments_only_advance [segment 16 9; segment 16 7] (demo_est demo_peer 1) ltac:(reflexivity))).
  reflexivity.
Defined.

Lemma closed_absorbs_traffic_witness :
  state (run_events [Incoming demo_data 10; InitiateClose] demo_peer) = CLOSED /\
  (state (snd (transition_state (run_events [Incoming demo_data 10; InitiateClose] demo_peer)
                 SYN_SENT)) <> CLOSED <-> SYN_SENT = LISTEN \/ SYN_SENT = SYN_SENT).
Proof. apply (closed_absorbs_traffic [Incoming demo_data 10; InitiateClose] demo_peer). reflexivity. Defined.

Lemma lifecycle_never_reverts_witness :
  exists es, visited (set_state demo_peer LISTEN) es =
    [LISTEN; SYN_RECEIVED; ESTABLISHED; CLOSE_WAIT; LAST_ACK; CLOSED].
Proof.
  destruct (proj2 (lifecycle_never_reverts (set_state demo_peer LISTEN)) ltac:(reflexivity)) as (_ & _ & _ & H).
  destruct (H ltac:(cbn; lia) [SYN_RECEIVED; ESTABLISHED; CLOSE_WAIT; LAST_ACK; CLOSED]) as (es & _ & E);
    [cbn; set_solver|]. exists es. exact E.
Defined.

Lemma three_way_handshake_witness :
  exists client' server' m', handshake demo_conn demo_peer 100 demo_buf = Some ((client', server'), m') /\
    state client' = ESTABLISHED /\ recv_seq client' = u32 (500 + 1) /\
    recv_seq server' = u32 (1 + 1) /\ send_ack server' = recv_seq server' /\
    send_ack client' = u32 (1 + 1) /\
    state server' = (if 0 <? u32 (500 + 1) then ESTABLISHED else SYN_RECEIVED).
Proof. apply (three_way_handshake demo_conn demo_peer 100 demo_buf); concrete. Defined.

Lemma graceful_close_witness :
  exists a' b' m', teardown (demo_est demo_conn 500) (demo_est demo_peer 1) 100 demo_buf =
      Some ((a', b'), m') /\
    state a' = TIME_WAIT /\ state b' = CLOSED /\ recv_seq a' = 500 + 1 /\ recv_seq b' = 1 + 1.
Proof.
  apply (graceful_close (demo_est demo_conn 500) (demo_est demo_peer 1) 100 demo_buf); concrete;
    split; (discriminate || reflexivity).
Defined.

Lemma data_segment_effect_witness :
  exists c', handle_incoming (demo_est demo_peer 500) demo_data 10 = (true, c') /\
    state c' = ESTABLISHED /\ (recv_seq c', send_ack c') = (u32 (500 + u32 10), u32 (500 + u32 10)) /\
    recv_ack c' = Z.max 0 7.
Proof. apply (data_segment_effect (demo_est demo_peer 500) demo_data 10); reflexivity. Defined.

Lemma fin_ack_in_fin_wait_witness :
  (FIN_WAIT_1 = FIN_WAIT_1 ->
     state (snd (handle_incoming (set_state demo_peer FIN_WAIT_1) demo_fin 0)) = TIME_WAIT /\
     recv_seq (snd (handle_incoming (set_state demo_peer FIN_WAIT_1) demo_fin 0)) = 1 /\
     send_ack (snd (handle_incoming (set_state demo_peer FIN_WAIT_1) demo_fin 0)) = 0) /\
  (FIN_WAIT_1 = FIN_WAIT_2 ->
     state (snd (handle_incoming (set_state demo_peer FIN_WAIT_1) demo_fin 0)) = TIME_WAIT /\
     recv_seq (snd (handle_incoming (set_state demo_peer FIN_WAIT_1) demo_fin 0)) = u32 (500 + 1) /\
     send_ack (snd (handle_incoming (set_state demo_peer FIN_WAIT_1) demo_fin 0)) = u32 (500 + 1)).
Proof.
  apply (fin_ack_in_fin_wait (set_state demo_peer FIN_WAIT_1) demo_fin); try reflexivity.
  split; (discriminate || reflexivity).
Defined.

Lemma keepalive_behaviour_witness :
  (should_send_keepalive 900 100 500 = true <-> Z.max 1 500 <= 900 - 100) /\
  exists m' k, create_keepalive demo_conn 100 demo_buf = Some (Packet_new 100 20 0, m') /\
    parse (Packet_new 100 20 0) no_out m' =
      Some ((true, mkParsed (received (conn_header demo_conn 1 0 16) k) (100 + 20) 0), m') /\
    snd (handle_incoming (demo_est demo_peer 1) (received (conn_header demo_conn 1 0 16) k) 0) =
      on_window_update (demo_est demo_peer 1) (256 * (65535 / 256) + k / 256).
Proof.
  apply (keepalive_behaviour demo_conn (demo_est demo_peer 1) 900 100 500 100 demo_buf); concrete;
    split; (discriminate || reflexivity).
Defined.
