(* ===== verification/Fifo.v ===== *)
(** * Fifo: the contract of a bounded first-in first-out queue

    [PacketRing] and [MpscQueue] promise the same thing to their clients when one
    thread uses them: a bounded queue.  The contract is a class over the queue's
    representation; its laws are proved once per implementation, and the
    clients' theorems use the laws only.  Positions are 64-bit counters that the
    implementations compare as integers, so a queue has a [budget], the number
    of elements it can still accept before its counters wrap. *)
From S2P Require Import Prelude.

Class BoundedFifo (Q A : Type) := {
  fifo_inv : Q -> Prop;
  fifo_contents : Q -> list A;
  fifo_capacity : Q -> Z;
  fifo_budget : Q -> Z;
  fifo_push : A -> Q -> option (bool * Q);
  fifo_pop : Q -> option (option A * Q);
  fifo_bounded : forall q, fifo_inv q -> Z.of_nat (length (fifo_contents q)) <= fifo_capacity q;
  fifo_push_full : forall q x, fifo_inv q ->
    Z.of_nat (length (fifo_contents q)) = fifo_capacity q -> fifo_push x q = Some (false, q);
  fifo_push_ok : forall q x, fifo_inv q -> 0 < fifo_budget q ->
    Z.of_nat (length (fifo_contents q)) < fifo_capacity q ->
    exists q', fifo_push x q = Some (true, q') /\ fifo_inv q' /\
      fifo_contents q' = fifo_contents q ++ [x] /\ fifo_capacity q' = fifo_capacity q /\
      fifo_budget q' = fifo_budget q - 1;
  fifo_pop_empty : forall q, fifo_inv q -> fifo_contents q = [] -> fifo_pop q = Some (None, q);
  fifo_pop_ok : forall q x l, fifo_inv q -> fifo_contents q = x :: l ->
    exists q', fifo_pop q = Some (Some x, q') /\ fifo_inv q' /\ fifo_contents q' = l /\
      fifo_capacity q' = fifo_capacity q /\ fifo_budget q' = fifo_budget q;
}.

(** ** Client programs of a queue *)
Section Clients.
Context {Q A : Type} `{!BoundedFifo Q A}.
Implicit Types q : Q.

(** Push elements until the queue refuses one; the number accepted. *)
Fixpoint push_all (xs : list A) (q : Q) : option (nat * Q) :=
  match xs with
  | [] => Some (0%nat, q)
  | x :: xs =>
      match fifo_push x q with
      | Some (true, q') => prod_map S id <$> push_all xs q'
      | Some (false, q') => Some (0%nat, q')
      | None => None
      end
  end.

(** Pop up to [n] elements. *)
Fixpoint pop_upto (n : nat) (q : Q) : option (list A * Q) :=
  match n with
  | O => Some ([], q)
  | S n =>
      match fifo_pop q with
      | Some (Some x, q') => prod_map (cons x) id <$> pop_upto n q'
      | Some (None, q') => Some ([], q')
      | None => None
      end
  end.

Lemma push_all_spec xs q :
  fifo_inv q -> Z.of_nat (length xs) <= fifo_budget q ->
  exists q', let n := Nat.min (length xs)
                 (Z.to_nat (fifo_capacity q - Z.of_nat (length (fifo_contents q)))) in
    push_all xs q = Some (n, q') /\ fifo_inv q' /\
    fifo_contents q' = fifo_contents q ++ take n xs /\ fifo_capacity q' = fifo_capacity q /\
    fifo_budget q' = fifo_budget q - Z.of_nat n.
Proof.
  revert q. induction xs as [|x xs IH]; intros q Hq Hb; cbn [push_all length].
  { exists q. cbn. rewrite app_nil_r. split_and!; (done || lia). }
  pose proof (fifo_bounded q Hq) as Hc.
  destruct (decide (Z.of_nat (length (fifo_contents q)) = fifo_capacity q)) as [E|E].
  { exists q. rewrite fifo_push_full by done.
    replace (Z.to_nat (fifo_capacity q - Z.of_nat (length (fifo_contents q)))) with 0%nat by lia.
    rewrite Nat.min_0_r, take_0, app_nil_r. split_and!; (done || lia). }
  destruct (fifo_push_ok q x Hq) as (q1 & E1 & H1 & C1 & K1 & B1); [cbn in Hb; lia|lia|].
  destruct (IH q1 H1) as (q2 & E2 & H2 & C2 & K2 & B2); [cbn in Hb; lia|].
  exists q2. rewrite E1, E2. cbn [fmap option_fmap option_map prod_map fst snd id].
  set (k := Z.to_nat (fifo_capacity q - Z.of_nat (length (fifo_contents q)))).
  assert (Z.to_nat (fifo_capacity q1 - Z.of_nat (length (fifo_contents q1))) = (k - 1)%nat) as Ek.
  { rewrite K1, C1, length_app. cbn. lia. }
  rewrite Ek in *.
  replace (Nat.min (S (length xs)) k) with (S (Nat.min (length xs) (k - 1))) by lia.
  split_and!; [done|done| |congruence|lia].
  rewrite C2, C1, <- app_assoc. done.
Qed.

Lemma pop_upto_spec n q :
  fifo_inv q ->
  exists q', pop_upto n q = Some (take n (fifo_contents q), q') /\ fifo_inv q' /\
    fifo_contents q' = drop n (fifo_contents q) /\ fifo_capacity q' = fifo_capacity q /\
    fifo_budget q' = fifo_budget q.
Proof.
  revert q. induction n as [|n IH]; intros q Hq; cbn [pop_upto].
  { exists q. done. }
  destruct (fifo_contents q) as [|x l] eqn:E.
  { exists q. rewrite fifo_pop_empty by done. cbn. done. }
  destruct (fifo_pop_ok q x l Hq E) as (q1 & E1 & H1 & C1 & K1 & B1).
  destruct (IH q1 H1) as (q2 & E2 & H2 & C2 & K2 & B2).
  exists q2. rewrite E1, E2. cbn. rewrite C1 in *.
  split_and!; (done || congruence).
Qed.

(** What goes in comes out, in order, whatever the implementation. *)
Lemma push_all_pop_all xs q :
  fifo_inv q -> fifo_contents q = [] -> Z.of_nat (length xs) <= fifo_budget q ->
  Z.of_nat (length xs) <= fifo_capacity q ->
  exists q1 q2, push_all xs q = Some (length xs, q1) /\
    pop_upto (length xs) q1 = Some (xs, q2) /\ fifo_contents q2 = [].
Proof.
  intros Hq E Hb Hc.
  destruct (push_all_spec xs q Hq Hb) as (q1 & E1 & H1 & C1 & _). cbv zeta in *.
  rewrite E in *. cbn [length] in *. rewrite Z.sub_0_r in *.
  rewrite Nat.min_l in * by lia. rewrite firstn_all in C1. cbn [app] in C1.
  destruct (pop_upto_spec (length xs) q1 H1) as (q2 & E2 & H2 & C2 & _).
  rewrite C1, firstn_all in *. rewrite drop_all in C2. exists q1, q2. done.
Qed.
End Clients.
