(* ===== verification/RingSlots.v ===== *)
(** * RingSlots: windows of a circular buffer

    Both queues keep their elements in a vector of [2^k] slots and address the
    slot of position [pos] with [pos & mask].  The elements between two
    positions form a window; this file has its lemmas once for both. *)
From S2P Require Import Prelude BitOps.

Section Window.
Context {A : Type} `{!Inhabited A}.
Implicit Types l : list A.

(** The [n] elements from position [s] on, in a buffer of capacity [cap]. *)
Definition slot l (cap pos : Z) : A := l !!! Z.to_nat (pos mod cap).
Definition window l (cap s : Z) (n : nat) : list A :=
  (fun i => slot l cap (s + Z.of_nat i)) <$> seq 0 n.

Lemma window_0 l cap s : window l cap s 0 = [].
Proof. done. Qed.

Lemma length_window l cap s n : length (window l cap s n) = n.
Proof. unfold window. by rewrite length_fmap, length_seq. Qed.

Lemma window_snoc l cap s n :
  window l cap s (S n) = window l cap s n ++ [slot l cap (s + Z.of_nat n)].
Proof. unfold window. by rewrite seq_S, fmap_app. Qed.

Lemma window_cons l cap s n :
  window l cap s (S n) = slot l cap s :: window l cap (s + 1) n.
Proof.
  unfold window. cbn [seq fmap list_fmap]. rewrite Z.add_0_r. f_equal.
  rewrite <- fmap_S_seq, <- list_fmap_compose. apply list_fmap_ext. intros i x _. cbn.
  f_equal. lia.
Qed.

Lemma window_lookup l cap s n i :
  (i < n)%nat -> window l cap s n !! i = Some (slot l cap (s + Z.of_nat i)).
Proof. intros. unfold window. by rewrite list_lookup_fmap, lookup_seq_lt. Qed.

Lemma slot_insert_eq l cap p x :
  0 < cap -> cap <= Z.of_nat (length l) -> slot (<[Z.to_nat (p mod cap) := x]> l) cap p = x.
Proof.
  intros. unfold slot. apply list_lookup_total_insert_eq.
  pose proof (Z.mod_pos_bound p cap). lia.
Qed.

(** Positions less than a capacity apart have different slots. *)
Lemma slot_insert_ne l cap p q x :
  0 < cap -> 0 < Z.abs (p - q) < cap -> slot (<[Z.to_nat (p mod cap) := x]> l) cap q = slot l cap q.
Proof.
  intros Hc Hpq. unfold slot. apply list_lookup_total_insert_ne. intros E.
  pose proof (Z.mod_pos_bound p cap Hc). pose proof (Z.mod_pos_bound q cap Hc).
  apply Z2Nat.inj in E; [|lia..].
  assert (p - Z.min p q = q - Z.min p q); [|lia].
  apply (mod_window_inj cap (Z.min p q)); [lia..|].
  by replace (Z.min p q + (p - Z.min p q)) with p by lia;
    replace (Z.min p q + (q - Z.min p q)) with q by lia.
Qed.

Lemma window_ext l l' cap s n :
  (forall i, (i < n)%nat -> slot l' cap (s + Z.of_nat i) = slot l cap (s + Z.of_nat i)) ->
  window l' cap s n = window l cap s n.
Proof.
  intros H. unfold window. apply list_fmap_ext. intros i x Hx. apply lookup_seq in Hx as [-> Hi].
  by apply H.
Qed.

Lemma window_insert_out l cap s n p x :
  0 < cap -> s + Z.of_nat n <= p < s + cap \/ s + Z.of_nat n - cap <= p < s ->
  window (<[Z.to_nat (p mod cap) := x]> l) cap s n = window l cap s n.
Proof.
  intros Hc Hp. apply window_ext. intros i Hi. apply slot_insert_ne; [done|]. lia.
Qed.
End Window.
