(* ===== verification/PacketRing.v ===== *)
(** * PacketRing: the single-producer single-consumer ring (core/packet_ring.hpp)

    The two atomic positions are 64-bit counters that only grow; the slot of a
    position is [pos & mask].  Operations are the sequential effect of one call;
    [PacketRingSpsc] interleaves the producer's and the consumer's accesses. *)
From S2P Require Import Prelude BitOps Memory Packet Fifo RingSlots.

Record PacketRing := mkPacketRing {
  capacity_ : Z;
  mask_ : Z;
  write_pos_ : Z;
  read_pos_ : Z;
  packets_ : list Packet;
}.

(** The constructor: every slot is constructed and reset. *)
Definition PacketRing_new (capacity : Z) : PacketRing :=
  let cap := round_up_power_of_two capacity in
  mkPacketRing cap (u64 (cap - 1)) 0 0
    (map reset (replicate (Z.to_nat cap) Packet_default)).

Definition try_push (r : PacketRing) (packet : Packet) : option (bool * PacketRing) :=
  let write := r.(write_pos_) in
  let read := r.(read_pos_) in
  if r.(capacity_) <=? u64 (write - read) then Some (false, r) else
  slots ← assign r.(packets_) (Z.land write r.(mask_)) packet;
  Some (true, mkPacketRing r.(capacity_) r.(mask_) (u64 (write + 1)) read slots).

(** The copy loop of [try_push_batch] from index [i] on. *)
Fixpoint push_loop (mask write i : Z) (ps slots : list Packet) : option (list Packet) :=
  match ps with
  | [] => Some slots
  | p :: ps =>
      slots ← assign slots (Z.land (u64 (write + i)) mask) p;
      push_loop mask write (i + 1) ps slots
  end.

Definition try_push_batch (r : PacketRing) (ps : list Packet) : option (Z * PacketRing) :=
  let write := r.(write_pos_) in
  let read := r.(read_pos_) in
  let available := u64 (r.(capacity_) - u64 (write - read)) in
  let to_push := Z.min (Z.of_nat (length ps)) available in
  if to_push =? 0 then Some (0, r) else
  slots ← push_loop r.(mask_) write 0 (take (Z.to_nat to_push) ps) r.(packets_);
  Some (to_push, mkPacketRing r.(capacity_) r.(mask_) (u64 (write + to_push)) read slots).

Definition try_pop (r : PacketRing) : option (option Packet * PacketRing) :=
  let read := r.(read_pos_) in
  let write := r.(write_pos_) in
  if write <=? read then Some (None, r) else
  packet ← index r.(packets_) (Z.land read r.(mask_));
  slots ← assign r.(packets_) (Z.land read r.(mask_)) (reset packet);
  Some (Some packet, mkPacketRing r.(capacity_) r.(mask_) write (u64 (read + 1)) slots).

(** The copy loop of [try_pop_batch]: the [n] packets from index [i] on. *)
Fixpoint pop_loop (mask read i : Z) (n : nat) (slots : list Packet)
    : option (list Packet * list Packet) :=
  match n with
  | O => Some ([], slots)
  | S n =>
      p ← index slots (Z.land (u64 (read + i)) mask);
      slots ← assign slots (Z.land (u64 (read + i)) mask) (reset p);
      '(ps, slots) ← pop_loop mask read (i + 1) n slots;
      Some (p :: ps, slots)
  end.

(** [size] is the length of the caller's span; the packets written to its front
    are returned. *)
Definition try_pop_batch (r : PacketRing) (size : Z) : option (list Packet * PacketRing) :=
  let read := r.(read_pos_) in
  let write := r.(write_pos_) in
  let available := u64 (write - read) in
  let to_pop := Z.min size available in
  if to_pop =? 0 then Some ([], r) else
  '(ps, slots) ← pop_loop r.(mask_) read 0 (Z.to_nat to_pop) r.(packets_);
  Some (ps, mkPacketRing r.(capacity_) r.(mask_) write (u64 (read + to_pop)) slots).

Definition empty (r : PacketRing) : bool := r.(write_pos_) <=? r.(read_pos_).
Definition size (r : PacketRing) : Z :=
  if r.(read_pos_) <=? r.(write_pos_) then u64 (r.(write_pos_) - r.(read_pos_)) else 0.
Definition available (r : PacketRing) : Z := u64 (r.(capacity_) - size r).
Definition capacity (r : PacketRing) : Z := r.(capacity_).

(** ** Well-formed rings *)
Definition used (r : PacketRing) : nat := Z.to_nat (r.(write_pos_) - r.(read_pos_)).

Record ring_inv (r : PacketRing) : Prop := {
  ri_cap : exists k, 0 <= k <= 63 /\ r.(capacity_) = 2 ^ k;
  ri_mask : r.(mask_) = r.(capacity_) - 1;
  ri_len : Z.of_nat (length r.(packets_)) = r.(capacity_);
  ri_pos : 0 <= r.(read_pos_) <= r.(write_pos_) /\ r.(write_pos_) < 2 ^ 64 /\
           r.(write_pos_) - r.(read_pos_) <= r.(capacity_);
  (** Slots outside the window are in the reset state. *)
  ri_clean : forall p, r.(write_pos_) <= p < r.(read_pos_) + r.(capacity_) ->
             slot r.(packets_) r.(capacity_) p = Packet_default;
}.

Definition contents (r : PacketRing) : list Packet :=
  window r.(packets_) r.(capacity_) r.(read_pos_) (used r).

Lemma reset_default p : reset p = Packet_default.
Proof. done. Qed.

Lemma ri_cap_pos r : ring_inv r -> 0 < capacity_ r <= 2 ^ 63.
Proof.
  intros [(k & Hk & ->) _ _ _ _]. split; [apply Z.pow_pos_nonneg; lia|apply Z.pow_le_mono_r; lia].
Qed.

Lemma mask_slot r pos :
  ring_inv r -> 0 <= pos -> Z.land pos (mask_ r) = pos mod capacity_ r.
Proof. intros [(k & Hk & E) Hm _ _ _] Hp. rewrite Hm, E. apply land_mask. lia. Qed.

Lemma mask_in r pos :
  ring_inv r -> 0 <= pos mod capacity_ r < Z.of_nat (length (packets_ r)).
Proof. intros H. rewrite (ri_len r H). apply Z.mod_pos_bound, ri_cap_pos, H. Qed.

Lemma length_contents r : ring_inv r -> Z.of_nat (length (contents r)) = write_pos_ r - read_pos_ r.
Proof. intros H. unfold contents, used. rewrite length_window. destruct (ri_pos r H). lia. Qed.

Lemma ring_new_inv n : n <= 2 ^ 63 -> 0 <= n -> ring_inv (PacketRing_new n).
Proof.
  intros Hn H0.
  assert (exists k, 0 <= k <= 63 /\ round_up_power_of_two n = 2 ^ k) as (k & Hk & E).
  { destruct (decide (n = 0)) as [->|]; [by exists 0|].
    destruct (round_up_power_of_two_spec n) as (k & ? & ? & _); [lia|]. by exists k. }
  assert (0 < 2 ^ k <= 2 ^ 63) by
    (split; [apply Z.pow_pos_nonneg; lia|apply Z.pow_le_mono_r; lia]).
  unfold PacketRing_new. rewrite E, wrap_small by (unfold in_width; lia).
  split; cbn [capacity_ mask_ packets_ write_pos_ read_pos_].
  - by exists k.
  - done.
  - rewrite length_map, length_replicate. lia.
  - lia.
  - intros p Hp. unfold slot. apply list_lookup_total_correct.
    change (map reset) with (fmap reset : list Packet -> list Packet).
    rewrite list_lookup_fmap, lookup_replicate_2; [done|].
    pose proof (Z.mod_pos_bound p (2 ^ k)). lia.
Qed.

(** The state after publishing [x] at the write position. *)
Definition pushed (r : PacketRing) (x : Packet) : PacketRing :=
  mkPacketRing r.(capacity_) r.(mask_) (r.(write_pos_) + 1) r.(read_pos_)
    (<[Z.to_nat (r.(write_pos_) mod r.(capacity_)) := x]> r.(packets_)).

Definition popped (r : PacketRing) : PacketRing :=
  mkPacketRing r.(capacity_) r.(mask_) r.(write_pos_) (r.(read_pos_) + 1)
    (<[Z.to_nat (r.(read_pos_) mod r.(capacity_)) := Packet_default]> r.(packets_)).

Lemma try_push_run r x :
  ring_inv r -> write_pos_ r + 1 < 2 ^ 64 ->
  try_push r x =
    Some (if capacity_ r <=? write_pos_ r - read_pos_ r then (false, r) else (true, pushed r x)).
Proof.
  intros H Hw. destruct (ri_pos r H). unfold try_push.
  rewrite (wrap_small 64 (write_pos_ r - read_pos_ r)) by (unfold in_width; lia).
  destruct (capacity_ r <=? _); [done|].
  rewrite mask_slot, assign_in by (done || lia || by apply mask_in). cbn [mbind option_bind].
  by rewrite wrap_small by (unfold in_width; lia).
Qed.

Lemma try_pop_run r :
  ring_inv r ->
  try_pop r =
    Some (if write_pos_ r <=? read_pos_ r then (None, r)
          else (Some (slot (packets_ r) (capacity_ r) (read_pos_ r)), popped r)).
Proof.
  intros H. destruct (ri_pos r H). unfold try_pop. destruct (Z.leb_spec (write_pos_ r) (read_pos_ r)); [done|].
  rewrite mask_slot by (done || lia). pose proof (mask_in r (read_pos_ r) H).
  assert (index (packets_ r) (read_pos_ r mod capacity_ r) =
          Some (slot (packets_ r) (capacity_ r) (read_pos_ r))) as ->.
  { unfold index, slot. destruct (Z.ltb_spec (read_pos_ r mod capacity_ r) 0); [lia|].
    apply list_lookup_lookup_total_lt. lia. }
  cbn [mbind option_bind]. rewrite assign_in by done. cbn [mbind option_bind].
  by rewrite wrap_small by (unfold in_width; lia).
Qed.

Lemma pushed_inv r x :
  ring_inv r -> write_pos_ r + 1 < 2 ^ 64 -> write_pos_ r - read_pos_ r < capacity_ r ->
  ring_inv (pushed r x).
Proof.
  intros H Hw Hlt. pose proof (ri_cap_pos r H). destruct H as [? ? Hl Hp Hc].
  split; cbn [pushed capacity_ mask_ packets_ write_pos_ read_pos_]; [done|done| |lia|].
  - by rewrite length_insert.
  - intros p Hpp. rewrite slot_insert_ne by lia. apply Hc. lia.
Qed.

Lemma pushed_contents r x :
  ring_inv r -> write_pos_ r - read_pos_ r < capacity_ r ->
  contents (pushed r x) = contents r ++ [x].
Proof.
  intros H Hlt. pose proof (ri_cap_pos r H). destruct (ri_pos r H). unfold contents, used.
  cbn [pushed capacity_ packets_ write_pos_ read_pos_].
  replace (Z.to_nat (write_pos_ r + 1 - read_pos_ r))
    with (S (Z.to_nat (write_pos_ r - read_pos_ r))) by lia.
  rewrite window_snoc, window_insert_out by lia. do 2 f_equal.
  replace (read_pos_ r + Z.of_nat (Z.to_nat (write_pos_ r - read_pos_ r))) with (write_pos_ r) by lia.
  apply slot_insert_eq; [lia|]. rewrite (ri_len r H). lia.
Qed.

Lemma popped_inv r : ring_inv r -> read_pos_ r < write_pos_ r -> ring_inv (popped r).
Proof.
  intros H Hlt. pose proof (ri_cap_pos r H). destruct H as [? ? Hl Hp Hc].
  split; cbn [popped capacity_ mask_ packets_ write_pos_ read_pos_]; [done|done| |lia|].
  - by rewrite length_insert.
  - intros p Hpp. destruct (decide (p = read_pos_ r + capacity_ r)) as [->|].
    + unfold slot at 1.
      replace ((read_pos_ r + capacity_ r) mod capacity_ r) with (read_pos_ r mod capacity_ r).
      * apply slot_insert_eq; lia.
      * rewrite <- Zplus_mod_idemp_r, Z.mod_same, Z.add_0_r by lia. done.
    + rewrite slot_insert_ne by lia. apply Hc. lia.
Qed.

Lemma popped_contents r :
  ring_inv r -> read_pos_ r < write_pos_ r ->
  contents r = slot (packets_ r) (capacity_ r) (read_pos_ r) :: contents (popped r).
Proof.
  intros H Hlt. pose proof (ri_cap_pos r H). destruct (ri_pos r H). unfold contents, used.
  cbn [popped capacity_ packets_ write_pos_ read_pos_].
  replace (Z.to_nat (write_pos_ r - read_pos_ r))
    with (S (Z.to_nat (write_pos_ r - (read_pos_ r + 1)))) by lia.
  rewrite window_cons. f_equal. symmetry. apply window_insert_out; lia.
Qed.

(** ** The ring implements the bounded queue *)
#[global, refine] Instance PacketRing_fifo : BoundedFifo PacketRing Packet := {|
  fifo_inv := ring_inv;
  fifo_contents := contents;
  fifo_capacity := capacity_;
  fifo_budget r := 2 ^ 64 - 1 - r.(write_pos_);
  fifo_push x r := try_push r x;
  fifo_pop := try_pop;
|}.
Proof.
  - intros r H. rewrite length_contents by done. apply (ri_pos r H).
  - intros r x H E. rewrite length_contents in E by done. unfold try_push.
    pose proof (ri_cap_pos r H). rewrite wrap_small by (unfold in_width; lia).
    destruct (Z.leb_spec (capacity_ r) (write_pos_ r - read_pos_ r)); [done|lia].
  - intros r x H Hb E. rewrite length_contents in E by done. exists (pushed r x).
    rewrite try_push_run by (done || lia).
    destruct (Z.leb_spec (capacity_ r) (write_pos_ r - read_pos_ r)); [lia|].
    split_and!; [done| | |done|cbn [pushed write_pos_]; lia].
    + apply pushed_inv; (done || lia).
    + apply pushed_contents; (done || lia).
  - intros r H E. apply (f_equal (fun l => Z.of_nat (length l))) in E.
    rewrite length_contents in E by done. cbn in E. rewrite try_pop_run by done.
    destruct (Z.leb_spec (write_pos_ r) (read_pos_ r)); [done|lia].
  - intros r x l H E.
    assert (read_pos_ r < write_pos_ r).
    { apply (f_equal (fun l => Z.of_nat (length l))) in E.
      rewrite length_contents in E by done. cbn in E. lia. }
    exists (popped r). rewrite try_pop_run by done. rewrite popped_contents in E by done.
    destruct (Z.leb_spec (write_pos_ r) (read_pos_ r)); [lia|].
    injection E as -> ->. split_and!; [done|by apply popped_inv|done|done|done].
Defined.

(** ** Batches are iterated single operations *)
Definition pushed_many (r : PacketRing) (ps : list Packet) : PacketRing := foldl pushed r ps.

Fixpoint popped_many (r : PacketRing) (n : nat) : PacketRing :=
  match n with O => r | S n => popped_many (popped r) n end.

Lemma pushed_many_fields ps r :
  capacity_ (pushed_many r ps) = capacity_ r /\ mask_ (pushed_many r ps) = mask_ r /\
  write_pos_ (pushed_many r ps) = write_pos_ r + Z.of_nat (length ps) /\
  read_pos_ (pushed_many r ps) = read_pos_ r.
Proof.
  unfold pushed_many. revert r. induction ps as [|p ps IH]; intros r; cbn [foldl length].
  - split_and!; (done || lia).
  - destruct (IH (pushed r p)) as (-> & -> & -> & ->).
    cbn [pushed capacity_ mask_ write_pos_ read_pos_]. split_and!; (done || lia).
Qed.

Lemma push_loop_run ps r write i :
  ring_inv r -> 0 <= write -> 0 <= i -> write_pos_ r = write + i ->
  write_pos_ r + Z.of_nat (length ps) < 2 ^ 64 ->
  write_pos_ r - read_pos_ r + Z.of_nat (length ps) <= capacity_ r ->
  push_loop (mask_ r) write i ps (packets_ r) = Some (packets_ (pushed_many r ps)).
Proof.
  unfold pushed_many.
  revert r i. induction ps as [|p ps IH]; intros r i H Hw Hi E Hb Hc; [done|].
  cbn [push_loop foldl length] in *. rewrite <- E.
  rewrite wrap_small by (unfold in_width; lia).
  rewrite mask_slot by (done || lia). rewrite assign_in by by apply mask_in.
  cbn [mbind option_bind].
  apply (IH (pushed r p)); cbn [pushed write_pos_ read_pos_ capacity_]; try lia.
  apply pushed_inv; (done || lia).
Qed.

(** Pushing one by one until the ring is full. *)
Lemma push_all_run ps r :
  ring_inv r -> write_pos_ r + Z.of_nat (length ps) < 2 ^ 64 ->
  let n := Nat.min (length ps) (Z.to_nat (capacity_ r - (write_pos_ r - read_pos_ r))) in
  push_all ps r = Some (n, pushed_many r (take n ps)).
Proof.
  revert r. induction ps as [|p ps IH]; intros r H Hb; cbv zeta; cbn [push_all length] in *;
    [done|].
  change (fifo_push p r) with (try_push r p). rewrite try_push_run by (done || lia).
  destruct (ri_pos r H). destruct (Z.leb_spec (capacity_ r) (write_pos_ r - read_pos_ r)).
  - replace (capacity_ r - (write_pos_ r - read_pos_ r)) with 0 by lia. done.
  - assert (ring_inv (pushed r p)) as Hp by (apply pushed_inv; (done || lia)).
    rewrite (IH (pushed r p) Hp) by (cbn [pushed write_pos_]; lia).
    cbn [pushed write_pos_ read_pos_ capacity_].
    replace (Z.to_nat (capacity_ r - (write_pos_ r - read_pos_ r)))
      with (S (Z.to_nat (capacity_ r - (write_pos_ r + 1 - read_pos_ r)))) by lia.
    done.
Qed.

(** [try_push_batch] is exactly as many single [try_push] calls as succeed:
    same number accepted, same ring afterwards. *)
Lemma push_batch_iterates r ps :
  ring_inv r -> write_pos_ r + Z.of_nat (length ps) < 2 ^ 64 ->
  exists n r', push_all ps r = Some (n, r') /\ try_push_batch r ps = Some (Z.of_nat n, r') /\
    ring_inv r' /\ contents r' = contents r ++ take n ps /\
    n = Nat.min (length ps) (Z.to_nat (capacity r) - length (contents r)).
Proof.
  intros H Hb. pose proof (ri_cap_pos r H). destruct (ri_pos r H) as [? [? ?]].
  pose proof (length_contents r H) as Hlen.
  destruct (push_all_spec (BoundedFifo0 := PacketRing_fifo) ps r H) as (r' & E & H' & C' & _);
    [cbn [fifo_budget PacketRing_fifo]; lia|].
  pose proof (push_all_run ps r H Hb) as E2. cbv zeta in E, E2, C'.
  cbn [fifo_capacity fifo_contents PacketRing_fifo] in *. rewrite E in E2. injection E2 as En Er.
  set (n := Nat.min (length ps) (Z.to_nat (capacity_ r - Z.of_nat (length (contents r))))) in *.
  exists n, r'. split; [done|]. split; [|split_and!; [done|done|unfold n, capacity; lia]].
  unfold try_push_batch.
  rewrite (wrap_small 64 (write_pos_ r - read_pos_ r)) by (unfold in_width; lia).
  rewrite wrap_small by (unfold in_width; lia).
  replace (Z.min _ _) with (Z.of_nat n) by lia. rewrite <- En in Er.
  destruct (Z.eqb_spec (Z.of_nat n) 0) as [E0|].
  { replace n with 0%nat in Er |- * by lia. by rewrite Er. }
  rewrite Nat2Z.id, (push_loop_run _ r _ 0); try (lia || done).
  - cbn [mbind option_bind]. subst r'.
    destruct (pushed_many_fields (take n ps) r) as (Ec & Em & Ew & Ert).
    rewrite wrap_small by (unfold in_width; lia).
    destruct (pushed_many r (take n ps)); cbn in *. rewrite length_take in Ew.
    do 2 f_equal. f_equal; (done || lia).
  - rewrite length_take. lia.
  - rewrite length_take. lia.
Qed.

Lemma pop_loop_run n r read i :
  ring_inv r -> 0 <= read -> 0 <= i -> read_pos_ r = read + i ->
  Z.of_nat n <= write_pos_ r - read_pos_ r ->
  pop_loop (mask_ r) read i n (packets_ r) =
    Some (take n (contents r), packets_ (popped_many r n)).
Proof.
  revert r i. induction n as [|n IH]; intros r i H Hr Hi E Hn; cbn [pop_loop popped_many]; [done|].
  destruct (ri_pos r H). rewrite <- E, wrap_small by (unfold in_width; lia).
  pose proof (try_pop_run r H) as Hp. unfold try_pop in Hp.
  destruct (Z.leb_spec (write_pos_ r) (read_pos_ r)); [lia|].
  destruct (index (packets_ r) (Z.land (read_pos_ r) (mask_ r))) as [x|]; [|done].
  cbn [mbind option_bind] in *.
  destruct (assign (packets_ r) (Z.land (read_pos_ r) (mask_ r)) (reset x)) as [sl|]; [|done].
  cbn [mbind option_bind] in *. injection Hp as Ex _ Es. rewrite Ex, Es.
  rewrite (popped_contents r) by (done || lia). cbn [firstn].
  change (<[_ := Packet_default]> (packets_ r)) with (packets_ (popped r)).
  change (mask_ r) with (mask_ (popped r)).
  rewrite (IH (popped r)); [done|apply popped_inv; (done || lia)| | | |];
    cbn [popped read_pos_ write_pos_]; lia.
Qed.

Lemma popped_many_fields n r :
  capacity_ (popped_many r n) = capacity_ r /\ mask_ (popped_many r n) = mask_ r /\
  write_pos_ (popped_many r n) = write_pos_ r /\
  read_pos_ (popped_many r n) = read_pos_ r + Z.of_nat n.
Proof.
  revert r. induction n as [|n IH]; intros r; cbn [popped_many].
  - split_and!; (done || lia).
  - destruct (IH (popped r)) as (-> & -> & -> & ->).
    cbn [popped capacity_ mask_ write_pos_ read_pos_]. split_and!; (done || lia).
Qed.

Lemma pop_upto_run n r :
  ring_inv r ->
  pop_upto n r = Some (take n (contents r),
    popped_many r (Nat.min n (Z.to_nat (write_pos_ r - read_pos_ r)))).
Proof.
  revert r. induction n as [|n IH]; intros r H; cbn [pop_upto]; [done|].
  change (fifo_pop r) with (try_pop r). rewrite try_pop_run by done. destruct (ri_pos r H).
  destruct (Z.leb_spec (write_pos_ r) (read_pos_ r)).
  - unfold contents, used. replace (write_pos_ r - read_pos_ r) with 0 by lia. done.
  - assert (ring_inv (popped r)) as Hp by (apply popped_inv; (done || lia)).
    rewrite (IH _ Hp), (popped_contents r) by (done || lia). cbn [popped write_pos_ read_pos_].
    replace (Z.to_nat (write_pos_ r - read_pos_ r))
      with (S (Z.to_nat (write_pos_ r - (read_pos_ r + 1)))) by lia.
    done.
Qed.

(** [try_pop_batch] is exactly that many single [try_pop] calls: the packets
    in order of insertion, and the same ring afterwards. *)
Lemma pop_batch_iterates r n :
  ring_inv r -> 0 <= n < 2 ^ 64 ->
  exists r', pop_upto (Z.to_nat n) r = Some (take (Z.to_nat n) (contents r), r') /\
    try_pop_batch r n = Some (take (Z.to_nat n) (contents r), r') /\
    ring_inv r' /\ contents r' = drop (Z.to_nat n) (contents r).
Proof.
  intros H Hn. pose proof (ri_cap_pos r H). destruct (ri_pos r H) as [? [? ?]].
  pose proof (length_contents r H) as Hlen.
  destruct (pop_upto_spec (BoundedFifo0 := PacketRing_fifo) (Z.to_nat n) r H) as (r' & E & H' & C' & _).
  pose proof (pop_upto_run (Z.to_nat n) r H) as E2.
  cbn [fifo_contents PacketRing_fifo] in *. rewrite E in E2. injection E2 as Er.
  exists r'. split_and!; [done| |done|done].
  unfold try_pop_batch.
  rewrite (wrap_small 64 (write_pos_ r - read_pos_ r)) by (unfold in_width; lia).
  destruct (Z.eqb_spec (Z.min n (write_pos_ r - read_pos_ r)) 0) as [E0|].
  { replace (Nat.min _ _) with 0%nat in Er by lia. rewrite Er. cbn [popped_many].
    destruct (decide (n = 0)) as [->|]; [done|].
    destruct (contents r); [by rewrite take_nil|cbn in Hlen; lia]. }
  rewrite (pop_loop_run _ r) by (done || lia). cbn [mbind option_bind].
  set (k := Nat.min (Z.to_nat n) (Z.to_nat (write_pos_ r - read_pos_ r))) in *.
  replace (Z.to_nat (Z.min n (write_pos_ r - read_pos_ r))) with k by lia.
  destruct (popped_many_fields k r) as (Ec & Em & Ew & Ert).
  rewrite wrap_small by (unfold in_width; lia). rewrite Er. f_equal. f_equal.
  - destruct (decide (Z.to_nat n <= length (contents r))%nat).
    + by replace k with (Z.to_nat n) by lia.
    + rewrite !take_ge by lia. done.
  - destruct (popped_many r k); cbn in *. f_equal; (done || lia).
Qed.

(** ** Refinement: any sequence of calls behaves as a bounded list *)
Inductive ring_op : Type :=
  | OpPush (p : Packet) | OpPushBatch (ps : list Packet)
  | OpPop | OpPopBatch (n : Z) | OpSize | OpAvailable | OpEmpty.

Inductive ring_out : Type :=
  | OutBool (b : bool) | OutNat (n : Z) | OutPacket (p : option Packet)
  | OutPackets (ps : list Packet).

Definition ring_call (op : ring_op) (r : PacketRing) : option (ring_out * PacketRing) :=
  match op with
  | OpPush p => prod_map OutBool id <$> try_push r p
  | OpPushBatch ps => prod_map OutNat id <$> try_push_batch r ps
  | OpPop => prod_map OutPacket id <$> try_pop r
  | OpPopBatch n => prod_map OutPackets id <$> try_pop_batch r n
  | OpSize => Some (OutNat (size r), r)
  | OpAvailable => Some (OutNat (available r), r)
  | OpEmpty => Some (OutBool (empty r), r)
  end.

(** The specification: a list of at most [cap] packets. *)
Definition spec_call (cap : Z) (op : ring_op) (l : list Packet) : ring_out * list Packet :=
  let free := (Z.to_nat cap - length l)%nat in
  match op with
  | OpPush p => if decide (free = 0)%nat then (OutBool false, l) else (OutBool true, l ++ [p])
  | OpPushBatch ps =>
      (OutNat (Z.of_nat (Nat.min (length ps) free)), l ++ take (Nat.min (length ps) free) ps)
  | OpPop => (OutPacket (head l), tail l)
  | OpPopBatch n => (OutPackets (take (Z.to_nat n) l), drop (Z.to_nat n) l)
  | OpSize => (OutNat (Z.of_nat (length l)), l)
  | OpAvailable => (OutNat (cap - Z.of_nat (length l)), l)
  | OpEmpty => (OutBool (bool_decide (l = [])), l)
  end.

Fixpoint ring_calls (ops : list ring_op) (r : PacketRing) : option (list ring_out * PacketRing) :=
  match ops with
  | [] => Some ([], r)
  | op :: ops =>
      '(o, r) ← ring_call op r;
      '(os, r) ← ring_calls ops r;
      Some (o :: os, r)
  end.

Fixpoint spec_calls (cap : Z) (ops : list ring_op) (l : list Packet) : list ring_out * list Packet :=
  match ops with
  | [] => ([], l)
  | op :: ops =>
      let '(o, l) := spec_call cap op l in
      let '(os, l) := spec_calls cap ops l in (o :: os, l)
  end.

(** Packets a call offers, and the caller's obligation on span sizes. *)
Definition offered (op : ring_op) : Z :=
  match op with OpPush _ => 1 | OpPushBatch ps => Z.of_nat (length ps) | _ => 0 end.
Definition op_ok (op : ring_op) : Prop :=
  match op with OpPopBatch n => 0 <= n < 2 ^ 64 | _ => True end.

Lemma size_contents r : ring_inv r -> size r = Z.of_nat (length (contents r)).
Proof.
  intros H. rewrite length_contents by done. destruct (ri_pos r H). unfold size.
  destruct (Z.leb_spec (read_pos_ r) (write_pos_ r)); [|lia].
  apply wrap_small. unfold in_width. lia.
Qed.

Lemma contents_nil r : ring_inv r -> contents r = [] <-> write_pos_ r <= read_pos_ r.
Proof.
  intros H. rewrite <- length_zero_iff_nil. pose proof (length_contents r H). lia.
Qed.

Lemma ring_call_refines op r :
  ring_inv r -> op_ok op -> write_pos_ r + offered op < 2 ^ 64 ->
  exists r', ring_call op r = Some (fst (spec_call (capacity_ r) op (contents r)), r') /\
    contents r' = snd (spec_call (capacity_ r) op (contents r)) /\ ring_inv r' /\
    capacity_ r' = capacity_ r /\ write_pos_ r' <= write_pos_ r + offered op.
Proof.
  intros H Hok Hb. pose proof (length_contents r H) as Hl. destruct (ri_pos r H) as [? [? ?]].
  pose proof (ri_cap_pos r H).
  destruct op as [p|ps| |n| | |]; cbn [ring_call spec_call offered op_ok] in *.
  - rewrite try_push_run by (done || lia).
    destruct (Z.leb_spec (capacity_ r) (write_pos_ r - read_pos_ r)), (decide (_ = _)%nat);
      try lia; cbn [fst snd].
    + exists r. split_and!; (done || lia).
    + exists (pushed r p). split_and!; [done|by apply pushed_contents|apply pushed_inv; (done || lia)|done|cbn; lia].
  - destruct (push_batch_iterates r ps H Hb) as (n & r' & E1 & E & H' & C' & En).
    rewrite E. unfold capacity in En. rewrite <- En.
    exists r'. split; [done|]. split; [done|]. split; [done|].
    rewrite (push_all_run ps r H Hb) in E1. cbv zeta in E1. injection E1 as E0 <-.
    rewrite E0. destruct (pushed_many_fields (take n ps) r) as (-> & _ & -> & _).
    rewrite length_take. lia.
  - rewrite try_pop_run by done. destruct (Z.leb_spec (write_pos_ r) (read_pos_ r)) as [Hle|Hlt].
    + apply contents_nil in Hle; [|done]. rewrite Hle. exists r. by split_and!; try lia.
    + rewrite popped_contents by (done || lia). exists (popped r). cbn [fmap option_fmap option_map prod_map].
      split_and!; [done|done|apply popped_inv; (done || lia)|done|cbn; lia].
  - destruct (pop_batch_iterates r n H Hok) as (r' & E1 & E & H' & C').
    rewrite E. exists r'. split; [done|]. split; [done|]. split; [done|].
    rewrite (pop_upto_run _ r H) in E1. injection E1 as <-.
    destruct (popped_many_fields (Nat.min (Z.to_nat n) (Z.to_nat (write_pos_ r - read_pos_ r))) r)
      as (-> & _ & -> & _). lia.
  - rewrite size_contents by done. exists r. split_and!; (done || lia).
  - unfold available. rewrite size_contents by done.
    rewrite wrap_small by (unfold in_width; lia). exists r. split_and!; (done || lia).
  - exists r. split_and!; try (done || lia). unfold empty. cbn [fst snd].
    replace (bool_decide (contents r = [])) with (write_pos_ r <=? read_pos_ r); [done|].
    pose proof (contents_nil r H).
    destruct (Z.leb_spec (write_pos_ r) (read_pos_ r)); symmetry;
      [apply bool_decide_eq_true_2|apply bool_decide_eq_false_2]; intuition lia.
Qed.

(** C12: A ring constructed for [n] packets is a bounded first-in first-out list
    of [capacity] packets, [capacity] being the least power of two that is at
    least [n]: any sequence of single and batched pushes and pops and of size
    queries, offering less than 2^64 packets in all, gives exactly the results
    of the list, and leaves every slot outside the queue reset. *)
Theorem ring_refines_queue n ops :
  1 <= n <= 2 ^ 63 -> Forall op_ok ops -> zsum (map offered ops) < 2 ^ 64 ->
  let cap := capacity (PacketRing_new n) in
  exists r, ring_calls ops (PacketRing_new n) = Some (fst (spec_calls cap ops []), r) /\
    contents r = snd (spec_calls cap ops []) /\
    ring_inv r /\ n <= cap < 2 * n.
Proof.
  intros Hn Hok Hb. cbv zeta. pose proof (ring_new_inv n ltac:(lia) ltac:(lia)) as H.
  assert (n <= capacity (PacketRing_new n) < 2 * n) as Hcap by (by apply round_up_bounds).
  assert (forall ops r, ring_inv r -> Forall op_ok ops ->
    write_pos_ r + zsum (map offered ops) < 2 ^ 64 ->
    exists r', ring_calls ops r = Some (fst (spec_calls (capacity_ r) ops (contents r)), r') /\
      contents r' = snd (spec_calls (capacity_ r) ops (contents r)) /\ ring_inv r') as Hrun.
  { clear. induction ops as [|op ops IH]; intros r H Hok Hb; cbn [ring_calls spec_calls].
    { by exists r. }
    apply Forall_cons in Hok as [Hop Hok]. cbn [map zsum foldr] in Hb. fold (zsum (map offered ops)) in Hb.
    assert (0 <= zsum (map offered ops)).
    { apply zsum_nonneg, Forall_map, Forall_true. intros []; cbn; lia. }
    destruct (ring_call_refines op r H Hop) as (r1 & E1 & C1 & H1 & K1 & W1); [lia|].
    destruct (IH r1 H1 Hok) as (r2 & E2 & C2 & H2); [lia|].
    rewrite K1, C1 in *. rewrite E1. cbn [mbind option_bind]. rewrite E2. cbn [mbind option_bind].
    exists r2. destruct (spec_call _ _ _) as [o l]. cbn [fst snd] in *.
    by destruct (spec_calls _ _ _). }
  destruct (Hrun ops (PacketRing_new n) H Hok) as (r & E & C & Hr); [cbn; lia|].
  exists r. split_and!; try done; lia.
Qed.

Lemma pop_loop_slots n cap k slots read i :
  0 <= k <= 63 -> cap = 2 ^ k -> Z.of_nat (length slots) = cap -> Z.of_nat n <= cap ->
  0 <= read -> 0 <= i -> read + i + Z.of_nat n <= 2 ^ 64 ->
  exists slots', pop_loop (cap - 1) read i n slots = Some (window slots cap (read + i) n, slots').
Proof.
  intros Hk Ec. assert (0 < cap) by (subst cap; apply Z.pow_pos_nonneg; lia).
  revert slots i. induction n as [|n IH]; intros slots i Hl Hn Hr Hi Hb; cbn [pop_loop]; [by eexists|].
  rewrite wrap_small by (unfold in_width; lia). 
  assert (Z.land (read + i) (cap - 1) = (read + i) mod cap) as ->
    by (rewrite Ec; apply land_mask; lia).
  pose proof (Z.mod_pos_bound (read + i) cap).
  assert (index slots ((read + i) mod cap) = Some (slot slots cap (read + i))) as ->.
  { unfold index, slot. destruct (Z.ltb_spec ((read + i) mod cap) 0); [lia|].
    apply list_lookup_lookup_total_lt. lia. }
  cbn [mbind option_bind]. rewrite assign_in by lia. cbn [mbind option_bind].
  destruct (IH (<[Z.to_nat ((read + i) mod cap) := reset (slot slots cap (read + i))]> slots) (i + 1))
    as (sl & E); [by rewrite length_insert|lia..|].
  rewrite E. cbn [mbind option_bind]. exists sl.
  rewrite Z.add_assoc, window_insert_out by lia. by rewrite window_cons.
Qed.

(** At the 64-bit wrap of the write position the single-packet operations and
    the queries lose the queue: after the push that wraps, [try_pop] and [empty]
    report an empty ring and [size] reports 0, while [try_pop_batch] still
    returns everything the ring holds. *)
Theorem ring_stuck_at_wrap r x :
  ring_inv r -> write_pos_ r = 2 ^ 64 - 1 -> 0 < read_pos_ r ->
  write_pos_ r - read_pos_ r < capacity_ r ->
  exists r', try_push r x = Some (true, r') /\
    try_pop r' = Some (None, r') /\ empty r' = true /\ size r' = 0 /\
    exists r'', try_pop_batch r' (SIZE_MAX) = Some (contents r ++ [x], r'').
Proof.
  intros H Ew Hr0 Hlt. pose proof (ri_cap_pos r H). destruct (ri_pos r H) as [? [? ?]].
  set (r' := mkPacketRing (capacity_ r) (mask_ r) 0 (read_pos_ r)
    (<[Z.to_nat (write_pos_ r mod capacity_ r) := x]> (packets_ r))).
  assert (try_push r x = Some (true, r')) as E.
  { unfold try_push. rewrite (wrap_small 64 (write_pos_ r - read_pos_ r)) by (unfold in_width; lia).
    destruct (Z.leb_spec (capacity_ r) (write_pos_ r - read_pos_ r)); [lia|].
    rewrite mask_slot, assign_in by (done || lia || by apply mask_in). cbn [mbind option_bind].
    by replace (u64 (write_pos_ r + 1)) with 0 by (rewrite Ew; reflexivity). }
  exists r'. split; [done|]. split; [|split; [|split]].
  - unfold try_pop. cbn [write_pos_ read_pos_ r']. by destruct (Z.leb_spec 0 (read_pos_ r)); [|lia].
  - unfold empty. cbn [write_pos_ read_pos_ r']. by destruct (Z.leb_spec 0 (read_pos_ r)); [|lia].
  - unfold size. cbn [write_pos_ read_pos_ r']. by destruct (Z.leb_spec (read_pos_ r) 0); [lia|].
  - unfold try_pop_batch. cbn [write_pos_ read_pos_ r' mask_ packets_ capacity_].
    assert (u64 (0 - read_pos_ r) = write_pos_ r + 1 - read_pos_ r) as ->.
    { unfold wrap. rewrite <- (Z_mod_plus_full _ 1). rewrite Z.mod_small; lia. }
    unfold SIZE_MAX. rewrite Z.min_r by lia.
    destruct (Z.eqb_spec (write_pos_ r + 1 - read_pos_ r) 0); [lia|].
    destruct (ri_cap r H) as (k & Hk & Ec). rewrite (ri_mask r H).
    destruct (pop_loop_slots (Z.to_nat (write_pos_ r + 1 - read_pos_ r)) (capacity_ r) k
      (packets_ (pushed r x)) (read_pos_ r) 0) as (sl & Ep); try lia.
    { cbn [pushed packets_]. rewrite length_insert. apply (ri_len r H). }
    cbn [pushed packets_] in Ep. rewrite Ep. cbn [mbind option_bind]. rewrite Z.add_0_r.
    eexists. do 2 f_equal. apply (pushed_contents r x H Hlt).
Qed.

(** ** Witnesses *)
Definition demo_pkt (n : Z) : Packet := Packet_new (4096 + n) 64 n.

Definition full_ring : PacketRing :=
  mkPacketRing 2 1 (2 ^ 64 - 1) (2 ^ 64 - 2) [demo_pkt 1; Packet_default].

Lemma full_ring_inv : ring_inv full_ring.
Proof.
  split; cbn [full_ring capacity_ mask_ packets_ write_pos_ read_pos_]; try reflexivity.
  - exists 1. split; [lia|reflexivity].
  - lia.
  - intros p Hp. replace p with (2 ^ 64 - 1) by lia. vm_compute. reflexivity.
Qed.

Lemma push_batch_iterates_witness :
  exists n r', push_all [demo_pkt 1; demo_pkt 2; demo_pkt 3] (PacketRing_new 2) = Some (n, r') /\
    try_push_batch (PacketRing_new 2) [demo_pkt 1; demo_pkt 2; demo_pkt 3] = Some (Z.of_nat n, r') /\
    ring_inv r' /\
    contents r' = contents (PacketRing_new 2) ++ take n [demo_pkt 1; demo_pkt 2; demo_pkt 3] /\
    n = Nat.min 3 (Z.to_nat (capacity (PacketRing_new 2)) - length (contents (PacketRing_new 2))).
Proof.
  apply (push_batch_iterates (PacketRing_new 2) [demo_pkt 1; demo_pkt 2; demo_pkt 3]).
  - apply ring_new_inv; lia.
  - reflexivity.
Defined.

Lemma pop_batch_iterates_witness :
  exists r', pop_upto 5 full_ring = Some (take 5 (contents full_ring), r') /\
    try_pop_batch full_ring 5 = Some (take 5 (contents full_ring), r') /\
    ring_inv r' /\ contents r' = drop 5 (contents full_ring).
Proof. apply (pop_batch_iterates full_ring 5 full_ring_inv). lia. Defined.

Definition demo_ops : list ring_op :=
  [OpPush (demo_pkt 1); OpPushBatch [demo_pkt 2; demo_pkt 3; demo_pkt 4; demo_pkt 5]; OpSize;
   OpPop; OpAvailable; OpPopBatch 10; OpEmpty; OpPop].

Lemma ring_refines_queue_witness :
  exists r, ring_calls demo_ops (PacketRing_new 3) =
      Some ([OutBool true; OutNat 3; OutNat 4; OutPacket (Some (demo_pkt 1)); OutNat 1;
             OutPackets [demo_pkt 2; demo_pkt 3; demo_pkt 4]; OutBool true; OutPacket None], r) /\
    contents r = [] /\ ring_inv r /\ 3 <= 4 < 2 * 3.
Proof.
  apply (ring_refines_queue 3 demo_ops).
  - lia.
  - repeat constructor; cbn; lia.
  - reflexivity.
Defined.

Lemma ring_stuck_at_wrap_witness :
  exists r', try_push full_ring (demo_pkt 2) = Some (true, r') /\
    try_pop r' = Some (None, r') /\ empty r' = true /\ size r' = 0 /\
    exists r'', try_pop_batch r' SIZE_MAX = Some ([demo_pkt 1; demo_pkt 2], r'').
Proof.
  apply (ring_stuck_at_wrap full_ring (demo_pkt 2) full_ring_inv).
  - reflexivity.
  - reflexivity.
  - reflexivity.
Defined.
