(* ===== verification/Allocator.v ===== *)
(** * Allocator: the contract of a fixed-size block allocator

    [MemoryPool] and [ZeroCopyMemoryPool] hand out blocks of one contiguous
    region and keep the free ones on an index-linked stack.  The contract is a
    class whose state of interest is that stack of block numbers; what clients
    rely on (blocks never overlap, none is lost) is proved from its laws. *)
From S2P Require Import Prelude Memory.

Class BlockAllocator (P : Type) := {
  ba_inv : P -> list Z -> Prop;
  ba_base : P -> ptr;
  ba_block : P -> Z;
  ba_count : P -> Z;
  ba_allocate : P -> option (ptr * P);
  ba_deallocate : ptr -> P -> option P;
  ba_free_ok : forall p fs, ba_inv p fs -> NoDup fs /\ Forall (fun i => 0 <= i < ba_count p) fs;
  ba_geometry : forall p fs, ba_inv p fs ->
    0 < ba_base p /\ 0 < ba_block p /\ 0 < ba_count p < 2 ^ 64 - 1 /\
    ba_base p + ba_count p * ba_block p <= 2 ^ 64;
  ba_exhausted : forall p, ba_inv p [] -> ba_allocate p = Some (nullptr, p);
  ba_take : forall p i fs, ba_inv p (i :: fs) ->
    exists p', ba_allocate p = Some (ba_base p + i * ba_block p, p') /\ ba_inv p' fs /\
      ba_base p' = ba_base p /\ ba_block p' = ba_block p /\ ba_count p' = ba_count p;
  ba_give : forall p i fs a, ba_inv p fs -> 0 <= i < ba_count p -> i ∉ fs ->
    ba_base p + i * ba_block p <= a < ba_base p + (i + 1) * ba_block p ->
    exists p', ba_deallocate a p = Some p' /\ ba_inv p' (i :: fs) /\
      ba_base p' = ba_base p /\ ba_block p' = ba_block p /\ ba_count p' = ba_count p;
  ba_foreign : forall p fs a, ba_inv p fs ->
    a < ba_base p \/ ba_base p + ba_count p * ba_block p <= a -> ba_deallocate a p = Some p;
}.

(** ** Clients *)
Section Clients.
Context {P : Type} `{!BlockAllocator P}.

(** A client allocates, or gives back the [k]-th pointer it holds. *)
Inductive client_op : Type := Alloc | Free (k : nat).

Definition client_step (op : client_op) (s : list ptr * P) : option (list ptr * P) :=
  let '(held, p) := s in
  match op with
  | Alloc =>
      match ba_allocate p with
      | Some (a, p') => Some (if a =? nullptr then held else a :: held, p')
      | None => None
      end
  | Free k =>
      match held !! k with
      | Some a => pair (delete k held) <$> ba_deallocate a p
      | None => Some s
      end
  end.

Definition client_run (ops : list client_op) (s : list ptr * P) : option (list ptr * P) :=
  foldl (fun s op => s ≫= client_step op) (Some s) ops.

(** The held pointers are exactly the blocks that are not free. *)
Definition ledger (s : list ptr * P) : Prop :=
  exists hs fs, ba_inv (snd s) fs /\
    fst s = map (fun i => ba_base (snd s) + i * ba_block (snd s)) hs /\
    hs ++ fs ≡ₚ seqZ 0 (ba_count (snd s)).

Definition same_region (p p' : P) : Prop :=
  ba_base p' = ba_base p /\ ba_block p' = ba_block p /\ ba_count p' = ba_count p.

Lemma client_step_ledger op s :
  ledger s -> exists s', client_step op s = Some s' /\ ledger s' /\ same_region (snd s) (snd s').
Proof.
  destruct s as [held p]. intros (hs & fs & Hi & Hh & Hp). cbn [fst snd] in *.
  destruct (ba_geometry p fs Hi) as (Hb & Hbs & Hn & _). destruct op as [|k]; cbn [client_step].
  - destruct fs as [|i fs].
    + rewrite ba_exhausted by done. cbn [Z.eqb]. eexists. split; [reflexivity|].
      split; [by exists hs, []|done].
    + destruct (ba_take p i fs Hi) as (p' & E & Hi' & E1 & E2 & E3). rewrite E.
      destruct (ba_free_ok p _ Hi) as [_ [Hir _]%Forall_cons].
      destruct (Z.eqb_spec (ba_base p + i * ba_block p) nullptr) as [E0|];
        [unfold nullptr in E0; nia|].
      eexists. split; [reflexivity|]. split; [|done].
      exists (i :: hs), fs. cbn [fst snd map]. rewrite E1, E2, E3, Hh. split_and!; try done.
      rewrite <- Hp. cbn [app]. apply Permutation_middle.
  - destruct (held !! k) as [a|] eqn:Hk.
    2:{ eexists. split; [reflexivity|]. split; [by exists hs, fs|done]. }
    rewrite Hh in Hk. apply list_lookup_fmap_Some in Hk as (i & -> & Hki).
    assert (hs ≡ₚ i :: delete k hs) as Hd by by apply delete_Permutation.
    assert (NoDup (hs ++ fs)) as Hnd by (rewrite Hp; apply NoDup_seqZ).
    assert (0 <= i < ba_count p) as Hir.
    { apply elem_of_seqZ with (m := 0). rewrite <- Hp, Hd. set_solver. }
    destruct (ba_give p i fs (ba_base p + i * ba_block p) Hi Hir)
      as (p' & E & Hi' & E1 & E2 & E3); [|nia|].
    { rewrite Hd in Hnd. cbn [app] in Hnd. apply NoDup_cons in Hnd as [Hnin _]. set_solver. }
    rewrite E. eexists. split; [reflexivity|]. split; [|done].
    exists (delete k hs), (i :: fs). cbn [fst snd]. rewrite E1, E2, E3.
    split_and!; [done| |].
    + rewrite Hh. symmetry. apply list_fmap_delete.
    + rewrite <- Hp. etransitivity; [|apply Permutation_app_tail; symmetry; exact Hd].
      cbn [app]. symmetry. apply Permutation_middle.
Qed.

Lemma client_run_ledger ops s :
  ledger s -> exists s', client_run ops s = Some s' /\ ledger s' /\ same_region (snd s) (snd s').
Proof.
  unfold client_run. revert s. induction ops as [|op ops IH]; intros s Hs; cbn [foldl].
  { by exists s. }
  destruct (client_step_ledger op s Hs) as (s1 & E1 & H1 & R1).
  destruct (IH s1 H1) as (s2 & E2 & H2 & R2).
  exists s2. cbn [mbind option_bind]. rewrite E1. split; [done|]. split; [done|].
  unfold same_region in *. intuition congruence.
Qed.

(** What a ledger guarantees about the held pointers. *)
Lemma ledger_disjoint s :
  ledger s ->
  (forall a, a ∈ fst s -> ba_base (snd s) <= a /\
     a + ba_block (snd s) <= ba_base (snd s) + ba_count (snd s) * ba_block (snd s)) /\
  (forall j k a b, j <> k -> fst s !! j = Some a -> fst s !! k = Some b ->
     a + ba_block (snd s) <= b \/ b + ba_block (snd s) <= a) /\
  Z.of_nat (length (fst s)) <= ba_count (snd s).
Proof.
  destruct s as [held p]. intros (hs & fs & Hi & Hh & Hp). cbn [fst snd] in *.
  destruct (ba_geometry p fs Hi) as (Hb & Hbs & Hn & _).
  assert (forall i, i ∈ hs -> 0 <= i < ba_count p) as Hr.
  { intros i Hin. apply elem_of_seqZ with (m := 0). rewrite <- Hp. set_solver. }
  assert (NoDup hs) as Hnd.
  { apply (NoDup_app hs fs). rewrite Hp. apply NoDup_seqZ. }
  split_and!.
  - intros a Ha. rewrite Hh in Ha. apply list_elem_of_fmap in Ha as (i & -> & Hin%Hr). nia.
  - intros j k a b Hjk Hj Hk. rewrite Hh in Hj, Hk.
    apply list_lookup_fmap_Some in Hj as (i1 & -> & H1).
    apply list_lookup_fmap_Some in Hk as (i2 & -> & H2).
    assert (i1 <> i2) by (intros ->; eapply Hjk, NoDup_lookup; eauto).
    destruct (Z.lt_ge_cases i1 i2); [left|right]; nia.
  - rewrite Hh, length_map. apply Permutation_length in Hp.
    rewrite length_app, length_seqZ in Hp. lia.
Qed.
End Clients.
