(* ===== verification/MemoryPool.v ===== *)
(** * MemoryPool: the two fixed-size block pools (core/memory_pool.hpp and the
    pool of optimization/zero_copy.hpp)

    Free blocks are linked through [free_list_]: entry [i] is the number of the
    next free block, [SIZE_MAX] ends the list.  The region's address is what the
    vector's allocator (or mmap) returned, an argument of the constructors. *)
From S2P Require Import Prelude Memory Allocator.

(** ** The linked free list *)

(** [for (i = 0; i < num_blocks - 1; ++i) free_list_[i] = i + 1]. *)
Fixpoint init_links (fuel : nat) (i bound : Z) (fl : list Z) : option (list Z) :=
  match fuel with
  | O => Some fl
  | S fuel =>
      if i <? bound then fl ← assign fl i (u64 (i + 1)); init_links fuel (i + 1) bound fl
      else Some fl
  end.

(** The free list the constructors build; with no blocks the first iteration
    already writes outside the empty vector. *)
Definition init_free_list (num_blocks : Z) : option (list Z) :=
  fl ← init_links (S (Z.to_nat num_blocks)) 0 (u64 (num_blocks - 1))
                  (replicate (Z.to_nat num_blocks) 0);
  assign fl (u64 (num_blocks - 1)) SIZE_MAX.

(** The counting loop of [available]: the blocks it visits. *)
Fixpoint walk (fuel : nat) (fl : list Z) (current : Z) : option (list Z) :=
  if current =? SIZE_MAX then Some [] else
  match fuel with
  | O => Some []
  | S fuel => next ← index fl current; cons current <$> walk fuel fl next
  end.

(** [chain fl c bl]: following [fl] from [c] visits exactly [bl]. *)
Inductive chain (fl : list Z) : Z -> list Z -> Prop :=
  | chain_end : chain fl SIZE_MAX []
  | chain_link c n bl : c <> SIZE_MAX -> index fl c = Some n -> chain fl n bl ->
      chain fl c (c :: bl).

Lemma chain_walk fl c bl fuel :
  chain fl c bl -> (length bl <= fuel)%nat -> walk fuel fl c = Some bl.
Proof.
  intros H. revert fuel. induction H as [|c n bl Hc Hn _ IH]; intros [|fuel] Hl; cbn [length] in *;
    try done; try lia.
  cbn [walk]. destruct (Z.eqb_spec c SIZE_MAX); [done|]. rewrite Hn. cbn [mbind option_bind].
  by rewrite IH by lia.
Qed.

Lemma chain_range fl c bl : chain fl c bl -> Forall (fun i => 0 <= i < Z.of_nat (length fl)) bl.
Proof. induction 1; constructor; [by eapply index_Some_range|done]. Qed.

(** Links of blocks outside the list may change freely. *)
Lemma chain_update fl c bl i x :
  chain fl c bl -> 0 <= i < Z.of_nat (length fl) -> i ∉ bl ->
  chain (<[Z.to_nat i := x]> fl) c bl.
Proof.
  intros H Hi. induction H as [|c n bl Hc Hn _ IH]; intros Hni; [constructor|].
  pose proof (index_Some_range _ _ _ Hn). apply (chain_link _ c n); [done| |].
  - rewrite index_insert by lia. destruct (Z.eqb_spec i c); [set_solver|exact Hn].
  - apply IH. set_solver.
Qed.

Lemma init_links_spec fuel i bound fl :
  0 <= i -> bound < 2 ^ 64 - 1 -> bound <= Z.of_nat (length fl) -> (Z.to_nat (bound - i) <= fuel)%nat ->
  exists fl', init_links fuel i bound fl = Some fl' /\ length fl' = length fl /\
    forall j, 0 <= j -> index fl' j = if (i <=? j) && (j <? bound) then Some (j + 1) else index fl j.
Proof.
  revert i fl. induction fuel as [|fuel IH]; intros i fl Hi Hb Hl Hf; cbn [init_links].
  { exists fl. split_and!; try done. intros j Hj. bool_cases; cbn [andb]; (done || lia). }
  destruct (Z.ltb_spec i bound).
  - rewrite assign_in by lia. cbn [mbind option_bind].
    destruct (IH (i + 1) (<[Z.to_nat i := u64 (i + 1)]> fl)) as (fl' & E & El & Hlk);
      rewrite ?length_insert; try lia.
    exists fl'. rewrite length_insert in El. split_and!; try done.
    intros j Hj. rewrite Hlk, index_insert by lia. rewrite wrap_small by (unfold in_width; lia).
    bool_cases; cbn [andb]; subst; (done || lia).
  - exists fl. split_and!; try done. intros j Hj. bool_cases; cbn [andb]; (done || lia).
Qed.

Lemma init_free_list_spec n :
  1 <= n < 2 ^ 64 - 1 ->
  exists fl, init_free_list n = Some fl /\ Z.of_nat (length fl) = n /\ chain fl 0 (seqZ 0 n).
Proof.
  intros Hn. unfold init_free_list. rewrite wrap_small by (unfold in_width; lia).
  destruct (init_links_spec (S (Z.to_nat n)) 0 (n - 1) (replicate (Z.to_nat n) 0))
    as (fl & E & El & Hlk); rewrite ?length_replicate in *; try lia.
  rewrite E. cbn [mbind option_bind]. rewrite assign_in by lia. eexists. split; [done|].
  rewrite length_insert. split; [lia|].
  assert (forall k, (k <= Z.to_nat n)%nat ->
    chain (<[Z.to_nat (n - 1) := SIZE_MAX]> fl) (if (k =? 0)%nat then SIZE_MAX else n - Z.of_nat k)
          (seqZ (n - Z.of_nat k) (Z.of_nat k))) as Hk.
  { induction k as [|k IH]; intros Hle; [constructor|]. cbn [Nat.eqb].
    rewrite seqZ_cons by lia.
    apply (chain_link _ _ (if (k =? 0)%nat then SIZE_MAX else n - Z.of_nat k)).
    - unfold SIZE_MAX. lia.
    - rewrite index_insert, Hlk by lia.
      destruct (Nat.eqb_spec k 0), (Z.eqb_spec (n - 1) (n - Z.of_nat (S k))); try lia; [done|].
      destruct (Z.leb_spec 0 (n - Z.of_nat (S k))), (Z.ltb_spec (n - Z.of_nat (S k)) (n - 1));
        cbn [andb]; try lia. f_equal. lia.
    - replace (Z.pred (Z.of_nat (S k))) with (Z.of_nat k) by lia.
      replace (Z.succ (n - Z.of_nat (S k))) with (n - Z.of_nat k) by lia.
      apply IH. lia. }
  specialize (Hk (Z.to_nat n) ltac:(lia)). rewrite Z2Nat.id, Z.sub_diag in Hk by lia.
  destruct (Nat.eqb_spec (Z.to_nat n) 0); [lia|done].
Qed.

(** ** MemoryPool *)
Module Pool.
Record MemoryPool := mkMemoryPool {
  block_size_ : Z;
  num_blocks_ : Z;
  pool_data : ptr;
  pool_size : Z;
  free_list_ : list Z;
  next_free_ : Z;
}.

Definition MemoryPool_new (vector_data : ptr) (block_size num_blocks : Z) : option MemoryPool :=
  fl ← init_free_list num_blocks;
  Some (mkMemoryPool block_size num_blocks vector_data (u64 (block_size * num_blocks)) fl 0).

Definition allocate (p : MemoryPool) : option (ptr * MemoryPool) :=
  if p.(next_free_) =? SIZE_MAX then Some (nullptr, p) else
  let i := p.(next_free_) in
  next ← index p.(free_list_) i;
  Some (p.(pool_data) + u64 (i * p.(block_size_)),
        mkMemoryPool p.(block_size_) p.(num_blocks_) p.(pool_data) p.(pool_size)
          p.(free_list_) next).

Definition deallocate (a : ptr) (p : MemoryPool) : option MemoryPool :=
  if (a <? p.(pool_data)) || (p.(pool_data) + p.(pool_size) <=? a) then Some p else
  let i := (a - p.(pool_data)) / p.(block_size_) in
  fl ← assign p.(free_list_) i p.(next_free_);
  Some (mkMemoryPool p.(block_size_) p.(num_blocks_) p.(pool_data) p.(pool_size) fl i).

Definition available (p : MemoryPool) : option Z :=
  Z.of_nat ∘ length <$> walk (Z.to_nat p.(num_blocks_)) p.(free_list_) p.(next_free_).

Definition pool_inv (p : MemoryPool) (fs : list Z) : Prop :=
  chain p.(free_list_) p.(next_free_) fs /\ NoDup fs /\
  Z.of_nat (length p.(free_list_)) = p.(num_blocks_) /\
  0 < p.(pool_data) /\ 0 < p.(block_size_) /\ 0 < p.(num_blocks_) < 2 ^ 64 - 1 /\
  p.(pool_size) = p.(num_blocks_) * p.(block_size_) /\
  p.(pool_data) + p.(num_blocks_) * p.(block_size_) <= 2 ^ 64.

Lemma pool_new_inv d bs n :
  0 < d -> 0 < bs -> 0 < n < 2 ^ 64 - 1 -> d + n * bs <= 2 ^ 64 ->
  exists p, MemoryPool_new d bs n = Some p /\ pool_inv p (seqZ 0 n) /\
    pool_data p = d /\ block_size_ p = bs /\ num_blocks_ p = n.
Proof.
  intros Hd Hbs Hn Hfit. destruct (init_free_list_spec n ltac:(lia)) as (fl & E & El & Hc).
  unfold MemoryPool_new. rewrite E. cbn [mbind option_bind]. eexists. split; [done|].
  split; [|done]. unfold pool_inv.
  cbn [free_list_ next_free_ num_blocks_ pool_data block_size_ pool_size].
  split_and!; try (done || lia).
  - apply NoDup_seqZ.
  - rewrite wrap_small by (unfold in_width; nia). lia.
Qed.

#[global, refine] Instance MemoryPool_allocator : BlockAllocator MemoryPool := {|
  ba_inv := pool_inv;
  ba_base := pool_data;
  ba_block := block_size_;
  ba_count := num_blocks_;
  ba_allocate := allocate;
  ba_deallocate := deallocate;
|}.
Proof.
  - intros p fs (Hc & Hnd & Hl & _). split; [done|]. rewrite <- Hl. by eapply chain_range.
  - intros p fs (_ & _ & _ & Hd & Hbs & Hn & _ & Hfit). done.
  - intros p (Hc & _). unfold allocate. by inversion Hc.
  - intros p i fs (Hc & Hnd & Hl & Hd & Hbs & Hn & Hs & Hfit). unfold allocate.
    pose proof (chain_range _ _ _ Hc) as Hr. inversion Hc as [|? n ? Hne Hi Hc']; subst.
    destruct (Z.eqb_spec (next_free_ p) SIZE_MAX); [done|]. rewrite Hi. cbn [mbind option_bind].
    apply Forall_cons in Hr as [Hir _]. apply NoDup_cons in Hnd as [_ Hnd].
    rewrite wrap_small by (unfold in_width; nia).
    eexists. split; [done|]. unfold pool_inv. cbn. split_and!; (done || lia).
  - intros p i fs a (Hc & Hnd & Hl & Hd & Hbs & Hn & Hs & Hfit) Hi Hni Ha. unfold deallocate.
    destruct (Z.ltb_spec a (pool_data p)); [lia|].
    destruct (Z.leb_spec (pool_data p + pool_size p) a); [nia|]. cbn [orb].
    replace ((a - pool_data p) / block_size_ p) with i
      by (apply (Z.div_unique _ _ _ (a - pool_data p - i * block_size_ p)); lia).
    rewrite assign_in by lia. cbn [mbind option_bind].
    eexists. split; [done|]. split; [|done]. unfold pool_inv.
    cbn [free_list_ next_free_ num_blocks_ pool_data block_size_ pool_size].
    rewrite length_insert. split_and!; try (done || lia).
    + eapply chain_link; [unfold SIZE_MAX; lia| |apply chain_update; (done || lia)].
      rewrite index_insert by lia. by rewrite Z.eqb_refl.
    + by constructor.
  - intros p fs a (Hc & Hnd & Hl & Hd & Hbs & Hn & Hs & Hfit) Ha. unfold deallocate.
    destruct (Z.ltb_spec a (pool_data p)); [done|].
    destruct (Z.leb_spec (pool_data p + pool_size p) a); [done|lia].
Defined.

Lemma available_free p fs : pool_inv p fs -> available p = Some (Z.of_nat (length fs)).
Proof.
  intros (Hc & Hnd & Hl & _). unfold available. rewrite (chain_walk _ _ fs); [done|done|].
  assert (fs ⊆+ seqZ 0 (num_blocks_ p)) as Hs%submseteq_length.
  { apply NoDup_submseteq; [done|]. intros i Hi. apply elem_of_seqZ.
    pose proof (chain_range _ _ _ Hc) as Hr. rewrite Forall_forall in Hr.
    specialize (Hr i Hi). lia. }
  rewrite length_seqZ in Hs. lia.
Qed.
End Pool.

(** ** ZeroCopyMemoryPool *)
Module ZeroCopy.

(** [mmap size huge]: the kernel's anonymous mapping, [None] for MAP_FAILED. *)
Abbreviation mmap_fn := (Z -> bool -> option ptr).

Record ZeroCopyBuffer := mkZeroCopyBuffer {
  ptr_ : ptr;
  size_ : Z;
  use_huge_pages_ : bool;
}.

(** [ZeroCopyBuffer::create]: with huge pages, a failed mapping is retried with
    normal pages; the flag keeps the request. *)
Definition create (mmap : mmap_fn) (size : Z) (use_huge_pages : bool) : option ZeroCopyBuffer :=
  let p :=
    if use_huge_pages then
      match mmap size true with Some p => Some p | None => mmap size false end
    else mmap size false in
  match p with
  | None => None
  | Some p => Some (mkZeroCopyBuffer p size use_huge_pages)
  end.

Record ZeroCopyMemoryPool := mkZeroCopyMemoryPool {
  block_size_ : Z;
  num_blocks_ : Z;
  pool_use_huge_pages_ : bool;
  buffer_ : ZeroCopyBuffer;
  free_list_ : list Z;
  next_free_ : Z;
}.

(** The constructor's outcomes: a pool, the [runtime_error] it throws, or the
    out-of-range write for an empty pool. *)
Inductive construction : Type :=
  | Constructed (p : ZeroCopyMemoryPool)
  | Thrown
  | Undefined.

Definition ZeroCopyMemoryPool_new (mmap : mmap_fn) (block_size num_blocks : Z)
    (use_huge_pages : bool) : construction :=
  match create mmap (u64 (block_size * num_blocks)) use_huge_pages with
  | None => Thrown
  | Some b =>
      match init_free_list num_blocks with
      | None => Undefined
      | Some fl => Constructed (mkZeroCopyMemoryPool block_size num_blocks use_huge_pages b fl 0)
      end
  end.

Definition allocate (p : ZeroCopyMemoryPool) : option (ptr * ZeroCopyMemoryPool) :=
  if p.(next_free_) =? SIZE_MAX then Some (nullptr, p) else
  let i := p.(next_free_) in
  next ← index p.(free_list_) i;
  Some (p.(buffer_).(ptr_) + u64 (i * p.(block_size_)),
        mkZeroCopyMemoryPool p.(block_size_) p.(num_blocks_) p.(pool_use_huge_pages_) p.(buffer_)
          p.(free_list_) next).

Definition deallocate (a : ptr) (p : ZeroCopyMemoryPool) : option ZeroCopyMemoryPool :=
  if (a =? nullptr) || (a <? p.(buffer_).(ptr_)) ||
     (p.(buffer_).(ptr_) + p.(buffer_).(size_) <=? a) then Some p else
  let i := (a - p.(buffer_).(ptr_)) / p.(block_size_) in
  fl ← assign p.(free_list_) i p.(next_free_);
  Some (mkZeroCopyMemoryPool p.(block_size_) p.(num_blocks_) p.(pool_use_huge_pages_) p.(buffer_)
          fl i).

Definition uses_huge_pages (p : ZeroCopyMemoryPool) : bool := p.(pool_use_huge_pages_).

(** The same pool seen as a [MemoryPool]: the two run the same free list. *)
Definition as_pool (p : ZeroCopyMemoryPool) : Pool.MemoryPool :=
  Pool.mkMemoryPool p.(block_size_) p.(num_blocks_) p.(buffer_).(ptr_) p.(buffer_).(size_)
    p.(free_list_) p.(next_free_).

Definition with_links (p : ZeroCopyMemoryPool) (q : Pool.MemoryPool) : ZeroCopyMemoryPool :=
  mkZeroCopyMemoryPool p.(block_size_) p.(num_blocks_) p.(pool_use_huge_pages_) p.(buffer_)
    q.(Pool.free_list_) q.(Pool.next_free_).

Lemma allocate_as_pool p :
  allocate p = prod_map id (with_links p) <$> Pool.allocate (as_pool p).
Proof.
  unfold allocate, Pool.allocate. cbn [as_pool Pool.next_free_ Pool.free_list_].
  destruct (_ =? _); [by destruct p|]. by destruct (index _ _).
Qed.

Lemma deallocate_as_pool a p :
  0 < ptr_ (buffer_ p) -> deallocate a p = with_links p <$> Pool.deallocate a (as_pool p).
Proof.
  intros Hp. unfold deallocate, Pool.deallocate, nullptr. cbn [as_pool Pool.pool_data Pool.pool_size].
  destruct (Z.eqb_spec a 0) as [->|]; cbn [orb].
  - destruct (Z.ltb_spec 0 (ptr_ (buffer_ p))); [|lia]. by destruct p.
  - destruct (_ || _); [by destruct p|].
    cbn [as_pool Pool.block_size_ Pool.free_list_ Pool.next_free_]. by destruct (assign _ _ _).
Qed.

Definition pool_inv (p : ZeroCopyMemoryPool) (fs : list Z) : Prop := Pool.pool_inv (as_pool p) fs.

Lemma as_pool_with_links p q :
  Pool.block_size_ q = block_size_ p -> Pool.num_blocks_ q = num_blocks_ p ->
  Pool.pool_data q = ptr_ (buffer_ p) -> Pool.pool_size q = size_ (buffer_ p) ->
  as_pool (with_links p q) = q.
Proof. destruct q. cbn. by intros -> -> -> ->. Qed.

Lemma inv_size p fs :
  Pool.pool_inv p fs -> Pool.pool_size p = Pool.num_blocks_ p * Pool.block_size_ p.
Proof. intros H. apply H. Qed.

#[global, refine] Instance ZeroCopy_allocator : BlockAllocator ZeroCopyMemoryPool := {|
  ba_inv := pool_inv;
  ba_base p := p.(buffer_).(ptr_);
  ba_block := block_size_;
  ba_count := num_blocks_;
  ba_allocate := allocate;
  ba_deallocate := deallocate;
|}.
Proof.
  - intros p fs H. apply (@ba_free_ok _ Pool.MemoryPool_allocator (as_pool p) fs H).
  - intros p fs H. apply (@ba_geometry _ Pool.MemoryPool_allocator (as_pool p) fs H).
  - intros p H. rewrite allocate_as_pool. pose proof (@ba_exhausted _ Pool.MemoryPool_allocator (as_pool p) H) as E.
    cbn in E. rewrite E. by destruct p.
  - intros p i fs H. destruct (@ba_take _ Pool.MemoryPool_allocator (as_pool p) i fs H) as (q & E & Hq & E1 & E2 & E3).
    cbn in E, Hq, E1, E2, E3. exists (with_links p q). rewrite allocate_as_pool, E.
    split; [done|]. split; [|done]. unfold pool_inv. rewrite as_pool_with_links; try done.
    rewrite (inv_size q _ Hq), E2, E3. symmetry. exact (inv_size (as_pool p) _ H).
  - intros p i fs a H Hi Hni Ha.
    destruct (@ba_give _ Pool.MemoryPool_allocator (as_pool p) i fs a H Hi Hni Ha) as (q & E & Hq & E1 & E2 & E3).
    cbn in E, Hq, E1, E2, E3. exists (with_links p q).
    rewrite deallocate_as_pool by apply H. rewrite E.
    split; [done|]. split; [|done]. unfold pool_inv. rewrite as_pool_with_links; try done.
    rewrite (inv_size q _ Hq), E2, E3. symmetry. exact (inv_size (as_pool p) _ H).
  - intros p fs a H Ha. rewrite deallocate_as_pool by apply H.
    pose proof (@ba_foreign _ Pool.MemoryPool_allocator (as_pool p) fs a H Ha) as E. cbn in E. rewrite E. by destruct p.
Defined.
End ZeroCopy.

(** ** Properties of the pools *)
Lemma new_ledger {P} `{!BlockAllocator P} (p : P) :
  ba_inv p (seqZ 0 (ba_count p)) -> ledger ([], p).
Proof. intros H. exists [], (seqZ 0 (ba_count p)). done. Qed.

(** C26: Clients of a [MemoryPool] that return only pointers they hold never see
    two outstanding blocks overlap: after any sequence of allocations and
    releases every held pointer is a whole block inside the region, distinct
    blocks are disjoint, and [available] is exactly the number of blocks not
    held. *)
Theorem memory_pool_blocks_disjoint d bs n ops :
  0 < d -> 0 < bs -> 0 < n < 2 ^ 64 - 1 -> d + n * bs <= 2 ^ 64 ->
  exists p held p', Pool.MemoryPool_new d bs n = Some p /\
    client_run ops ([], p) = Some (held, p') /\
    (forall a, a ∈ held -> d <= a /\ a + bs <= d + n * bs) /\
    (forall j k a b, j <> k -> held !! j = Some a -> held !! k = Some b ->
       a + bs <= b \/ b + bs <= a) /\
    Pool.available p' = Some (n - Z.of_nat (length held)).
Proof.
  intros Hd Hbs Hn Hfit.
  destruct (Pool.pool_new_inv d bs n Hd Hbs Hn Hfit) as (p & E & Hp & <- & <- & <-).
  destruct (client_run_ledger ops ([], p)) as ([held p'] & E' & Hl & R1 & R2 & R3);
    [by apply new_ledger|].
  cbn [snd ba_base ba_block ba_count Pool.MemoryPool_allocator] in R1, R2, R3.
  destruct (ledger_disjoint _ Hl) as (H1 & H2 & H3).
  cbn [fst snd ba_base ba_block ba_count Pool.MemoryPool_allocator] in H1, H2, H3.
  rewrite R1, R2, R3 in *. exists p, held, p'. split_and!; try done.
  destruct Hl as (hs & fs & Hi & Hh & Hperm). cbn [fst snd] in *.
  rewrite (Pool.available_free _ fs Hi). f_equal.
  apply Permutation_length in Hperm. rewrite length_app, length_seqZ in Hperm.
  cbn [ba_count Pool.MemoryPool_allocator] in Hperm. rewrite R3 in Hperm.
  rewrite Hh, length_map. lia.
Qed.

(** A [ZeroCopyMemoryPool] gives its clients the same guarantee over the
    mapped region; it is constructed exactly when some mapping succeeds, falling
    back from huge to normal pages, and [uses_huge_pages] repeats the request
    whichever mapping was obtained. *)
Theorem zero_copy_pool_blocks_disjoint mmap bs n huge ops :
  (forall size h a, mmap size h = Some a -> 0 < a /\ a + size <= 2 ^ 64) ->
  0 < bs -> 0 < n < 2 ^ 64 - 1 -> n * bs < 2 ^ 64 ->
  match ZeroCopy.ZeroCopyMemoryPool_new mmap bs n huge with
  | ZeroCopy.Thrown =>
      mmap (n * bs) false = None /\ (huge = true -> mmap (n * bs) true = None)
  | ZeroCopy.Undefined => False
  | ZeroCopy.Constructed p =>
      let d := p.(ZeroCopy.buffer_).(ZeroCopy.ptr_) in
      (mmap (n * bs) huge = Some d \/ (mmap (n * bs) huge = None /\ mmap (n * bs) false = Some d)) /\
      ZeroCopy.uses_huge_pages p = huge /\
      exists held p', client_run ops ([], p) = Some (held, p') /\
        (forall a, a ∈ held -> d <= a /\ a + bs <= d + n * bs) /\
        (forall j k a b, j <> k -> held !! j = Some a -> held !! k = Some b ->
           a + bs <= b \/ b + bs <= a)
  end.
Proof.
  intros Hmap Hbs Hn Hfit. unfold ZeroCopy.ZeroCopyMemoryPool_new.
  rewrite (Z.mul_comm bs n), wrap_small by (unfold in_width; nia).
  destruct (init_free_list_spec n ltac:(lia)) as (fl & E & El & Hc). rewrite E.
  destruct (ZeroCopy.create mmap (n * bs) huge) as [b|] eqn:Ec.
  2:{ unfold ZeroCopy.create in Ec.
      destruct huge, (mmap (n * bs) true) eqn:?, (mmap (n * bs) false) eqn:?; done. }
  assert (ZeroCopy.size_ b = n * bs /\
    (mmap (n * bs) huge = Some (ZeroCopy.ptr_ b) \/
     (mmap (n * bs) huge = None /\ mmap (n * bs) false = Some (ZeroCopy.ptr_ b)))) as [Hsz Hd].
  { unfold ZeroCopy.create in Ec.
    destruct huge, (mmap (n * bs) true) eqn:?, (mmap (n * bs) false) eqn:?;
      simplify_eq/=; auto. }
  assert (0 < ZeroCopy.ptr_ b /\ ZeroCopy.ptr_ b + n * bs <= 2 ^ 64) as [Hpos Hend]
    by (destruct Hd as [Hd|[_ Hd]]; exact (Hmap _ _ _ Hd)).
  cbv zeta. set (p := ZeroCopy.mkZeroCopyMemoryPool bs n huge b fl 0).
  assert (ZeroCopy.pool_inv p (seqZ 0 n)) as Hp.
  { unfold ZeroCopy.pool_inv, Pool.pool_inv. cbn. split_and!; try (done || lia). apply NoDup_seqZ. }
  split; [exact Hd|]. split; [done|].
  destruct (client_run_ledger ops ([], p)) as ([held p'] & E' & Hl & R1 & R2 & R3);
    [by apply new_ledger|].
  cbn [snd ba_base ba_block ba_count ZeroCopy.ZeroCopy_allocator] in R1, R2, R3.
  destruct (ledger_disjoint _ Hl) as (H1 & H2 & H3).
  cbn [fst snd ba_base ba_block ba_count ZeroCopy.ZeroCopy_allocator] in H1, H2, H3.
  rewrite R1, R2, R3 in *. exists held, p'. done.
Qed.

(** A block freed is the next block allocated, and a second free of the same
    block is not detected: it makes the free list a cycle, so that every further
    allocation returns the same address and changes nothing, and [available] (which still
    terminates, bounded by the number of blocks) reports a full pool. *)
Theorem double_free_aliases p fs i a :
  Pool.pool_inv p fs -> 0 <= i < Pool.num_blocks_ p -> i ∉ fs ->
  Pool.pool_data p + i * Pool.block_size_ p <= a <
    Pool.pool_data p + (i + 1) * Pool.block_size_ p ->
  exists p1 p2 p3, let block := Pool.pool_data p + i * Pool.block_size_ p in
    Pool.deallocate a p = Some p1 /\
    Pool.allocate p1 = Some (block, p2) /\ Pool.pool_inv p2 fs /\
    Pool.deallocate a p1 = Some p3 /\
    Pool.allocate p3 = Some (block, p3) /\
    Pool.available p3 = Some (Pool.num_blocks_ p).
Proof.
  intros Hinv Hi Hni Ha. pose proof Hinv as (Hc & Hnd & Hl & Hd & Hbs & Hn & Hs & Hfit).
  destruct (@ba_give _ Pool.MemoryPool_allocator p i fs a Hinv Hi Hni Ha) as (p1 & E1 & H1 & B1 & S1 & N1).
  destruct (@ba_take _ Pool.MemoryPool_allocator p1 i fs H1) as (p2 & E2 & H2 & _).
  cbn [ba_base ba_block ba_count ba_allocate ba_deallocate ba_inv Pool.MemoryPool_allocator] in *.
  assert (Pool.deallocate a p1 = Some (Pool.mkMemoryPool (Pool.block_size_ p1) (Pool.num_blocks_ p1)
    (Pool.pool_data p1) (Pool.pool_size p1) (<[Z.to_nat i := i]> (Pool.free_list_ p1)) i)) as E3.
  { destruct H1 as (Hc1 & _ & Hl1 & _ & _ & _ & Hs1 & _).
    assert (Pool.next_free_ p1 = i) as Enf by by inversion Hc1.
    unfold Pool.deallocate. rewrite Hs1, B1, S1, N1.
    destruct (Z.ltb_spec a (Pool.pool_data p)); [lia|].
    destruct (Z.leb_spec (Pool.pool_data p + Pool.num_blocks_ p * Pool.block_size_ p) a); [nia|].
    cbn [orb]. replace ((a - Pool.pool_data p) / Pool.block_size_ p) with i
      by (apply (Z.div_unique _ _ _ (a - Pool.pool_data p - i * Pool.block_size_ p)); lia).
    rewrite assign_in by lia. cbn [mbind option_bind]. by rewrite Enf. }
  destruct H1 as (_ & _ & Hl1 & _).
  assert (index (<[Z.to_nat i := i]> (Pool.free_list_ p1)) i = Some i) as Hloop.
  { rewrite index_insert by lia. by rewrite Z.eqb_refl. }
  assert ((i =? SIZE_MAX) = false) as Hne by (apply Z.eqb_neq; unfold SIZE_MAX; lia).
  do 3 eexists. cbv zeta. split; [exact E1|]. rewrite B1, S1 in E2. split; [exact E2|].
  split; [exact H2|]. split; [exact E3|]. split.
  - unfold Pool.allocate. cbn [Pool.next_free_ Pool.free_list_ Pool.block_size_ Pool.pool_data].
    rewrite Hne, Hloop. cbn [mbind option_bind].
    by rewrite B1, S1, wrap_small by (unfold in_width; nia).
  - unfold Pool.available. cbn [Pool.num_blocks_ Pool.free_list_ Pool.next_free_].
    assert (forall k, walk k (<[Z.to_nat i := i]> (Pool.free_list_ p1)) i = Some (replicate k i))
      as Hw.
    { induction k as [|k IH]; cbn [walk]; rewrite Hne; [done|].
      rewrite Hloop. cbn [mbind option_bind]. by rewrite IH. }
    rewrite Hw. cbn [fmap option_fmap option_map compose]. rewrite length_replicate, N1. f_equal. lia.
Qed.

(** The constructor is undefined for an empty pool (it writes entry
    [SIZE_MAX] of an empty vector); with at least one block, allocating [n]
    times succeeds with the blocks in ascending order, and the next allocation
    returns the null pointer and leaves the pool unchanged. *)
Theorem memory_pool_construction d bs n :
  Pool.MemoryPool_new d bs 0 = None /\
  (0 < d -> 0 < bs -> 0 < n < 2 ^ 64 - 1 -> d + n * bs <= 2 ^ 64 ->
   exists p p', Pool.MemoryPool_new d bs n = Some p /\
     client_run (replicate (Z.to_nat n) Alloc) ([], p) =
       Some (map (fun i => d + i * bs) (rev (seqZ 0 n)), p') /\
     Pool.allocate p' = Some (nullptr, p')).
Proof.
  split; [by vm_compute|]. intros Hd Hbs Hn Hfit.
  destruct (Pool.pool_new_inv d bs n Hd Hbs Hn Hfit) as (p & E & Hp & Ed & Eb & En).
  assert (forall fs held p, Pool.pool_inv p fs -> Pool.pool_data p = d -> Pool.block_size_ p = bs ->
    exists p', client_run (replicate (length fs) Alloc) (held, p) =
        Some (map (fun i => d + i * bs) (rev fs) ++ held, p') /\ Pool.pool_inv p' []) as Hrun.
  { clear -Hd Hbs. unfold client_run. induction fs as [|i fs IH]; intros held p Hp Ed Eb.
    { by exists p. }
    destruct (@ba_take _ Pool.MemoryPool_allocator p i fs Hp) as (p1 & E1 & H1 & B1 & S1 & _).
    cbn [length replicate foldl mbind option_bind client_step]. rewrite E1.
    destruct (@ba_free_ok _ Pool.MemoryPool_allocator p _ Hp) as [_ [Hi _]%Forall_cons].
    cbn [ba_base ba_block ba_count Pool.MemoryPool_allocator] in *. rewrite Ed, Eb in *.
    destruct (Z.eqb_spec (d + i * bs) nullptr) as [E0|]; [unfold nullptr in E0; nia|].
    destruct (IH ((d + i * bs) :: held) p1 H1) as (p2 & E2 & H2); [congruence..|].
    exists p2. split; [|done]. rewrite E2. cbn [rev]. by rewrite map_app, <- app_assoc. }
  destruct (Hrun _ [] p Hp Ed Eb) as (p' & E' & H').
  rewrite length_seqZ, app_nil_r in E'. exists p, p'. split_and!; [done|done|].
  apply (@ba_exhausted _ Pool.MemoryPool_allocator p' H').
Qed.

(** ** Witnesses *)
Definition demo_client : list client_op := [Alloc; Alloc; Free 1; Alloc; Alloc; Alloc].
Definition demo_mmap : ZeroCopy.mmap_fn := fun size huge =>
  if huge || negb ((0 <=? size) && (size <=? 65536)) then None else Some 4096.

Lemma memory_pool_blocks_disjoint_witness :
  exists p held p', Pool.MemoryPool_new 4096 64 3 = Some p /\
    client_run demo_client ([], p) = Some (held, p') /\
    (forall a, a ∈ held -> 4096 <= a /\ a + 64 <= 4096 + 3 * 64) /\
    (forall j k a b, j <> k -> held !! j = Some a -> held !! k = Some b ->
       a + 64 <= b \/ b + 64 <= a) /\
    Pool.available p' = Some (3 - Z.of_nat (length held)).
Proof. apply (memory_pool_blocks_disjoint 4096 64 3 demo_client); lia. Defined.

Lemma zero_copy_pool_blocks_disjoint_witness :
  exists p, ZeroCopy.ZeroCopyMemoryPool_new demo_mmap 64 3 true = ZeroCopy.Constructed p /\
    ZeroCopy.uses_huge_pages p = true /\ demo_mmap (3 * 64) true = None /\
    exists held p', client_run demo_client ([], p) = Some (held, p') /\
      (forall a, a ∈ held -> 4096 <= a /\ a + 64 <= 4096 + 3 * 64).
Proof.
  assert (forall size h a, demo_mmap size h = Some a -> 0 < a /\ a + size <= 2 ^ 64) as Hm.
  { intros size h a. unfold demo_mmap.
    destruct h, (Z.leb_spec 0 size), (Z.leb_spec size 65536); try done. intros [= <-]. lia. }
  pose proof (zero_copy_pool_blocks_disjoint demo_mmap 64 3 true demo_client Hm
    ltac:(lia) ltac:(lia) ltac:(lia)) as H.
  eexists. split; [reflexivity|].
  destruct H as (_ & Hu & held & p' & E & Hin & _). split; [exact Hu|]. split; [reflexivity|].
  exists held, p'. split; [exact E|exact Hin].
Defined.

Lemma double_free_aliases_witness :
  exists p1 p2 p3,
    let p := Pool.mkMemoryPool 64 3 4096 192 [1; 2; SIZE_MAX] 1 in
    let block := 4096 + 0 * 64 in
    Pool.deallocate 4100 p = Some p1 /\
    Pool.allocate p1 = Some (block, p2) /\ Pool.pool_inv p2 [1; 2] /\
    Pool.deallocate 4100 p1 = Some p3 /\
    Pool.allocate p3 = Some (block, p3) /\ Pool.available p3 = Some 3.
Proof.
  apply (double_free_aliases (Pool.mkMemoryPool 64 3 4096 192 [1; 2; SIZE_MAX] 1) [1; 2] 0 4100).
  - unfold Pool.pool_inv. split_and!; try (reflexivity || (cbn; lia)).
    + eapply chain_link; [discriminate|reflexivity|].
      eapply chain_link; [discriminate|reflexivity|constructor].
    + repeat constructor; set_solver.
  - cbn. lia.
  - set_solver.
  - cbn. lia.
Defined.

Lemma memory_pool_construction_witness :
  Pool.MemoryPool_new 4096 64 0 = None /\
  exists p p', Pool.MemoryPool_new 4096 64 3 = Some p /\
     client_run (replicate 3 Alloc) ([], p) = Some ([4224; 4160; 4096], p') /\
     Pool.allocate p' = Some (nullptr, p').
Proof.
  split; [apply (memory_pool_construction 4096 64 3)|].
  apply (memory_pool_construction 4096 64 3); lia.
Defined.
