(* ===== verification/TcpReassembly.v ===== *)
(** * TcpReassembly: the out-of-order segment buffer (protocol/tcp_reassembly.hpp)

    [std::map<uint32_t, vector>] is a list of key-value pairs in strictly
    increasing key order; iteration follows the list. *)
From stdpp Require Import sorting.
From S2P Require Import Prelude Bytes BitOps Memory.

Record TcpBufferedSegment := mkTcpBufferedSegment { seg_seq : Z; seg_data : list Z }.
Record TcpHoleRange := mkTcpHoleRange { start_seq : Z; end_seq : Z }.

Abbreviation segment_map := (list (Z * list Z)).

(** [map::find], [map::emplace] (no effect when the key is present) and [map::erase]. *)
Fixpoint map_find (k : Z) (m : segment_map) : option (list Z) :=
  match m with
  | [] => None
  | (k', v) :: m => if k =? k' then Some v else map_find k m
  end.

Fixpoint map_emplace (k : Z) (v : list Z) (m : segment_map) : segment_map * bool :=
  match m with
  | [] => ([(k, v)], true)
  | (k', v') :: m' =>
      if k <? k' then ((k, v) :: m, true)
      else if k =? k' then (m, false)
      else let '(m', b) := map_emplace k v m' in ((k', v') :: m', b)
  end.

Definition map_erase (k : Z) (m : segment_map) : segment_map := filter (fun kv => kv.1 <> k) m.

Record TcpReassemblyBuffer := mkTcpReassemblyBuffer {
  segments_ : segment_map;
  total_bytes_ : Z;
}.

Definition TcpReassemblyBuffer_new : TcpReassemblyBuffer := mkTcpReassemblyBuffer [] 0.

(** [insert] with the bytes already copied out of memory. *)
Definition insert_bytes (seq : Z) (bs : list Z) (b : TcpReassemblyBuffer)
    : bool * TcpReassemblyBuffer :=
  let '(m, inserted) := map_emplace seq bs b.(segments_) in
  if negb inserted then (false, b) else
  (true, mkTcpReassemblyBuffer m (u64 (b.(total_bytes_) + Z.of_nat (length bs)))).

Definition insert (seq : Z) (d : ptr) (n : nat) (b : TcpReassemblyBuffer)
    : M (bool * TcpReassemblyBuffer) :=
  if (d =? nullptr) || (n =? 0)%nat then mret (false, b) else
  bs ← load d n;
  mret (insert_bytes seq bs b).

(** The loop of [pop_contiguous]; every iteration erases a segment, so one more
    iteration than there are segments is enough. *)
Fixpoint pop_loop (fuel : nat) (m : segment_map) (cursor consumed : Z)
    (out : list TcpBufferedSegment) : option (segment_map * Z * list TcpBufferedSegment) :=
  match fuel with
  | O => None
  | S fuel =>
      match map_find cursor m with
      | None => Some (m, consumed, out)
      | Some bs =>
          pop_loop fuel (map_erase cursor m) (u32 (cursor + u32 (Z.of_nat (length bs))))
            (u64 (consumed + Z.of_nat (length bs)))
            (out ++ [mkTcpBufferedSegment cursor bs])
      end
  end.

Definition pop_contiguous (expected_seq : Z) (b : TcpReassemblyBuffer)
    : option (Z * list TcpBufferedSegment * TcpReassemblyBuffer) :=
  '(m, consumed, out) ← pop_loop (S (length b.(segments_))) b.(segments_) expected_seq 0 [];
  let total := if b.(total_bytes_) <? consumed then 0 else u64 (b.(total_bytes_) - consumed) in
  Some (consumed, out, mkTcpReassemblyBuffer m total).

Definition size (b : TcpReassemblyBuffer) : Z := b.(total_bytes_).
Definition segment_count (b : TcpReassemblyBuffer) : Z := Z.of_nat (length b.(segments_)).

(** The three scans over the buffered segments. *)
Definition advance (cursor seq : Z) (bs : list Z) : Z :=
  let seg_end := u32 (seq + u32 (Z.of_nat (length bs))) in
  if cursor <? seg_end then seg_end else cursor.

Fixpoint hole_ranges_loop (max_ranges : Z) (cursor : Z) (m : segment_map)
    (holes : list TcpHoleRange) : list TcpHoleRange :=
  match m with
  | [] => holes
  | (seq, bs) :: m =>
      if max_ranges <=? Z.of_nat (length holes) then holes else
      let holes := if cursor <? seq then holes ++ [mkTcpHoleRange cursor seq] else holes in
      hole_ranges_loop max_ranges (advance cursor seq bs) m holes
  end.

Definition hole_ranges (b : TcpReassemblyBuffer) (expected_seq max_ranges : Z) : list TcpHoleRange :=
  hole_ranges_loop max_ranges expected_seq b.(segments_) [].

Fixpoint hole_count_loop (cursor : Z) (m : segment_map) (holes : Z) : Z :=
  match m with
  | [] => holes
  | (seq, bs) :: m =>
      hole_count_loop (advance cursor seq bs) m
        (if cursor <? seq then u64 (holes + 1) else holes)
  end.

Definition hole_count (b : TcpReassemblyBuffer) (expected_seq : Z) : Z :=
  hole_count_loop expected_seq b.(segments_) 0.

Fixpoint total_hole_bytes_loop (cursor : Z) (m : segment_map) (total : Z) : Z :=
  match m with
  | [] => total
  | (seq, bs) :: m =>
      total_hole_bytes_loop (advance cursor seq bs) m
        (if cursor <? seq then u32 (total + u32 (seq - cursor)) else total)
  end.

Definition total_hole_bytes (b : TcpReassemblyBuffer) (expected_seq : Z) : Z :=
  total_hole_bytes_loop expected_seq b.(segments_) 0.

(** ** Well-formed buffers *)
Definition stored (m : segment_map) : Z := zsum (map (fun kv => Z.of_nat (length kv.2)) m).

Record buffer_inv (b : TcpReassemblyBuffer) : Prop := {
  bi_sorted : StronglySorted (fun x y => x.1 < y.1) b.(segments_);
  bi_keys : Forall (fun kv => in_width 32 kv.1 /\ kv.2 <> []) b.(segments_);
  bi_total : b.(total_bytes_) = stored b.(segments_);
  bi_fits : stored b.(segments_) < 2 ^ 64;
}.

(** ** Finite-map facts *)
Definition sorted (m : segment_map) : Prop := StronglySorted (fun x y => x.1 < y.1) m.

Lemma sorted_cons kv m :
  sorted (kv :: m) <-> sorted m /\ Forall (fun y => kv.1 < y.1) m.
Proof. split; [intros H; by inversion H|intros []; by constructor]. Qed.

Lemma map_find_elem k v m : map_find k m = Some v -> (k, v) ∈ m.
Proof.
  induction m as [|[k' v'] m IH]; cbn [map_find]; [done|].
  destruct (Z.eqb_spec k k') as [->|].
  - intros [= ->]. by left.
  - intros H. right. auto.
Qed.

Lemma map_find_in k v m : sorted m -> (k, v) ∈ m -> map_find k m = Some v.
Proof.
  induction m as [|[k' v'] m IH]; intros Hs Hin; cbn [map_find]; [by apply elem_of_nil in Hin|].
  apply sorted_cons in Hs as [Hs Hlt]. apply elem_of_cons in Hin as [[= -> ->]|Hin].
  - by rewrite Z.eqb_refl.
  - rewrite Forall_forall in Hlt. specialize (Hlt _ Hin). cbn in Hlt.
    destruct (Z.eqb_spec k k'); [lia|auto].
Qed.

Lemma map_find_None k m : map_find k m = None <-> Forall (fun kv => kv.1 <> k) m.
Proof.
  induction m as [|[k' v'] m IH]; cbn [map_find]; [done|].
  rewrite Forall_cons, <- IH. cbn [fst].
  destruct (Z.eqb_spec k k') as [->|]; split; try done; [by intros [? _]|by intros [_ ?]].
Qed.

Lemma map_emplace_spec k v m :
  sorted m ->
  let '(m', ok) := map_emplace k v m in
  sorted m' /\ (forall P, P k -> Forall (fun x => P x.1) m -> Forall (fun x => P x.1) m') /\
  match map_find k m with
  | Some _ => ok = false /\ m' = m
  | None => ok = true /\ m' ≡ₚ (k, v) :: m
  end.
Proof.
  induction m as [|[k' v'] m IH]; intros Hs; cbn [map_emplace map_find].
  { split; [apply sorted_cons; split; constructor|]. split; [|done].
    intros P Hk _. by constructor. }
  apply sorted_cons in Hs as [Hs Hlt]. cbn [fst] in Hlt.
  destruct (Z.ltb_spec k k').
  - assert (Forall (fun y => k < y.1) ((k', v') :: m)) as Hk.
    { constructor; [done|]. eapply Forall_impl; [exact Hlt|]. cbn. lia. }
    split; [|split].
    + apply sorted_cons. split; [by apply sorted_cons|exact Hk].
    + intros P Pk HP. by constructor.
    + destruct (Z.eqb_spec k k'); [lia|].
      rewrite (proj2 (map_find_None k m)); [done|].
      eapply Forall_impl; [exact Hlt|]. cbn. lia.
  - destruct (Z.eqb_spec k k') as [->|].
    + split; [by apply sorted_cons|]. done.
    + specialize (IH Hs). destruct (map_emplace k v m) as [m' ok].
      destruct IH as (Hs' & HP & Hcase). split; [|split].
      * apply sorted_cons. split; [done|]. apply (HP (fun x => k' < x)); [lia|done].
      * intros P Pk HPm. apply Forall_cons in HPm as [? ?]. constructor; [done|]. by apply HP.
      * destruct (map_find k m); destruct Hcase as [-> Hm]; split; try done.
        -- by rewrite Hm.
        -- rewrite Hm. apply perm_swap.
Qed.

Lemma map_erase_sorted k m : sorted m -> sorted (map_erase k m).
Proof.
  unfold map_erase. induction m as [|kv m IH]; intros Hs; [done|].
  apply sorted_cons in Hs as [Hs Hlt]. rewrite filter_cons. case_decide; [|auto].
  apply sorted_cons. split; [auto|]. apply Forall_filter_keep, Hlt.
Qed.

Lemma map_erase_perm k v m :
  sorted m -> map_find k m = Some v -> m ≡ₚ (k, v) :: map_erase k m.
Proof.
  unfold map_erase. induction m as [|[k' v'] m IH]; intros Hs Hf; cbn [map_find] in Hf; [done|].
  apply sorted_cons in Hs as [Hs Hlt]. cbn [fst] in Hlt. rewrite filter_cons. cbn [fst].
  destruct (Z.eqb_spec k k') as [->|].
  - injection Hf as ->. rewrite decide_False by auto.
    rewrite filter_all; [done|].
    eapply Forall_impl; [exact Hlt|]. cbn. lia.
  - rewrite decide_True by auto. rewrite (IH Hs Hf) at 1. apply perm_swap.
Qed.

Lemma map_erase_length k v m :
  sorted m -> map_find k m = Some v -> length m = S (length (map_erase k m)).
Proof. intros Hs Hf. by rewrite (Permutation_length (map_erase_perm k v m Hs Hf)). Qed.

Lemma stored_perm m m' : m ≡ₚ m' -> stored m = stored m'.
Proof.
  intros H. unfold stored, zsum. induction H; cbn; lia.
Qed.

Lemma stored_nonneg m : 0 <= stored m.
Proof. apply zsum_nonneg, Forall_map, Forall_true. intros. lia. Qed.

(** ** Insertion *)
Lemma stored_cons k v m : stored ((k, v) :: m) = Z.of_nat (length v) + stored m.
Proof. done. Qed.

Lemma insert_bytes_spec seq bs b :
  buffer_inv b -> in_width 32 seq -> bs <> [] ->
  stored (segments_ b) + Z.of_nat (length bs) < 2 ^ 64 ->
  exists ok b', insert_bytes seq bs b = (ok, b') /\ buffer_inv b' /\
    match map_find seq (segments_ b) with
    | Some _ => ok = false /\ b' = b
    | None => ok = true /\ segments_ b' ≡ₚ (seq, bs) :: segments_ b /\
              size b' = size b + Z.of_nat (length bs)
    end.
Proof.
  intros [Hs Hk Ht Hf] Hseq Hbs Hfit. unfold insert_bytes.
  pose proof (map_emplace_spec seq bs (segments_ b) Hs) as H.
  destruct (map_emplace seq bs (segments_ b)) as [m' ok]. destruct H as (Hs' & _ & Hcase).
  destruct (map_find seq (segments_ b)); destruct Hcase as [-> Hm]; cbn [negb];
    (do 2 eexists; split; [reflexivity|]); [by split|].
  pose proof (stored_nonneg (segments_ b)).
  rewrite wrap_small by (rewrite Ht; unfold in_width; lia).
  split; [|split; [done|split; [done|done]]]. split; cbn [segments_ total_bytes_].
  - exact Hs'.
  - rewrite Hm. by constructor.
  - rewrite (stored_perm _ _ Hm), stored_cons, Ht. lia.
  - rewrite (stored_perm _ _ Hm), stored_cons. lia.
Qed.

(** [insert] keeps the buffer well formed: null or empty input and a sequence
    number already buffered are refused without effect (the old bytes stay);
    otherwise exactly one segment with the bytes read from memory is added and
    the byte count grows by its length. *)
Theorem insert_buffers_segment seq d n b m bs :
  buffer_inv b -> in_width 32 seq -> read_bytes m d n = Some bs ->
  stored (segments_ b) + Z.of_nat n < 2 ^ 64 ->
  exists ok b', insert seq d n b m = Some ((ok, b'), m) /\ buffer_inv b' /\
    (ok = true <-> d <> nullptr /\ n <> 0%nat /\ map_find seq (segments_ b) = None) /\
    (if ok then segments_ b' ≡ₚ (seq, bs) :: segments_ b /\ size b' = size b + Z.of_nat n
     else b' = b).
Proof.
  intros Hb Hseq Hr Hfit. pose proof (read_bytes_length _ _ _ _ Hr) as Hl. unfold insert.
  destruct (Z.eqb_spec d nullptr), (Nat.eqb_spec n 0); cbn [orb];
    try (exists false, b; split; [done|]; split; [done|]; split; [|done]; split;
         [done|by intros (? & ? & _)]).
  destruct (insert_bytes_spec seq bs b Hb Hseq) as (ok & b' & E & Hb' & Hcase);
    [by destruct bs|lia|].
  exists ok, b'. split.
  { eapply bind_run; [by apply load_run|]. by rewrite E. }
  split; [done|]. rewrite Hl in Hcase.
  destruct (map_find seq (segments_ b)).
  - destruct Hcase as [-> ->]. split; [|done]. split; [done|by intros (_ & _ & ?)].
  - destruct Hcase as (-> & ? & ?). by split.
Qed.

(** ** Contiguous delivery *)

(** [contiguous c out e]: the segments of [out] follow each other from [c] to [e]. *)
Inductive contiguous : Z -> list TcpBufferedSegment -> Z -> Prop :=
  | contiguous_nil c : contiguous c [] c
  | contiguous_cons c bs out e :
      contiguous (u32 (c + u32 (Z.of_nat (length bs)))) out e ->
      contiguous c (mkTcpBufferedSegment c bs :: out) e.

Definition pairs (out : list TcpBufferedSegment) : segment_map :=
  map (fun s => (s.(seg_seq), s.(seg_data))) out.

Lemma pop_loop_spec fuel m c k out :
  sorted m -> (length m < fuel)%nat -> 0 <= k -> k + stored m < 2 ^ 64 ->
  exists m' out' e, pop_loop fuel m c k out = Some (m', k + stored (pairs out'), out ++ out') /\
    m ≡ₚ pairs out' ++ m' /\ sorted m' /\ contiguous c out' e /\ map_find e m' = None.
Proof.
  revert m c k out. induction fuel as [|fuel IH]; intros m c k out Hs Hl Hk Hfit; [lia|].
  cbn [pop_loop]. destruct (map_find c m) as [bs|] eqn:Hf.
  - pose proof (map_erase_perm c bs m Hs Hf) as Hp.
    pose proof (map_erase_length c bs m Hs Hf).
    rewrite (stored_perm _ _ Hp), stored_cons in Hfit.
    pose proof (stored_nonneg (map_erase c m)).
    rewrite (wrap_small 64) by (unfold in_width; lia).
    destruct (IH (map_erase c m) (u32 (c + u32 (Z.of_nat (length bs))))
      (k + Z.of_nat (length bs)) (out ++ [mkTcpBufferedSegment c bs]))
      as (m' & out' & e & E & Hm & Hs' & Hc & He); [by apply map_erase_sorted|lia..|].
    exists m', (mkTcpBufferedSegment c bs :: out'), e. rewrite E, <- app_assoc.
    split; [|split; [|split; [done|split; [by constructor|done]]]].
    + cbn [pairs map seg_seq seg_data]. rewrite stored_cons. do 3 f_equal. unfold pairs. lia.
    + rewrite Hp, Hm at 1. done.
  - exists m, [], c. rewrite Z.add_0_r, app_nil_r. split_and!; try done. constructor.
Qed.

Lemma pop_contiguous_spec b c :
  buffer_inv b ->
  exists consumed out b' e, pop_contiguous c b = Some (consumed, out, b') /\
    buffer_inv b' /\ contiguous c out e /\ map_find e (segments_ b') = None /\
    segments_ b ≡ₚ pairs out ++ segments_ b' /\
    consumed = stored (pairs out) /\ size b' = size b - consumed.
Proof.
  intros [Hs Hk Ht Hf]. unfold pop_contiguous.
  destruct (pop_loop_spec (S (length (segments_ b))) (segments_ b) c 0 [] Hs)
    as (m' & out & e & E & Hm & Hs' & Hc & He); [lia|lia|lia|].
  rewrite E. cbn [mbind option_bind app]. rewrite Z.add_0_l.
  assert (stored (segments_ b) = stored (pairs out) + stored m') as Hst.
  { rewrite (stored_perm _ _ Hm). unfold stored. by rewrite map_app, zsum_app. }
  pose proof (stored_nonneg (pairs out)). pose proof (stored_nonneg m').
  rewrite Ht. destruct (Z.ltb_spec (stored (segments_ b)) (stored (pairs out))); [lia|].
  rewrite wrap_small by (unfold in_width; lia).
  do 4 eexists. split; [reflexivity|].
  split; [|split_and!; try done; cbn [size total_bytes_]; unfold size; lia].
  split; cbn [segments_ total_bytes_]; [done| |lia|lia].
  rewrite Hm in Hk. by apply Forall_app in Hk as [_ ?].
Qed.

(** C22: [pop_contiguous] terminates on every buffer and splits it: the segments it
    returns are contiguous from the expected sequence number, the run is maximal
    (no buffered segment starts where it ends), everything else stays, and the
    returned count and the remaining byte count are exact. *)
Theorem pop_contiguous_maximal b c :
  buffer_inv b ->
  exists consumed out b' e, pop_contiguous c b = Some (consumed, out, b') /\
    buffer_inv b' /\ contiguous c out e /\ map_find e (segments_ b') = None /\
    segments_ b ≡ₚ pairs out ++ segments_ b' /\
    consumed = stored (pairs out) /\ size b' = size b - consumed.
Proof. apply pop_contiguous_spec. Qed.

(** ** A byte stream cut into segments *)
Fixpoint cut (c : Z) (pieces : list (list Z)) : segment_map :=
  match pieces with
  | [] => []
  | p :: pieces => (c, p) :: cut (u32 (c + Z.of_nat (length p))) pieces
  end.

Definition insert_all (l : segment_map) (b : TcpReassemblyBuffer) : TcpReassemblyBuffer :=
  foldl (fun b kv => snd (insert_bytes kv.1 kv.2 b)) b l.

Lemma cut_keys c pieces :
  in_width 32 c -> Forall (fun p => p <> []) pieces -> stored (cut c pieces) < 2 ^ 32 ->
  Forall (fun kv => in_width 32 kv.1 /\
    exists o, 0 <= o /\ kv.1 = u32 (c + o) /\ o + Z.of_nat (length kv.2) <= stored (cut c pieces))
    (cut c pieces) /\ NoDup (cut c pieces).*1.
Proof.
  intros Hc Hp. revert c Hc. induction Hp as [|p pieces Hp _ IH]; intros c Hc Hst; cbn [cut].
  { split; constructor. }
  cbn [cut] in Hst. rewrite stored_cons in Hst |- *.
  set (c' := u32 (c + Z.of_nat (length p))) in *.
  pose proof (stored_nonneg (cut c' pieces)).
  assert (0 < Z.of_nat (length p)) by (destruct p; [done|cbn; lia]).
  destruct (IH c') as [Hk Hnd]; [apply wrap_range; lia|lia|].
  assert (Forall (fun kv => in_width 32 kv.1 /\
    exists o, Z.of_nat (length p) <= o /\ kv.1 = u32 (c + o) /\
      o + Z.of_nat (length kv.2) <= Z.of_nat (length p) + stored (cut c' pieces)) (cut c' pieces)) as Hk'.
  { eapply Forall_impl; [exact Hk|]. intros [k v] (? & o & ? & E & ?). split; [done|].
    exists (Z.of_nat (length p) + o). cbn [fst snd] in *. split_and!; try lia.
    rewrite E. unfold c'. rewrite wrap_add_l by lia. f_equal. lia. }
  split.
  - constructor.
    + split; [done|]. exists 0. cbn [fst snd]. rewrite Z.add_0_r, wrap_small by done. lia.
    + eapply Forall_impl; [exact Hk'|]. intros kv (? & o & ? & ? & ?). split; [done|].
      exists o. split_and!; (done || lia).
  - cbn [fmap list_fmap fst]. apply NoDup_cons. split; [|done].
    intros (kv & E & Hin)%list_elem_of_fmap. rewrite Forall_forall in Hk'.
    destruct (Hk' kv Hin) as (_ & o & Ho & Eo & Hlen). rewrite <- E in Eo.
    assert (u32 (c + o) = u32 (c + 0)) as Eq by (rewrite Z.add_0_r, (wrap_small 32 c) by done; done).
    apply (mod_window_inj (2 ^ 32) c o 0) in Eq; lia.
Qed.

Lemma insert_all_perm l b :
  buffer_inv b -> Forall (fun kv => in_width 32 kv.1 /\ kv.2 <> []) l ->
  NoDup (l ++ segments_ b).*1 -> stored (segments_ b) + stored l < 2 ^ 64 ->
  buffer_inv (insert_all l b) /\ segments_ (insert_all l b) ≡ₚ l ++ segments_ b.
Proof.
  unfold insert_all. revert b. induction l as [|[k v] l IH]; intros b Hb Hl Hnd Hfit;
    cbn [foldl fst snd]; [done|].
  apply Forall_cons in Hl as [[Hk Hv] Hl]. rewrite stored_cons in Hfit.
  pose proof (stored_nonneg l). cbn [app fmap list_fmap fst] in Hnd.
  apply NoDup_cons in Hnd as [Hni Hnd].
  destruct (insert_bytes_spec k v b Hb Hk Hv) as (ok & b' & E & Hb' & Hcase); [lia|].
  assert (map_find k (segments_ b) = None) as Hf.
  { apply map_find_None, Forall_forall. intros kv Hin Heq. apply Hni.
    apply list_elem_of_fmap. exists kv. split; [done|]. apply elem_of_app. by right. }
  rewrite Hf in Hcase. destruct Hcase as (-> & Hp & _). rewrite E. cbn [snd].
  destruct (IH b' Hb' Hl) as [Hi Hperm].
  - rewrite Hp. rewrite <- Permutation_middle. cbn [fmap list_fmap fst]. by apply NoDup_cons.
  - rewrite (stored_perm _ _ Hp), stored_cons. lia.
  - split; [done|]. rewrite Hperm, Hp. symmetry. apply Permutation_middle.
Qed.

Lemma pop_cut fuel pieces m c k out :
  sorted m -> m ≡ₚ cut c pieces -> (length m < fuel)%nat -> 0 <= k ->
  k + stored m < 2 ^ 64 -> Forall (fun p => Z.of_nat (length p) < 2 ^ 32) pieces ->
  pop_loop fuel m c k out =
    Some ([], k + stored m, out ++ map (fun kv => mkTcpBufferedSegment kv.1 kv.2) (cut c pieces)).
Proof.
  revert fuel m c k out. induction pieces as [|p pieces IH];
    intros fuel m c k out Hs Hp Hl Hk Hfit Hlen; destruct fuel as [|fuel]; try lia;
    cbn [cut pop_loop map] in *.
  - symmetry in Hp. apply Permutation_nil in Hp. subst m. cbn. by rewrite Z.add_0_r, app_nil_r.
  - apply Forall_cons in Hlen as [Hlp Hlen].
    assert (map_find c m = Some p) as Hf by (apply map_find_in; [done|rewrite Hp; by left]).
    rewrite Hf. pose proof (map_erase_perm c p m Hs Hf) as He.
    pose proof (map_erase_length c p m Hs Hf).
    rewrite (stored_perm _ _ He), stored_cons in Hfit |- *.
    pose proof (stored_nonneg (map_erase c m)).
    rewrite (wrap_small 32 (Z.of_nat (length p))), (wrap_small 64) by (unfold in_width; lia).
    rewrite (IH fuel); [| |apply (Permutation_cons_inv (a := (c, p)))| | | |done].
    + rewrite <- app_assoc. cbn [app fst snd]. do 3 f_equal. lia.
    + by apply map_erase_sorted.
    + by rewrite <- He.
    + lia.
    + lia.
    + lia.
Qed.

Lemma stored_cut c pieces : stored (cut c pieces) = Z.of_nat (length (concat pieces)).
Proof.
  revert c. induction pieces as [|p pieces IH]; intros c; [done|].
  cbn [cut concat]. rewrite stored_cons, length_app, IH. lia.
Qed.

(** C1: Reassembly is independent of arrival order: a byte stream of less than
    2^32 bytes, cut into non-empty segments starting at any sequence number
    (wrapping around 2^32 included) and inserted in any order, is returned by
    [pop_contiguous] complete and in stream order, leaving the buffer empty. *)
Theorem reassembly_any_order c pieces arrivals :
  in_width 32 c -> Forall (fun p => p <> []) pieces -> stored (cut c pieces) < 2 ^ 32 ->
  arrivals ≡ₚ cut c pieces ->
  exists out, pop_contiguous c (insert_all arrivals TcpReassemblyBuffer_new) =
      Some (Z.of_nat (length (concat pieces)), out, TcpReassemblyBuffer_new) /\
    concat (map seg_data out) = concat pieces.
Proof.
  intros Hc Hp Hst Ha. destruct (cut_keys c pieces Hc Hp Hst) as [Hk Hnd].
  assert (Forall (fun kv => kv.2 <> []) (cut c pieces)) as Hne.
  { clear -Hp. revert c. induction Hp; intros c; cbn [cut]; by constructor. }
  assert (buffer_inv TcpReassemblyBuffer_new) as H0.
  { split; cbn; (constructor || done). }
  destruct (insert_all_perm arrivals TcpReassemblyBuffer_new H0) as [[Hs _ Ht Hf] Hperm].
  - rewrite Ha. apply Forall_and. split; [|done]. eapply Forall_impl; [exact Hk|]. by intros ? [? _].
  - cbn [segments_ TcpReassemblyBuffer_new]. by rewrite app_nil_r, Ha.
  - rewrite (stored_perm _ _ Ha). cbn. lia.
  - cbn [segments_ TcpReassemblyBuffer_new] in Hperm. rewrite app_nil_r in Hperm.
    apply (Permutation_trans Hperm) in Ha as Hcut. clear Hperm. rename Hcut into Hperm.
    pose proof (stored_cut c pieces) as Hlen.
    eexists. split.
    + unfold pop_contiguous. rewrite (pop_cut _ pieces); try done; try lia.
      * cbn [mbind option_bind]. rewrite Z.add_0_l, Ht, (stored_perm _ _ Hperm), Hlen, Z.sub_diag.
        rewrite Z.ltb_irrefl. done.
      * apply Forall_forall. intros p [i Hi]%list_elem_of_lookup.
        enough (Z.of_nat (length p) <= Z.of_nat (length (concat pieces))) by lia.
        apply list_elem_of_lookup_2 in Hi. apply list_elem_of_split in Hi as (l1 & l2 & ->).
        rewrite concat_app, length_app. cbn [concat]. rewrite length_app. lia.
    + cbn [app]. clear. revert c. induction pieces as [|p pieces IH]; intros c; [done|].
      cbn [cut map concat seg_data fst snd]. by rewrite IH.
Qed.

(** ** Holes *)

(** All segments end before the sequence space wraps. *)
Definition no_wrap (m : segment_map) : Prop :=
  Forall (fun kv => 0 <= kv.1 /\ kv.1 + Z.of_nat (length kv.2) < 2 ^ 32) m.

Definition covered (m : segment_map) (x : Z) : Prop :=
  exists kv, kv ∈ m /\ kv.1 <= x < kv.1 + Z.of_nat (length kv.2).

Definition in_hole (h : TcpHoleRange) (x : Z) : Prop := h.(start_seq) <= x < h.(end_seq).

(** All holes from a cursor on, without the limit. *)
Fixpoint holes_from (cursor : Z) (m : segment_map) : list TcpHoleRange :=
  match m with
  | [] => []
  | (seq, bs) :: m =>
      (if cursor <? seq then [mkTcpHoleRange cursor seq] else []) ++
      holes_from (Z.max cursor (seq + Z.of_nat (length bs))) m
  end.

Lemma advance_max cursor seq bs :
  0 <= seq -> seq + Z.of_nat (length bs) < 2 ^ 32 ->
  advance cursor seq bs = Z.max cursor (seq + Z.of_nat (length bs)).
Proof.
  intros. unfold advance. rewrite !wrap_small by (unfold in_width; rewrite ?wrap_small by (unfold in_width; lia); lia).
  bool_cases; lia.
Qed.

Lemma no_wrap_cons k v m :
  no_wrap ((k, v) :: m) <-> (0 <= k /\ k + Z.of_nat (length v) < 2 ^ 32) /\ no_wrap m.
Proof. unfold no_wrap. by rewrite Forall_cons. Qed.

Lemma hole_ranges_take m c n holes :
  no_wrap m -> 0 <= n -> Z.of_nat (length holes) <= n ->
  hole_ranges_loop n c m holes = take (Z.to_nat n) (holes ++ holes_from c m).
Proof.
  intros Hw Hn. revert c holes. induction m as [|[k v] m IH]; intros c holes Hl;
    cbn [hole_ranges_loop holes_from].
  { rewrite app_nil_r, take_ge by lia. done. }
  apply no_wrap_cons in Hw as [[? ?] Hw].
  destruct (Z.leb_spec n (Z.of_nat (length holes))).
  - rewrite take_app_le, take_ge by lia. done.
  - rewrite advance_max by lia. destruct (c <? k); cbn [app].
    + rewrite IH by (try done; rewrite length_app; cbn; lia). by rewrite <- app_assoc.
    + by apply IH; [|lia].
Qed.

Lemma hole_count_length m c n :
  no_wrap m -> 0 <= n -> n + Z.of_nat (length m) < 2 ^ 64 ->
  hole_count_loop c m n = n + Z.of_nat (length (holes_from c m)).
Proof.
  revert c n. induction m as [|[k v] m IH]; intros c n Hw Hn Hl; cbn [hole_count_loop holes_from length] in *.
  { lia. }
  apply no_wrap_cons in Hw as [[? ?] Hw]. rewrite advance_max by lia. destruct (c <? k); cbn [app length].
  - rewrite wrap_small by (unfold in_width; lia). rewrite IH by (done || lia). lia.
  - by rewrite IH by (done || lia).
Qed.

Definition hole_bytes (holes : list TcpHoleRange) : Z :=
  zsum (map (fun h => h.(end_seq) - h.(start_seq)) holes).

Lemma total_hole_bytes_sum m c t :
  no_wrap m -> 0 <= t <= c -> total_hole_bytes_loop c m t = t + hole_bytes (holes_from c m).
Proof.
  revert c t. induction m as [|[k v] m IH]; intros c t Hw Ht; cbn [total_hole_bytes_loop holes_from].
  { unfold hole_bytes. cbn. lia. }
  apply no_wrap_cons in Hw as [[? ?] Hw]. rewrite advance_max by lia.
  destruct (Z.ltb_spec c k); cbn [app].
  - rewrite (wrap_small 32 (k - c)), wrap_small by (unfold in_width; lia).
    rewrite IH by (done || lia). unfold hole_bytes. cbn [map zsum foldr end_seq start_seq].
    fold (zsum (map (fun h => end_seq h - start_seq h)
      (holes_from (Z.max c (k + Z.of_nat (length v))) m))). lia.
  - by rewrite IH by (done || lia).
Qed.

Lemma holes_from_ordered m c :
  sorted m ->
  Forall (fun h => c <= h.(start_seq) < h.(end_seq)) (holes_from c m) /\
  StronglySorted (fun h h' => h.(end_seq) <= h'.(start_seq)) (holes_from c m).
Proof.
  revert c. induction m as [|[k v] m IH]; intros c Hs; cbn [holes_from]; [by split; constructor|].
  apply sorted_cons in Hs as [Hs _]. set (c' := Z.max c (k + Z.of_nat (length v))).
  destruct (IH c' Hs) as [Hf Hss].
  destruct (Z.ltb_spec c k); cbn [app]; split; try done.
  - constructor; [cbn; lia|]. eapply Forall_impl; [exact Hf|]. cbn. unfold c'. lia.
  - constructor; [done|]. eapply Forall_impl; [exact Hf|]. cbn. unfold c'. lia.
  - eapply Forall_impl; [exact Hf|]. cbn. unfold c'. lia.
Qed.

Lemma holes_from_uncovered m c x :
  sorted m -> Exists (fun h => in_hole h x) (holes_from c m) <->
    c <= x /\ ~ covered m x /\ exists kv, kv ∈ m /\ x < kv.1.
Proof.
  revert c. induction m as [|[k v] m IH]; intros c Hs; cbn [holes_from].
  { split; [intros H; by apply Exists_nil in H|]. intros (_ & _ & kv & Hin & _).
    by apply elem_of_nil in Hin. }
  apply sorted_cons in Hs as [Hs Hlt]. cbn [fst] in Hlt. rewrite Exists_app, (IH _ Hs).
  rewrite Forall_forall in Hlt.
  assert (Exists (fun h => in_hole h x) (if c <? k then [mkTcpHoleRange c k] else []) <-> c <= x < k)
    as ->.
  { destruct (Z.ltb_spec c k).
    - rewrite Exists_cons, Exists_nil. unfold in_hole. cbn. intuition.
    - rewrite Exists_nil. intuition lia. }
  assert (covered ((k, v) :: m) x <-> k <= x < k + Z.of_nat (length v) \/ covered m x) as ->.
  { unfold covered. split.
    - intros (kv & [->|Hin]%elem_of_cons & Hx); [by left|right; eauto].
    - intros [Hx|(kv & Hin & Hx)]; [exists (k, v)|exists kv]; (split; [|exact Hx]);
        apply elem_of_cons; auto. }
  assert ((exists kv, kv ∈ (k, v) :: m /\ x < kv.1) <-> x < k \/ exists kv, kv ∈ m /\ x < kv.1) as ->.
  { split.
    - intros (kv & [->|Hin]%elem_of_cons & Hx); [by left|right; eauto].
    - intros [Hx|(kv & Hin & Hx)]; [exists (k, v)|exists kv]; (split; [|exact Hx]);
        apply elem_of_cons; auto. }
  split.
  - intros [Hx|(Hx & Hn & He)].
    + split; [lia|]. split; [|by left; lia].
      intros [?|(kv & Hin & Hk)]; [lia|]. specialize (Hlt kv Hin). lia.
    + split; [lia|]. split; [|by right]. intros [?|?]; [lia|done].
  - intros (Hx & Hn & He). destruct (Z.lt_ge_cases x k); [left; lia|right].
    split; [|split; [by intros ?; apply Hn; right|by destruct He; [lia|]]].
    assert (~ (k <= x < k + Z.of_nat (length v))) by (intros ?; apply Hn; by left). lia.
Qed.

Lemma length_stored m : Forall (fun kv => kv.2 <> []) m -> Z.of_nat (length m) <= stored m.
Proof.
  induction 1 as [|[k v] m Hv _ IH]; [done|]. rewrite stored_cons. cbn [length].
  assert (0 < Z.of_nat (length v)) by (destruct v; [done|cbn; lia]). lia.
Qed.

(** As long as no segment wraps around 2^32, the three hole queries agree with
    one list of ordered, disjoint, non-empty ranges that contain exactly the
    missing positions (at or after the expected one, in no segment, before the
    last segment): [hole_ranges] is its prefix of the requested length,
    [hole_count] its length and [total_hole_bytes] the sum of its sizes. *)
Theorem holes_are_missing_bytes b c :
  buffer_inv b -> no_wrap (segments_ b) -> in_width 32 c ->
  exists holes,
    (forall n, in_width 64 n -> hole_ranges b c n = take (Z.to_nat n) holes) /\
    hole_count b c = Z.of_nat (length holes) /\
    total_hole_bytes b c = hole_bytes holes /\
    Forall (fun h => c <= h.(start_seq) < h.(end_seq)) holes /\
    StronglySorted (fun h h' => h.(end_seq) <= h'.(start_seq)) holes /\
    forall x, Exists (fun h => in_hole h x) holes <->
      c <= x /\ ~ covered (segments_ b) x /\ exists kv, kv ∈ segments_ b /\ x < kv.1.
Proof.
  intros [Hs Hk Ht Hf] Hw Hc. exists (holes_from c (segments_ b)).
  assert (Z.of_nat (length (segments_ b)) <= stored (segments_ b)).
  { apply length_stored. eapply Forall_impl; [exact Hk|]. by intros ? [_ ?]. }
  destruct (holes_from_ordered (segments_ b) c Hs) as [H1 H2].
  split_and!; try done.
  - intros n Hn. unfold hole_ranges. rewrite hole_ranges_take; [done|done|apply Hn|].
    cbn. apply Hn.
  - unfold hole_count. by rewrite hole_count_length by (done || lia).
  - unfold total_hole_bytes. rewrite total_hole_bytes_sum by (done || (unfold in_width in Hc; lia)).
    done.
  - intros x. by apply holes_from_uncovered.
Qed.

(** ** Witnesses *)
Definition demo_buffer : TcpReassemblyBuffer :=
  mkTcpReassemblyBuffer [(100, [1; 2]); (105, [3]); (106, [4; 5])] 5.

Lemma demo_buffer_inv : buffer_inv demo_buffer.
Proof.
  split; cbn [demo_buffer segments_ total_bytes_].
  - repeat constructor.
  - repeat (constructor; [split; [split; [discriminate|reflexivity]|discriminate]|]). constructor.
  - reflexivity.
  - reflexivity.
Qed.

Lemma insert_buffers_segment_witness :
  exists ok b', insert 102 200 2 demo_buffer (alloc ∅ 200 [7; 8]) = Some ((ok, b'), alloc ∅ 200 [7; 8]) /\
    buffer_inv b' /\
    (ok = true <-> 200 <> nullptr /\ 2%nat <> 0%nat /\ map_find 102 (segments_ demo_buffer) = None) /\
    (if ok then segments_ b' ≡ₚ (102, [7; 8]) :: segments_ demo_buffer /\ size b' = 5 + 2
     else b' = demo_buffer).
Proof.
  apply (insert_buffers_segment 102 200 2 demo_buffer (alloc ∅ 200 [7; 8]) [7; 8] demo_buffer_inv).
  - split; [discriminate|reflexivity].
  - vm_compute. reflexivity.
  - reflexivity.
Defined.

Lemma pop_contiguous_maximal_witness :
  exists consumed out b' e, pop_contiguous 105 demo_buffer = Some (consumed, out, b') /\
    buffer_inv b' /\ contiguous 105 out e /\ map_find e (segments_ b') = None /\
    segments_ demo_buffer ≡ₚ pairs out ++ segments_ b' /\
    consumed = stored (pairs out) /\ size b' = 5 - consumed.
Proof. apply (pop_contiguous_maximal demo_buffer 105 demo_buffer_inv). Defined.

Definition demo_pieces : list (list Z) := [[1; 2; 3]; [4]; [5; 6]].

Lemma reassembly_any_order_witness :
  exists out, pop_contiguous (2 ^ 32 - 2)
      (insert_all [(2, [5; 6]); (2 ^ 32 - 2, [1; 2; 3]); (1, [4])] TcpReassemblyBuffer_new) =
      Some (6, out, TcpReassemblyBuffer_new) /\
    concat (map seg_data out) = [1; 2; 3; 4; 5; 6].
Proof.
  apply (reassembly_any_order (2 ^ 32 - 2) demo_pieces).
  - split; [discriminate|reflexivity].
  - repeat constructor; discriminate.
  - reflexivity.
  - vm_compute.
    etransitivity; [apply perm_swap|]. apply perm_skip. apply perm_swap.
Defined.

Lemma holes_are_missing_bytes_witness :
  exists holes,
    (forall n, in_width 64 n -> hole_ranges demo_buffer 90 n = take (Z.to_nat n) holes) /\
    hole_count demo_buffer 90 = Z.of_nat (length holes) /\
    total_hole_bytes demo_buffer 90 = hole_bytes holes /\
    Forall (fun h => 90 <= h.(start_seq) < h.(end_seq)) holes /\
    StronglySorted (fun h h' => h.(end_seq) <= h'.(start_seq)) holes /\
    forall x, Exists (fun h => in_hole h x) holes <->
      90 <= x /\ ~ covered (segments_ demo_buffer) x /\
      exists kv, kv ∈ segments_ demo_buffer /\ x < kv.1.
Proof.
  apply (holes_are_missing_bytes demo_buffer 90 demo_buffer_inv).
  - repeat (constructor; [split; [discriminate|reflexivity]|]). constructor.
  - split; [discriminate|reflexivity].
Defined.
