(* ===== verification/TcpRetransmission.v ===== *)
(** * TcpRetransmission: the retransmission queue and the RTO estimator
    (protocol/tcp_retransmission.hpp) *)
From stdpp Require Import sorting.
From S2P Require Import Prelude.

Record TcpRetransmissionEntry := mkEntry {
  seq_start : Z;
  seq_end : Z;
  deadline_ms : Z;
  retries : Z;
}.

(** [std::deque<TcpRetransmissionEntry>], front first. *)
Abbreviation queue := (list TcpRetransmissionEntry).

Definition track_segment (start payload_len now_ms rto_ms : Z) (q : queue) : queue :=
  q ++ [mkEntry start (u32 (start + u32 payload_len)) (u64 (now_ms + rto_ms)) 0].

Fixpoint ack_up_to (ack_num : Z) (q : queue) : nat * queue :=
  match q with
  | [] => (0%nat, [])
  | e :: q' =>
      if e.(seq_end) <=? ack_num then prod_map S id (ack_up_to ack_num q') else (0%nat, q)
  end.

(** One iteration of the loop of [collect_due] on a due entry that is kept. *)
Definition rearm (now_ms base_rto_ms : Z) (e : TcpRetransmissionEntry) : TcpRetransmissionEntry :=
  let r := u32 (e.(retries) + 1) in
  let backoff := u64 (Z.shiftl base_rto_ms (if 8 <? r then 8 else r)) in
  mkEntry e.(seq_start) e.(seq_end) (u64 (now_ms + backoff)) r.

Fixpoint collect_due (now_ms base_rto_ms max_retries : Z) (q : queue) : queue * queue :=
  match q with
  | [] => ([], [])
  | e :: q =>
      if e.(deadline_ms) <=? now_ms then
        if max_retries <=? e.(retries) then collect_due now_ms base_rto_ms max_retries q
        else
          let '(due, q) := collect_due now_ms base_rto_ms max_retries q in
          (e :: due, rearm now_ms base_rto_ms e :: q)
      else
        let '(due, q) := collect_due now_ms base_rto_ms max_retries q in (due, e :: q)
  end.

Definition size (q : queue) : Z := Z.of_nat (length q).

Fixpoint contains (start : Z) (q : queue) : bool :=
  match q with
  | [] => false
  | e :: q => if e.(seq_start) =? start then true else contains start q
  end.

(** ** The RTO estimator *)
Record TcpRtoEstimator := mkTcpRtoEstimator {
  initialized_ : bool;
  srtt_ms_ : Z;
  rttvar_ms_ : Z;
  rto_ms_ : Z;
}.

Definition TcpRtoEstimator_new : TcpRtoEstimator := mkTcpRtoEstimator false 200 100 300.
Definition min_rto_ms_ : Z := 50.
Definition max_rto_ms_ : Z := 5000.

Definition sample_rtt (rtt_ms : Z) (e : TcpRtoEstimator) : TcpRtoEstimator :=
  let rtt_ms := if rtt_ms =? 0 then 1 else rtt_ms in
  let '(srtt, rttvar) :=
    if negb e.(initialized_) then (rtt_ms, rtt_ms / 2)
    else
      let delta := if rtt_ms <? e.(srtt_ms_) then u64 (e.(srtt_ms_) - rtt_ms)
                   else u64 (rtt_ms - e.(srtt_ms_)) in
      (u64 (u64 (7 * e.(srtt_ms_)) + rtt_ms) / 8,
       u64 (u64 (3 * e.(rttvar_ms_)) + delta) / 4) in
  let candidate := u64 (srtt + Z.max 1 (u64 (4 * rttvar))) in
  let candidate := if candidate <? min_rto_ms_ then min_rto_ms_ else candidate in
  let candidate := if max_rto_ms_ <? candidate then max_rto_ms_ else candidate in
  mkTcpRtoEstimator true srtt rttvar candidate.

(** ** The queue *)

(** Cumulative order: sequence ends never decrease along the queue. *)
Definition in_order (q : queue) : Prop := StronglySorted (fun a b => a.(seq_end) <= b.(seq_end)) q.

Lemma ack_up_to_filter ack q :
  in_order q ->
  ack_up_to ack q =
    (length (filter (fun e => e.(seq_end) <= ack) q), filter (fun e => ack < e.(seq_end)) q).
Proof.
  intros Hs. induction Hs as [|e q Hs IH Hle]; [done|]. cbn [ack_up_to]. rewrite !filter_cons.
  destruct (Z.leb_spec (seq_end e) ack).
  - rewrite decide_True, decide_False by lia. by rewrite IH.
  - rewrite decide_False, decide_True by lia.
    assert (Forall (fun x => ack < seq_end x) q) as Hall
      by (eapply Forall_impl; [exact Hle|]; cbn; lia).
    rewrite (filter_all _ q Hall). f_equal.
    clear -Hall. induction Hall as [|x q Hx _ IHq]; [done|].
    rewrite filter_cons, decide_False by lia. exact IHq.
Qed.

(** On a queue in sequence order a cumulative acknowledgment removes exactly
    the segments it covers, reports how many, and leaves the rest in order. *)
Theorem ack_removes_exactly_covered ack q :
  in_order q ->
  ack_up_to ack q =
    (length (filter (fun e => e.(seq_end) <= ack) q), filter (fun e => ack < e.(seq_end)) q) /\
  in_order (snd (ack_up_to ack q)).
Proof.
  intros Hs. split; [by apply ack_up_to_filter|]. rewrite ack_up_to_filter by done. cbn [snd].
  induction Hs as [|e q Hs IH Hle]; [constructor|]. rewrite filter_cons. case_decide; [|done].
  constructor; [done|]. by apply Forall_filter_keep.
Qed.

Definition is_due (now_ms : Z) (e : TcpRetransmissionEntry) : Prop := e.(deadline_ms) <= now_ms.

#[export] Instance is_due_dec now e : Decision (is_due now e).
Proof. unfold is_due. apply _. Defined.

(** What a collection at [now_ms] makes of one entry. *)
Definition after_collect (now_ms base_rto_ms max_retries : Z) (e : TcpRetransmissionEntry)
    : option TcpRetransmissionEntry :=
  if decide (is_due now_ms e) then
    if max_retries <=? e.(retries) then None else Some (rearm now_ms base_rto_ms e)
  else Some e.

Lemma collect_due_spec now base maxr q :
  collect_due now base maxr q =
    (filter (fun e => is_due now e /\ e.(retries) < maxr) q, omap (after_collect now base maxr) q).
Proof.
  induction q as [|e q IH]; [done|]. cbn [collect_due omap list_omap]. rewrite filter_cons.
  unfold after_collect at 1, is_due at 1 3. rewrite IH.
  destruct (Z.leb_spec (deadline_ms e) now).
  - rewrite (decide_True (P := deadline_ms e <= now)) by done.
    destruct (Z.leb_spec maxr (retries e)).
    + by rewrite decide_False by lia.
    + by rewrite decide_True by done.
  - rewrite (decide_False (P := deadline_ms e <= now)), decide_False by lia. done.
Qed.

(** C23: [collect_due] returns, in queue order, exactly the entries whose deadline
    has passed and that have retries left, drops the due entries that have none,
    re-arms the returned ones with the doubled timeout and leaves the others; a
    second collection at the same instant returns nothing. *)
Theorem collect_due_exact now base maxr q :
  0 < base -> 0 <= now -> now + 256 * base < 2 ^ 64 ->
  Forall (fun e => in_width 32 e.(retries)) q -> in_width 32 maxr ->
  let due := filter (fun e => is_due now e /\ e.(retries) < maxr) q in
  let q' := omap (after_collect now base maxr) q in
  collect_due now base maxr q = (due, q') /\
  Forall (fun e => exists k, 1 <= k <= 8 /\
    rearm now base e = mkEntry e.(seq_start) e.(seq_end) (now + base * 2 ^ k) (e.(retries) + 1) /\
    k = Z.min 8 (e.(retries) + 1)) due /\
  collect_due now base maxr q' = ([], q').
Proof.
  intros Hb Hn Hfit Hr Hm. cbv zeta. rewrite !collect_due_spec.
  assert (forall e, in_width 32 (retries e) -> retries e < maxr ->
    rearm now base e = mkEntry (seq_start e) (seq_end e)
      (now + base * 2 ^ (Z.min 8 (retries e + 1))) (retries e + 1)) as Hre.
  { intros e He Hlt. unfold rearm. unfold in_width in *. rewrite (wrap_small 32) by (unfold in_width; lia).
    replace (if 8 <? retries e + 1 then 8 else retries e + 1) with (Z.min 8 (retries e + 1))
      by (destruct (Z.ltb_spec 8 (retries e + 1)); lia).
    rewrite Z.shiftl_mul_pow2 by lia.
    assert (0 < 2 ^ Z.min 8 (retries e + 1) <= 2 ^ 8)
      by (split; [apply Z.pow_pos_nonneg; lia|apply Z.pow_le_mono_r; lia]).
    rewrite (wrap_small 64 (base * _)), wrap_small by (unfold in_width; nia). done. }
  rewrite Forall_forall in Hr. split; [done|]. split.
  - apply Forall_forall. intros e [[_ Hlt] Hin]%list_elem_of_filter.
    specialize (Hr e Hin). exists (Z.min 8 (retries e + 1)). unfold in_width in Hr.
    split_and!; [lia|lia|by apply Hre|done].
  - assert (Forall (fun e => ~ is_due now e) (omap (after_collect now base maxr) q)) as Hnd.
    { apply Forall_forall. intros e' (e & Hin & He)%list_elem_of_omap. specialize (Hr e Hin).
      unfold after_collect in He. destruct (decide (is_due now e)) as [_|Hnd]; [|by injection He as <-].
      destruct (Z.leb_spec maxr (retries e)); [done|]. injection He as <-.
      rewrite Hre by done. unfold is_due. cbn [deadline_ms].
      assert (0 < 2 ^ Z.min 8 (retries e + 1)) by (apply Z.pow_pos_nonneg; unfold in_width in Hr; lia).
      nia. }
    f_equal; induction Hnd as [|e l He _ IH]; try done.
    + rewrite filter_cons, decide_False by tauto. exact IH.
    + cbn [omap list_omap]. unfold after_collect at 1. rewrite decide_False by done. by f_equal.
Qed.

(** Retransmissions still allowed to the entries of a queue. *)
Definition budget (maxr : Z) (q : queue) : Z :=
  zsum (map (fun e => Z.max 0 (maxr - e.(retries))) q).

Lemma budget_cons maxr e q : budget maxr (e :: q) = Z.max 0 (maxr - e.(retries)) + budget maxr q.
Proof. done. Qed.

Lemma budget_nonneg maxr q : 0 <= budget maxr q.
Proof. induction q as [|e q IH]; [done|]. rewrite budget_cons. lia. Qed.

Lemma budget_fresh maxr q : 0 <= maxr -> Forall (fun e => e.(retries) = 0) q -> budget maxr q = maxr * size q.
Proof.
  intros Hm. unfold size. induction 1 as [|e q He _ IH]; [cbn; lia|].
  rewrite budget_cons, IH, He. cbn [length]. lia.
Qed.

Lemma collect_budget now base maxr q due q' :
  in_width 32 maxr -> Forall (fun e => in_width 32 e.(retries)) q ->
  collect_due now base maxr q = (due, q') ->
  Z.of_nat (length due) + budget maxr q' <= budget maxr q /\
  Forall (fun e => in_width 32 e.(retries)) q'.
Proof.
  intros Hm Hr. revert due q'. unfold budget.
  induction Hr as [|e q He Hr IH]; intros due q' E; cbn [collect_due] in E.
  { injection E as <- <-. by split; [cbn|constructor]. }
  destruct (collect_due now base maxr q) as [d q1] eqn:E1.
  destruct (IH d q1 eq_refl) as [Hle Hok]. cbn [map zsum foldr].
  fold (zsum (map (fun e => Z.max 0 (maxr - retries e)) q)). unfold in_width in *.
  destruct (deadline_ms e <=? now); [destruct (Z.leb_spec maxr (retries e))|];
    injection E as <- <-; cbn [length map zsum foldr];
    fold (zsum (map (fun e => Z.max 0 (maxr - retries e)) q1)).
  - split; [lia|done].
  - cbn [rearm retries]. rewrite (wrap_small 32) by (unfold in_width; lia). split; [lia|].
    constructor; [cbn [rearm retries]; apply wrap_range; lia|done].
  - split; [lia|]. by constructor.
Qed.

Lemma StronglySorted_sublist {A} (R : A -> A -> Prop) (k l : list A) :
  k `sublist_of` l -> StronglySorted R l -> StronglySorted R k.
Proof.
  induction 1 as [|x k l Hs IH|x k l _ IH]; [done| |]; intros H; inversion H; subst; [|by apply IH].
  constructor; [by apply IH|]. by eapply Forall_sublist.
Qed.

(** The segments a collection keeps, by their sequence range. *)
Definition ranges (q : queue) : list (Z * Z) := map (fun e => (e.(seq_start), e.(seq_end))) q.

Lemma collect_due_sublist now base maxr q : ranges (snd (collect_due now base maxr q)) `sublist_of` ranges q.
Proof.
  induction q as [|e q IH]; [done|]. cbn [collect_due ranges map].
  destruct (collect_due now base maxr q) as [d q1]. fold (ranges q). cbn [snd] in IH.
  destruct (_ <=? now); [destruct (maxr <=? _)|]; cbn [snd ranges map rearm seq_start seq_end];
    fold (ranges q1); [by apply sublist_cons|by apply sublist_skip..].
Qed.

Lemma ack_up_to_suffix ack q : snd (ack_up_to ack q) `suffix_of` q.
Proof.
  induction q as [|e q IH]; [done|]. cbn [ack_up_to]. destruct (_ <=? ack); [|done].
  destruct (ack_up_to ack q) as [n q1]. cbn [prod_map snd] in *. by apply suffix_cons_r.
Qed.

Lemma contains_iff s q : contains s q = true <-> s ∈ (ranges q).*1.
Proof.
  induction q as [|e q IH]; cbn [contains ranges map fmap list_fmap fst]; [split; [done|by intros ?%elem_of_nil]|].
  fold (ranges q). change (list_fmap _ _ fst (ranges q)) with ((ranges q).*1). rewrite elem_of_cons.
  destruct (Z.eqb_spec (seq_start e) s) as [->|]; [split; auto|]. rewrite IH. split; [auto|]. by intros [?|?].
Qed.

(** A schedule of collections, with the number of segments each hands back. *)
Fixpoint collect_all (maxr : Z) (schedule : list (Z * Z)) (q : queue) : Z * queue :=
  match schedule with
  | [] => (0, q)
  | (now, base) :: schedule =>
      let '(due, q) := collect_due now base maxr q in
      let '(n, q) := collect_all maxr schedule q in (Z.of_nat (length due) + n, q)
  end.

(** Retransmission stops: however often and whenever the queue is polled, all
    collections together hand back at most [max_retries] retransmissions per
    tracked segment. *)
Theorem retransmissions_bounded maxr schedule q :
  in_width 32 maxr -> Forall (fun e => e.(retries) = 0) q ->
  fst (collect_all maxr schedule q) <= maxr * size q.
Proof.
  intros Hm Hz.
  assert (forall schedule q, Forall (fun e => in_width 32 e.(retries)) q ->
    fst (collect_all maxr schedule q) <= budget maxr q) as Hrun.
  { clear -Hm. induction schedule as [|[now base] schedule IH]; intros q Hr; cbn [collect_all fst].
    { apply zsum_nonneg, Forall_map, Forall_true. intros. lia. }
    destruct (collect_due now base maxr q) as [due q1] eqn:E.
    destruct (collect_budget _ _ _ _ _ _ Hm Hr E) as [Hle Hok]. specialize (IH q1 Hok).
    destruct (collect_all maxr schedule q1). cbn [fst] in *. lia. }
  etransitivity; [apply Hrun|].
  - eapply Forall_impl; [exact Hz|]. cbn. intros e ->. unfold in_width. lia.
  - rewrite budget_fresh by (done || unfold in_width in Hm; lia). lia.
Qed.

(** ** The estimator *)

(** Whatever the samples, the retransmission timeout stays within 50 and 5000
    milliseconds, even where the arithmetic wraps. *)
Theorem rto_always_clamped samples :
  50 <= rto_ms_ (foldl (fun e r => sample_rtt r e) TcpRtoEstimator_new samples) <= 5000.
Proof.
  assert (forall samples e, 50 <= rto_ms_ e <= 5000 ->
    50 <= rto_ms_ (foldl (fun e r => sample_rtt r e) e samples) <= 5000) as H.
  { clear. induction samples as [|r samples IH]; intros e He; [done|]. cbn [foldl]. apply IH.
    unfold sample_rtt. destruct (if negb (initialized_ e) then _ else _) as [s v].
    cbn [rto_ms_]. unfold min_rto_ms_, max_rto_ms_. bool_cases; lia. }
  apply H. cbn. lia.
Qed.

Definition clamp_rto (x : Z) : Z := Z.min max_rto_ms_ (Z.max min_rto_ms_ x).

Lemma sample_steady r e :
  0 < r < 2 ^ 60 -> initialized_ e = true -> srtt_ms_ e = r -> 0 <= rttvar_ms_ e <= r ->
  let v := 3 * rttvar_ms_ e / 4 in
  sample_rtt r e = mkTcpRtoEstimator true r v (clamp_rto (r + Z.max 1 (4 * v))) /\ 0 <= v <= r /\
  (0 < rttvar_ms_ e -> v < rttvar_ms_ e).
Proof.
  intros Hr Hi Hs Hv. cbv zeta. unfold sample_rtt. rewrite Hi, Hs.
  destruct (Z.eqb_spec r 0); [lia|]. rewrite Z.ltb_irrefl, Z.sub_diag. cbn [negb].
  change (u64 0) with 0. rewrite Z.add_0_r.
  rewrite (wrap_small 64 (7 * r)), (wrap_small 64 (3 * _)) by (unfold in_width; lia).
  rewrite (wrap_small 64 (7 * r + r)), (wrap_small 64 (3 * _)) by (unfold in_width; lia).
  replace (7 * r + r) with (r * 8) by lia. rewrite Z.div_mul by lia.
  set (v := 3 * rttvar_ms_ e / 4).
  assert (0 <= v /\ 4 * v <= 3 * rttvar_ms_ e).
  { split; [apply Z.div_pos; lia|]. apply Z.mul_div_le. lia. }
  rewrite (wrap_small 64 (4 * v)), wrap_small by (unfold in_width; lia).
  split; [|split; [lia|intros; lia]]. f_equal. unfold clamp_rto.
  bool_cases; unfold max_rto_ms_, min_rto_ms_ in *; lia.
Qed.

(** On a path of constant round-trip time the estimator converges: the
    smoothed time is exact from the first sample on, and after at most half the
    round-trip time in further samples the timeout is the round-trip time plus
    one millisecond, clamped. *)
Theorem rto_converges r n :
  0 < r < 2 ^ 60 -> r / 2 < Z.of_nat n ->
  let e := foldl (fun e x => sample_rtt x e) TcpRtoEstimator_new (r :: replicate n r) in
  srtt_ms_ e = r /\ rttvar_ms_ e = 0 /\ rto_ms_ e = clamp_rto (r + 1).
Proof.
  intros Hr Hn. cbv zeta. cbn [foldl].
  assert (forall n e, initialized_ e = true -> srtt_ms_ e = r -> 0 <= rttvar_ms_ e <= r ->
    rttvar_ms_ e < Z.of_nat n ->
    let e' := foldl (fun e x => sample_rtt x e) e (replicate n r) in
    srtt_ms_ e' = r /\ rttvar_ms_ e' = 0 /\ rto_ms_ e' = clamp_rto (r + 1)) as H.
  { clear n Hn. induction n as [|n IH]; intros e Hi Hs Hv Hlt; [lia|]. cbn [replicate foldl].
    destruct (sample_steady r e Hr Hi Hs Hv) as (E & Hv' & Hdec). cbv zeta in *. rewrite E.
    destruct n as [|n].
    - cbn [replicate foldl srtt_ms_ rttvar_ms_ rto_ms_]. replace (rttvar_ms_ e) with 0 by lia. done.
    - apply IH; cbn [initialized_ srtt_ms_ rttvar_ms_]; try done.
      destruct (decide (0 < rttvar_ms_ e)); [lia|]. replace (rttvar_ms_ e) with 0 by lia.
      change (3 * 0 / 4) with 0. lia. }
  assert (0 <= r / 2 <= r) by (split; [apply Z.div_pos; lia|apply Z.div_le_upper_bound; lia]).
  assert (initialized_ (sample_rtt r TcpRtoEstimator_new) = true /\
          srtt_ms_ (sample_rtt r TcpRtoEstimator_new) = r /\
          rttvar_ms_ (sample_rtt r TcpRtoEstimator_new) = r / 2) as (Hi & Hs & Hv).
  { unfold sample_rtt. by destruct (Z.eqb_spec r 0); [lia|]. }
  apply H; [done|done|lia|lia].
Qed.

(** ** Witnesses *)
Definition demo_queue : queue :=
  track_segment 30 5 110 300 (track_segment 20 10 100 300 (track_segment 10 10 100 300 [])).

Lemma ack_removes_exactly_covered_witness :
  ack_up_to 30 demo_queue = (2%nat, [mkEntry 30 35 410 0]) /\
  in_order (snd (ack_up_to 30 demo_queue)).
Proof.
  apply (ack_removes_exactly_covered 30 demo_queue). repeat constructor; cbn; discriminate.
Defined.

Lemma collect_due_exact_witness :
  let due := [mkEntry 10 20 400 0; mkEntry 20 30 400 0] in
  let q' := [mkEntry 10 20 1000 1; mkEntry 20 30 1000 1; mkEntry 30 35 410 0] in
  collect_due 400 300 8 demo_queue = (due, q') /\
  Forall (fun e => exists k, 1 <= k <= 8 /\
    rearm 400 300 e = mkEntry e.(seq_start) e.(seq_end) (400 + 300 * 2 ^ k) (e.(retries) + 1) /\
    k = Z.min 8 (e.(retries) + 1)) due /\
  collect_due 400 300 8 q' = ([], q').
Proof.
  apply (collect_due_exact 400 300 8 demo_queue); try (reflexivity || discriminate).
  - repeat constructor; discriminate.
  - split; [discriminate|reflexivity].
Defined.

Lemma retransmissions_bounded_witness :
  fst (collect_all 8 [(400, 300); (1000, 300); (99999, 300)] demo_queue) <= 8 * 3.
Proof.
  apply (retransmissions_bounded 8 [(400, 300); (1000, 300); (99999, 300)] demo_queue).
  - split; [discriminate|reflexivity].
  - repeat constructor.
Defined.

Lemma rto_converges_witness :
  let e := foldl (fun e x => sample_rtt x e) TcpRtoEstimator_new (100 :: replicate 51 100) in
  srtt_ms_ e = 100 /\ rttvar_ms_ e = 0 /\ rto_ms_ e = 101.
Proof. apply (rto_converges 100 51); [split; reflexivity|reflexivity]. Defined.
