(* ===== verification/TcpCongestion.v ===== *)
(** * TcpCongestion: the congestion window (protocol/tcp_congestion.hpp) *)
From S2P Require Import Prelude.

Record TcpCongestionController := mkController {
  mss_bytes_ : Z;
  cwnd_bytes_ : Z;
  ssthresh_bytes_ : Z;
  ca_accumulator_bytes_ : Z;
}.

Definition max_cwnd_bytes_ : Z := Z.shiftl 1 20.

Definition TcpCongestionController_new (mss_bytes : Z) : TcpCongestionController :=
  let mss := if mss_bytes =? 0 then 1200 else mss_bytes in
  mkController mss mss (u32 (8 * mss)) 0.

Definition can_send (c : TcpCongestionController) (inflight payload_len peer_window : Z) : bool :=
  let allowed := Z.min c.(cwnd_bytes_) peer_window in
  u64 (inflight + payload_len) <=? allowed.

(** [while (ca >= cwnd) { ca -= cwnd; cwnd += mss; }]; [None] when the fuel runs out. *)
Fixpoint avoidance_loop (fuel : nat) (mss ca cwnd : Z) : option (Z * Z) :=
  if ca <? cwnd then Some (ca, cwnd) else
  match fuel with
  | O => None
  | S fuel => avoidance_loop fuel mss (u32 (ca - cwnd)) (u32 (cwnd + mss))
  end.

(** Each iteration takes at least one segment size off the accumulator. *)
Definition avoidance_fuel (mss ca : Z) : nat := S (Z.to_nat (ca / mss)).

Definition on_ack (acked_bytes : Z) (c : TcpCongestionController) : option TcpCongestionController :=
  if acked_bytes =? 0 then Some c else
  '(ca, cwnd) ←
    (if c.(cwnd_bytes_) <? c.(ssthresh_bytes_) then
       Some (c.(ca_accumulator_bytes_), u32 (c.(cwnd_bytes_) + u32 acked_bytes))
     else
       let ca := u32 (c.(ca_accumulator_bytes_) + u32 acked_bytes) in
       avoidance_loop (avoidance_fuel c.(mss_bytes_) ca) c.(mss_bytes_) ca c.(cwnd_bytes_));
  let cwnd := if max_cwnd_bytes_ <? cwnd then max_cwnd_bytes_ else cwnd in
  Some (mkController c.(mss_bytes_) cwnd c.(ssthresh_bytes_) ca).

Definition on_loss (c : TcpCongestionController) : TcpCongestionController :=
  mkController c.(mss_bytes_) c.(mss_bytes_)
    (Z.max (u32 (2 * c.(mss_bytes_))) (c.(cwnd_bytes_) / 2)) 0.

(** ** The avoidance loop *)

(** Bytes that [k] window increases consume. *)
Definition consumed (mss cwnd : Z) (k : nat) : Z :=
  Z.of_nat k * cwnd + mss * (Z.of_nat k * (Z.of_nat k - 1) / 2).

Lemma triangle_succ k :
  (Z.of_nat (S k) * (Z.of_nat (S k) - 1)) / 2 = Z.of_nat k + Z.of_nat k * (Z.of_nat k - 1) / 2.
Proof.
  replace (Z.of_nat (S k) * (Z.of_nat (S k) - 1))
    with (Z.of_nat k * 2 + Z.of_nat k * (Z.of_nat k - 1)) by nia.
  by rewrite Z.div_add_l by lia.
Qed.

Lemma consumed_succ mss cwnd k :
  consumed mss cwnd (S k) = cwnd + consumed mss (cwnd + mss) k.
Proof. unfold consumed. rewrite triangle_succ. lia. Qed.

(** The loop keeps [2 mss ca + cwnd (cwnd - mss)], which bounds the window. *)
Lemma avoidance_loop_spec fuel mss ca cwnd :
  1 <= mss <= 2 ^ 20 -> mss <= cwnd -> 0 <= ca < 2 ^ 32 ->
  2 * mss * ca + cwnd * (cwnd - mss) < 2 ^ 55 -> ca < Z.of_nat fuel * mss ->
  exists k, let cwnd' := cwnd + Z.of_nat k * mss in let ca' := ca - consumed mss cwnd k in
    avoidance_loop fuel mss ca cwnd = Some (ca', cwnd') /\ 0 <= ca' < cwnd' /\ cwnd' < 2 ^ 29.
Proof.
  revert ca cwnd. induction fuel as [|fuel IH]; intros ca cwnd Hm Hc Hca Hb Hf; [lia|].
  assert (cwnd < 2 ^ 28) by nia. cbn [avoidance_loop]. destruct (Z.ltb_spec ca cwnd).
  - exists 0%nat. cbv zeta. unfold consumed. cbn [Z.of_nat].
    change (0 * (0 - 1) / 2) with 0. rewrite !Z.mul_0_l, Z.mul_0_r, !Z.add_0_r, Z.sub_0_r.
    split; [done|]. lia.
  - rewrite !wrap_small by (unfold in_width; lia).
    rewrite Nat2Z.inj_succ, Z.mul_succ_l in Hf.
    assert (2 * mss * (ca - cwnd) + (cwnd + mss) * (cwnd + mss - mss) =
            2 * mss * ca + cwnd * (cwnd - mss)) as Hinv by ring.
    destruct (IH (ca - cwnd) (cwnd + mss)) as (k & E & H1 & H2); [lia..|].
    exists (S k). cbv zeta in *. rewrite consumed_succ, E.
    replace (cwnd + Z.of_nat (S k) * mss) with (cwnd + mss + Z.of_nat k * mss) by lia.
    replace (ca - (cwnd + consumed mss (cwnd + mss) k))
      with (ca - cwnd - consumed mss (cwnd + mss) k) by lia. done.
Qed.

(** ** The invariant *)
Record cong_inv (c : TcpCongestionController) : Prop := {
  ci_mss : 1 <= c.(mss_bytes_) <= 2 ^ 20;
  ci_cwnd : c.(mss_bytes_) <= c.(cwnd_bytes_) <= 2 ^ 20;
  ci_ssthresh : 2 * c.(mss_bytes_) <= c.(ssthresh_bytes_) < 2 ^ 32;
  ci_ca : 0 <= c.(ca_accumulator_bytes_) < 2 ^ 29;
}.

Lemma controller_new_inv m : 0 <= m <= 2 ^ 20 -> cong_inv (TcpCongestionController_new m).
Proof.
  intros Hm. unfold TcpCongestionController_new. destruct (Z.eqb_spec m 0).
  - change (u32 (8 * 1200)) with 9600.
    split; cbn [mss_bytes_ cwnd_bytes_ ssthresh_bytes_ ca_accumulator_bytes_]; lia.
  - rewrite wrap_small by (unfold in_width; lia).
    split; cbn [mss_bytes_ cwnd_bytes_ ssthresh_bytes_ ca_accumulator_bytes_]; lia.
Qed.

Lemma on_ack_effect acked c :
  cong_inv c -> 0 < acked < 2 ^ 31 ->
  exists c', on_ack acked c = Some c' /\ mss_bytes_ c' = mss_bytes_ c /\
    ssthresh_bytes_ c' = ssthresh_bytes_ c /\
    if cwnd_bytes_ c <? ssthresh_bytes_ c then
      cwnd_bytes_ c' = Z.min (2 ^ 20) (cwnd_bytes_ c + acked) /\
      ca_accumulator_bytes_ c' = ca_accumulator_bytes_ c
    else exists k,
      cwnd_bytes_ c' = Z.min (2 ^ 20) (cwnd_bytes_ c + Z.of_nat k * mss_bytes_ c) /\
      ca_accumulator_bytes_ c' =
        ca_accumulator_bytes_ c + acked - consumed (mss_bytes_ c) (cwnd_bytes_ c) k /\
      0 <= ca_accumulator_bytes_ c' < cwnd_bytes_ c + Z.of_nat k * mss_bytes_ c /\
      ca_accumulator_bytes_ c' < 2 ^ 29.
Proof.
  intros [Hm Hc Hs Ha] Hacked. unfold on_ack. destruct (Z.eqb_spec acked 0); [lia|].
  rewrite (wrap_small 32 acked) by (unfold in_width; lia).
  assert (forall x, (if max_cwnd_bytes_ <? x then max_cwnd_bytes_ else x) = Z.min (2 ^ 20) x) as Hcap.
  { intros x. change max_cwnd_bytes_ with (2 ^ 20). destruct (Z.ltb_spec (2 ^ 20) x); lia. }
  destruct (cwnd_bytes_ c <? ssthresh_bytes_ c).
  - cbn [mbind option_bind]. rewrite wrap_small by (unfold in_width; lia). rewrite Hcap.
    eexists. split; [reflexivity|]. done.
  - rewrite wrap_small by (unfold in_width; lia).
    set (ca := ca_accumulator_bytes_ c + acked).
    destruct (avoidance_loop_spec (avoidance_fuel (mss_bytes_ c) ca) (mss_bytes_ c) ca (cwnd_bytes_ c))
      as (k & E & H1 & H2); try (unfold ca; lia).
    + unfold ca. nia.
    + unfold avoidance_fuel.
      pose proof (Z.mod_pos_bound ca (mss_bytes_ c) ltac:(lia)).
      pose proof (Z.div_mod ca (mss_bytes_ c) ltac:(lia)).
      assert (0 <= ca / mss_bytes_ c) by (apply Z.div_pos; unfold ca; lia). nia.
    + cbv zeta in *. rewrite E. cbn [mbind option_bind]. rewrite Hcap.
      eexists. split; [reflexivity|]. split; [done|]. split; [done|]. exists k.
      cbn [cwnd_bytes_ ca_accumulator_bytes_]. split_and!; (done || lia).
Qed.

(** C25: The effect of an acknowledgment.  Below the threshold the window grows by
    the acknowledged bytes; at or above it, by one segment for each full window
    acknowledged, the [k]-th increase costing the window before it, with the
    remainder, less than a window, carried over.  The loop terminates, nothing
    wraps, and the result is capped at 2^20 bytes. *)
Theorem on_ack_exact acked c :
  cong_inv c -> 0 < acked < 2 ^ 31 ->
  exists c', on_ack acked c = Some c' /\ mss_bytes_ c' = mss_bytes_ c /\
    ssthresh_bytes_ c' = ssthresh_bytes_ c /\
    if cwnd_bytes_ c <? ssthresh_bytes_ c then
      cwnd_bytes_ c' = Z.min (2 ^ 20) (cwnd_bytes_ c + acked) /\
      ca_accumulator_bytes_ c' = ca_accumulator_bytes_ c
    else exists k,
      cwnd_bytes_ c' = Z.min (2 ^ 20) (cwnd_bytes_ c + Z.of_nat k * mss_bytes_ c) /\
      ca_accumulator_bytes_ c' =
        ca_accumulator_bytes_ c + acked - consumed (mss_bytes_ c) (cwnd_bytes_ c) k /\
      0 <= ca_accumulator_bytes_ c' < cwnd_bytes_ c + Z.of_nat k * mss_bytes_ c /\
      ca_accumulator_bytes_ c' < 2 ^ 29.
Proof. apply on_ack_effect. Qed.

(** ** Runs of the controller *)
Inductive cong_event : Type := Ack (acked : Z) | Loss.

Definition cong_event_ok (e : cong_event) : Prop :=
  match e with Ack a => 0 <= a < 2 ^ 31 | Loss => True end.

Definition cong_step (e : cong_event) (c : TcpCongestionController) : option TcpCongestionController :=
  match e with Ack a => on_ack a c | Loss => Some (on_loss c) end.

Definition cong_run (es : list cong_event) (c : TcpCongestionController)
    : option TcpCongestionController :=
  foldl (fun c e => c ≫= cong_step e) (Some c) es.

Lemma cong_step_inv e c :
  cong_inv c -> cong_event_ok e ->
  exists c', cong_step e c = Some c' /\ cong_inv c' /\ mss_bytes_ c' = mss_bytes_ c.
Proof.
  intros Hc He. destruct e as [a|]; cbn [cong_step].
  - destruct (decide (a = 0)) as [->|]; [by exists c|]. cbn in He.
    destruct (on_ack_effect a c Hc) as (c' & E & E1 & E2 & H); [lia|].
    exists c'. split; [done|]. split; [|done]. destruct Hc as [Hm Hw Hs Ha].
    destruct (cwnd_bytes_ c <? ssthresh_bytes_ c).
    + destruct H as [E3 E4]. split; rewrite ?E1, ?E2, ?E3, ?E4; lia.
    + destruct H as (k & E3 & _ & H1 & H2). split; rewrite ?E1, ?E2; [lia| |lia|lia].
      rewrite E3. nia.
  - exists (on_loss c). split; [done|]. split; [|done]. destruct Hc as [Hm Hw Hs Ha].
    unfold on_loss. rewrite wrap_small by (unfold in_width; lia).
    assert (cwnd_bytes_ c / 2 <= 2 ^ 20) by (apply Z.div_le_upper_bound; lia).
    split; cbn [mss_bytes_ cwnd_bytes_ ssthresh_bytes_ ca_accumulator_bytes_]; lia.
Qed.

(** C30: Through any sequence of acknowledgments (each below 2^31 bytes) and losses
    the window stays between one segment and 2^20 bytes and the threshold at two
    segments or more; a loss restarts at one segment with half the window as
    threshold. *)
Theorem congestion_window_bounded m es :
  0 <= m <= 2 ^ 20 -> Forall cong_event_ok es ->
  exists c, cong_run es (TcpCongestionController_new m) = Some c /\ cong_inv c /\
    mss_bytes_ c = (if m =? 0 then 1200 else m) /\
    on_loss c = mkController (mss_bytes_ c) (mss_bytes_ c)
                  (Z.max (2 * mss_bytes_ c) (cwnd_bytes_ c / 2)) 0.
Proof.
  intros Hm Hes.
  assert (forall c, cong_inv c -> exists c', cong_run es c = Some c' /\ cong_inv c' /\
            mss_bytes_ c' = mss_bytes_ c) as Hrun.
  { unfold cong_run. clear Hm. induction Hes as [|e es He _ IH]; intros c Hc; cbn [foldl].
    { by exists c. }
    destruct (cong_step_inv e c Hc He) as (c1 & E1 & H1 & M1).
    destruct (IH c1 H1) as (c2 & E2 & H2 & M2).
    exists c2. cbn [mbind option_bind]. rewrite E1. split_and!; (done || congruence). }
  destruct (Hrun _ (controller_new_inv m Hm)) as (c & E & Hc & M). exists c. split_and!; try done.
  unfold on_loss. destruct (ci_mss c Hc). by rewrite wrap_small by (unfold in_width; lia).
Qed.

(** A sender that transmits only when [can_send] allows never has more bytes
    in flight than the smaller of its congestion window and the peer's window,
    and it is allowed to fill that window exactly. *)
Theorem can_send_respects_windows c inflight n w :
  cong_inv c -> 0 <= w -> 0 <= n -> 0 <= inflight -> inflight + n < 2 ^ 64 ->
  can_send c inflight n w = true <-> inflight + n <= cwnd_bytes_ c /\ inflight + n <= w.
Proof.
  intros. unfold can_send. rewrite wrap_small by (unfold in_width; lia). rewrite Z.leb_le. lia.
Qed.

(** ** Witnesses *)
Lemma on_ack_exact_witness :
  exists c', on_ack 5000 (mkController 1000 2000 2000 100) = Some c' /\
    mss_bytes_ c' = 1000 /\ ssthresh_bytes_ c' = 2000 /\
    exists k, cwnd_bytes_ c' = Z.min (2 ^ 20) (2000 + Z.of_nat k * 1000) /\
      ca_accumulator_bytes_ c' = 100 + 5000 - consumed 1000 2000 k /\
      0 <= ca_accumulator_bytes_ c' < 2000 + Z.of_nat k * 1000 /\
      ca_accumulator_bytes_ c' < 2 ^ 29.
Proof.
  apply (on_ack_exact 5000 (mkController 1000 2000 2000 100)); [|lia]. split; cbn [mss_bytes_ cwnd_bytes_ ssthresh_bytes_ ca_accumulator_bytes_]; lia.
Defined.

Lemma congestion_window_bounded_witness :
  exists c, cong_run [Ack 1200; Ack 9000; Ack 65536; Loss; Ack 2000000000]
      (TcpCongestionController_new 0) = Some c /\ cong_inv c /\ mss_bytes_ c = 1200 /\
    on_loss c = mkController (mss_bytes_ c) (mss_bytes_ c)
                  (Z.max (2 * mss_bytes_ c) (cwnd_bytes_ c / 2)) 0.
Proof.
  apply (congestion_window_bounded 0 [Ack 1200; Ack 9000; Ack 65536; Loss; Ack 2000000000]); [lia|].
  repeat constructor; cbn; lia.
Defined.

Lemma can_send_respects_windows_witness :
  can_send (TcpCongestionController_new 1200) 200 1000 65535 = true <->
  200 + 1000 <= 1200 /\ 200 + 1000 <= 65535.
Proof.
  apply (can_send_respects_windows (TcpCongestionController_new 1200)); try lia.
  apply controller_new_inv. lia.
Defined.
