(* ===== verification/UdpProtocol.v ===== *)
(** * UdpProtocol: datagram construction, parsing and checksums
    (protocol/udp_protocol.hpp) *)
From S2P Require Import Prelude Bytes Memory Packet Checksum.

(** [struct UdpHeader]: four 16-bit fields, eight bytes. *)
Record UdpHeader := mkUdpHeader {
  source_port : Z;
  dest_port : Z;
  length_ : Z;
  checksum : Z;
}.

Definition to_network_order (h : UdpHeader) : UdpHeader :=
  mkUdpHeader (htons h.(source_port)) (htons h.(dest_port)) (htons h.(length_)) (htons h.(checksum)).
Definition to_host_order (h : UdpHeader) : UdpHeader :=
  mkUdpHeader (ntohs h.(source_port)) (ntohs h.(dest_port)) (ntohs h.(length_)) (ntohs h.(checksum)).

(** The object representation of the header, and back. *)
Definition header_repr (h : UdpHeader) : list Z :=
  le_bytes 2 h.(source_port) ++ le_bytes 2 h.(dest_port) ++ le_bytes 2 h.(length_) ++
  le_bytes 2 h.(checksum).
Definition header_of_repr (bs : list Z) : UdpHeader :=
  mkUdpHeader (field bs 0 2) (field bs 2 2) (field bs 4 2) (field bs 6 2).

Definition sizeof_UdpHeader : Z := 8.
Definition udp_proto_word : Z := 17.

Definition calculate_checksum (d : ptr) (n : nat) (src_ip dst_ip : Z) : M Z :=
  bs ← load d n;
  lift (checksum_of udp_proto_word bs (Z.of_nat n) src_ip dst_ip).

Definition encapsulate (payload : ptr) (payload_len : nat) (src_port dst_port src_ip dst_ip : Z)
    (calculate_checksum_flag : bool) (out_buffer : ptr) : M Packet :=
  let total_len := (8 + payload_len)%nat in
  let buffer := out_buffer in
  let header := mkUdpHeader src_port dst_port (u16 (Z.of_nat total_len)) 0 in
  store buffer (header_repr header) ;;
  bs ← load payload payload_len;
  store (buffer + sizeof_UdpHeader) bs ;;
  let header := to_network_order header in
  store buffer (header_repr header) ;;
  (if calculate_checksum_flag && negb (src_ip =? 0) && negb (dst_ip =? 0) then
     c ← calculate_checksum buffer total_len src_ip dst_ip;
     store (buffer + 6) (le_bytes 2 (htons c))
   else mret tt) ;;
  mret (Packet_new buffer (Z.of_nat total_len) 0).

(** The out-parameters of [parse]. *)
Record Parsed := mkParsed {
  p_header : UdpHeader;
  p_payload : ptr;
  p_payload_len : Z;
}.

Definition parse (packet : Packet) (out : Parsed) : M (bool * Parsed) :=
  if packet.(len) <? sizeof_UdpHeader then mret (false, out) else
  bs ← load packet.(data) 8;
  let header := to_host_order (header_of_repr bs) in
  if (header.(length_) <? sizeof_UdpHeader) || (packet.(len) <? header.(length_)) then
    mret (false, mkParsed header out.(p_payload) out.(p_payload_len))
  else
    mret (true, mkParsed header (packet.(data) + sizeof_UdpHeader)
                         (header.(length_) - sizeof_UdpHeader)).

(** [verify_checksum] reads the header (unused) and sums the whole packet. *)
Definition verify_checksum (packet : Packet) (src_ip dst_ip : Z) : M bool :=
  if packet.(len) <? sizeof_UdpHeader then mret false else
  bs ← load packet.(data) 8;
  calculated ← calculate_checksum packet.(data) (Z.to_nat packet.(len)) src_ip dst_ip;
  mret (calculated =? 0).

(** ** The datagram on the wire *)
Definition datagram (sp dp total c : Z) (payload : list Z) : list Z :=
  be_bytes 2 sp ++ be_bytes 2 dp ++ be_bytes 2 (u16 total) ++ be_bytes 2 c ++ payload.

(** The checksum field [encapsulate] leaves: zero when it computes none. *)
Definition datagram_checksum (sp dp sip dip : Z) (flag : bool) (payload : list Z) : Z :=
  let total := 8 + Z.of_nat (length payload) in
  if flag && negb (sip =? 0) && negb (dip =? 0) then
    65535 - ones_residue (pseudo_sum udp_proto_word total sip dip
                          + word_total (datagram sp dp total 0 payload))
  else 0.

Lemma udp_header_repr_network sp dp l c :
  header_repr (to_network_order (mkUdpHeader sp dp l c)) =
    be_bytes 2 sp ++ be_bytes 2 dp ++ be_bytes 2 l ++ be_bytes 2 c.
Proof.
  unfold header_repr, to_network_order, htons. cbn [source_port dest_port length_ checksum].
  by rewrite !le_bytes_bswap.
Qed.

Lemma length_datagram sp dp t c payload : length (datagram sp dp t c payload) = (8 + length payload)%nat.
Proof. unfold datagram. by rewrite !length_app, !length_be_bytes. Qed.

Lemma datagram_bytes sp dp t c payload : bytes payload -> bytes (datagram sp dp t c payload).
Proof. intros. unfold datagram. repeat (apply Forall_app_2; [apply be_bytes_bytes|]). done. Qed.

(** Splicing a field into the header of a datagram. *)
Lemma splice_header (h payload old : list Z) :
  length h = 8%nat -> length old = (8 + length payload)%nat ->
  splice 0 h (splice 8 payload old) = h ++ payload.
Proof.
  intros Hh Ho. unfold splice. rewrite take_0, Nat.add_0_l. cbn [app]. f_equal. rewrite Hh.
  assert (length (take 8 old) = 8%nat) as Ht by (rewrite length_take; lia).
  rewrite drop_app_length' by done. rewrite drop_ge, app_nil_r by lia. done.
Qed.

Lemma datagram_set_checksum sp dp t c payload :
  splice 6 (be_bytes 2 c) (datagram sp dp t 0 payload) = datagram sp dp t c payload.
Proof. reflexivity. Qed.

(** Facts about one call of [encapsulate]: a live buffer, a live payload that does
    not overlap it, and a total length that fits 16 bits. *)
Record call_ok (m : mem) (p : ptr) (d : ptr) (payload : list Z) (sp dp : Z) : Prop := {
  co_buffer : valid m p (8 + length payload);
  co_payload : read_bytes m d (length payload) = Some payload;
  co_bytes : bytes payload;
  co_disjoint : p + Z.of_nat (8 + length payload) <= d \/ d + Z.of_nat (length payload) <= p;
  co_sport : in_width 16 sp;
  co_dport : in_width 16 dp;
}.

(** The four copies before the checksum, followed by any continuation. *)
Lemma copies_run {A} m p d payload sp dp l (k : M A) :
  call_ok m p d payload sp dp ->
  let h := mkUdpHeader sp dp l 0 in
  exists m', (store p (header_repr h) ;; bs ← load d (length payload);
              store (p + sizeof_UdpHeader) bs ;;
              store p (header_repr (to_network_order h)) ;; k) m = k m' /\
    fills m p (8 + length payload)
      ((be_bytes 2 sp ++ be_bytes 2 dp ++ be_bytes 2 l ++ be_bytes 2 0) ++ payload) m'.
Proof.
  intros [Hv Hd Hb Hdis Hsp Hdp]. cbv zeta. set (n := length payload) in *.
  apply read_bytes_valid in Hv as [old Hr]. pose proof (read_bytes_length _ _ _ _ Hr) as Hol.
  set (h := mkUdpHeader sp dp l 0).
  destruct (store_fills m p (8 + n) old 0 (header_repr h) Hr) as (m1 & E1 & F1); [cbn; lia|].
  rewrite Z.add_0_r in E1.
  assert (read_bytes m1 d n = Some payload) as Hd1
    by (rewrite (fills_outside _ _ _ _ _ _ _ F1 Hdis); exact Hd).
  destruct (store_fills m1 p (8 + n) _ 8 payload (proj1 F1)) as (m2 & E2 & F2); [fold n; lia|].
  destruct (store_fills m2 p (8 + n) _ 0 (header_repr (to_network_order h)) (proj1 F2))
    as (m3 & E3 & F3); [cbn; lia|].
  rewrite Z.add_0_r in E3. exists m3. split.
  - eapply bind_run; [exact E1|]. eapply bind_run; [by apply load_run|].
    eapply bind_run; [exact E2|]. by eapply bind_run; [exact E3|].
  - pose proof (fills_trans _ _ _ _ _ _ _ (fills_trans _ _ _ _ _ _ _ F1 F2) F3) as F.
    rewrite splice_header in F by (fold n; rewrite ?length_splice; cbn; lia).
    unfold h in F. by rewrite udp_header_repr_network in F.
Qed.

Lemma datagram_checksum_range sp dp sip dip flag payload :
  bytes payload -> in_width 16 (datagram_checksum sp dp sip dip flag payload).
Proof.
  intros Hb. unfold datagram_checksum. destruct (_ && _); [|unfold in_width; lia].
  pose proof (datagram_bytes sp dp (8 + Z.of_nat (length payload)) 0 payload Hb) as Hdb.
  pose proof (pseudo_sum_range udp_proto_word (8 + Z.of_nat (length payload)) sip dip) as Hp.
  change (ntohs udp_proto_word) with 4352 in Hp. pose proof (word_total_nonneg _ Hdb).
  match goal with |- in_width 16 (65535 - ones_residue ?s) => pose proof (ones_residue_range s) end.
  unfold in_width. lia.
Qed.

Lemma encapsulate_fills m p d payload sp dp sip dip flag :
  call_ok m p d payload sp dp -> (flag = false \/ Z.of_nat (length payload) <= 65527) ->
  exists m', encapsulate d (length payload) sp dp sip dip flag p m =
      Some (Packet_new p (8 + Z.of_nat (length payload)) 0, m') /\
    fills m p (8 + length payload)
      (datagram sp dp (8 + Z.of_nat (length payload))
         (datagram_checksum sp dp sip dip flag payload) payload) m'.
Proof.
  intros Hc Hlen. pose proof (co_bytes _ _ _ _ _ _ Hc) as Hb.
  pose proof (datagram_checksum_range sp dp sip dip flag payload Hb) as Hcr.
  unfold encapsulate.
  match goal with |- context [header_repr (mkUdpHeader sp dp ?l 0)] =>
    match goal with |- context [mbind (fun _ => ?k) (if flag && _ && _ then _ else _)] =>
      destruct (copies_run m p d payload sp dp l
        (x ← (if flag && negb (sip =? 0) && negb (dip =? 0) then
           c ← calculate_checksum p (8 + length payload) sip dip; store (p + 6) (le_bytes 2 (htons c))
         else mret tt); k) Hc) as (m3 & E & F) end end.
  cbv zeta in E. rewrite E. clear E. rewrite <- !app_assoc in F.
  replace (Z.of_nat (8 + length payload)) with (8 + Z.of_nat (length payload)) in * by lia.
  fold (datagram sp dp (8 + Z.of_nat (length payload)) 0 payload) in F.
  unfold datagram_checksum in *. destruct (flag && _ && _) eqn:Eflag; [|by exists m3].
  assert (Z.of_nat (length payload) <= 65527) as Hn by (destruct Hlen as [->|]; done).
  set (c := 65535 - _) in *.
  destruct (store_fills m3 p _ _ 6 (be_bytes 2 c) (proj1 F)) as (m4 & E4 & F4);
    [rewrite length_be_bytes; lia|].
  exists m4. split; [|by eapply fills_trans; [exact F|]].
  eapply bind_run; [|reflexivity]. eapply bind_run.
  - unfold calculate_checksum. eapply bind_run; [apply load_run, F|]. unfold lift.
    rewrite checksum_of_spec; [reflexivity|by apply datagram_bytes|].
    rewrite length_datagram. lia.
  - replace (Z.of_nat (8 + length payload)) with (8 + Z.of_nat (length payload)) by lia. fold c.
    unfold htons. rewrite le_bytes_bswap. exact E4.
Qed.

(** ** Parsing *)
Lemma udp_parse_run packet out m bs :
  sizeof_UdpHeader <= packet.(len) -> read_bytes m packet.(data) 8 = Some bs ->
  parse packet out m =
    let header := to_host_order (header_of_repr bs) in
    if (header.(length_) <? sizeof_UdpHeader) || (packet.(len) <? header.(length_))
    then Some ((false, mkParsed header out.(p_payload) out.(p_payload_len)), m)
    else Some ((true, mkParsed header (packet.(data) + sizeof_UdpHeader)
                         (header.(length_) - sizeof_UdpHeader)), m).
Proof.
  intros Hlen Hr. unfold parse. destruct (Z.ltb_spec (len packet) sizeof_UdpHeader); [lia|].
  eapply bind_run; [by apply load_run|]. cbv zeta. by destruct (_ || _).
Qed.

Lemma drop_datagram sp dp t c payload : drop 8 (datagram sp dp t c payload) = payload.
Proof. unfold datagram. rewrite !app_assoc. apply drop_app_length'. by rewrite !length_app, !length_be_bytes. Qed.

Lemma datagram_header sp dp t c payload :
  in_width 16 sp -> in_width 16 dp -> in_width 16 c ->
  to_host_order (header_of_repr (take 8 (datagram sp dp t c payload))) =
    mkUdpHeader sp dp (u16 t) c.
Proof.
  intros. unfold datagram.
  assert (take 8 (be_bytes 2 sp ++ be_bytes 2 dp ++ be_bytes 2 (u16 t) ++ be_bytes 2 c ++ payload) =
          be_bytes 2 sp ++ be_bytes 2 dp ++ be_bytes 2 (u16 t) ++ be_bytes 2 c) as -> by reflexivity.
  assert (header_of_repr (be_bytes 2 sp ++ be_bytes 2 dp ++ be_bytes 2 (u16 t) ++ be_bytes 2 c) =
    mkUdpHeader (le_val (be_bytes 2 sp)) (le_val (be_bytes 2 dp)) (le_val (be_bytes 2 (u16 t)))
      (le_val (be_bytes 2 c))) as -> by reflexivity.
  rewrite !le_val_be_bytes. unfold to_host_order. cbn [source_port dest_port length_ checksum].
  fold (htons sp) (htons dp) (htons (u16 t)) (htons c).
  by rewrite !ntohs_htons by (done || (apply wrap_range; lia)).
Qed.

(** C27: A datagram built from a payload parses back to its ports and exactly that
    payload as long as it fits one datagram (65527 bytes).  A longer payload
    (possible when no checksum is requested) has its 16-bit length field
    truncated: the receiver sees only [total mod 65536] bytes, or rejects the
    datagram when that is less than a header. *)
Theorem encapsulate_parse_roundtrip m p d payload sp dp sip dip flag out :
  call_ok m p d payload sp dp -> (flag = false \/ Z.of_nat (length payload) <= 65527) ->
  let total := 8 + Z.of_nat (length payload) in
  exists m' header,
    encapsulate d (length payload) sp dp sip dip flag p m = Some (Packet_new p total 0, m') /\
    header = mkUdpHeader sp dp (u16 total) (datagram_checksum sp dp sip dip flag payload) /\
    read_bytes m' (p + 8) (length payload) = Some payload /\
    parse (Packet_new p total 0) out m' =
      Some (if u16 total <? 8 then (false, mkParsed header out.(p_payload) out.(p_payload_len))
            else (true, mkParsed header (p + 8) (u16 total - 8)), m') /\
    (total < 65536 -> u16 total - 8 = Z.of_nat (length payload)).
Proof.
  intros Hc Hlen. cbv zeta. set (total := 8 + Z.of_nat (length payload)).
  destruct (encapsulate_fills m p d payload sp dp sip dip flag Hc Hlen) as (m' & E & F).
  fold total in E, F. exists m'. eexists. split; [exact E|]. split; [reflexivity|].
  pose proof (co_bytes _ _ _ _ _ _ Hc) as Hb.
  pose proof (read_bytes_sub _ _ _ _ 0 8 (proj1 F) ltac:(lia)) as H8. rewrite Z.add_0_r, drop_0 in H8.
  split; [|split].
  - pose proof (read_bytes_sub _ _ _ _ 8 (length payload) (proj1 F) ltac:(lia)) as Hp.
    change (Z.of_nat 8) with 8 in Hp. rewrite Hp. f_equal.
    rewrite drop_datagram. apply take_ge. lia.
  - erewrite udp_parse_run; [|cbn [len Packet_new]; unfold sizeof_UdpHeader, total; lia|exact H8].
    rewrite datagram_header by
      (first [apply (co_sport _ _ _ _ _ _ Hc)|apply (co_dport _ _ _ _ _ _ Hc)
             |by apply datagram_checksum_range]).
    cbv zeta. cbn [length_ len data Packet_new]. unfold sizeof_UdpHeader.
    pose proof (wrap_le 16 ltac:(lia) total ltac:(unfold total; lia)).
    destruct (Z.ltb_spec (u16 total) 8), (Z.ltb_spec total (u16 total)); try lia; done.
  - intros. rewrite wrap_small by (unfold in_width, total in *; lia). unfold total. lia.
Qed.

(** [parse] is defined on every packet whose first eight bytes are readable
    (on shorter packets it reads nothing); when it accepts, the payload lies
    inside the packet and is as long as the length field says, and when it
    rejects, the payload outputs are untouched. *)
Theorem udp_parse_bounds packet out m :
  (sizeof_UdpHeader <= packet.(len) -> valid m packet.(data) 8) ->
  exists ok o, parse packet out m = Some ((ok, o), m) /\
    if ok then
      o.(p_payload) = packet.(data) + sizeof_UdpHeader /\
      o.(p_payload_len) = o.(p_header).(length_) - sizeof_UdpHeader /\
      0 <= o.(p_payload_len) /\
      o.(p_payload) + o.(p_payload_len) <= packet.(data) + packet.(len)
    else
      o.(p_payload) = out.(p_payload) /\ o.(p_payload_len) = out.(p_payload_len) /\
      (packet.(len) < sizeof_UdpHeader -> o = out).
Proof.
  intros Hv. destruct (Z.lt_ge_cases (len packet) sizeof_UdpHeader) as [Hs|Hl].
  { exists false, out. unfold parse. destruct (Z.ltb_spec (len packet) sizeof_UdpHeader); [done|lia]. }
  destruct (proj1 (read_bytes_valid m (data packet) 8) (Hv Hl)) as [bs Hr].
  rewrite (udp_parse_run packet out m bs Hl Hr). cbv zeta.
  set (h := to_host_order (header_of_repr bs)).
  destruct (Z.ltb_spec (length_ h) sizeof_UdpHeader).
  { do 2 eexists. split; [done|]. cbn. split_and!; [done|done|lia]. }
  destruct (Z.ltb_spec (len packet) (length_ h)).
  { do 2 eexists. split; [done|]. cbn. split_and!; [done|done|lia]. }
  do 2 eexists. split; [done|]. cbn [p_header p_payload p_payload_len]. lia.
Qed.

(** ** Checksums *)
Lemma verify_run packet sip dip m bs :
  sizeof_UdpHeader <= packet.(len) <= 65536 ->
  read_bytes m packet.(data) (Z.to_nat packet.(len)) = Some bs -> bytes bs ->
  verify_checksum packet sip dip m =
    Some (ones_residue (pseudo_sum udp_proto_word packet.(len) sip dip + word_total bs) =? 65535, m).
Proof.
  intros [Hl Hu] Hr Hb. pose proof (read_bytes_length _ _ _ _ Hr) as Hlen.
  unfold sizeof_UdpHeader in Hl. unfold verify_checksum.
  destruct (Z.ltb_spec (len packet) sizeof_UdpHeader); [unfold sizeof_UdpHeader in *; lia|].
  pose proof (read_bytes_sub _ _ _ _ 0 8 Hr ltac:(lia)) as H8. rewrite Z.add_0_r in H8.
  eapply bind_run; [apply load_run, H8|]. eapply bind_run.
  - unfold calculate_checksum. eapply bind_run; [apply load_run, Hr|]. unfold lift.
    rewrite checksum_of_spec by (done || lia). reflexivity.
  - unfold mret, M_ret. rewrite Z2Nat.id by lia.
    match goal with |- Some (65535 - ?r =? 0, m) = _ =>
      replace (65535 - r =? 0) with (r =? 65535); [done|];
      destruct (Z.eqb_spec r 65535), (Z.eqb_spec (65535 - r) 0); (done || lia) end.
Qed.

(** The checksum field adds its value to the word sum. *)
Lemma datagram_total sp dp t c payload :
  in_width 16 c ->
  word_total (datagram sp dp t c payload) = word_total (datagram sp dp t 0 payload) + c.
Proof.
  intros Hc. unfold datagram. set (A := be_bytes 2 sp ++ be_bytes 2 dp ++ be_bytes 2 (u16 t)).
  assert (Nat.Even (length A)) by (unfold A; rewrite !length_app, !length_be_bytes; by apply Nat.even_spec).
  change (be_bytes 2 sp ++ be_bytes 2 dp ++ be_bytes 2 (u16 t) ++ be_bytes 2 c ++ payload)
    with (A ++ be_bytes 2 c ++ payload).
  change (be_bytes 2 sp ++ be_bytes 2 dp ++ be_bytes 2 (u16 t) ++ be_bytes 2 0 ++ payload)
    with (A ++ be_bytes 2 0 ++ payload).
  rewrite !(word_total_app A) by done. unfold be_bytes. rewrite !le_bytes_2 by (done || (unfold in_width; lia)).
  cbn [rev app word_total]. pose proof (Z.div_mod c 256). change (0 / 256) with 0.
  change (0 mod 256) with 0. lia.
Qed.

(** Every datagram built with a checksum verifies at the receiver, and any
    change of one of its bytes makes verification fail. *)
Theorem udp_checksum_detects_corruption m p d payload sp dp sip dip :
  call_ok m p d payload sp dp -> Z.of_nat (length payload) <= 65527 ->
  sip <> 0 -> dip <> 0 ->
  let total := 8 + Z.of_nat (length payload) in
  exists m', encapsulate d (length payload) sp dp sip dip true p m = Some (Packet_new p total 0, m') /\
    verify_checksum (Packet_new p total 0) sip dip m' = Some (true, m') /\
    forall i b b', 0 <= i < total -> m' !! (p + i) = Some b -> byte b' -> b' <> b ->
      verify_checksum (Packet_new p total 0) sip dip (<[p + i := b']> m') =
        Some (false, <[p + i := b']> m').
Proof.
  intros Hc Hlen Hs Hd. cbv zeta. set (total := 8 + Z.of_nat (length payload)).
  destruct (encapsulate_fills m p d payload sp dp sip dip true Hc (or_intror Hlen)) as (m' & E & F).
  fold total in E, F. pose proof (co_bytes _ _ _ _ _ _ Hc) as Hb.
  set (c := datagram_checksum sp dp sip dip true payload) in *.
  pose proof (datagram_checksum_range sp dp sip dip true payload Hb) as Hcr. fold c in Hcr.
  pose proof (datagram_bytes sp dp total c payload Hb) as Hdb.
  set (bs := datagram sp dp total c payload) in *.
  set (P := pseudo_sum udp_proto_word total sip dip).
  pose proof (pseudo_sum_range udp_proto_word total sip dip) as HP.
  change (ntohs udp_proto_word) with 4352 in HP. fold P in HP.
  pose proof (word_total_nonneg bs Hdb) as Hw.
  assert (ones_residue (P + word_total bs) = 65535) as Hok.
  { pose proof (word_total_nonneg _ (datagram_bytes sp dp total 0 payload Hb)).
    unfold bs. rewrite datagram_total by done.
    assert (c = 65535 - ones_residue (P + word_total (datagram sp dp total 0 payload))) as Ec.
    { unfold c, datagram_checksum. fold total. by rewrite !(proj2 (Z.eqb_neq _ 0)) by done. }
    rewrite Ec, Z.add_assoc. apply ones_residue_complement. lia. }
  assert (length bs = Z.to_nat total) as Hl
    by (unfold bs; rewrite length_datagram; unfold total; lia).
  assert (read_bytes m' p (Z.to_nat total) = Some bs) as Hr.
  { replace (Z.to_nat total) with (8 + length payload)%nat by (unfold total; lia). apply F. }
  exists m'. split; [exact E|]. split.
  - rewrite (verify_run _ _ _ _ bs); cbn [len data Packet_new]; try done;
      [|unfold sizeof_UdpHeader, total; lia]. fold P. by rewrite Hok.
  - intros i b b' Hi Hmb Hb' Hne. set (n := Z.to_nat i).
    destruct (read_bytes_insert m' p (Z.to_nat total) bs i b' Hr) as [Hr' Hlk]; [lia|].
    fold n in Hr', Hlk. rewrite Hmb in Hlk.
    rewrite (verify_run _ _ _ _ (<[n := b']> bs)); cbn [len data Packet_new];
      [|unfold sizeof_UdpHeader, total; lia|exact Hr'|by apply Forall_insert].
    fold P. f_equal. f_equal. apply Z.eqb_neq. rewrite <- Hok.
    destruct (word_total_insert bs n b b' Hlk) as (k & Hk & Ew). rewrite Ew.
    pose proof (Forall_lookup_1 _ _ _ _ Hdb Hlk) as Hbb.
    assert (0 <= word_total (<[n := b']> bs)) by (apply word_total_nonneg; by apply Forall_insert).
    apply ones_residue_diff; unfold in_width in *; lia.
Qed.

(** The UDP checksum the code computes agrees with the Internet checksum of
    RFC 768 exactly on datagrams of odd length whose last byte is 17 (the
    protocol number). *)
Theorem udp_checksum_rfc_iff m d bs sip dip :
  read_bytes m d (length bs) = Some bs -> bytes bs -> Z.of_nat (length bs) <= 65535 ->
  calculate_checksum d (length bs) sip dip m =
    Some (rfc_checksum udp_proto_word bs (Z.of_nat (length bs)) sip dip, m) <->
  Nat.Odd (length bs) /\ List.last bs 0 = udp_proto_word.
Proof.
  intros Hr Hb Hl.
  rewrite <- (checksum_rfc_iff udp_proto_word bs (Z.of_nat (length bs)) sip dip)
    by (unfold in_width, udp_proto_word; (lia || assumption)).
  unfold calculate_checksum, mbind, M_bind. rewrite (load_run _ _ _ _ Hr). unfold lift.
  destruct (checksum_of _ _ _ _ _); cbn [mbind option_bind]; split; congruence.
Qed.

(** ** Witnesses *)
Definition demo_payload : list Z := [104; 105; 33].
Definition demo_mem : mem := alloc (alloc ∅ 100 (replicate 11 0)) 200 demo_payload.

Lemma demo_call : call_ok demo_mem 100 200 demo_payload 9101 9000.
Proof.
  split.
  - apply read_bytes_valid. eexists. vm_compute. reflexivity.
  - vm_compute. reflexivity.
  - repeat constructor; discriminate.
  - left. discriminate.
  - split; [discriminate|reflexivity].
  - split; [discriminate|reflexivity].
Qed.

Definition demo_out : Parsed := mkParsed (mkUdpHeader 0 0 0 0) nullptr 0.

Lemma encapsulate_parse_roundtrip_witness :
  exists m' header,
    encapsulate 200 3 9101 9000 16777343 16777343 true 100 demo_mem =
      Some (Packet_new 100 11 0, m') /\
    header = mkUdpHeader 9101 9000 11
      (datagram_checksum 9101 9000 16777343 16777343 true demo_payload) /\
    read_bytes m' 108 3 = Some demo_payload /\
    parse (Packet_new 100 11 0) demo_out m' = Some ((true, mkParsed header 108 3), m') /\
    (11 < 65536 -> u16 11 - 8 = 3).
Proof.
  apply (encapsulate_parse_roundtrip demo_mem 100 200 demo_payload 9101 9000 16777343 16777343 true
           demo_out demo_call).
  right. discriminate.
Defined.

Definition demo_dgram : mem := alloc ∅ 100 (datagram 9101 9000 11 0 demo_payload).

Lemma udp_parse_bounds_witness :
  exists ok o, parse (Packet_new 100 11 0) demo_out demo_dgram = Some ((ok, o), demo_dgram) /\
    if ok then
      o.(p_payload) = 108 /\ o.(p_payload_len) = o.(p_header).(length_) - sizeof_UdpHeader /\
      0 <= o.(p_payload_len) /\ o.(p_payload) + o.(p_payload_len) <= 111
    else o.(p_payload) = nullptr /\ o.(p_payload_len) = 0 /\ (11 < sizeof_UdpHeader -> o = demo_out).
Proof.
  apply (udp_parse_bounds (Packet_new 100 11 0) demo_out demo_dgram).
  intros _. apply read_bytes_valid. eexists. vm_compute. reflexivity.
Defined.

Lemma udp_checksum_detects_corruption_witness :
  exists m', encapsulate 200 3 9101 9000 16777343 16777343 true 100 demo_mem =
      Some (Packet_new 100 11 0, m') /\
    verify_checksum (Packet_new 100 11 0) 16777343 16777343 m' = Some (true, m') /\
    forall i b b', 0 <= i < 11 -> m' !! (100 + i) = Some b -> byte b' -> b' <> b ->
      verify_checksum (Packet_new 100 11 0) 16777343 16777343 (<[100 + i := b']> m') =
        Some (false, <[100 + i := b']> m').
Proof.
  apply (udp_checksum_detects_corruption demo_mem 100 200 demo_payload 9101 9000 16777343 16777343
           demo_call); discriminate.
Defined.

Lemma udp_checksum_rfc_iff_witness :
  calculate_checksum 100 11 16777343 16777343 demo_dgram =
    Some (rfc_checksum udp_proto_word (datagram 9101 9000 11 0 demo_payload) 11 16777343 16777343,
          demo_dgram) <->
  Nat.Odd 11 /\ List.last (datagram 9101 9000 11 0 demo_payload) 0 = udp_proto_word.
Proof.
  apply (udp_checksum_rfc_iff demo_dgram 100 (datagram 9101 9000 11 0 demo_payload)).
  - vm_compute. reflexivity.
  - apply datagram_bytes. repeat constructor; discriminate.
  - discriminate.
Defined.
