(* ===== verification/UdpFeedback.v ===== *)
(** * UdpFeedback: sequence-gap accounting of the subscriber (protocol/udp_feedback.hpp) *)
From S2P Require Import Prelude.

Record UdpDeliveryFeedback := mkFeedback {
  expected_seq : Z;
  total : Z;
  gaps : Z;
  reorder_events : Z;
  max_reorder_depth : Z;
}.

Definition UdpDeliveryFeedback_new : UdpDeliveryFeedback := mkFeedback 1 0 0 0 0.

Definition observe (seq : Z) (f : UdpDeliveryFeedback) : UdpDeliveryFeedback :=
  let total := u64 (f.(total) + 1) in
  if seq =? f.(expected_seq) then
    mkFeedback (u64 (f.(expected_seq) + 1)) total f.(gaps) f.(reorder_events) f.(max_reorder_depth)
  else if f.(expected_seq) <? seq then
    mkFeedback (u64 (seq + 1)) total (u64 (f.(gaps) + u64 (seq - f.(expected_seq))))
      f.(reorder_events) f.(max_reorder_depth)
  else
    mkFeedback f.(expected_seq) total f.(gaps) (u64 (f.(reorder_events) + 1))
      (Z.max f.(max_reorder_depth) (u64 (f.(expected_seq) - seq))).

Definition observe_all (seqs : list Z) (f : UdpDeliveryFeedback) : UdpDeliveryFeedback :=
  foldl (fun f s => observe s f) f seqs.

(** ** Accounting *)

(** The state after the sequence numbers [seen] (latest last). *)
Record accounted (seen : list Z) (f : UdpDeliveryFeedback) : Prop := {
  ac_total : f.(total) = Z.of_nat (length seen);
  ac_expected : 1 <= f.(expected_seq) < 2 ^ 64;
  ac_seen : Forall (fun s => 1 <= s < f.(expected_seq)) seen;
  ac_max : f.(expected_seq) = 1 \/ f.(expected_seq) - 1 ∈ seen;
  ac_balance : f.(gaps) + f.(total) = f.(expected_seq) - 1 + f.(reorder_events);
  ac_gaps : 0 <= f.(gaps) < f.(expected_seq);
  ac_reorder : 0 <= f.(reorder_events) <= f.(total);
  ac_depth : 0 <= f.(max_reorder_depth) < f.(expected_seq);
}.

Lemma observe_accounted seen f s :
  accounted seen f -> 1 <= s < 2 ^ 64 - 1 -> Z.of_nat (length seen) + 1 < 2 ^ 64 ->
  accounted (seen ++ [s]) (observe s f).
Proof.
  intros [Ht He Hs Hm Hb Hg Hr Hd] Hseq Hlen. unfold observe.
  assert (Z.of_nat (length (seen ++ [s])) = Z.of_nat (length seen) + 1) as Hl
    by (rewrite length_app; cbn; lia).
  rewrite (wrap_small 64 (total f + 1)) by (unfold in_width; lia).
  assert (forall e, expected_seq f <= e -> s < e -> Forall (fun x => 1 <= x < e) (seen ++ [s])) as Hall.
  { intros e H1 H2. apply Forall_app_2; [|constructor; [lia|constructor]].
    eapply Forall_impl; [exact Hs|]. cbn. lia. }
  destruct (Z.eqb_spec s (expected_seq f)) as [->|Hne];
    [|destruct (Z.ltb_spec (expected_seq f) s)].
  - rewrite !wrap_small by (unfold in_width; lia).
    split; cbn [expected_seq total gaps reorder_events max_reorder_depth]; try lia.
    + apply Hall; lia.
    + right. apply elem_of_app. right. apply list_elem_of_singleton. lia.
  - rewrite (wrap_small 64 (s - _)), !wrap_small
      by (unfold in_width; rewrite ?wrap_small by (unfold in_width; lia); lia).
    split; cbn [expected_seq total gaps reorder_events max_reorder_depth]; try lia.
    + apply Hall; lia.
    + right. apply elem_of_app. right. apply list_elem_of_singleton. lia.
  - rewrite !wrap_small by (unfold in_width; lia).
    split; cbn [expected_seq total gaps reorder_events max_reorder_depth]; try lia.
    + apply Hall; lia.
    + destruct Hm as [?|Hm]; [by left|]. right. apply elem_of_app. by left.
Qed.

(** How one sequence number moves the expectation. *)
Lemma observe_newer seen f s :
  accounted seen f -> expected_seq f <= s < 2 ^ 64 - 1 -> Z.of_nat (length seen) + 1 < 2 ^ 64 ->
  reorder_events (observe s f) = reorder_events f /\ expected_seq (observe s f) = s + 1.
Proof.
  intros [Ht He _ _ _ _ _ _] Hs Hl. unfold observe.
  destruct (Z.eqb_spec s (expected_seq f)); [|destruct (Z.ltb_spec (expected_seq f) s); [|lia]];
    cbn [reorder_events expected_seq]; rewrite wrap_small by (unfold in_width; lia); split; (done || lia).
Qed.

Lemma observe_older seen f s :
  accounted seen f -> 1 <= s < expected_seq f -> Z.of_nat (length seen) + 1 < 2 ^ 64 ->
  reorder_events (observe s f) = reorder_events f + 1 /\ expected_seq (observe s f) = expected_seq f.
Proof.
  intros [Ht He _ _ _ _ Hr _] Hs Hl. unfold observe.
  destruct (Z.eqb_spec s (expected_seq f)); [lia|]. destruct (Z.ltb_spec (expected_seq f) s); [lia|].
  cbn [reorder_events expected_seq]. rewrite wrap_small by (unfold in_width; lia). done.
Qed.

Lemma observe_all_accounted seqs :
  Forall (fun s => 1 <= s < 2 ^ 64 - 1) seqs -> Z.of_nat (length seqs) < 2 ^ 64 ->
  accounted seqs (observe_all seqs UdpDeliveryFeedback_new).
Proof.
  unfold observe_all. induction seqs as [|s seqs IH] using rev_ind; intros Hs Hl.
  - split; cbn; (done || lia || by left || constructor).
  - rewrite foldl_app. cbn [foldl]. rewrite length_app in Hl. cbn in Hl.
    apply Forall_app in Hs as [Hs Hs1]. apply Forall_cons in Hs1 as [Hs1 _].
    apply observe_accounted; [apply IH; [done|lia]|done|lia].
Qed.

(** Gap accounting is exact.  After any arrivals numbered from 1, the expected
    number is one past the highest seen and the counters balance: gaps plus
    arrivals equal the numbers passed plus the reordered arrivals.  If nothing
    arrived twice, the numbers below the expected one that never arrived are
    exactly [gaps - reorder_events] many. *)
Theorem feedback_counts_losses seqs :
  Forall (fun s => 1 <= s < 2 ^ 64 - 1) seqs -> Z.of_nat (length seqs) < 2 ^ 64 ->
  let f := observe_all seqs UdpDeliveryFeedback_new in
  f.(total) = Z.of_nat (length seqs) /\
  Forall (fun s => s < f.(expected_seq)) seqs /\
  (f.(expected_seq) = 1 \/ f.(expected_seq) - 1 ∈ seqs) /\
  f.(gaps) + f.(total) = f.(expected_seq) - 1 + f.(reorder_events) /\
  (NoDup seqs ->
     Z.of_nat (length (filter (fun s => s ∉ seqs) (seqZ 1 (f.(expected_seq) - 1)))) =
       f.(gaps) - f.(reorder_events)).
Proof.
  intros Hs Hl. cbv zeta. destruct (observe_all_accounted seqs Hs Hl) as [Ht He Hseen Hm Hb Hg Hr Hd].
  set (f := observe_all seqs UdpDeliveryFeedback_new) in *. split_and!; try done.
  - eapply Forall_impl; [exact Hseen|]. cbn. lia.
  - intros Hnd.
    assert (filter (fun s => s ∈ seqs) (seqZ 1 (expected_seq f - 1)) ≡ₚ seqs) as Hp.
    { apply NoDup_Permutation; [apply NoDup_filter, NoDup_seqZ|done|]. intros x.
      rewrite list_elem_of_filter, elem_of_seqZ. split; [by intros []|].
      intros Hx. split; [done|]. rewrite Forall_forall in Hseen. specialize (Hseen x Hx). lia. }
    pose proof (filter_split (fun s => s ∈ seqs) (seqZ 1 (expected_seq f - 1))) as Hsp.
    rewrite (Permutation_length Hp), length_seqZ in Hsp. lia.
Qed.

Lemma feedback_counts_losses_witness :
  let f := observe_all [1; 2; 5; 3; 8] UdpDeliveryFeedback_new in
  f = mkFeedback 9 5 4 1 3 /\
  Z.of_nat (length (filter (fun s => s ∉ [1; 2; 5; 3; 8]) (seqZ 1 8))) = 3.
Proof.
  split; [vm_compute; reflexivity|].
  apply (feedback_counts_losses [1; 2; 5; 3; 8]).
  - repeat constructor; discriminate.
  - reflexivity.
  - compute_done.
Defined.
