(* ===== verification/BatchIo.v ===== *)
(** * BatchIo: batched receive and send with a waiting policy (io/batch_io.hpp)

    The kernel is an environment that answers each call: [sys] the k-th
    recvmmsg/sendmmsg (a message count, or minus an errno), [poll] the k-th
    poll, [cancelled] the k-th load of the cancel flag inside the waiting loop.
    A poll asked to wait [w] milliseconds is charged [w] to the waiting time,
    the most it can take. *)
From S2P Require Import Prelude Memory Packet Fifo RingSlots PacketRing.

Inductive BatchIOStatus : Set := Ok | Timeout | Cancelled | WouldBlock | SysError.

#[export] Instance BatchIOStatus_eq_dec : EqDecision BatchIOStatus.
Proof. solve_decision. Defined.

Record BatchIOResult := mkResult { count : Z; error : Z; status : BatchIOStatus }.

Definition success (r : BatchIOResult) : bool :=
  (r.(error) =? 0) && negb (bool_decide (r.(status) = SysError)).

(** [has_flag]: whether [cancel_flag] is set. *)
Record BatchIOOptions := mkOptions { timeout_ms : Z; has_flag : bool; poll_interval_ms : Z }.
Definition BatchIOOptions_default : BatchIOOptions := mkOptions 0 false 1.

Definition EINTR : Z := 4.
Definition EAGAIN : Z := 11.
Definition EWOULDBLOCK : Z := 11.

Record kernel := mkKernel {
  cancelled_before : bool;
  sys : nat -> Z;
  cancelled : nat -> bool;
  poll : nat -> Z;
  cancelled_after : bool;
}.

(** What the policy loop returns: the return value, errno when it is -1, and how
    many calls and milliseconds of waiting it took. *)
Record outcome := mkOutcome { ret : Z; errno : Z; calls : nat; waited : Z }.

Fixpoint policy_loop (fuel : nat) (o : BatchIOOptions) (e : kernel) (k : nat)
    (remaining_ms total : Z) : option outcome :=
  match fuel with
  | O => None
  | S fuel =>
      let received := e.(sys) k in
      if 0 <=? received then Some (mkOutcome received 0 (S k) total) else
      if negb (- received =? EAGAIN) && negb (- received =? EWOULDBLOCK) then
        Some (mkOutcome (-1) (- received) (S k) total)
      else if o.(timeout_ms) =? 0 then Some (mkOutcome 0 0 (S k) total)
      else if o.(has_flag) && e.(cancelled) k then Some (mkOutcome 0 0 (S k) total)
      else
        let wait_ms := if 0 <? o.(poll_interval_ms) then o.(poll_interval_ms) else 1 in
        let after_poll wait_ms remaining_ms :=
          if (e.(poll) k <? 0) && negb (- e.(poll) k =? EINTR) then
            Some (mkOutcome (-1) (- e.(poll) k) (S k) (total + wait_ms))
          else policy_loop fuel o e (S k) remaining_ms (total + wait_ms) in
        if 0 <? o.(timeout_ms) then
          if remaining_ms <=? 0 then Some (mkOutcome 0 0 (S k) total) else
          let wait_ms := Z.min wait_ms remaining_ms in
          after_poll wait_ms (remaining_ms - wait_ms)
        else after_poll wait_ms remaining_ms
  end.

Definition recvmmsg_with_policy (fuel : nat) (o : BatchIOOptions) (e : kernel) : option outcome :=
  if o.(has_flag) && e.(cancelled_before) then Some (mkOutcome 0 0 0 0) else
  policy_loop fuel o e 0 o.(timeout_ms) 0.

(** [sendmmsg_with_policy] is the same loop around [sendmmsg] and POLLOUT. *)
Definition sendmmsg_with_policy (fuel : nat) (o : BatchIOOptions) (e : kernel) : option outcome :=
  if o.(has_flag) && e.(cancelled_before) then Some (mkOutcome 0 0 0 0) else
  policy_loop fuel o e 0 o.(timeout_ms) 0.

(** The result for a call that transferred nothing. *)
Definition classify (o : BatchIOOptions) (e : kernel) (r : outcome) : BatchIOResult :=
  if r.(ret) <? 0 then
    if (r.(errno) =? EAGAIN) || (r.(errno) =? EWOULDBLOCK) then mkResult 0 0 WouldBlock
    else mkResult 0 r.(errno) SysError
  else if o.(has_flag) && e.(cancelled_after) then mkResult 0 0 Cancelled
  else if 0 <? o.(timeout_ms) then mkResult 0 0 Timeout
  else mkResult 0 0 WouldBlock.

(** *** The headers given to the kernel

    One [mmsghdr] per message with one [iovec]; [None] is a null pointer. *)
Record iovec := mkIovec { iov_base : ptr; iov_len : Z }.
Record msghdr := mkMsghdr {
  msg_name : option ptr; msg_namelen : Z; msg_iov : list iovec; msg_control : option ptr;
  msg_controllen : Z; msg_flags : Z }.

Definition header_for (v : iovec) : msghdr := mkMsghdr None 0 [v] None 0 0.

Definition kMaxDatagram : Z := 65536.

(** The receiver's vectors: the storage of each buffer, and the headers. *)
Record BatchRecv := mkBatchRecv { recv_fd : Z; temp_buffers_ : list ptr; recv_msghdrs : list msghdr }.
Definition BatchRecv_new (socket_fd : Z) : BatchRecv := mkBatchRecv socket_fd [] [].

(** [resize] of the vectors, then one header per buffer; [fresh] gives the storage
    of the buffers that are added, and the headers beyond [n] stay as they were. *)
Definition prepare_recv (n : nat) (fresh : nat -> ptr) (r : BatchRecv) : BatchRecv :=
  let buffers := r.(temp_buffers_) ++ map fresh (seq (length r.(temp_buffers_)) (n - length r.(temp_buffers_))) in
  let headers := map (fun b => header_for (mkIovec b kMaxDatagram)) (take n buffers) in
  mkBatchRecv r.(recv_fd) buffers (headers ++ drop n r.(recv_msghdrs)).

Record BatchSend := mkBatchSend { send_fd : Z; send_msghdrs : list msghdr }.
Definition BatchSend_new (socket_fd : Z) : BatchSend := mkBatchSend socket_fd [].

Definition prepare_send (packets : list Packet) (s : BatchSend) : BatchSend :=
  let headers := map (fun p => header_for (mkIovec p.(data) p.(len))) packets in
  mkBatchSend s.(send_fd) (headers ++ drop (length packets) s.(send_msghdrs)).

(** The received messages: buffer [i] of the object and the length the kernel
    reported for it. *)
Definition received_packets (buffers : list ptr) (lens : list Z) (n : Z) : list Packet :=
  take (Z.to_nat n) (zip_with (fun b l => Packet_new b l 0) buffers lens).

(** [recv_batch] into a ring: the packets point into the object's own buffers,
    which every call reuses. *)
Definition recv_batch_ring (fuel : nat) (o : BatchIOOptions) (e : kernel) (buffers : list ptr)
    (lens : list Z) (max_packets : Z) (ring : PacketRing) : option (BatchIOResult * PacketRing) :=
  if max_packets =? 0 then Some (mkResult 0 0 Ok, ring) else
  r ← recvmmsg_with_policy fuel o e;
  if r.(ret) <=? 0 then Some (classify o e r, ring) else
  '(added, ring) ← push_all (received_packets buffers lens r.(ret)) ring;
  Some (mkResult (Z.of_nat added) 0 Ok, ring).

(** [recv_batch] into an array of [n] packets: the packets written to its front. *)
Definition recv_batch_span (fuel : nat) (o : BatchIOOptions) (e : kernel) (buffers : list ptr)
    (lens : list Z) (n : Z) : option (BatchIOResult * list Packet) :=
  if n =? 0 then Some (mkResult 0 0 Ok, []) else
  r ← recvmmsg_with_policy fuel o e;
  if r.(ret) <=? 0 then Some (classify o e r, []) else
  Some (mkResult r.(ret) 0 Ok, received_packets buffers lens r.(ret)).

Definition send_batch (fuel : nat) (o : BatchIOOptions) (e : kernel) (packets : list Packet)
    : option BatchIOResult :=
  if (length packets =? 0)%nat then Some (mkResult 0 0 Ok) else
  r ← sendmmsg_with_policy fuel o e;
  if r.(ret) <=? 0 then Some (classify o e r) else Some (mkResult r.(ret) 0 Ok).

(** ** The waiting policy *)

(** An answer that keeps the loop waiting in round [k]. *)
Definition idle (o : BatchIOOptions) (e : kernel) (k : nat) : Prop :=
  - e.(sys) k = EAGAIN /\ o.(has_flag) && e.(cancelled) k = false /\
  (0 <= e.(poll) k \/ - e.(poll) k = EINTR).

Lemma policy_loop_bounded fuel o e k remaining total :
  0 < timeout_ms o -> 0 <= remaining -> remaining < Z.of_nat fuel ->
  exists r, policy_loop fuel o e k remaining total = Some r /\
    total <= waited r <= total + remaining /\
    Z.of_nat (calls r) <= Z.of_nat k + remaining + 1 /\
    (ret r = 0 -> sys e (calls r - 1) = 0 \/ waited r = total + remaining \/
       has_flag o && cancelled e (calls r - 1) = true).
Proof.
  intros Ht. revert k remaining total. induction fuel as [|fuel IH]; intros k rem total Hr Hf; [lia|].
  cbn [policy_loop]. destruct (Z.leb_spec 0 (sys e k)).
  { eexists. split; [reflexivity|]. cbn [waited calls ret]. rewrite Nat.sub_succ, Nat.sub_0_r.
    split; [lia|]. split; [lia|]. auto. }
  destruct (_ && _).
  { eexists. split; [reflexivity|]. cbn [waited calls ret]. split; [lia|]. split; [lia|]. lia. }
  destruct (Z.eqb_spec (timeout_ms o) 0); [lia|].
  destruct (has_flag o && cancelled e k) eqn:Ec.
  { eexists. split; [reflexivity|]. cbn [waited calls ret]. rewrite Nat.sub_succ, Nat.sub_0_r.
    split; [lia|]. split; [lia|]. auto. }
  destruct (Z.ltb_spec 0 (timeout_ms o)); [|lia]. destruct (Z.leb_spec rem 0).
  { eexists. split; [reflexivity|]. cbn [waited calls ret]. split; [lia|]. split; [lia|].
    intros _. right. left. lia. }
  set (w := Z.min _ rem). assert (1 <= w <= rem) as Hw.
  { unfold w. destruct (Z.ltb_spec 0 (poll_interval_ms o)); lia. }
  destruct ((poll e k <? 0) && _).
  { eexists. split; [reflexivity|]. cbn [waited calls ret]. split; [lia|]. split; [lia|]. lia. }
  destruct (IH (S k) (rem - w) (total + w)) as (r & E & HA & HB & HC); [lia|lia|].
  exists r. split; [done|]. split; [lia|]. split; [lia|].
  intros Hz. specialize (HC Hz). destruct HC as [?|[?|?]]; auto. right. left. lia.
Qed.

(** A bounded wait is bounded: with a positive timeout the policy returns
    whatever the kernel does, within [timeout + 1] system calls, having asked
    to wait at most [timeout] milliseconds in all; and when it comes back empty
    it was cancelled, or the kernel returned nothing, or it waited the whole
    timeout. *)
Theorem bounded_wait_returns o e :
  0 < timeout_ms o -> has_flag o && cancelled_before e = false ->
  exists r, recvmmsg_with_policy (S (Z.to_nat (timeout_ms o))) o e = Some r /\
    sendmmsg_with_policy (S (Z.to_nat (timeout_ms o))) o e = Some r /\
    0 <= waited r <= timeout_ms o /\ Z.of_nat (calls r) <= timeout_ms o + 1 /\
    (ret r = 0 -> sys e (calls r - 1) = 0 \/ waited r = timeout_ms o \/
       has_flag o && cancelled e (calls r - 1) = true).
Proof.
  intros Ht Hc. unfold recvmmsg_with_policy, sendmmsg_with_policy. rewrite Hc.
  destruct (policy_loop_bounded (S (Z.to_nat (timeout_ms o))) o e 0 (timeout_ms o) 0)
    as (r & E & H1 & H2 & H3); [done|lia|lia|].
  exists r. split_and!; (done || lia).
Qed.

Lemma policy_idle fuel o e k n remaining total :
  timeout_ms o < 0 -> (forall j, (k <= j < k + n)%nat -> idle o e j) ->
  exists total', policy_loop (n + fuel) o e k remaining total =
    policy_loop fuel o e (k + n) remaining total'.
Proof.
  intros Ht. revert k total. induction n as [|n IH]; intros k total Hi.
  { exists total. by rewrite Nat.add_0_r. }
  destruct (Hi k) as (Hs & Hc & Hp); [lia|]. cbn [Nat.add policy_loop].
  destruct (Z.leb_spec 0 (sys e k)); [unfold EAGAIN in Hs; lia|].
  rewrite Hs, Z.eqb_refl. cbn [negb andb]. rewrite Hc.
  destruct (Z.eqb_spec (timeout_ms o) 0); [lia|]. destruct (Z.ltb_spec 0 (timeout_ms o)); [lia|].
  assert ((poll e k <? 0) && negb (- poll e k =? EINTR) = false) as ->.
  { destruct (Z.ltb_spec (poll e k) 0), (Z.eqb_spec (- poll e k) EINTR); cbn; (done || lia). }
  destruct (IH (S k) (total + (if 0 <? poll_interval_ms o then poll_interval_ms o else 1)))
    as (t' & E); [intros; apply Hi; lia|].
  exists t'. rewrite E. by replace (S k + n)%nat with (k + S n)%nat by lia.
Qed.

(** An indefinite wait ends exactly with the first event: if the kernel keeps
    answering "would block" it never returns, and if round [n] is the first
    with messages, an error, a cancellation or a failing poll, it returns in
    that round; a zero timeout makes one non-blocking call and no wait. *)
Theorem indefinite_wait_ends_with_event o e :
  has_flag o && cancelled_before e = false ->
  (timeout_ms o < 0 -> (forall k, idle o e k) ->
     forall fuel, recvmmsg_with_policy fuel o e = None) /\
  (timeout_ms o < 0 -> forall n, (forall k, (k < n)%nat -> idle o e k) -> ~ idle o e n ->
     exists r, recvmmsg_with_policy (S n) o e = Some r /\ calls r = S n) /\
  (timeout_ms o = 0 ->
     exists r, recvmmsg_with_policy 1 o e = Some r /\ calls r = 1%nat /\ waited r = 0).
Proof.
  intros Hc. unfold recvmmsg_with_policy. rewrite Hc. split_and!.
  - intros Ht Hi fuel.
    destruct (policy_idle 0 o e 0 fuel (timeout_ms o) 0 Ht) as (t & E); [intros; apply Hi|].
    by rewrite Nat.add_0_r in E.
  - intros Ht n Hi Hn.
    destruct (policy_idle 1 o e 0 n (timeout_ms o) 0 Ht) as (t & E); [intros; apply Hi; lia|].
    rewrite Nat.add_1_r in E. rewrite E. cbn [policy_loop Nat.add].
    destruct (Z.leb_spec 0 (sys e n)); [by eexists|].
    destruct (negb (- sys e n =? EAGAIN) && negb (- sys e n =? EWOULDBLOCK)) eqn:Eg; [by eexists|].
    destruct (timeout_ms o =? 0); [by eexists|].
    destruct (has_flag o && cancelled e n) eqn:Ef; [by eexists|].
    destruct (Z.ltb_spec 0 (timeout_ms o)); [lia|].
    destruct ((poll e n <? 0) && negb (- poll e n =? EINTR)) eqn:Ep; [by eexists|].
    exfalso. apply Hn. split; [|split; [done|]].
    + destruct (Z.eqb_spec (- sys e n) EAGAIN); [done|].
      destruct (Z.eqb_spec (- sys e n) EWOULDBLOCK); done.
    + destruct (Z.ltb_spec (poll e n) 0); [|by left]. right.
      by destruct (Z.eqb_spec (- poll e n) EINTR).
  - intros Ht. rewrite Ht. cbn [policy_loop]. destruct (0 <=? sys e 0); [by eexists|].
    destruct (negb (- sys e 0 =? EAGAIN) && negb (- sys e 0 =? EWOULDBLOCK)); [by eexists|].
    rewrite Ht. by eexists.
Qed.

(** ** Results *)

Lemma recv_batch_ring_run fuel o e buffers lens n ring r :
  ring_inv ring -> write_pos_ ring + Z.of_nat (length buffers) < 2 ^ 64 -> n <> 0 ->
  recvmmsg_with_policy fuel o e = Some r ->
  exists res ring', recv_batch_ring fuel o e buffers lens n ring = Some (res, ring') /\
    ring_inv ring' /\
    contents ring' = contents ring ++
      take (Z.to_nat (count res)) (received_packets buffers lens (ret r)) /\
    (0 < ret r -> status res = Ok /\
       count res = Z.of_nat (Nat.min (length (received_packets buffers lens (ret r)))
         (Z.to_nat (capacity ring) - length (contents ring)))) /\
    (ret r <= 0 -> res = classify o e r /\ ring' = ring /\
       (status res = SysError <->
          ret r < 0 /\ errno r <> EAGAIN) /\ (status res <> SysError -> error res = 0)).
Proof.
  intros Hi Hw Hn Er. unfold recv_batch_ring. destruct (Z.eqb_spec n 0); [done|].
  rewrite Er. cbn [mbind option_bind]. destruct (Z.leb_spec (ret r) 0).
  - exists (classify o e r), ring.
    assert (count (classify o e r) = 0) as Ecnt by (unfold classify; by repeat case_match).
    rewrite Ecnt. cbn [Z.to_nat take]. rewrite app_nil_r.
    split_and!; try done; [lia|]. intros _. split; [done|]. split; [done|].
    unfold classify. change EWOULDBLOCK with EAGAIN. destruct (Z.ltb_spec (ret r) 0).
    + destruct (Z.eqb_spec (errno r) EAGAIN); cbn [orb status error]; split; try done;
        split; (done || by intros []).
    + destruct (_ && _); [|destruct (0 <? timeout_ms o)]; cbn [status error]; split; try done;
        split; (done || lia).
  - set (ps := received_packets buffers lens (ret r)).
    assert (length ps <= length buffers)%nat as Hlen.
    { unfold ps, received_packets. rewrite length_take, length_zip_with. lia. }
    destruct (push_batch_iterates ring ps Hi) as (k & ring' & E & _ & Hi' & Hc' & Hk); [lia|].
    rewrite E. cbn [mbind option_bind]. do 2 eexists. split; [reflexivity|].
    cbn [count status]. rewrite Nat2Z.id. split_and!; try done; [|lia]. intros _. split; [done|].
    by rewrite Hk.
Qed.

(** A receive into a ring stores the received packets in order until the ring
    is full, reports how many it stored, and silently drops the rest; a
    receive that transfers nothing leaves the ring alone and reports an error
    code exactly with [SysError]. *)
Theorem recv_batch_stores_prefix fuel o e buffers lens n ring r :
  ring_inv ring -> write_pos_ ring + Z.of_nat (length buffers) < 2 ^ 64 -> n <> 0 ->
  recvmmsg_with_policy fuel o e = Some r ->
  exists res ring', recv_batch_ring fuel o e buffers lens n ring = Some (res, ring') /\
    ring_inv ring' /\
    contents ring' = contents ring ++
      take (Z.to_nat (count res)) (received_packets buffers lens (ret r)) /\
    (0 < ret r -> status res = Ok /\
       count res = Z.of_nat (Nat.min (length (received_packets buffers lens (ret r)))
         (Z.to_nat (capacity ring) - length (contents ring)))) /\
    (ret r <= 0 -> res = classify o e r /\ ring' = ring /\
       (status res = SysError <->
          ret r < 0 /\ errno r <> EAGAIN) /\ (status res <> SysError -> error res = 0)).
Proof. apply recv_batch_ring_run. Qed.

(** Packets handed to a ring by [recv_batch] alias the receiver's buffers: two
    successive receives put packets with the same data pointer into the ring,
    so the second receive overwrites the bytes of the first batch's packets
    that have not been consumed yet. *)
Theorem recv_batch_reuses_buffers fuel1 fuel2 o e1 e2 buf buffers l1 lens1 l2 lens2 n ring r1 r2 :
  ring_inv ring -> write_pos_ ring + 2 * Z.of_nat (S (length buffers)) < 2 ^ 64 -> n <> 0 ->
  recvmmsg_with_policy fuel1 o e1 = Some r1 -> 0 < ret r1 ->
  recvmmsg_with_policy fuel2 o e2 = Some r2 -> 0 < ret r2 ->
  Z.of_nat (length (contents ring)) + Z.of_nat (S (length buffers)) < capacity ring ->
  exists res1 ring1 res2 ring2 older newer rest,
    recv_batch_ring fuel1 o e1 (buf :: buffers) (l1 :: lens1) n ring = Some (res1, ring1) /\
    recv_batch_ring fuel2 o e2 (buf :: buffers) (l2 :: lens2) n ring1 = Some (res2, ring2) /\
    contents ring2 = contents ring ++ (Packet_new buf l1 0 :: older) ++
                     (Packet_new buf l2 0 :: newer) /\
    contents ring1 = contents ring ++ (Packet_new buf l1 0 :: rest) /\ rest = older.
Proof.
  intros Hi Hw Hn E1 H1 E2 H2 Hroom.
  assert (forall fuel e l lens r ring, ring_inv ring ->
    write_pos_ ring + Z.of_nat (S (length buffers)) < 2 ^ 64 ->
    recvmmsg_with_policy fuel o e = Some r -> 0 < ret r ->
    Z.of_nat (length (contents ring)) < capacity ring ->
    exists res ring' more, recv_batch_ring fuel o e (buf :: buffers) (l :: lens) n ring =
        Some (res, ring') /\ ring_inv ring' /\
      contents ring' = contents ring ++ Packet_new buf l 0 :: more /\
      (length more <= length buffers)%nat /\ capacity ring' = capacity ring /\
      write_pos_ ring' <= write_pos_ ring + Z.of_nat (S (length buffers))) as Hone.
  { clear -Hn. intros fuel e l lens r ring Hi Hw E Hr Hroom. unfold recv_batch_ring.
    destruct (Z.eqb_spec n 0); [done|]. rewrite E. cbn [mbind option_bind].
    destruct (Z.leb_spec (ret r) 0); [lia|].
    set (ps := received_packets (buf :: buffers) (l :: lens) (ret r)).
    assert (exists more, ps = Packet_new buf l 0 :: more /\ (length more <= length buffers)%nat)
      as (more & Eps & Hm).
    { unfold ps, received_packets. replace (Z.to_nat (ret r)) with (S (Z.to_nat (ret r - 1))) by lia.
      cbn [zip_with take]. eexists. split; [reflexivity|].
      rewrite length_take, length_zip_with. lia. }
    rewrite Eps. assert (length (Packet_new buf l 0 :: more) <= S (length buffers))%nat as Hl
      by (cbn [length]; lia).
    destruct (push_batch_iterates ring (Packet_new buf l 0 :: more) Hi)
      as (k & ring' & Ep & _ & Hi' & Hc' & Hk); [lia|].
    pose proof (push_all_run (Packet_new buf l 0 :: more) ring Hi ltac:(lia)) as Ep2. cbv zeta in Ep2.
    rewrite Ep in Ep2 |- *. injection Ep2 as Ek Er. cbn [mbind option_bind].
    destruct (pushed_many_fields (take k (Packet_new buf l 0 :: more)) ring) as (Fc & _ & Fw & _).
    rewrite <- Ek in Er. rewrite <- Er in Fc, Fw.
    rewrite length_take in Fw.
    destruct k as [|k]; [cbn [length] in Hk; lia|]. cbn [take] in Hc'.
    do 3 eexists. split; [reflexivity|]. split; [done|]. split; [exact Hc'|].
    rewrite length_take. split; [lia|]. split; [exact Fc|lia]. }
  destruct (Hone fuel1 e1 l1 lens1 r1 ring Hi) as (res1 & ring1 & more1 & R1 & I1 & C1 & L1 & K1 & W1);
    [lia|done|done|lia|].
  destruct (Hone fuel2 e2 l2 lens2 r2 ring1 I1) as (res2 & ring2 & more2 & R2 & I2 & C2 & L2 & K2 & W2);
    [lia|done|done| |].
  { rewrite K1, C1, length_app. cbn [length]. lia. }
  exists res1, ring1, res2, ring2, more1, more2, more1.
  split; [done|]. split; [done|]. split; [|done]. by rewrite C2, C1, <- app_assoc.
Qed.

(** The headers of a batch, however the object was used before: a receive of [n]
    messages passes [n] distinct buffers of the largest datagram size, those of
    earlier receives first, and a send passes exactly the bytes of its packets, in
    order. *)
Theorem batch_headers_exact n fresh r ps s :
  length r.(recv_msghdrs) = length r.(temp_buffers_) -> NoDup r.(temp_buffers_) ->
  (forall i j, fresh i = fresh j -> i = j) -> (forall i, fresh i ∉ r.(temp_buffers_)) ->
  let r' := prepare_recv n fresh r in
  length r'.(recv_msghdrs) = length r'.(temp_buffers_) /\ NoDup r'.(temp_buffers_) /\
  r.(temp_buffers_) `prefix_of` r'.(temp_buffers_) /\
  take n r'.(recv_msghdrs) = map (fun b => header_for (mkIovec b kMaxDatagram)) (take n r'.(temp_buffers_)) /\
  length (take n r'.(recv_msghdrs)) = n /\
  take (length ps) (prepare_send ps s).(send_msghdrs) = map (fun p => header_for (mkIovec p.(data) p.(len))) ps.
Proof.
  intros Hl Hn Hinj Hf. unfold prepare_recv. cbn [recv_msghdrs temp_buffers_].
  set (old := temp_buffers_ r) in *. set (new := map fresh (seq (length old) (n - length old))).
  assert (n <= length (old ++ new))%nat as Hlen by (unfold new; rewrite length_app, length_map, length_seq; lia).
  assert (length (map (fun b => header_for (mkIovec b kMaxDatagram)) (take n (old ++ new))) = n) as Hh.
  { rewrite length_map, length_take. lia. }
  split_and!.
  - rewrite length_app, Hh, length_drop, Hl, length_app. unfold new. rewrite length_map, length_seq. lia.
  - apply NoDup_app. split; [done|]. split.
    + intros x Hx (i & -> & _)%list_elem_of_fmap. by apply (Hf i).
    + unfold new. apply (NoDup_fmap_2_strong fresh); [|apply NoDup_seq]. intros x y _ _. apply Hinj.
  - by eexists.
  - by rewrite take_app_le, take_ge by lia.
  - rewrite length_take, length_app. lia.
  - unfold prepare_send. cbn [send_msghdrs]. rewrite <- (length_map (fun p => header_for (mkIovec p.(data) p.(len))) ps).
    apply take_app_length.
Qed.

(** ** Witnesses *)
Definition demo_kernel : kernel :=
  mkKernel false (fun k => if (k <? 3)%nat then -11 else 2) (fun _ => false) (fun _ => 0) false.

Lemma bounded_wait_returns_witness :
  exists r, recvmmsg_with_policy 11 (mkOptions 10 true 4) demo_kernel = Some r /\
    sendmmsg_with_policy 11 (mkOptions 10 true 4) demo_kernel = Some r /\
    0 <= waited r <= 10 /\ Z.of_nat (calls r) <= 10 + 1 /\
    (ret r = 0 -> sys demo_kernel (calls r - 1) = 0 \/ waited r = 10 \/
       true && cancelled demo_kernel (calls r - 1) = true).
Proof. apply (bounded_wait_returns (mkOptions 10 true 4) demo_kernel); reflexivity. Defined.

Lemma indefinite_wait_ends_with_event_witness :
  exists r, recvmmsg_with_policy 4 (mkOptions (-1) true 1) demo_kernel = Some r /\ calls r = 4%nat.
Proof.
  apply (indefinite_wait_ends_with_event (mkOptions (-1) true 1) demo_kernel).
  - reflexivity.
  - reflexivity.
  - intros k Hk. split; [|split; [reflexivity|left; discriminate]].
    cbn [sys demo_kernel]. destruct (Nat.ltb_spec k 3); [reflexivity|lia].
  - intros (H & _). discriminate H.
Defined.

Definition demo_now : kernel := mkKernel false (fun _ => 2) (fun _ => false) (fun _ => 0) false.

Lemma recv_batch_stores_prefix_witness :
  exists res ring', recv_batch_ring 1 BatchIOOptions_default demo_now [4096; 8192] [60; 70] 2
      (PacketRing_new 1) = Some (res, ring') /\ ring_inv ring' /\
    contents ring' = contents (PacketRing_new 1) ++
      take (Z.to_nat (count res)) [Packet_new 4096 60 0; Packet_new 8192 70 0] /\
    status res = Ok /\ count res = 1.
Proof.
  destruct (recv_batch_stores_prefix 1 BatchIOOptions_default demo_now [4096; 8192] [60; 70] 2
    (PacketRing_new 1) (mkOutcome 2 0 1 0)) as (res & ring' & H1 & H2 & H3 & H4 & _).
  - apply ring_new_inv; lia.
  - reflexivity.
  - discriminate.
  - reflexivity.
  - exists res, ring'. split; [exact H1|]. split; [exact H2|]. split; [exact H3|].
    apply H4. reflexivity.
Defined.

Lemma recv_batch_reuses_buffers_witness :
  exists res1 ring1 res2 ring2 older newer rest,
    recv_batch_ring 1 BatchIOOptions_default demo_now [4096] [60] 1 (PacketRing_new 4) =
      Some (res1, ring1) /\
    recv_batch_ring 1 BatchIOOptions_default demo_now [4096] [70] 1 ring1 = Some (res2, ring2) /\
    contents ring2 = contents (PacketRing_new 4) ++ (Packet_new 4096 60 0 :: older) ++
                     (Packet_new 4096 70 0 :: newer) /\
    contents ring1 = contents (PacketRing_new 4) ++ (Packet_new 4096 60 0 :: rest) /\ rest = older.
Proof.
  apply (recv_batch_reuses_buffers 1 1 BatchIOOptions_default demo_now demo_now 4096 [] 60 [] 70 [] 1
    (PacketRing_new 4) (mkOutcome 2 0 1 0) (mkOutcome 2 0 1 0)); try reflexivity.
  - apply ring_new_inv; lia.
  - discriminate.
Defined.

Lemma batch_headers_exact_witness :
  let r := prepare_recv 1 (fun i => 4096 * Z.of_nat (S i)) (BatchRecv_new 5) in
  r.(temp_buffers_) = [4096] /\
  let r' := prepare_recv 3 (fun i => 4096 * Z.of_nat (S i) + 1) r in
  length r'.(recv_msghdrs) = 3%nat /\ NoDup r'.(temp_buffers_) /\ r'.(temp_buffers_) = [4096; 8193; 12289].
Proof.
  split; [reflexivity|].
  destruct (batch_headers_exact 3 (fun i => 4096 * Z.of_nat (S i) + 1)
    (prepare_recv 1 (fun i => 4096 * Z.of_nat (S i)) (BatchRecv_new 5)) [] (BatchSend_new 5)) as (H1 & H2 & _).
  - reflexivity.
  - apply (bool_decide_unpack _). vm_compute. exact I.
  - intros i j H. lia.
  - intros i H. apply list_elem_of_singleton in H. lia.
  - split; [exact H1|]. split; [exact H2|]. reflexivity.
Defined.
