(* ===== verification/Epoll.v ===== *)
(** * Epoll: event waiting with timeout, cancellation and signals
    (io/epoll_wrapper.hpp)

    The kernel answers the k-th [epoll_wait] with a number of events or minus an
    errno; [cancelled k] is the load of the cancel flag after it. *)
From S2P Require Import Prelude.

(** The event bits of <sys/epoll.h>, and the wrapper's names for them. *)
Definition EPOLLIN : Z := 1.
Definition EPOLLOUT : Z := 4.
Definition EPOLLERR : Z := 8.
Definition EPOLLHUP : Z := 16.
Definition EPOLLONESHOT : Z := Z.shiftl 1 30.
Definition EPOLLET : Z := Z.shiftl 1 31.

Inductive EpollEventType : Set := READ | WRITE | ERROR | HANGUP | EDGE_TRIGGER | ONESHOT.

Definition event_bits (t : EpollEventType) : Z :=
  match t with
  | READ => EPOLLIN
  | WRITE => EPOLLOUT
  | ERROR => EPOLLERR
  | HANGUP => EPOLLHUP
  | EDGE_TRIGGER => EPOLLET
  | ONESHOT => EPOLLONESHOT
  end.

Inductive EpollWaitStatus : Set := Ok | Timeout | Cancelled | SysError.

#[export] Instance EpollWaitStatus_eq_dec : EqDecision EpollWaitStatus.
Proof. solve_decision. Defined.

Record EpollWaitOptions := mkOptions { timeout_ms : Z; has_flag : bool; poll_interval_ms : Z }.
Record EpollWaitResult := mkResult { count : Z; error : Z; status : EpollWaitStatus }.

Definition success (r : EpollWaitResult) : bool := negb (bool_decide (r.(status) = SysError)).

Definition EINTR : Z := 4.

Record kernel := mkKernel {
  cancelled_before : bool;
  epoll_wait : nat -> Z;
  cancelled : nat -> bool;
}.

(** [epoll_data] is a union: [add] and [modify] store the pointer and then the
    descriptor over its low 32 bits. *)
Definition event_data (user_data fd : Z) : Z := 2 ^ 32 * (user_data / 2 ^ 32) + u32 fd.
Definition data_fd (d : Z) : Z := u32 d.

(** The interest list: registered descriptors with their events and data. *)
Abbreviation interest := (gmap Z (Z * Z)).

Definition add (fd events user_data : Z) (s : interest) : bool * interest :=
  match s !! fd with
  | Some _ => (false, s)
  | None => (true, <[fd := (events, event_data user_data fd)]> s)
  end.
Definition modify (fd events user_data : Z) (s : interest) : bool * interest :=
  match s !! fd with
  | Some _ => (true, <[fd := (events, event_data user_data fd)]> s)
  | None => (false, s)
  end.
Definition remove (fd : Z) (s : interest) : bool * interest :=
  match s !! fd with
  | Some _ => (true, delete fd s)
  | None => (false, s)
  end.

(** The waiting loop: the result, the number of [epoll_wait] calls and the
    milliseconds they were asked to wait. *)
Fixpoint wait_loop (fuel : nat) (o : EpollWaitOptions) (e : kernel) (k : nat)
    (remaining_ms total : Z) : option (EpollWaitResult * nat * Z) :=
  match fuel with
  | O => None
  | S fuel =>
      let interval := if 0 <? o.(poll_interval_ms) then o.(poll_interval_ms) else 1 in
      if (0 <? o.(timeout_ms)) && (remaining_ms <=? 0) then
        Some (mkResult 0 0 Timeout, k, total)
      else
        let wait_ms :=
          if o.(timeout_ms) <? 0 then interval
          else if 0 <? o.(timeout_ms) then Z.min interval remaining_ms
          else o.(timeout_ms) in
        let remaining_ms := if 0 <? o.(timeout_ms) then remaining_ms - wait_ms else remaining_ms in
        let total := total + wait_ms in
        let num_events := e.(epoll_wait) k in
        if 0 <? num_events then Some (mkResult num_events 0 Ok, S k, total) else
        if num_events =? 0 then
          if o.(has_flag) && e.(cancelled) k then Some (mkResult 0 0 Cancelled, S k, total)
          else if o.(timeout_ms) =? 0 then Some (mkResult 0 0 Timeout, S k, total)
          else if (0 <? o.(timeout_ms)) && (remaining_ms <=? 0) then
            Some (mkResult 0 0 Timeout, S k, total)
          else wait_loop fuel o e (S k) remaining_ms total
        else if - num_events =? EINTR then
          if o.(has_flag) && e.(cancelled) k then Some (mkResult 0 0 Cancelled, S k, total)
          else wait_loop fuel o e (S k) remaining_ms total
        else Some (mkResult (-1) (- num_events) SysError, S k, total)
  end.

Definition wait_with_options (fuel : nat) (o : EpollWaitOptions) (e : kernel)
    : option (EpollWaitResult * nat * Z) :=
  if o.(has_flag) && e.(cancelled_before) then Some (mkResult 0 0 Cancelled, 0%nat, 0)
  else wait_loop fuel o e 0 o.(timeout_ms) 0.

(** [wait]: the count, or -1 with errno. *)
Definition wait (fuel : nat) (timeout : Z) (e : kernel) : option (Z * Z) :=
  '(r, _, _) ← wait_with_options fuel (mkOptions timeout false 5) e;
  Some (if bool_decide (r.(status) = SysError) then (-1, r.(error)) else (r.(count), 0)).

Definition wait_nonblock (fuel : nat) (e : kernel) : option (Z * Z) := wait fuel 0 e.

(** [event_loop]: the callbacks made over a sequence of [wait] outcomes (return
    value, errno, events), up to the first error. *)
Fixpoint event_loop (waits : list (Z * Z * list (Z * Z))) : list (Z * Z) :=
  match waits with
  | [] => []
  | (num_events, err, events) :: waits =>
      if num_events <? 0 then if err =? EINTR then event_loop waits else []
      else map (fun ev => (data_fd ev.1, ev.2)) events ++ event_loop waits
  end.

(** ** Bounded waiting *)

(** A branch of the loop that returns a given result. *)
Ltac leaf :=
  do 3 eexists; split; [reflexivity|]; cbn [status count];
  split_and!; try (done || lia); split; intros; (done || lia).

Lemma wait_loop_bounded fuel o e k remaining total :
  0 < timeout_ms o -> 0 <= remaining -> remaining < Z.of_nat fuel ->
  exists r n w, wait_loop fuel o e k remaining total = Some (r, n, w) /\
    total <= w <= total + remaining /\ Z.of_nat n <= Z.of_nat k + remaining /\
    (status r = Timeout -> w = total + remaining) /\
    (status r = Ok <-> 0 < count r) /\ (status r = SysError <-> count r < 0) /\
    (status r = Cancelled -> has_flag o = true).
Proof.
  intros Ht. revert k remaining total. induction fuel as [|fuel IH]; intros k rem total Hr Hf; [lia|].
  cbn [wait_loop]. destruct (Z.ltb_spec 0 (timeout_ms o)); [|lia].
  destruct (Z.ltb_spec (timeout_ms o) 0); [lia|]. destruct (Z.eqb_spec (timeout_ms o) 0); [lia|].
  cbn [andb]. destruct (Z.leb_spec rem 0).
  { leaf. }
  set (w := Z.min _ rem). assert (1 <= w <= rem) as Hw.
  { unfold w. destruct (Z.ltb_spec 0 (poll_interval_ms o)); lia. }
  assert (exists r n w', wait_loop fuel o e (S k) (rem - w) (total + w) = Some (r, n, w') /\
    total <= w' <= total + rem /\ Z.of_nat n <= Z.of_nat k + rem /\
    (status r = Timeout -> w' = total + rem) /\
    (status r = Ok <-> 0 < count r) /\ (status r = SysError <-> count r < 0) /\
    (status r = Cancelled -> has_flag o = true)) as Hrec.
  { destruct (IH (S k) (rem - w) (total + w)) as (r & n' & w' & E & HA & HB & HC & HD); [lia|lia|].
    exists r, n', w'. split; [done|]. split; [lia|]. split; [lia|]. split; [|done].
    intros Hs. specialize (HC Hs). lia. }
  destruct (Z.ltb_spec 0 (epoll_wait e k)).
  { leaf. }
  destruct (Z.eqb_spec (epoll_wait e k) 0).
  - destruct (has_flag o && cancelled e k) eqn:Ec.
    { apply andb_true_iff in Ec as [Ec _].
      leaf. }
    destruct (Z.leb_spec (rem - w) 0).
    { leaf. }
    exact Hrec.
  - destruct (- epoll_wait e k =? EINTR).
    + destruct (has_flag o && cancelled e k) eqn:Ec; [|exact Hrec].
      apply andb_true_iff in Ec as [Ec _].
      leaf.
    + leaf.
Qed.

Lemma bounded_wait o e :
  0 < timeout_ms o ->
  exists r n w, wait_with_options (S (Z.to_nat (timeout_ms o))) o e = Some (r, n, w) /\
    0 <= w <= timeout_ms o /\ Z.of_nat n <= timeout_ms o /\
    (status r = Timeout -> w = timeout_ms o) /\
    (status r = Ok <-> 0 < count r) /\ (status r = SysError <-> count r < 0) /\
    (status r = Cancelled -> has_flag o = true).
Proof.
  intros Ht. unfold wait_with_options. destruct (has_flag o && cancelled_before e) eqn:Ec.
  { apply andb_true_iff in Ec as [Ec _].
    leaf. }
  destruct (wait_loop_bounded (S (Z.to_nat (timeout_ms o))) o e 0 (timeout_ms o) 0)
    as (r & n & w & E & HA & HB & HC & HD); [done|lia|lia|].
  exists r, n, w. split; [done|]. split; [lia|]. split; [lia|]. split; [|exact HD].
  intros Hs. rewrite (HC Hs). lia.
Qed.

(** A bounded [epoll] wait always returns, after at most [timeout] calls and
    [timeout] milliseconds, signals included; it reports [Timeout] only after
    the whole budget, [Ok] exactly with a positive count, [SysError] exactly
    with a negative one and [Cancelled] only with a cancel flag. *)
Theorem epoll_bounded_wait o e :
  0 < timeout_ms o ->
  exists r n w, wait_with_options (S (Z.to_nat (timeout_ms o))) o e = Some (r, n, w) /\
    0 <= w <= timeout_ms o /\ Z.of_nat n <= timeout_ms o /\
    (status r = Timeout -> w = timeout_ms o) /\
    (status r = Ok <-> 0 < count r) /\ (status r = SysError <-> count r < 0) /\
    (status r = Cancelled -> has_flag o = true).
Proof. apply bounded_wait. Qed.

Lemma wait_loop_cancelled n fuel o e k remaining total :
  has_flag o = true -> cancelled e (k + n) = true ->
  exists r c w, wait_loop (S n + fuel) o e k remaining total = Some (r, c, w) /\ (c <= S (k + n))%nat.
Proof.
  intros Hf. revert k remaining total. induction n as [|n IH]; intros k rem total Hc.
  - change (1 + fuel)%nat with (S fuel). cbn [wait_loop]. rewrite Hf.
    rewrite Nat.add_0_r in Hc. rewrite Hc. cbn [andb].
    repeat case_match; do 3 eexists; (split; [reflexivity|lia]).
  - specialize (fun rem t => IH (S k) rem t ltac:(by replace (S k + n)%nat with (k + S n)%nat by lia)).
    change (S (S n) + fuel)%nat with (S (S n + fuel)). set (fl := (S n + fuel)%nat) in *.
    cbn [wait_loop]. rewrite Hf. replace (S (k + S n)) with (S (S k + n)) by lia. cbn [andb].
    repeat case_match; try (do 3 eexists; split; [reflexivity|lia]); apply IH.
Qed.

(** Cancellation is prompt: if the cancel flag is seen set after the [n]-th
    call, the wait (bounded or indefinite, interrupted or not) has returned by
    then. *)
Theorem epoll_cancellation_prompt o e n :
  has_flag o = true -> cancelled e n = true ->
  exists r c w, wait_with_options (S n) o e = Some (r, c, w) /\ (c <= S n)%nat.
Proof.
  intros Hf Hc. unfold wait_with_options. destruct (has_flag o && cancelled_before e).
  { do 3 eexists. split; [reflexivity|lia]. }
  destruct (wait_loop_cancelled n 0 o e 0 (timeout_ms o) 0 Hf Hc) as (r & c & w & E & Hle).
  rewrite Nat.add_0_r in E. eauto.
Qed.

(** Registered events carry the descriptor: whatever [user_data] the caller
    passes to [add] or [modify], the callback of [event_loop] gets the
    registered descriptor; the caller's pointer is lost unless its low half
    happens to be the descriptor. *)
Theorem epoll_user_data_lost fd events user_data s :
  in_width 31 fd -> in_width 64 user_data -> s !! fd = None ->
  exists d, snd (add fd events user_data s) !! fd = Some (events, d) /\
    event_loop [(1, 0, [(d, events)])] = [(fd, events)] /\
    (d = user_data <-> u32 user_data = fd).
Proof.
  intros Hfd Hu Hs. unfold add. rewrite Hs. cbn [snd]. exists (event_data user_data fd).
  assert (u32 fd = fd) as Ew by (apply wrap_small; unfold in_width in *; lia).
  split; [apply lookup_insert_eq|]. split.
  - cbn [event_loop map app fst snd Z.ltb Z.compare]. unfold data_fd, event_data. rewrite Ew.
    unfold wrap. rewrite Z.mul_comm, Z.add_comm, Z.mod_add by lia.
    rewrite Z.mod_small by (unfold in_width in Hfd; lia). done.
  - unfold event_data. rewrite Ew. unfold wrap.
    pose proof (Z.div_mod user_data (2 ^ 32) ltac:(lia)). lia.
Qed.

(** ** Witnesses *)
Definition demo_kernel : kernel :=
  mkKernel false (fun k => if (k =? 0)%nat then -4 else 0) (fun k => (3 <=? k)%nat).

Lemma epoll_bounded_wait_witness :
  exists r n w, wait_with_options 13 (mkOptions 12 false 5) demo_kernel = Some (r, n, w) /\
    0 <= w <= 12 /\ Z.of_nat n <= 12 /\ (status r = Timeout -> w = 12) /\
    (status r = Ok <-> 0 < count r) /\ (status r = SysError <-> count r < 0) /\
    (status r = Cancelled -> false = true).
Proof. apply (epoll_bounded_wait (mkOptions 12 false 5) demo_kernel). reflexivity. Defined.

Lemma epoll_cancellation_prompt_witness :
  exists r c w, wait_with_options 4 (mkOptions (-1) true 5) demo_kernel = Some (r, c, w) /\ (c <= 4)%nat.
Proof. apply (epoll_cancellation_prompt (mkOptions (-1) true 5) demo_kernel 3); reflexivity. Defined.

Lemma epoll_user_data_lost_witness :
  exists d, snd (add 7 1 140737488355328 ∅) !! 7 = Some (1, d) /\
    event_loop [(1, 0, [(d, 1)])] = [(7, 1)] /\ (d = 140737488355328 <-> u32 140737488355328 = 7).
Proof.
  apply (epoll_user_data_lost 7 1 140737488355328 ∅); try (split; [discriminate|reflexivity]).
  reflexivity.
Defined.
