(* ===== verification/IoUring.v ===== *)
(** * IoUring: completion harvesting (io/io_uring_wrapper.hpp)

    liburing is a parameter: a completion ring, with peek, the two waits, and
    [io_uring_cqe_seen].  The theorems use its documented behaviour: peeking
    returns the head of the completion queue and does not consume it, and
    [io_uring_cqe_seen] advances the head by one entry. *)
From S2P Require Import Prelude Memory.

Inductive IoUringWaitStatus : Set := Ok | Timeout | Cancelled | NotInitialized | SysError.

#[export] Instance IoUringWaitStatus_eq_dec : EqDecision IoUringWaitStatus.
Proof. solve_decision. Defined.

Record IoUringWaitOptions := mkOptions { timeout_ms : Z; has_flag : bool; poll_interval_ms : Z }.
Record IoUringWaitResult := mkResult { count : Z; error : Z; status : IoUringWaitStatus }.

Definition success (r : IoUringWaitResult) : bool :=
  negb (bool_decide (r.(status) = SysError)) && negb (bool_decide (r.(status) = NotInitialized)).

Definition EINTR : Z := 4.
Definition EAGAIN : Z := 11.
Definition ETIME : Z := 62.

Section Uring.
Context {R : Type}.
(** liburing: the answer of each call is a return value, the entry it points
    out, and the ring afterwards ([None]: wait without a timeout). *)
Variable io_uring_peek_cqe : R -> Z * ptr.
Variable io_uring_wait : option Z -> R -> Z * ptr * R.
Variable io_uring_cqe_seen : ptr -> R -> R.
Variable io_uring_get_sqe : R -> option (ptr * R).
Variable io_uring_submit : R -> Z * R.

(** [cancelled k]: the load of the cancel flag in the k-th round of the loop. *)
Record flags := mkFlags { cancelled_before : bool; cancelled : nat -> bool; cancelled_after : bool }.

(** [submit_recv] and [submit_send] differ only in the operation prepared. *)
Definition submit (initialized : bool) (ring : R) : bool * R :=
  if negb initialized then (false, ring) else
  match io_uring_get_sqe ring with
  | None => (false, ring)
  | Some (_, ring) => let '(ret, ring) := io_uring_submit ring in (0 <=? ret, ring)
  end.

Definition mark_seen (cqes : list ptr) (ring : R) : R :=
  foldl (fun ring c => io_uring_cqe_seen c ring) ring cqes.

(** The code after the loop. *)
Definition finish (o : IoUringWaitOptions) (f : flags) (cqes : list ptr) (ring : R)
    : IoUringWaitResult * list ptr * R :=
  let n := Z.of_nat (length cqes) in
  let ring := mark_seen cqes ring in
  if o.(has_flag) && f.(cancelled_after) && (n =? 0) then (mkResult 0 0 Cancelled, cqes, ring)
  else if (n =? 0) && (0 <=? o.(timeout_ms)) then (mkResult 0 0 Timeout, cqes, ring)
  else (mkResult n 0 Ok, cqes, ring).

Fixpoint harvest_loop (fuel : nat) (o : IoUringWaitOptions) (f : flags) (k : nat)
    (min_completions max_completions : Z) (cqes : list ptr) (remaining_ms : Z) (ring : R)
    : option (IoUringWaitResult * list ptr * R) :=
  match fuel with
  | O => None
  | S fuel =>
      let n := Z.of_nat (length cqes) in
      if negb (n <? max_completions) then Some (finish o f cqes ring) else
      let step_ms := Z.min (if 0 <? o.(poll_interval_ms) then o.(poll_interval_ms) else 1)
                           remaining_ms in
      if (n <? min_completions) && (0 <? o.(timeout_ms)) && (remaining_ms <=? 0) then
        Some (mkResult n 0 Timeout, cqes, ring)
      else
        let '(ret, cqe, ring, remaining_ms) :=
          if n <? min_completions then
            if o.(timeout_ms) =? 0 then (io_uring_peek_cqe ring, ring, remaining_ms)
            else if 0 <? o.(timeout_ms) then
              (io_uring_wait (Some step_ms) ring, remaining_ms - step_ms)
            else (io_uring_wait None ring, remaining_ms)
          else (io_uring_peek_cqe ring, ring, remaining_ms) in
        if ret <? 0 then
          if - ret =? EINTR then
            if o.(has_flag) && f.(cancelled) k then Some (mkResult n 0 Cancelled, cqes, ring)
            else harvest_loop fuel o f (S k) min_completions max_completions cqes remaining_ms ring
          else if (- ret =? ETIME) || (- ret =? EAGAIN) then
            if o.(has_flag) && f.(cancelled) k then Some (mkResult n 0 Cancelled, cqes, ring)
            else if n =? 0 then
              Some (mkResult 0 0 (if 0 <=? o.(timeout_ms) then Timeout else Ok), cqes, ring)
            else Some (finish o f cqes ring)
          else Some (mkResult n (- ret) SysError, cqes, ring)
        else
          let cqes := cqes ++ [cqe] in
          if o.(has_flag) && f.(cancelled) k then Some (finish o f cqes ring)
          else harvest_loop fuel o f (S k) min_completions max_completions cqes remaining_ms ring
  end.

Definition wait_completions_with_options (fuel : nat) (initialized : bool)
    (min_completions max_completions : Z) (o : IoUringWaitOptions) (f : flags) (ring : R)
    : option (IoUringWaitResult * list ptr * R) :=
  if negb initialized then Some (mkResult 0 0 NotInitialized, [], ring) else
  if o.(has_flag) && f.(cancelled_before) then Some (mkResult 0 0 Cancelled, [], ring) else
  harvest_loop fuel o f 0 min_completions max_completions [] o.(timeout_ms) ring.

(** The loop of [peek_completions]: at most [n] further entries. *)
Fixpoint peek_loop (n : nat) (ring : R) (cqes : list ptr) : list ptr :=
  match n with
  | O => cqes
  | S n =>
      let '(ret, cqe) := io_uring_peek_cqe ring in
      if ret <? 0 then cqes else peek_loop n ring (cqes ++ [cqe])
  end.

Definition peek_completions (initialized : bool) (max_completions : Z) (ring : R)
    : Z * list ptr * R :=
  if negb initialized then (0, [], ring) else
  let cqes := peek_loop (Z.to_nat max_completions) ring [] in
  (Z.of_nat (length cqes), cqes, mark_seen cqes ring).

(** ** The documented behaviour of liburing *)
Variable pending : R -> list ptr.
Hypothesis peek_head : forall ring,
  io_uring_peek_cqe ring = match pending ring with [] => (- EAGAIN, 0) | c :: _ => (0, c) end.
Hypothesis seen_advances : forall c ring, pending (io_uring_cqe_seen c ring) = tail (pending ring).

Lemma mark_seen_pending cqes ring :
  pending (mark_seen cqes ring) = drop (length cqes) (pending ring).
Proof using seen_advances.
  unfold mark_seen. revert ring. induction cqes as [|c cqes IH]; intros ring; cbn [foldl length].
  { by rewrite drop_0. }
  rewrite IH, seen_advances. destruct (pending ring); [apply drop_nil|done].
Qed.

Lemma peek_loop_repeats n ring c rest cqes :
  pending ring = c :: rest -> peek_loop n ring cqes = cqes ++ replicate n c.
Proof using peek_head.
  intros Hp. revert cqes. induction n as [|n IH]; intros cqes; cbn [peek_loop replicate].
  { by rewrite app_nil_r. }
  rewrite peek_head, Hp. cbn [Z.ltb Z.compare]. by rewrite IH, <- app_assoc.
Qed.

(** With completions pending, [peek_completions] reports the oldest one over
    and over, as many times as the caller allows, and then marks that many
    entries as seen: the other pending completions are consumed without ever
    being reported. *)
Theorem peek_completions_repeats_head max ring c rest :
  0 <= max -> pending ring = c :: rest ->
  exists ring', peek_completions true max ring = (max, replicate (Z.to_nat max) c, ring') /\
    pending ring' = drop (Z.to_nat max) (c :: rest).
Proof using peek_head seen_advances.
  intros Hm Hp. unfold peek_completions. cbn [negb].
  rewrite (peek_loop_repeats _ _ _ _ [] Hp). cbn [app]. rewrite length_replicate, Z2Nat.id by done.
  eexists. split; [reflexivity|]. by rewrite mark_seen_pending, length_replicate, Hp.
Qed.

Lemma harvest_peeks fuel o f k mn mx cqes rem ring c rest :
  timeout_ms o = 0 -> has_flag o = false -> pending ring = c :: rest ->
  Z.of_nat (length cqes) <= mx -> mx - Z.of_nat (length cqes) < Z.of_nat fuel -> 0 < mx ->
  harvest_loop fuel o f k mn mx cqes rem ring =
    Some (mkResult mx 0 Ok, cqes ++ replicate (Z.to_nat (mx - Z.of_nat (length cqes))) c,
          mark_seen (cqes ++ replicate (Z.to_nat (mx - Z.of_nat (length cqes))) c) ring).
Proof using peek_head.
  intros Ht Hfl Hp. revert k cqes. induction fuel as [|fuel IH]; intros k cqes Hl Hf Hmx; [lia|].
  cbn [harvest_loop]. rewrite Ht, Hfl. cbn [Z.ltb Z.compare Z.eqb andb].
  destruct (Z.ltb_spec (Z.of_nat (length cqes)) mx); cbn [negb].
  - rewrite andb_false_r. cbn [andb]. rewrite peek_head, Hp.
    replace (if Z.of_nat (length cqes) <? mn then (0, c, ring, rem) else (0, c, ring, rem))
      with (0, c, ring, rem) by (by destruct (_ <? _)).
    cbn [Z.ltb Z.compare]. rewrite IH by (rewrite ?length_app; cbn [length]; lia).
    rewrite length_app. cbn [length].
    replace (Z.to_nat (mx - Z.of_nat (length cqes)))
      with (S (Z.to_nat (mx - Z.of_nat (length cqes + 1)))) by lia.
    cbn [replicate]. by rewrite <- app_assoc.
  - replace (mx - Z.of_nat (length cqes)) with 0 by lia. cbn [Z.to_nat replicate].
    rewrite app_nil_r. unfold finish. rewrite Hfl. cbn [andb].
    destruct (Z.eqb_spec (Z.of_nat (length cqes)) 0); [lia|]. cbn [andb].
    by replace (Z.of_nat (length cqes)) with mx by lia.
Qed.

(** The same holds for a non-blocking [wait_completions]: with any completion
    pending it fills the caller's vector with copies of the oldest one and
    consumes as many entries as it reports; with none pending it reports a
    timeout and consumes nothing. *)
Theorem nonblocking_wait_repeats_head mn mx iv f ring :
  0 < mx ->
  match pending ring with
  | [] =>
      wait_completions_with_options (S (Z.to_nat mx)) true mn mx (mkOptions 0 false iv) f ring =
        Some (mkResult 0 0 Timeout, [], ring)
  | c :: rest =>
      exists ring', wait_completions_with_options (S (Z.to_nat mx)) true mn mx
          (mkOptions 0 false iv) f ring =
          Some (mkResult mx 0 Ok, replicate (Z.to_nat mx) c, ring') /\
        pending ring' = drop (Z.to_nat mx) (c :: rest)
  end.
Proof using peek_head seen_advances.
  intros Hmx. unfold wait_completions_with_options. cbn [negb has_flag andb].
  destruct (pending ring) as [|c rest] eqn:Hp.
  - cbn [harvest_loop length has_flag timeout_ms andb]. change (Z.of_nat 0) with 0.
    destruct (Z.ltb_spec 0 mx); [|lia]. cbn [negb Z.ltb Z.compare Z.eqb].
    rewrite andb_false_r. cbn [andb]. rewrite peek_head, Hp.
    by destruct (0 <? mn).
  - rewrite (harvest_peeks _ _ _ _ _ _ _ _ _ c rest) by (try done; cbn [length]; lia).
    cbn [length Z.of_nat app]. rewrite Z.sub_0_r. eexists. split; [reflexivity|].
    by rewrite mark_seen_pending, length_replicate, Hp.
Qed.

(** A bounded wait returns: with a positive timeout the loop ends, whatever the
    timed waits answer, within one round per requested completion plus one per
    millisecond of budget. *)
Theorem uring_bounded_wait mn mx o f ring :
  0 < timeout_ms o -> 0 <= mx ->
  is_Some (wait_completions_with_options (S (Z.to_nat (timeout_ms o + mx))) true mn mx o f ring).
Proof using peek_head.
  intros Ht Hmx. unfold wait_completions_with_options. cbn [negb].
  destruct (has_flag o && cancelled_before f); [by eexists|].
  assert (forall fuel k cqes rem ring, 0 <= rem ->
    rem + Z.max 0 (mx - Z.of_nat (length cqes)) < Z.of_nat fuel ->
    is_Some (harvest_loop fuel o f k mn mx cqes rem ring)) as H.
  { clear ring. induction fuel as [|fuel IH]; intros k cqes rem ring Hr Hf; [lia|].
    cbn [harvest_loop]. destruct (Z.ltb_spec (Z.of_nat (length cqes)) mx); cbn [negb]; [|by eexists].
    assert (forall c rem ring, 0 <= rem -> rem + Z.max 0 (mx - Z.of_nat (length cqes)) - 1 < Z.of_nat fuel ->
      is_Some (harvest_loop fuel o f (S k) mn mx (cqes ++ [c]) rem ring)) as Hadd.
    { intros c rem' ring' ??. apply IH; [done|]. rewrite length_app. cbn [length]. lia. }
    destruct (Z.ltb_spec (Z.of_nat (length cqes)) mn); cbn [andb].
    - destruct (Z.ltb_spec 0 (timeout_ms o)); [|lia]. destruct (Z.eqb_spec (timeout_ms o) 0); [lia|].
      cbn [andb]. destruct (Z.leb_spec rem 0); [by eexists|].
      set (w := Z.min _ rem). assert (1 <= w <= rem)
        by (unfold w; destruct (Z.ltb_spec 0 (poll_interval_ms o)); lia).
      destruct (io_uring_wait (Some w) ring) as [[ret cqe] ring'].
      repeat case_match; try (by eexists); (apply Hadd || apply IH); lia.
    - rewrite peek_head. destruct (pending ring) as [|c rest].
      + change (- EAGAIN <? 0) with true. change (- - EAGAIN =? EINTR) with false.
        change ((- - EAGAIN =? ETIME) || (- - EAGAIN =? EAGAIN)) with true.
        cbv iota. destruct (has_flag o && cancelled f k); [by eexists|].
        destruct (Z.of_nat (length cqes) =? 0); by eexists.
      + cbn [Z.ltb Z.compare]. destruct (_ && _); [by eexists|]. apply Hadd; lia. }
  apply H; cbn [length]; lia.
Qed.
End Uring.

(** ** Witnesses: the completion queue as a list *)
Definition list_peek (q : list ptr) : Z * ptr :=
  match q with [] => (- EAGAIN, 0) | c :: _ => (0, c) end.
Definition list_wait (t : option Z) (q : list ptr) : Z * ptr * list ptr :=
  match q with [] => (- ETIME, 0, q) | c :: _ => (0, c, q) end.
Definition list_seen (c : ptr) (q : list ptr) : list ptr := tail q.

Lemma peek_completions_repeats_head_witness :
  exists q, peek_completions list_peek list_seen true 2 [100; 200; 300] = (2, [100; 100], q) /\
    q = [300].
Proof.
  exact (peek_completions_repeats_head list_peek list_seen id
    ltac:(by intros []) ltac:(done) 2 [100; 200; 300] 100 [200; 300] ltac:(lia) eq_refl).
Defined.

Lemma nonblocking_wait_repeats_head_witness :
  exists q, wait_completions_with_options list_peek list_wait list_seen 4 true 1 3
      (mkOptions 0 false 1) (mkFlags false (fun _ => false) false) [100; 200; 300] =
      Some (mkResult 3 0 Ok, [100; 100; 100], q) /\ q = [].
Proof.
  exact (nonblocking_wait_repeats_head list_peek list_wait list_seen id
    ltac:(by intros []) ltac:(done) 1 3 1 (mkFlags false (fun _ => false) false)
    [100; 200; 300] ltac:(lia)).
Defined.

Lemma uring_bounded_wait_witness :
  is_Some (wait_completions_with_options list_peek list_wait list_seen 10 true 2 4
    (mkOptions 5 true 2) (mkFlags false (fun _ => false) false) []).
Proof.
  exact (uring_bounded_wait list_peek list_wait list_seen id ltac:(by intros [])
    2 4 (mkOptions 5 true 2) (mkFlags false (fun _ => false) false) [] ltac:(done) ltac:(done)).
Defined.
