(* ===== verification/Handles.v ===== *)
(** * Handles: the life cycle of the objects that own a kernel resource
    (io/epoll_wrapper.hpp, io/io_uring_wrapper.hpp, optimization/zero_copy.hpp)

    EpollWrapper owns the descriptor of its epoll instance, IoUringWrapper its
    queue, ZeroCopyBuffer its mapping, and ZeroCopyMemoryPool its buffer.  None
    can be copied; each acquires its resource in its constructor and releases it
    in its destructor.  [Scoped] is what a scope needs of such a class. *)
From S2P Require Import Prelude Memory Allocator MemoryPool Epoll IoUring.

Inductive resource : Type := Descriptor (fd : Z) | Queue (id : Z) | Mapping (p : ptr) (size : Z).

Inductive event : Type := Acquire (r : resource) | Release (r : resource).

(** ** EpollWrapper *)
Record EpollWrapper := mkEpollWrapper { epoll_fd_ : Z; max_events_ : Z }.

(** [epoll_create1] answered [fd]. *)
Definition EpollWrapper_new (fd max_events : Z) : EpollWrapper := mkEpollWrapper fd max_events.
Definition EpollWrapper_destroy (w : EpollWrapper) : list event :=
  if 0 <=? w.(epoll_fd_) then [Release (Descriptor w.(epoll_fd_))] else [].
Definition epoll_fd (w : EpollWrapper) : Z := w.(epoll_fd_).

(** The registrations go through the wrapper's own descriptor. *)
Definition epoll_add (w : EpollWrapper) (fd events data : Z) (s : interest) : bool * interest :=
  if w.(epoll_fd_) <? 0 then (false, s) else Epoll.add fd events data s.
Definition epoll_modify (w : EpollWrapper) (fd events data : Z) (s : interest) : bool * interest :=
  if w.(epoll_fd_) <? 0 then (false, s) else Epoll.modify fd events data s.
Definition epoll_remove (w : EpollWrapper) (fd : Z) (s : interest) : bool * interest :=
  if w.(epoll_fd_) <? 0 then (false, s) else Epoll.remove fd s.

(** ** IoUringWrapper *)
Section Uring.
Context {R : Type}.
Record IoUringWrapper := mkIoUringWrapper { ring_ : R; initialized_ : bool; queue_id : Z }.

(** [io_uring_queue_init] answered [ret] and set up [ring] as queue [id]. *)
Definition IoUringWrapper_new (ret : Z) (ring : R) (id : Z) : IoUringWrapper := mkIoUringWrapper ring (ret =? 0) id.
Definition IoUringWrapper_destroy (w : IoUringWrapper) : list event :=
  if w.(initialized_) then [Release (Queue w.(queue_id))] else [].
Definition is_initialized (w : IoUringWrapper) : bool := w.(initialized_).
Definition uring (w : IoUringWrapper) : R := w.(ring_).

Definition with_ring (r : R) (w : IoUringWrapper) : IoUringWrapper := mkIoUringWrapper r w.(initialized_) w.(queue_id).

Variable io_uring_peek_cqe : R -> Z * ptr.
Variable io_uring_wait : option Z -> R -> Z * ptr * R.
Variable io_uring_cqe_seen : ptr -> R -> R.
Variable io_uring_get_sqe : R -> option (ptr * R).
Variable io_uring_submit : R -> Z * R.

(** [submit_recv] and [submit_send] differ in the operation they prepare. *)
Definition submit_request (w : IoUringWrapper) : bool * IoUringWrapper :=
  let '(ok, r) := submit io_uring_get_sqe io_uring_submit w.(initialized_) w.(ring_) in (ok, with_ring r w).

(** [wait_completions]: the count, or -1 with errno; the flags are not read, no
    cancel flag being given. *)
Definition wait_completions (fuel : nat) (min_completions max_completions : Z) (w : IoUringWrapper)
    : option (Z * Z * list ptr * IoUringWrapper) :=
  '(r, cqes, ring) ← wait_completions_with_options io_uring_peek_cqe io_uring_wait io_uring_cqe_seen fuel
     w.(initialized_) min_completions max_completions (mkOptions (-1) false 1) (mkFlags false (fun _ => false) false)
     w.(ring_);
  let w := with_ring ring w in
  Some (if bool_decide (r.(status) = SysError) then (-1, r.(error), cqes, w)
        else if bool_decide (r.(status) = NotInitialized) then (0, 0, cqes, w)
        else (r.(count), 0, cqes, w)).

Definition peek (max_completions : Z) (w : IoUringWrapper) : Z * list ptr * IoUringWrapper :=
  let '(n, cqes, r) := peek_completions io_uring_peek_cqe io_uring_cqe_seen w.(initialized_) max_completions w.(ring_) in
  (n, cqes, with_ring r w).

(** A wrapper whose queue could not be set up refuses every operation, and none of
    them touches the ring; its destructor releases nothing. *)
Theorem uninitialized_refuses ret ring id fuel lo hi :
  ret <> 0 -> let w := IoUringWrapper_new ret ring id in
  is_initialized w = false /\ submit_request w = (false, w) /\
  wait_completions fuel lo hi w = Some (0, 0, [], w) /\ peek hi w = (0, [], w) /\ IoUringWrapper_destroy w = [].
Proof.
  intros Hr. cbv zeta. unfold IoUringWrapper_new, is_initialized, submit_request, wait_completions, peek,
    IoUringWrapper_destroy. cbn [initialized_ ring_].
  rewrite (proj2 (Z.eqb_neq ret 0) Hr). by split_and!.
Qed.
End Uring.
Arguments IoUringWrapper : clear implicits.

(** ** ZeroCopyBuffer *)
Definition Buffer_destroy (b : ZeroCopy.ZeroCopyBuffer) : list event :=
  if b.(ZeroCopy.ptr_) =? nullptr then [] else [Release (Mapping b.(ZeroCopy.ptr_) b.(ZeroCopy.size_))].
Definition Buffer_data (b : ZeroCopy.ZeroCopyBuffer) : ptr := b.(ZeroCopy.ptr_).
Definition Buffer_size (b : ZeroCopy.ZeroCopyBuffer) : Z := b.(ZeroCopy.size_).
Definition Buffer_uses_huge_pages (b : ZeroCopy.ZeroCopyBuffer) : bool := b.(ZeroCopy.use_huge_pages_).

(** [mlock] is told the whole mapping; the answer is success on 0. *)
Definition lock_memory (mlock : ptr -> Z -> Z) (b : ZeroCopy.ZeroCopyBuffer) : bool :=
  mlock b.(ZeroCopy.ptr_) b.(ZeroCopy.size_) =? 0.
Definition unlock_memory (b : ZeroCopy.ZeroCopyBuffer) : ptr * Z := (b.(ZeroCopy.ptr_), b.(ZeroCopy.size_)).

(** The address [prefetch] touches; a length of 0 stands for the whole buffer, but
    no length changes what is prefetched. *)
Definition prefetch (offset len : Z) (b : ZeroCopy.ZeroCopyBuffer) : ptr :=
  let _ := if len =? 0 then b.(ZeroCopy.size_) else len in b.(ZeroCopy.ptr_) + offset.

(** ** ZeroCopyMemoryPool: it owns its buffer *)
Definition Pool_destroy (p : ZeroCopy.ZeroCopyMemoryPool) : list event := Buffer_destroy p.(ZeroCopy.buffer_).

(** ** Scopes *)

(** [construct]: the object, or [None] when the constructor gives none (a null
    pointer, or an exception); [acquires]: what its system calls were given. *)
Class Scoped (Arg Obj : Type) := {
  construct : Arg -> option Obj;
  acquires : Arg -> list resource;
  destroy : Obj -> list event;
}.

Class ScopedLaws (Arg Obj : Type) `{Scoped Arg Obj} (ok : Arg -> Prop) := {
  destroy_releases : forall a o, ok a -> construct a = Some o -> destroy o = map Release (reverse (acquires a));
  none_acquired : forall a, ok a -> construct a = None -> acquires a = [];
}.

(** *** The instances *)
#[export] Instance epoll_scoped : Scoped (Z * Z) EpollWrapper := {
  construct a := Some (EpollWrapper_new a.1 a.2);
  acquires a := if 0 <=? a.1 then [Descriptor a.1] else [];
  destroy := EpollWrapper_destroy;
}.

#[export] Instance uring_scoped {R} : Scoped (Z * R * Z) (IoUringWrapper R) := {
  construct a := Some (IoUringWrapper_new a.1.1 a.1.2 a.2);
  acquires a := if a.1.1 =? 0 then [Queue a.2] else [];
  destroy := IoUringWrapper_destroy;
}.

(** The arguments of [create] and the mapping it ended with. *)
Definition mapping_of (mmap : ZeroCopy.mmap_fn) (size : Z) (huge : bool) : option ptr :=
  match (if huge then mmap size true else None) with Some p => Some p | None => mmap size false end.

#[export] Instance buffer_scoped : Scoped (ZeroCopy.mmap_fn * Z * bool) ZeroCopy.ZeroCopyBuffer := {
  construct a := ZeroCopy.create a.1.1 a.1.2 a.2;
  acquires a := match mapping_of a.1.1 a.1.2 a.2 with Some p => [Mapping p a.1.2] | None => [] end;
  destroy := Buffer_destroy;
}.

(** A mapping is never at the null pointer. *)
Definition mmap_ok (mmap : ZeroCopy.mmap_fn) : Prop := forall size huge p, mmap size huge = Some p -> p <> nullptr.

#[export] Instance epoll_laws : ScopedLaws (Z * Z) EpollWrapper (fun _ => True).
Proof.
  split; [|done]. intros [fd n] o _ [= <-]. cbn. unfold EpollWrapper_destroy. cbn [EpollWrapper_new epoll_fd_].
  by destruct (0 <=? fd).
Qed.

#[export] Instance uring_laws {R} : ScopedLaws (Z * R * Z) (IoUringWrapper R) (fun _ => True).
Proof.
  split; [|done]. intros [[ret r] id] o _ [= <-]. cbn. unfold IoUringWrapper_destroy. cbn.
  by destruct (ret =? 0).
Qed.

Lemma create_mapping mmap size huge :
  ZeroCopy.create mmap size huge = (fun p => ZeroCopy.mkZeroCopyBuffer p size huge) <$> mapping_of mmap size huge.
Proof. unfold ZeroCopy.create, mapping_of. destruct huge; [destruct (mmap size true)|]; by destruct (mmap size false). Qed.

#[export] Instance buffer_laws : ScopedLaws (ZeroCopy.mmap_fn * Z * bool) ZeroCopy.ZeroCopyBuffer (fun a => mmap_ok a.1.1).
Proof.
  split; intros [[mmap size] huge]; cbn [construct acquires destroy buffer_scoped fst snd]; rewrite create_mapping.
  - intros o Hok. destruct (mapping_of mmap size huge) as [p|] eqn:E; [|done]. intros [= <-].
    unfold Buffer_destroy. cbn [ZeroCopy.ptr_ ZeroCopy.size_].
    destruct (Z.eqb_spec p nullptr); [|done]. exfalso. unfold mapping_of in E.
    destruct huge; [destruct (mmap size true) eqn:E1; [injection E as ->|]|]; by eapply Hok.
  - intros _. by destruct (mapping_of mmap size huge).
Qed.

(** The pool's constructor throws when its buffer could not be mapped. *)
Record pool_args := mkPoolArgs { pa_mmap : ZeroCopy.mmap_fn; pa_block : Z; pa_num : Z; pa_huge : bool }.

#[export] Instance pool_scoped : Scoped pool_args ZeroCopy.ZeroCopyMemoryPool := {
  construct a :=
    match ZeroCopy.ZeroCopyMemoryPool_new a.(pa_mmap) a.(pa_block) a.(pa_num) a.(pa_huge) with
    | ZeroCopy.Constructed p => Some p
    | _ => None
    end;
  acquires a :=
    let size := u64 (a.(pa_block) * a.(pa_num)) in
    match mapping_of a.(pa_mmap) size a.(pa_huge) with Some p => [Mapping p size] | None => [] end;
  destroy := Pool_destroy;
}.

#[export] Instance pool_laws :
  ScopedLaws pool_args ZeroCopy.ZeroCopyMemoryPool (fun a => mmap_ok a.(pa_mmap) /\ is_Some (init_free_list a.(pa_num))).
Proof.
  split; intros [mmap bs n huge]; cbn [construct acquires destroy pool_scoped pa_mmap pa_block pa_num pa_huge];
    unfold ZeroCopy.ZeroCopyMemoryPool_new; set (size := u64 (bs * n)).
  - intros o [Hok [fl Efl]]. destruct (ZeroCopy.create mmap size huge) as [b|] eqn:Eb; [|done]. rewrite Efl.
    intros [= <-]. apply (destroy_releases (ScopedLaws := buffer_laws) (mmap, size, huge) b Hok Eb).
  - intros [Hok [fl Efl]]. destruct (ZeroCopy.create mmap size huge) as [b|] eqn:Eb; [by rewrite Efl|].
    intros _. apply (none_acquired (ScopedLaws := buffer_laws) (mmap, size, huge) Hok Eb).
Qed.

(** *** A scope

    Declarations in order; when one throws, or at the end of the scope, what was
    constructed is destroyed in the opposite order. *)
Inductive block : Type :=
  | Done
  | Automatic {Arg Obj} `{Scoped Arg Obj} (ok : Arg -> Prop) (laws : ScopedLaws Arg Obj ok) (a : Arg) (rest : block).

Fixpoint args_ok (b : block) : Prop :=
  match b with Done => True | Automatic ok _ a rest => ok a /\ args_ok rest end.

Fixpoint run (b : block) : list event :=
  match b with
  | Done => []
  | Automatic _ _ a rest =>
      map Acquire (acquires a) ++
      match construct a with
      | None => []
      | Some o => run rest ++ destroy o
      end
  end.

(** Well-bracketed: every resource acquired is released, in the opposite order. *)
Inductive nested : list event -> Prop :=
  | nested_nil : nested []
  | nested_wrap r l : nested l -> nested (Acquire r :: l ++ [Release r]).

Lemma nested_many rs l : nested l -> nested (map Acquire rs ++ l ++ map Release (reverse rs)).
Proof.
  intros Hl. induction rs as [|r rs IH]; [by rewrite app_nil_r|]. rewrite reverse_cons, map_app. cbn [map app].
  rewrite !app_assoc. rewrite <- (app_assoc (map Acquire rs)). by constructor.
Qed.

(** C36: A scope of these objects releases exactly what it acquired.  Whatever the
    kernel answers each constructor, and whichever constructor fails, the
    acquisitions and releases of the scope are well-bracketed: a resource that
    was given out is released once, after everything acquired later, and a
    failed acquisition releases nothing. *)
Theorem scope_releases b : args_ok b -> nested (run b).
Proof.
  induction b as [|Arg Obj S ok laws a rest IH]; cbn [args_ok run]; [constructor|]. intros [Ha Hr].
  destruct (construct a) as [o|] eqn:E.
  - rewrite (destroy_releases a o Ha E). by apply nested_many, IH.
  - rewrite (none_acquired a Ha E). constructor.
Qed.

(** ** Witnesses *)
Definition demo_map : ZeroCopy.mmap_fn := fun size huge => if huge then None else Some 8192.

Lemma demo_map_ok : mmap_ok demo_map.
Proof. intros size [] p; cbn; [discriminate|]. intros [= <-]. discriminate. Qed.

Definition demo_block : block :=
  Automatic _ epoll_laws (5, 64)
    (Automatic _ (@uring_laws unit) (-22, tt, 1)
      (Automatic _ pool_laws (mkPoolArgs demo_map 64 2 true)
        (Automatic _ buffer_laws (fun _ _ => None, 4096, false) Done))).

Lemma scope_releases_witness :
  run demo_block = [Acquire (Descriptor 5); Acquire (Mapping 8192 128); Release (Mapping 8192 128);
                    Release (Descriptor 5)] /\ nested (run demo_block).
Proof.
  split; [reflexivity|]. apply scope_releases. split; [exact I|]. split; [exact I|].
  split; [split; [exact demo_map_ok|eexists; reflexivity]|]. split; [|exact I]. intros size huge p H. discriminate H.
Defined.

Lemma uninitialized_refuses_witness :
  submit_request (fun r : unit => Some (0, r)) (fun r => (1, r)) (IoUringWrapper_new (-12) tt 1) =
    (false, IoUringWrapper_new (-12) tt 1).
Proof.
  exact (proj1 (proj2 (uninitialized_refuses (fun _ => (0, 0)) (fun _ _ => (0, 0, tt)) (fun _ r => r)
    (fun r : unit => Some (0, r)) (fun r => (1, r)) (-12) tt 1 1 1 1 ltac:(discriminate)))).
Defined.
