(* ===== verification/BusyPoll.v ===== *)
(** * BusyPoll: the busy-polling loop (io/busy_poll.hpp)

    Round [k] of the loop makes the observations collected in a [round]: the
    loads of [running_] and of the cancel flag, the result of the poll function
    and the (up to three) readings of the steady clock, in nanoseconds. *)
From S2P Require Import Prelude.

Record BusyPollConfig := mkConfig {
  poll_interval : Z;
  max_idle_time : Z;
  max_iterations : Z;
  adaptive : bool;
}.
Definition BusyPollConfig_default : BusyPollConfig := mkConfig 1000 10000 1000 true.

Inductive BusyPollStatus : Set := Completed | Timeout | Cancelled | Stopped.

(** [timeout] in milliseconds, negative for none; [has_flag]: a cancel flag is given. *)
Record BusyPollControl := mkControl { timeout : Z; has_flag : bool }.
Definition BusyPollControl_default : BusyPollControl := mkControl (-1) false.

Record BusyPollResult := mkResult { iterations : Z; data_hits : Z; status : BusyPollStatus }.

Record round := mkRound {
  running : bool;
  cancel : bool;
  now_check : Z;
  has_data : bool;
  now_idle : Z;
  now_reset : Z;
}.

(** The loop's variables: clock origin, spin counter, result, [idle_count_], and
    the number of idle callbacks. *)
Record loop_state := mkLoop {
  start_time : Z;
  spins : Z;
  result : BusyPollResult;
  idle_count_ : Z;
  idle_calls : Z;
}.

(** [duration_cast<milliseconds>] truncates. *)
Definition to_ms (ns : Z) : Z := Z.quot ns 1000000.

(** One round: the loop goes on with the new variables, or ends. *)
Definition step (cfg : BusyPollConfig) (ctl : BusyPollControl) (r : round) (s : loop_state)
    : loop_state * bool :=
  let set_status st :=
    mkLoop s.(start_time) s.(spins)
      (mkResult s.(result).(iterations) s.(result).(data_hits) st) s.(idle_count_) s.(idle_calls) in
  if negb r.(running) then (set_status Stopped, false) else
  if ctl.(has_flag) && r.(cancel) then (set_status Cancelled, false) else
  if (0 <=? ctl.(timeout)) && (ctl.(timeout) <=? to_ms (r.(now_check) - s.(start_time))) then
    (set_status Timeout, false)
  else
    let iterations := u64 (s.(result).(iterations) + 1) in
    if r.(has_data) then
      (mkLoop s.(start_time) 0 (mkResult iterations (u64 (s.(result).(data_hits) + 1)) Completed)
         0 s.(idle_calls), true)
    else
      let idle := u32 (s.(idle_count_) + 1) in
      let spins := u32 (s.(spins) + 1) in
      let spins := if cfg.(max_iterations) <=? spins then 0 else spins in
      let result := mkResult iterations s.(result).(data_hits) Completed in
      if cfg.(max_idle_time) <=? r.(now_idle) - s.(start_time) then
        (mkLoop r.(now_reset) spins result idle (s.(idle_calls) + 1), true)
      else (mkLoop s.(start_time) spins result idle s.(idle_calls), true).

(** The loop over the observations of the rounds; [None] while it still runs. *)
Fixpoint poll_loop (cfg : BusyPollConfig) (ctl : BusyPollControl) (rs : list round)
    (s : loop_state) : loop_state * bool :=
  match rs with
  | [] => (s, true)
  | r :: rs =>
      let '(s, go) := step cfg ctl r s in
      if go then poll_loop cfg ctl rs s else (s, false)
  end.

Definition initial (start idle_count : Z) : loop_state :=
  mkLoop start 0 (mkResult 0 0 Completed) idle_count 0.

(** [start_with_control]: the result once the loop has ended. *)
Definition start_with_control (cfg : BusyPollConfig) (ctl : BusyPollControl) (start idle : Z)
    (rs : list round) : option BusyPollResult :=
  let '(s, go) := poll_loop cfg ctl rs (initial start idle) in
  if go then None else Some s.(result).

(** [start]: no timeout and no cancel flag. *)
Definition start (cfg : BusyPollConfig) (start idle : Z) (rs : list round) : option BusyPollResult :=
  start_with_control cfg BusyPollControl_default start idle rs.

Definition adaptive_adjust (idle : Z) (cfg : BusyPollConfig) : BusyPollConfig :=
  if negb cfg.(adaptive) then cfg else
  if 1000 <? idle then
    mkConfig (Z.min (cfg.(poll_interval) * 2) 1000000) cfg.(max_idle_time) cfg.(max_iterations)
      cfg.(adaptive)
  else if idle <? 100 then
    mkConfig (Z.max (Z.quot cfg.(poll_interval) 2) 100) cfg.(max_idle_time) cfg.(max_iterations)
      cfg.(adaptive)
  else cfg.

(** ** The object

    What lasts between runs: the configuration, [running_] and [idle_count_].  The
    observations of [running_] in a run are part of its rounds. *)
Module Poller.
Record BusyPoller := mkPoller { config_ : BusyPollConfig; running_ : bool; idle_count_ : Z }.

Definition BusyPoller_new (c : BusyPollConfig) : BusyPoller := mkPoller c false 0.
Definition stop (p : BusyPoller) : BusyPoller := mkPoller p.(config_) false p.(idle_count_).
Definition is_running (p : BusyPoller) : bool := p.(running_).
Definition idle_count (p : BusyPoller) : Z := p.(idle_count_).
Definition adjust (p : BusyPoller) : BusyPoller :=
  mkPoller (adaptive_adjust (idle_count p) p.(config_)) p.(running_) p.(idle_count_).

(** [start_with_control] sets [running_] and has cleared it when it returns. *)
Definition begin_run (p : BusyPoller) : BusyPoller := mkPoller p.(config_) true p.(idle_count_).
Definition run (ctl : BusyPollControl) (start : Z) (rs : list round) (p : BusyPoller)
    : option (BusyPollResult * BusyPoller) :=
  let p := begin_run p in
  let '(s, go) := poll_loop p.(config_) ctl rs (initial start p.(idle_count_)) in
  if go then None else Some (s.(result), mkPoller p.(config_) false s.(BusyPoll.idle_count_)).

(** Stopping a poller before it is started is lost: the run that follows goes on
    exactly as without it.  Once a run has returned the poller is not running,
    whatever made it return, and it can be started again: the next run depends
    on the previous one only through the idle count. *)
Theorem stop_before_start_lost ctl start rs p :
  run ctl start rs (stop p) = run ctl start rs p /\
  forall res p', run ctl start rs p = Some (res, p') ->
    is_running p' = false /\ p'.(config_) = p.(config_) /\
    start_with_control p.(config_) ctl start (idle_count p) rs = Some res /\
    forall start' rs', run ctl start' rs' p' = run ctl start' rs' (mkPoller p.(config_) true (idle_count p')).
Proof.
  split; [done|]. intros res p'. unfold run, start_with_control. cbn [begin_run config_ idle_count_ stop idle_count].
  destruct (poll_loop _ _ _ _) as [s []]; [done|]. intros [= <- <-]. done.
Qed.
End Poller.

(** ** The loop *)
Lemma poll_loop_app cfg ctl rs1 rs2 s :
  poll_loop cfg ctl (rs1 ++ rs2) s =
    let '(s', go) := poll_loop cfg ctl rs1 s in
    if go then poll_loop cfg ctl rs2 s' else (s', false).
Proof.
  revert s. induction rs1 as [|r rs1 IH]; intros s; [done|]. cbn [app poll_loop].
  destruct (step cfg ctl r s) as [s' []]; [apply IH|done].
Qed.

(** A round that does not end the loop. *)
Definition continues (ctl : BusyPollControl) (s : loop_state) (r : round) : Prop :=
  r.(running) = true /\ ctl.(has_flag) && r.(cancel) = false /\
  (0 <= ctl.(timeout) -> to_ms (r.(now_check) - s.(start_time)) < ctl.(timeout)).

Lemma step_continues cfg ctl r s : snd (step cfg ctl r s) = true <-> continues ctl s r.
Proof.
  unfold step, continues. destruct (running r); cbn [negb]; [|by split; [|intros []]].
  destruct (has_flag ctl && cancel r); [by split; [|intros (_ & ? & _)]|].
  destruct (Z.leb_spec 0 (timeout ctl)); cbn [andb];
    [destruct (Z.leb_spec (timeout ctl) (to_ms (now_check r - start_time s)))|].
  - split; [done|]. intros (_ & _ & Hlt). specialize (Hlt ltac:(done)). lia.
  - split; [done|]. destruct (has_data r), (max_idle_time cfg <=? now_idle r - start_time s); done.
  - split; [intros _; split_and!; (done || lia)|].
    destruct (has_data r), (max_idle_time cfg <=? now_idle r - start_time s); done.
Qed.

Lemma step_counts cfg ctl r s s' :
  step cfg ctl r s = (s', true) ->
  iterations (result s') = u64 (iterations (result s) + 1) /\
  data_hits (result s') = if has_data r then u64 (data_hits (result s) + 1) else data_hits (result s).
Proof.
  unfold step. destruct (negb (running r)); [done|]. destruct (has_flag ctl && cancel r); [done|].
  destruct (_ && (timeout ctl <=? _)); [done|].
  destruct (has_data r); [|destruct (max_idle_time cfg <=? _)]; by intros [= <-].
Qed.

Lemma step_stops cfg ctl r s s' :
  step cfg ctl r s = (s', false) ->
  iterations (result s') = iterations (result s) /\ data_hits (result s') = data_hits (result s) /\
  status (result s') =
    (if negb (running r) then Stopped else if has_flag ctl && cancel r then Cancelled else Timeout) /\
  ~ continues ctl s r.
Proof.
  intros E. assert (~ continues ctl s r) as Hn.
  { intros Hc%(step_continues cfg). by rewrite E in Hc. }
  revert E. unfold step. destruct (negb (running r)); [by intros [= <-]|].
  destruct (has_flag ctl && cancel r); [by intros [= <-]|].
  destruct (_ && (timeout ctl <=? _)); [by intros [= <-]|].
  destruct (has_data r); [|destruct (max_idle_time cfg <=? _)]; by intros [= <-].
Qed.

Lemma poll_loop_counts cfg ctl start idle rs s :
  poll_loop cfg ctl rs (initial start idle) = (s, true) -> Z.of_nat (length rs) < 2 ^ 64 ->
  iterations (result s) = Z.of_nat (length rs) /\
  data_hits (result s) = Z.of_nat (length (filter (fun r => has_data r = true) rs)).
Proof.
  revert s. induction rs as [|r rs IH] using rev_ind; intros s E Hl; [by injection E as <-|].
  rewrite poll_loop_app in E. rewrite length_app in Hl. cbn [length] in Hl.
  destruct (poll_loop cfg ctl rs (initial start idle)) as [s0 []]; [|done].
  destruct (IH s0 eq_refl ltac:(lia)) as [Hi Hd]. cbn [poll_loop] in E.
  destruct (step cfg ctl r s0) as [s1 []] eqn:Es; [|done]. injection E as <-.
  apply step_counts in Es as [-> ->]. rewrite Hi, Hd, filter_app, !length_app. cbn [length].
  pose proof (length_filter (fun r => has_data r = true) rs).
  rewrite filter_cons, filter_nil. split; [rewrite wrap_small by (unfold in_width; lia); lia|].
  destruct (has_data r); [rewrite decide_True by done|rewrite decide_False by done]; cbn [length].
  - rewrite wrap_small by (unfold in_width; lia). lia.
  - lia.
Qed.

(** The loop ends in the first round that finds [running_] cleared, the cancel
    flag set or the timeout elapsed since the clock origin, and its status says
    which, in that order of precedence; the result counts one iteration per
    completed round and one hit per round with data. *)
Theorem busy_poll_outcome cfg ctl start idle rs r s :
  poll_loop cfg ctl rs (initial start idle) = (s, true) -> Z.of_nat (length rs) < 2 ^ 64 ->
  match start_with_control cfg ctl start idle (rs ++ [r]) with
  | None => continues ctl s r
  | Some res =>
      ~ continues ctl s r /\ iterations res = Z.of_nat (length rs) /\
      data_hits res = Z.of_nat (length (filter (fun r => has_data r = true) rs)) /\
      status res =
        if negb (running r) then Stopped
        else if has_flag ctl && cancel r then Cancelled else Timeout
  end.
Proof.
  intros E Hl. destruct (poll_loop_counts cfg ctl start idle rs s E Hl) as [Hi Hd].
  unfold start_with_control. rewrite poll_loop_app, E. cbn [poll_loop].
  destruct (step cfg ctl r s) as [s1 []] eqn:Es.
  - apply (step_continues cfg). by rewrite Es.
  - apply step_stops in Es as (Ei & Ed & Est & Hn). split_and!; (done || congruence).
Qed.

(** Rounds without data, each taking at most [d] nanoseconds from one clock
    reading to the next, starting at [t]. *)
Fixpoint quick_idle (d t : Z) (rs : list round) : Prop :=
  match rs with
  | [] => True
  | r :: rs =>
      running r = true /\ cancel r = false /\ has_data r = false /\
      t <= now_check r <= t + d /\ now_check r <= now_idle r <= now_check r + d /\
      now_idle r <= now_reset r <= now_idle r + d /\ quick_idle d (now_reset r) rs
  end.

(** While the poller is idle its timeout never fires: the idle branch resets
    the clock origin that the timeout check uses, so with a timeout longer than
    the idle threshold plus three round steps the loop runs on through any
    number of idle rounds, however much time passes. *)
Theorem idle_resets_defeat_timeout cfg ctl d start idle rs :
  0 <= d -> 0 <= max_idle_time cfg -> 0 < timeout ctl ->
  max_idle_time cfg + 3 * d < timeout ctl * 1000000 -> quick_idle d start rs ->
  start_with_control cfg ctl start idle rs = None.
Proof.
  intros Hd Hm Ht Hlong Hq.
  assert (forall rs s t, start_time s <= t -> t - start_time s < max_idle_time cfg + d + 1 ->
    quick_idle d t rs -> exists s', poll_loop cfg ctl rs s = (s', true)) as Hrun.
  { clear -Hd Hm Ht Hlong. induction rs as [|r rs IH]; intros s t Hs Hgap Hq; [by eexists|].
    destruct Hq as (Hrun & Hc & Hdata & Hchk & Hidle & Hreset & Hq). cbn [poll_loop].
    unfold step. rewrite Hrun, Hc, Hdata, andb_false_r. cbn [negb].
    assert (to_ms (now_check r - start_time s) < timeout ctl) as Hto.
    { unfold to_ms. apply Z.quot_lt_upper_bound; lia. }
    destruct (Z.leb_spec (timeout ctl) (to_ms (now_check r - start_time s))); [lia|].
    rewrite andb_false_r.
    destruct (Z.leb_spec (max_idle_time cfg) (now_idle r - start_time s));
      (eapply IH; [| |exact Hq]); cbn [start_time]; lia. }
  destruct (Hrun rs (initial start idle) start) as [s' E]; [cbn; lia|cbn; lia|done|].
  unfold start_with_control. by rewrite E.
Qed.

(** Adaptive adjustment keeps the polling interval between 100 nanoseconds and
    one millisecond, and changes it by at most a factor of two. *)
Theorem adaptive_interval_bounded idles cfg :
  100 <= poll_interval cfg <= 1000000 ->
  let cfg' := foldl (fun c i => adaptive_adjust i c) cfg idles in
  100 <= poll_interval cfg' <= 1000000 /\
  forall i, poll_interval cfg' <= 2 * poll_interval (adaptive_adjust i cfg') + 1 /\
            poll_interval (adaptive_adjust i cfg') <= 2 * poll_interval cfg'.
Proof.
  intros Hc. cbv zeta.
  assert (forall cfg, 100 <= poll_interval cfg <= 1000000 -> forall i,
    100 <= poll_interval (adaptive_adjust i cfg) <= 1000000 /\
    poll_interval cfg <= 2 * poll_interval (adaptive_adjust i cfg) + 1 /\
    poll_interval (adaptive_adjust i cfg) <= 2 * poll_interval cfg) as Hstep.
  { clear. intros cfg Hc i. unfold adaptive_adjust. destruct (negb (adaptive cfg)); [lia|].
    destruct (1000 <? i); [cbn [poll_interval]; lia|]. destruct (i <? 100); [|lia].
    cbn [poll_interval]. rewrite Z.quot_div_nonneg by lia.
    pose proof (Z.div_mod (poll_interval cfg) 2 ltac:(lia)).
    pose proof (Z.mod_pos_bound (poll_interval cfg) 2 ltac:(lia)). lia. }
  assert (100 <= poll_interval (foldl (fun c i => adaptive_adjust i c) cfg idles) <= 1000000) as Hb.
  { revert cfg Hc. induction idles as [|i idles IH]; intros cfg Hc; [done|]. cbn [foldl].
    apply IH, Hstep, Hc. }
  split; [done|]. intros i. apply (Hstep _ Hb i).
Qed.

(** ** Witnesses *)
Lemma busy_poll_outcome_witness :
  start_with_control BusyPollConfig_default (mkControl 5 true) 0 0
    ([mkRound true false 100 true 0 0] ++ [mkRound true false 6000000 false 0 0]) =
    Some (mkResult 1 1 Timeout) /\
  match start_with_control BusyPollConfig_default (mkControl 5 true) 0 0
    ([mkRound true false 100 true 0 0] ++ [mkRound true true 200 false 0 0]) with
  | None => False
  | Some res => status res = Cancelled
  end.
Proof.
  split; [reflexivity|].
  pose proof (busy_poll_outcome BusyPollConfig_default (mkControl 5 true) 0 0
    [mkRound true false 100 true 0 0] (mkRound true true 200 false 0 0) _ eq_refl eq_refl) as H.
  apply H.
Defined.

Lemma idle_resets_defeat_timeout_witness :
  start_with_control BusyPollConfig_default (mkControl 1 false) 0 0
    (map (fun i => mkRound true false (i * 20000) false (i * 20000 + 10000) (i * 20000 + 11000))
         (seqZ 0 100)) = None.
Proof.
  apply (idle_resets_defeat_timeout BusyPollConfig_default (mkControl 1 false) 10000).
  - discriminate.
  - discriminate.
  - reflexivity.
  - reflexivity.
  - vm_compute. repeat split; discriminate.
Defined.

Lemma adaptive_interval_bounded_witness :
  let cfg' := foldl (fun c i => adaptive_adjust i c) BusyPollConfig_default [0; 5000; 5000; 50] in
  100 <= poll_interval cfg' <= 1000000 /\
  forall i, poll_interval cfg' <= 2 * poll_interval (adaptive_adjust i cfg') + 1 /\
            poll_interval (adaptive_adjust i cfg') <= 2 * poll_interval cfg'.
Proof.
  apply (adaptive_interval_bounded [0; 5000; 5000; 50] BusyPollConfig_default).
  split; discriminate.
Defined.

Lemma stop_before_start_lost_witness :
  let p := Poller.BusyPoller_new BusyPollConfig_default in
  let rs := [mkRound true false 0 true 0 0; mkRound true true 0 true 0 0] in
  exists p', Poller.run (mkControl (-1) true) 0 rs (Poller.stop p) = Some (mkResult 1 1 Cancelled, p') /\
    Poller.is_running p' = false.
Proof.
  destruct (Poller.stop_before_start_lost (mkControl (-1) true) 0
    [mkRound true false 0 true 0 0; mkRound true true 0 true 0 0] (Poller.BusyPoller_new BusyPollConfig_default)) as [E H].
  eexists. split; [exact E|]. exact (proj1 (H _ _ eq_refl)).
Defined.
