(* ===== verification/IoStatus.v ===== *)
(** * IoStatus: the unified result of the I/O backends (io/io_status_types.hpp,
    io/io_status.hpp) *)
From S2P Require Import Prelude.
From S2P Require Import BatchIo.
From S2P Require Import Epoll.
From S2P Require Import IoUring.
From S2P Require Import BusyPoll.

Inductive UnifiedIOStatus : Set :=
  | Ok | Timeout | Cancelled | WouldBlock | NotInitialized | Stopped | SysError.

#[export] Instance UnifiedIOStatus_eq_dec : EqDecision UnifiedIOStatus.
Proof. solve_decision. Defined.

Record UnifiedIOResult := mkUnified { count : Z; error : Z; status : UnifiedIOStatus }.

Definition success (r : UnifiedIOResult) : bool :=
  negb (bool_decide (r.(status) = SysError)) && negb (bool_decide (r.(status) = NotInitialized)).

Inductive LoopControl : Set := ContinueWork | ContinueIdle | Stop.

#[export] Instance LoopControl_eq_dec : EqDecision LoopControl.
Proof. solve_decision. Defined.

Definition is_retryable_idle_status (s : UnifiedIOStatus) : bool :=
  bool_decide (s = Timeout) || bool_decide (s = WouldBlock).
Definition is_terminal_error_status (s : UnifiedIOStatus) : bool :=
  bool_decide (s = SysError) || bool_decide (s = NotInitialized).
Definition should_continue_loop (r : UnifiedIOResult) : bool :=
  bool_decide (r.(status) = Ok) || is_retryable_idle_status r.(status).
Definition classify_loop_control (r : UnifiedIOResult) : LoopControl :=
  if bool_decide (r.(status) = Ok) then ContinueWork
  else if is_retryable_idle_status r.(status) then ContinueIdle else Stop.

(** ** [to_unified_status], one per backend *)
Definition of_batch_status (s : BatchIo.BatchIOStatus) : UnifiedIOStatus :=
  match s with
  | BatchIo.Ok => Ok
  | BatchIo.Timeout => Timeout
  | BatchIo.Cancelled => Cancelled
  | BatchIo.WouldBlock => WouldBlock
  | BatchIo.SysError => SysError
  end.

Definition of_epoll_status (s : Epoll.EpollWaitStatus) : UnifiedIOStatus :=
  match s with
  | Epoll.Ok => Ok
  | Epoll.Timeout => Timeout
  | Epoll.Cancelled => Cancelled
  | Epoll.SysError => SysError
  end.

Definition of_uring_status (s : IoUring.IoUringWaitStatus) : UnifiedIOStatus :=
  match s with
  | IoUring.Ok => Ok
  | IoUring.Timeout => Timeout
  | IoUring.Cancelled => Cancelled
  | IoUring.NotInitialized => NotInitialized
  | IoUring.SysError => SysError
  end.

Definition of_busy_status (s : BusyPoll.BusyPollStatus) : UnifiedIOStatus :=
  match s with
  | BusyPoll.Completed => Ok
  | BusyPoll.Timeout => Timeout
  | BusyPoll.Cancelled => Cancelled
  | BusyPoll.Stopped => Stopped
  end.

(** ** [to_unified_result]; a [size_t] count, so a negative one becomes 0 *)
Definition of_batch (r : BatchIo.BatchIOResult) : UnifiedIOResult :=
  mkUnified r.(BatchIo.count) r.(BatchIo.error) (of_batch_status r.(BatchIo.status)).
Definition of_epoll (r : Epoll.EpollWaitResult) : UnifiedIOResult :=
  mkUnified (u64 (if 0 <? r.(Epoll.count) then r.(Epoll.count) else 0)) r.(Epoll.error)
    (of_epoll_status r.(Epoll.status)).
Definition of_uring (r : IoUring.IoUringWaitResult) : UnifiedIOResult :=
  mkUnified (u64 (if 0 <? r.(IoUring.count) then r.(IoUring.count) else 0)) r.(IoUring.error)
    (of_uring_status r.(IoUring.status)).
Definition of_busy (r : BusyPoll.BusyPollResult) : UnifiedIOResult :=
  mkUnified r.(BusyPoll.data_hits) 0 (of_busy_status r.(BusyPoll.status)).

(** A backend result, whichever the backend. *)
Inductive backend_result : Type :=
  | FromBatch (r : BatchIo.BatchIOResult)
  | FromEpoll (r : Epoll.EpollWaitResult)
  | FromUring (r : IoUring.IoUringWaitResult)
  | FromBusy (r : BusyPoll.BusyPollResult).

Definition to_unified_result (b : backend_result) : UnifiedIOResult :=
  match b with
  | FromBatch r => of_batch r
  | FromEpoll r => of_epoll r
  | FromUring r => of_uring r
  | FromBusy r => of_busy r
  end.

(** The loop decision is the same for every backend and consistent: the loop
    stops exactly when [should_continue_loop] is false, does work exactly on
    [Ok], always stops on a terminal error, and stops without error exactly on
    cancellation or an external stop; unification keeps each backend's own
    notion of success. *)
Theorem loop_control_consistent b :
  let r := to_unified_result b in
  (classify_loop_control r = Stop <-> should_continue_loop r = false) /\
  (classify_loop_control r = ContinueWork <-> status r = Ok) /\
  (is_terminal_error_status (status r) = negb (success r)) /\
  (success r = false -> classify_loop_control r = Stop) /\
  (success r = true -> classify_loop_control r = Stop -> status r = Cancelled \/ status r = Stopped) /\
  match b with
  | FromBatch x => success r = negb (bool_decide (BatchIo.status x = BatchIo.SysError))
  | FromEpoll x => success r = Epoll.success x
  | FromUring x => success r = IoUring.success x
  | FromBusy x => success r = true
  end.
Proof.
  destruct b as [[? ? []]|[? ? []]|[? ? []]|[? ? []]]; cbn; split_and!; try done; auto.
Qed.

(** End to end, a bounded epoll wait seen through the unified result either
    makes the loop work on at least one event, lets it idle after the full
    timeout, or stops it because of an error or a cancellation. *)
Theorem epoll_wait_drives_loop o e :
  0 < Epoll.timeout_ms o ->
  exists r n w, Epoll.wait_with_options (S (Z.to_nat (Epoll.timeout_ms o))) o e = Some (r, n, w) /\
    match classify_loop_control (of_epoll r) with
    | ContinueWork => 0 < Epoll.count r
    | ContinueIdle => w = Epoll.timeout_ms o
    | Stop => success (of_epoll r) = false \/ Epoll.has_flag o = true
    end.
Proof.
  intros Ht. destruct (bounded_wait o e Ht) as (r & n & w & E & _ & _ & H1 & H2 & H3 & H4).
  exists r, n, w. split; [done|]. unfold of_epoll, classify_loop_control, success. cbn [status].
  destruct (Epoll.status r); vm_compute bool_decide; cbn; [by apply H2|by apply H1|right; by apply H4|by left].
Qed.

Lemma epoll_wait_drives_loop_witness :
  exists r n w, Epoll.wait_with_options 13 (Epoll.mkOptions 12 false 5) Epoll.demo_kernel =
      Some (r, n, w) /\
    match classify_loop_control (of_epoll r) with
    | ContinueWork => 0 < Epoll.count r
    | ContinueIdle => w = 12
    | Stop => success (of_epoll r) = false \/ false = true
    end.
Proof. apply (epoll_wait_drives_loop (Epoll.mkOptions 12 false 5) Epoll.demo_kernel). reflexivity. Defined.
