(* ===== verification/Tracer.v ===== *)
(** * Tracer: sampled trace output (core/tracing.hpp)

    [emit] writes one line to standard output; the line is the list of its
    fields here. *)
From Stdlib Require Import String.
From S2P Require Import Prelude.

Record TraceConfig := mkTraceConfig { enabled : bool; sample_every : Z }.
Definition TraceConfig_default : TraceConfig := mkTraceConfig false 1.

Record Tracer := mkTracer { config_ : TraceConfig; counter_ : Z }.
Definition Tracer_new (c : TraceConfig) : Tracer := mkTracer c 0.

Record trace_line := mkLine {
  component : string;
  event : string;
  packet_id : Z;
  ts_ns : Z;
  queue_depth : Z;
  latency_us : Z;
}.

Definition should_emit (t : Tracer) : bool * Tracer :=
  let t := mkTracer t.(config_) (u64 (t.(counter_) + 1)) in
  if negb t.(config_).(enabled) then (false, t) else
  if t.(config_).(sample_every) =? 0 then (false, t) else
  (t.(counter_) mod t.(config_).(sample_every) =? 0, t).

Definition emit (l : trace_line) (t : Tracer) : list trace_line * Tracer :=
  let '(ok, t) := should_emit t in
  if negb ok then ([], t) else ([l], t).

Definition emit_all (ls : list trace_line) (t : Tracer) : list trace_line * Tracer :=
  foldl (fun acc l => let '(o, t) := emit l (snd acc) in (fst acc ++ o, t)) ([], t) ls.

(** Every [k]-th element, counting from 1 after [c]. *)
Fixpoint every (k c : Z) (ls : list trace_line) : list trace_line :=
  match ls with
  | [] => []
  | l :: ls => (if (c + 1) mod k =? 0 then [l] else []) ++ every k (c + 1) ls
  end.

Lemma emit_all_spec ls t out :
  0 <= counter_ t -> counter_ t + Z.of_nat (List.length ls) < 2 ^ 64 ->
  foldl (fun acc l => let '(o, t) := emit l (snd acc) in (fst acc ++ o, t)) (out, t) ls =
    (out ++ (if enabled (config_ t) && negb (sample_every (config_ t) =? 0)
             then every (sample_every (config_ t)) (counter_ t) ls else []),
     mkTracer (config_ t) (counter_ t + Z.of_nat (List.length ls))).
Proof.
  revert t out. induction ls as [|l ls IH]; intros t out Hc Hl; cbn [foldl every].
  { rewrite Z.add_0_r. destruct t. by destruct (_ && _); rewrite app_nil_r. }
  cbn [List.length] in Hl. cbn [fst snd]. unfold emit, should_emit. cbn [config_ counter_].
  rewrite wrap_small by (unfold in_width; lia).
  destruct (enabled (config_ t)) eqn:Ee; cbn [negb andb];
    [destruct (Z.eqb_spec (sample_every (config_ t)) 0) as [Es|Es]; cbn [negb]|];
    [|destruct ((counter_ t + 1) mod sample_every (config_ t) =? 0)|]; cbn [negb];
    rewrite IH by (cbn [counter_]; lia); cbn [config_ counter_ List.length];
    rewrite Ee; cbn [andb];
    rewrite ?(proj2 (Z.eqb_neq _ _) Es), ?(proj2 (Z.eqb_eq _ _) Es); cbn [negb andb];
    rewrite ?app_nil_r, <- ?app_assoc; cbn [app];
    (f_equal; f_equal; lia).
Qed.

Lemma length_every k c ls :
  0 < k -> 0 <= c ->
  Z.of_nat (List.length (every k c ls)) = (c + Z.of_nat (List.length ls)) / k - c / k.
Proof.
  intros Hk. revert c. induction ls as [|l ls IH]; intros c Hc; cbn [every List.length].
  { rewrite Z.add_0_r. lia. }
  rewrite length_app, Nat2Z.inj_add, IH by lia.
  replace (c + 1 + Z.of_nat (List.length ls)) with (c + Z.of_nat (S (List.length ls))) by lia.
  pose proof (Z.div_mod c k ltac:(lia)). pose proof (Z.mod_pos_bound c k Hk).
  destruct (decide (c mod k + 1 = k)) as [Eq|Ne].
  - assert ((c + 1) / k = c / k + 1) as -> by (symmetry; apply (Z.div_unique _ _ _ 0); lia).
    assert ((c + 1) mod k = 0) as -> by (symmetry; apply (Z.mod_unique _ _ (c / k + 1)); lia).
    cbn. lia.
  - assert ((c + 1) / k = c / k) as -> by (symmetry; apply (Z.div_unique _ _ _ (c mod k + 1)); lia).
    assert ((c + 1) mod k = c mod k + 1) as -> by (symmetry; apply (Z.mod_unique _ _ (c / k)); lia).
    destruct (Z.eqb_spec (c mod k + 1) 0); [lia|]. cbn. lia.
Qed.

(** The tracer samples exactly: of [n] calls it writes every
    [sample_every]-th one, in order, [n / sample_every] lines in all, and none
    when it is disabled or the rate is 0. *)
Theorem tracer_samples_exactly cfg ls :
  0 <= sample_every cfg -> Z.of_nat (List.length ls) < 2 ^ 64 ->
  let out := fst (emit_all ls (Tracer_new cfg)) in
  if enabled cfg && negb (sample_every cfg =? 0) then
    out = every (sample_every cfg) 0 ls /\
    Z.of_nat (List.length out) = Z.of_nat (List.length ls) / sample_every cfg
  else out = [].
Proof.
  intros Hs Hl. cbv zeta. unfold emit_all. rewrite emit_all_spec by (cbn; lia).
  cbn [fst app Tracer_new config_ counter_].
  destruct (enabled cfg); cbn [andb]; [|done].
  destruct (Z.eqb_spec (sample_every cfg) 0); cbn [negb]; [done|]. split; [done|].
  rewrite length_every by lia. rewrite Z.add_0_l.
  rewrite Z.div_0_l by lia. lia.
Qed.

Lemma tracer_samples_exactly_witness :
  let l n := mkLine "rx" "packet" n 0 0 0 in
  let out := fst (emit_all (map l (seqZ 1 10)) (Tracer_new (mkTraceConfig true 3))) in
  out = every 3 0 (map l (seqZ 1 10)) /\ Z.of_nat (List.length out) = 10 / 3.
Proof.
  apply (tracer_samples_exactly (mkTraceConfig true 3)
    (map (fun n => mkLine "rx" "packet" n 0 0 0) (seqZ 1 10))).
  - discriminate.
  - reflexivity.
Defined.
