(* ===== verification/MpscQueue.v ===== *)
(** * MpscQueue: the multi-producer single-consumer queue (core/mpsc_queue.hpp)

    A call is a sequence of steps, one per access to a shared object: the loads
    of [head_] and [tail_], the compare-and-swap, the write of the slot, the test,
    the move out and the reset of the slot, the store of [head_].  A call that
    runs alone is the iteration of its steps ([try_push], [try_pop]); MpscThreads
    interleaves the steps of several threads.  The slots are plain
    [std::optional]s: whether two threads' accesses to one are ordered is what
    MpscRaces checks, and a run in which they are not is undefined there. *)
From S2P Require Import Prelude BitOps Fifo RingSlots.

Section Queue.
Context {A : Type}.

Record MpscQueue := mkMpscQueue {
  capacity_ : Z;
  mask_ : Z;
  head_ : Z;
  tail_ : Z;
  buffer_ : list (option A);
}.

Definition MpscQueue_new (capacity : Z) : MpscQueue :=
  let cap := round_up_power_of_two capacity in
  mkMpscQueue cap (u64 (cap - 1)) 0 0 (replicate (Z.to_nat cap) None).

(** ** [try_push], step by step *)
Inductive producer : Type :=
  | Idle
  | Looping (value : A) (tail : Z)     (* at the top of the loop *)
  | Claiming (value : A) (tail : Z)    (* the queue was not full *)
  | Writing (value : A) (tail : Z).    (* the position is claimed *)

(** The first load of [tail_]. *)
Definition push_start (value : A) (q : MpscQueue) : producer := Looping value q.(tail_).

(** [weak] is a spurious failure of [compare_exchange_weak]; the middle
    component is the call's result when the step returns. *)
Definition producer_step (weak : bool) (p : producer) (q : MpscQueue)
    : option (producer * option bool * MpscQueue) :=
  match p with
  | Idle => None
  | Looping value tail =>
      Some (if q.(capacity_) <=? u64 (tail - q.(head_))
            then (Idle, Some false, q) else (Claiming value tail, None, q))
  | Claiming value tail =>
      Some (if (q.(tail_) =? tail) && negb weak
            then (Writing value tail, None,
                  mkMpscQueue q.(capacity_) q.(mask_) q.(head_) (u64 (tail + 1)) q.(buffer_))
            else (Looping value q.(tail_), None, q))
  | Writing value tail =>
      slots ← assign q.(buffer_) (Z.land tail q.(mask_)) (Some value);
      Some (Idle, Some true, mkMpscQueue q.(capacity_) q.(mask_) q.(head_) q.(tail_) slots)
  end.

(** ** [try_pop], step by step *)
Inductive consumer : Type :=
  | Waiting
  | Loaded (head : Z)
  | Inspecting (head tail : Z)
  | Moving (head : Z)                  (* [has_value] was true *)
  | Clearing (head : Z) (value : A)    (* the value was moved out *)
  | Taken (head : Z) (value : A).      (* the slot was reset *)

(** The load of [head_]. *)
Definition pop_start (q : MpscQueue) : consumer := Loaded q.(head_).

(** [*slot] of an empty slot is undefined; what the move leaves in the slot is
    not looked at again. *)
Definition consumer_step (c : consumer) (q : MpscQueue)
    : option (consumer * option (option A) * MpscQueue) :=
  match c with
  | Waiting => None
  | Loaded head => Some (Inspecting head q.(tail_), None, q)
  | Inspecting head tail =>
      if tail <=? head then Some (Waiting, Some None, q) else
      slot ← index q.(buffer_) (Z.land head q.(mask_));
      Some (match slot with None => (Waiting, Some None, q) | Some _ => (Moving head, None, q) end)
  | Moving head =>
      slot ← index q.(buffer_) (Z.land head q.(mask_));
      value ← slot;
      Some (Clearing head value, None, q)
  | Clearing head value =>
      slots ← assign q.(buffer_) (Z.land head q.(mask_)) None;
      Some (Taken head value, None, mkMpscQueue q.(capacity_) q.(mask_) q.(head_) q.(tail_) slots)
  | Taken head value =>
      Some (Waiting, Some (Some value),
            mkMpscQueue q.(capacity_) q.(mask_) (u64 (head + 1)) q.(tail_) q.(buffer_))
  end.

(** ** Calls that run alone *)
Fixpoint push_run (fuel : nat) (p : producer) (q : MpscQueue) : option (bool * MpscQueue) :=
  match fuel with
  | O => None
  | S fuel =>
      '(p, r, q) ← producer_step false p q;
      match r with Some b => Some (b, q) | None => push_run fuel p q end
  end.

Fixpoint pop_run (fuel : nat) (c : consumer) (q : MpscQueue) : option (option A * MpscQueue) :=
  match fuel with
  | O => None
  | S fuel =>
      '(c, r, q) ← consumer_step c q;
      match r with Some o => Some (o, q) | None => pop_run fuel c q end
  end.

(** Three and five steps after the first load: without interference the
    compare-and-swap succeeds at once. *)
Definition try_push (q : MpscQueue) (value : A) : option (bool * MpscQueue) :=
  push_run 3 (push_start value q) q.
Definition try_pop (q : MpscQueue) : option (option A * MpscQueue) :=
  pop_run 5 (pop_start q) q.

Definition empty (q : MpscQueue) : bool := q.(tail_) <=? q.(head_).
Definition size (q : MpscQueue) : Z :=
  if q.(head_) <=? q.(tail_) then u64 (q.(tail_) - q.(head_)) else 0.
Definition capacity (q : MpscQueue) : Z := q.(capacity_).

(** ** Geometry: what no step changes *)
Record geometry (q : MpscQueue) : Prop := {
  ge_cap : exists k, 0 <= k <= 63 /\ q.(capacity_) = 2 ^ k;
  ge_mask : q.(mask_) = q.(capacity_) - 1;
  ge_len : Z.of_nat (length q.(buffer_)) = q.(capacity_);
}.

Lemma ge_cap_pos q : geometry q -> 0 < capacity_ q <= 2 ^ 63.
Proof.
  intros [(k & Hk & ->) _ _]. split; [apply Z.pow_pos_nonneg; lia|apply Z.pow_le_mono_r; lia].
Qed.

Lemma ge_slot q pos : geometry q -> 0 <= pos -> Z.land pos (mask_ q) = pos mod capacity_ q.
Proof. intros [(k & Hk & E) Hm _] Hp. rewrite Hm, E. apply land_mask. lia. Qed.

Lemma ge_in q pos : geometry q -> 0 <= pos mod capacity_ q < Z.of_nat (length (buffer_ q)).
Proof. intros H. rewrite (ge_len q H). apply Z.mod_pos_bound, ge_cap_pos, H. Qed.

(** The content of the slot of position [pos]. *)
Definition at_pos (q : MpscQueue) (pos : Z) : option A := slot q.(buffer_) q.(capacity_) pos.

Lemma ge_index q pos :
  geometry q -> 0 <= pos -> index (buffer_ q) (Z.land pos (mask_ q)) = Some (at_pos q pos).
Proof.
  intros H Hp. rewrite ge_slot by done. pose proof (ge_in q pos H).
  unfold index, at_pos, slot. destruct (Z.ltb_spec (pos mod capacity_ q) 0); [lia|].
  apply list_lookup_lookup_total_lt. lia.
Qed.

Definition write_slot (q : MpscQueue) (pos : Z) (x : option A) : MpscQueue :=
  mkMpscQueue q.(capacity_) q.(mask_) q.(head_) q.(tail_)
    (<[Z.to_nat (pos mod q.(capacity_)) := x]> q.(buffer_)).

Lemma ge_assign q pos x :
  geometry q -> 0 <= pos ->
  assign (buffer_ q) (Z.land pos (mask_ q)) x = Some (buffer_ (write_slot q pos x)).
Proof. intros H Hp. rewrite ge_slot by done. apply assign_in, ge_in, H. Qed.

Lemma write_slot_geometry q pos x : geometry q -> geometry (write_slot q pos x).
Proof. intros [? ? ?]. split; cbn; [done..|]. by rewrite length_insert. Qed.

Lemma at_pos_write_eq q pos x : geometry q -> at_pos (write_slot q pos x) pos = x.
Proof.
  intros H. unfold at_pos. cbn. pose proof (ge_cap_pos q H).
  apply slot_insert_eq; [lia|]. rewrite (ge_len q H). lia.
Qed.

Lemma at_pos_write_ne q pos pos' x :
  geometry q -> 0 < Z.abs (pos - pos') < capacity_ q ->
  at_pos (write_slot q pos x) pos' = at_pos q pos'.
Proof. intros H Hp. unfold at_pos. cbn. apply slot_insert_ne; [apply ge_cap_pos, H|done]. Qed.

Lemma new_geometry n : 0 <= n <= 2 ^ 63 -> geometry (MpscQueue_new n).
Proof.
  intros Hn.
  assert (exists k, 0 <= k <= 63 /\ round_up_power_of_two n = 2 ^ k) as (k & Hk & E).
  { destruct (decide (n = 0)) as [->|]; [by exists 0|].
    destruct (round_up_power_of_two_spec n) as (k & ? & ? & _); [lia|]. by exists k. }
  assert (0 < 2 ^ k <= 2 ^ 63) by
    (split; [apply Z.pow_pos_nonneg; lia|apply Z.pow_le_mono_r; lia]).
  split; cbn [MpscQueue_new capacity_ mask_ buffer_].
  - by exists k.
  - rewrite E, wrap_small by (unfold in_width; lia). done.
  - rewrite length_replicate, E. lia.
Qed.

Lemma new_slots n pos : 0 <= n <= 2 ^ 63 -> at_pos (MpscQueue_new n) pos = None.
Proof.
  intros Hn. pose proof (new_geometry n Hn) as H. pose proof (ge_in _ pos H) as Hp.
  unfold at_pos, slot. cbn [MpscQueue_new capacity_ buffer_] in *. rewrite length_replicate in Hp.
  apply list_lookup_total_correct, lookup_replicate_2. lia.
Qed.

(** ** At rest the queue is a bounded list *)
Record represents (q : MpscQueue) (l : list A) : Prop := {
  re_geo : geometry q;
  re_pos : 0 <= q.(head_) /\ q.(tail_) = q.(head_) + Z.of_nat (length l) /\ q.(tail_) < 2 ^ 64;
  re_fit : Z.of_nat (length l) <= q.(capacity_);
  re_slots : forall i : nat, Z.of_nat i < q.(capacity_) -> at_pos q (q.(head_) + Z.of_nat i) = l !! i;
}.

Definition contents (q : MpscQueue) : list A :=
  omap id (window q.(buffer_) q.(capacity_) q.(head_) (Z.to_nat (q.(tail_) - q.(head_)))).

Lemma omap_id_Some (l : list A) : omap id (Some <$> l) = l.
Proof. induction l as [|x l IH]; cbn; [done|]. f_equal. apply IH. Qed.

Lemma represents_contents q l : represents q l -> contents q = l.
Proof.
  intros [Hg Hp Hf Hs]. unfold contents. etransitivity; [|apply omap_id_Some]. f_equal.
  replace (Z.to_nat (tail_ q - head_ q)) with (length l) by lia.
  apply list_eq. intros i. destruct (decide (i < length l)%nat) as [Hi|Hi].
  - rewrite window_lookup, list_lookup_fmap by done. unfold at_pos in Hs.
    rewrite Hs by lia. destruct (lookup_lt_is_Some_2 l i Hi) as [x ->]. done.
  - rewrite !lookup_ge_None_2; rewrite ?length_fmap, ?length_window; (done || lia).
Qed.

Lemma try_push_full q l x :
  represents q l -> Z.of_nat (length l) = capacity_ q -> try_push q x = Some (false, q).
Proof.
  intros [Hg Hp Hf _] E. unfold try_push, push_start. cbn [push_run producer_step].
  pose proof (ge_cap_pos q Hg).
  rewrite (wrap_small 64) by (unfold in_width; lia).
  by destruct (Z.leb_spec (capacity_ q) (tail_ q - head_ q)); [|lia].
Qed.

Definition pushed (q : MpscQueue) (x : A) : MpscQueue :=
  mkMpscQueue q.(capacity_) q.(mask_) q.(head_) (q.(tail_) + 1)
    (buffer_ (write_slot q q.(tail_) (Some x))).

Lemma mpsc_try_push_run q l x :
  represents q l -> tail_ q + 1 < 2 ^ 64 -> Z.of_nat (length l) < capacity_ q ->
  try_push q x = Some (true, pushed q x) /\ represents (pushed q x) (l ++ [x]).
Proof.
  intros [Hg Hp Hf Hs] Hw Hlt. pose proof (ge_cap_pos q Hg). split.
  - unfold try_push, push_start. cbn [push_run producer_step].
    rewrite (wrap_small 64 (tail_ q - head_ q)) by (unfold in_width; lia).
    destruct (Z.leb_spec (capacity_ q) (tail_ q - head_ q)); [lia|].
    cbn [mbind option_bind push_run producer_step]. rewrite Z.eqb_refl. cbn [negb andb mbind option_bind].
    cbn [mbind option_bind push_run producer_step buffer_ mask_].
    rewrite ge_assign by (done || lia). cbn [mbind option_bind capacity_ head_ tail_ mask_].
    by rewrite wrap_small by (unfold in_width; lia).
  - split; cbn [pushed capacity_ head_ tail_].
    + destruct (write_slot_geometry q (tail_ q) (Some x) Hg). by split.
    + rewrite length_app. cbn [length]. lia.
    + rewrite length_app. cbn [length]. lia.
    + intros i Hi. change (at_pos (pushed q x) ?p) with (at_pos (write_slot q (tail_ q) (Some x)) p).
      destruct (decide (i = length l)) as [->|].
      * replace (head_ q + Z.of_nat (length l)) with (tail_ q) by lia.
        rewrite at_pos_write_eq by done. by rewrite lookup_app_r, Nat.sub_diag by lia.
      * rewrite at_pos_write_ne, Hs by (done || lia).
        destruct (decide (i < length l)%nat); [by rewrite lookup_app_l|].
        rewrite !lookup_ge_None_2; rewrite ?length_app; cbn; (done || lia).
Qed.

Lemma try_pop_empty q : represents q [] -> try_pop q = Some (None, q).
Proof.
  intros [Hg Hp _ _]. unfold try_pop, pop_start. cbn [pop_run consumer_step mbind option_bind].
  cbn in Hp. by destruct (Z.leb_spec (tail_ q) (head_ q)); [|lia].
Qed.

Definition popped (q : MpscQueue) : MpscQueue :=
  mkMpscQueue q.(capacity_) q.(mask_) (q.(head_) + 1) q.(tail_)
    (buffer_ (write_slot q q.(head_) None)).

Lemma at_pos_period q pos : geometry q -> at_pos q (pos + capacity_ q) = at_pos q pos.
Proof.
  intros H. pose proof (ge_cap_pos q H). unfold at_pos, slot. do 2 f_equal.
  rewrite <- Zplus_mod_idemp_r, Z.mod_same, Z.add_0_r by lia. done.
Qed.

Lemma mpsc_try_pop_run q x l :
  represents q (x :: l) -> try_pop q = Some (Some x, popped q) /\ represents (popped q) l.
Proof.
  intros [Hg Hp Hf Hs]. pose proof (ge_cap_pos q Hg). cbn [length] in *.
  pose proof (Hs 0%nat ltac:(lia)) as H0. cbn [lookup list_lookup] in H0. rewrite Z.add_0_r in H0.
  split.
  - unfold try_pop, pop_start. cbn [pop_run consumer_step mbind option_bind].
    destruct (Z.leb_spec (tail_ q) (head_ q)); [lia|].
    rewrite ge_index, H0 by (done || lia). cbn [mbind option_bind pop_run consumer_step].
    rewrite ge_index, H0 by (done || lia). cbn [mbind option_bind pop_run consumer_step].
    rewrite ge_assign by (done || lia).
    cbn [mbind option_bind pop_run consumer_step capacity_ head_ tail_ mask_ buffer_].
    by rewrite wrap_small by (unfold in_width; lia).
  - split; cbn [popped capacity_ head_ tail_].
    + destruct (write_slot_geometry q (head_ q) None Hg). by split.
    + lia.
    + lia.
    + intros i Hi. change (at_pos (popped q) ?p) with (at_pos (write_slot q (head_ q) None) p).
      replace (head_ q + 1 + Z.of_nat i) with (head_ q + Z.of_nat (S i)) by lia.
      destruct (decide (Z.of_nat (S i) = capacity_ q)) as [E|].
      * rewrite E. change (capacity_ q) with (capacity_ (write_slot q (head_ q) None)) at 1.
        rewrite at_pos_period, at_pos_write_eq by (try apply write_slot_geometry; done).
        rewrite lookup_ge_None_2; [done|lia].
      * rewrite at_pos_write_ne, Hs by (done || lia). done.
Qed.

#[global, refine] Instance MpscQueue_fifo : BoundedFifo MpscQueue A := {|
  fifo_inv q := exists l, represents q l;
  fifo_contents := contents;
  fifo_capacity := capacity_;
  fifo_budget q := 2 ^ 64 - 1 - q.(tail_);
  fifo_push x q := try_push q x;
  fifo_pop := try_pop;
|}.
Proof.
  - intros q [l H]. rewrite (represents_contents q l H). apply H.
  - intros q x [l H] E. rewrite (represents_contents q l H) in E. by apply (try_push_full q l).
  - intros q x [l H] Hb Hlt. rewrite (represents_contents q l H) in *. exists (pushed q x).
    destruct (mpsc_try_push_run q l x H) as [E Hr]; [lia|done|].
    split_and!; [done|by eexists|by apply represents_contents|done|cbn [pushed tail_]; lia].
  - intros q [l H] E. rewrite (represents_contents q l H) in E. subst l. by apply try_pop_empty.
  - intros q x l [l' H] E. rewrite (represents_contents q l' H) in E. subst l'. exists (popped q).
    destruct (mpsc_try_pop_run q x l H) as [E Hr].
    split_and!; [done|by eexists|by apply represents_contents|done|done].
Defined.

Lemma new_represents n : 0 <= n <= 2 ^ 63 -> represents (MpscQueue_new n) [].
Proof.
  intros Hn. pose proof (new_geometry n Hn) as Hg. pose proof (ge_cap_pos _ Hg).
  split; [done|cbn; lia|cbn [length]; lia|]. intros i _. by apply new_slots.
Qed.

(** *** One thread: the queue is a bounded list *)
Inductive queue_op : Type := QPush (x : A) | QPop | QSize | QEmpty.
Inductive queue_out : Type := QBool (b : bool) | QValue (x : option A) | QCount (n : Z).

Definition queue_call (op : queue_op) (q : MpscQueue) : option (queue_out * MpscQueue) :=
  match op with
  | QPush x => '(b, q) ← try_push q x; Some (QBool b, q)
  | QPop => '(x, q) ← try_pop q; Some (QValue x, q)
  | QSize => Some (QCount (size q), q)
  | QEmpty => Some (QBool (empty q), q)
  end.

Fixpoint queue_calls (ops : list queue_op) (q : MpscQueue) : option (list queue_out * MpscQueue) :=
  match ops with
  | [] => Some ([], q)
  | op :: ops =>
      '(o, q) ← queue_call op q;
      '(os, q) ← queue_calls ops q;
      Some (o :: os, q)
  end.

(** The same calls on a list of at most [cap] values. *)
Definition list_call (cap : Z) (op : queue_op) (l : list A) : queue_out * list A :=
  match op with
  | QPush x => if Z.of_nat (length l) <? cap then (QBool true, l ++ [x]) else (QBool false, l)
  | QPop => (QValue (head l), tail l)
  | QSize => (QCount (Z.of_nat (length l)), l)
  | QEmpty => (QBool (bool_decide (length l = 0%nat)), l)
  end.

Fixpoint list_calls (cap : Z) (ops : list queue_op) (l : list A) : list queue_out * list A :=
  match ops with
  | [] => ([], l)
  | op :: ops =>
      let '(o, l) := list_call cap op l in
      let '(os, l) := list_calls cap ops l in (o :: os, l)
  end.

Lemma queue_call_refines op q l :
  represents q l -> tail_ q + 1 < 2 ^ 64 ->
  exists q', queue_call op q = Some (fst (list_call (capacity_ q) op l), q') /\
    represents q' (snd (list_call (capacity_ q) op l)) /\ capacity_ q' = capacity_ q /\ tail_ q' <= tail_ q + 1.
Proof.
  intros H Hw. pose proof H as [Hg Hp Hf _]. destruct op as [x| | |]; cbn [queue_call list_call].
  - destruct (Z.ltb_spec (Z.of_nat (length l)) (capacity_ q)) as [Hlt|Hge].
    + destruct (mpsc_try_push_run q l x H Hw Hlt) as [E Hr]. rewrite E. exists (pushed q x). split_and!; done.
    + rewrite (try_push_full q l x H) by lia. exists q. split_and!; (done || cbn; lia).
  - destruct l as [|x l].
    + rewrite try_pop_empty by done. exists q. split_and!; (done || lia).
    + destruct (mpsc_try_pop_run q x l H) as [E Hr]. rewrite E. exists (popped q). split_and!; (done || cbn; lia).
  - exists q. split_and!; try done; [|lia]. unfold size. destruct (Z.leb_spec (head_ q) (tail_ q)); [|lia].
    rewrite wrap_small by (unfold in_width; lia). cbn. do 3 f_equal. lia.
  - exists q. split_and!; try done; [|lia]. unfold empty.
    assert ((tail_ q <=? head_ q) = bool_decide (length l = 0%nat)) as ->; [|done].
    destruct (Z.leb_spec (tail_ q) (head_ q)); symmetry;
      [apply bool_decide_eq_true_2|apply bool_decide_eq_false_2]; lia.
Qed.

(** C32: Used by one thread at a time, a queue constructed for [n] values is a
    bounded first-in first-out list of [capacity] values, the least power of two
    that is at least [n]: any sequence of pushes, pops and queries, fewer than
    2^64 of them, gives exactly the results of the list, no call looks outside
    the buffer, and the slots outside the queue are empty. *)
Theorem mpsc_refines_queue n ops :
  0 <= n <= 2 ^ 63 -> Z.of_nat (length ops) < 2 ^ 64 ->
  let cap := capacity (MpscQueue_new n) in
  exists q, queue_calls ops (MpscQueue_new n) = Some (fst (list_calls cap ops []), q) /\
    represents q (snd (list_calls cap ops [])) /\ capacity q = cap /\
    (n = 0 /\ cap = 1 \/ n <= cap < 2 * n).
Proof.
  intros Hn Hb. cbv zeta.
  assert (n = 0 /\ capacity (MpscQueue_new n) = 1 \/ n <= capacity (MpscQueue_new n) < 2 * n) as Hcap.
  { cbn [capacity MpscQueue_new capacity_]. destruct (decide (n = 0)) as [->|]; [by left|right].
    apply round_up_bounds. lia. }
  assert (forall ops q l, represents q l -> tail_ q + Z.of_nat (length ops) < 2 ^ 64 ->
    exists q', queue_calls ops q = Some (fst (list_calls (capacity_ q) ops l), q') /\
      represents q' (snd (list_calls (capacity_ q) ops l)) /\ capacity_ q' = capacity_ q) as Hrun.
  { clear. induction ops as [|op ops IH]; intros q l H Hw; cbn [queue_calls list_calls length] in *; [by exists q|].
    destruct (queue_call_refines op q l H) as (q1 & E1 & H1 & K1 & W1); [lia|].
    destruct (IH q1 _ H1) as (q2 & E2 & H2 & K2); [lia|]. rewrite K1 in *.
    rewrite E1. cbn [mbind option_bind]. rewrite E2. cbn [mbind option_bind]. exists q2.
    destruct (list_call _ _ _) as [o k]. cbn [fst snd] in *. by destruct (list_calls _ _ _). }
  destruct (Hrun ops (MpscQueue_new n) [] (new_represents n Hn)) as (q & E & H & K); [cbn; lia|].
  exists q. split_and!; done.
Qed.
End Queue.
Arguments MpscQueue : clear implicits.
Arguments producer : clear implicits.
Arguments consumer : clear implicits.
Arguments queue_op : clear implicits.
Arguments queue_out : clear implicits.

Definition demo_calls : list (queue_op Z) :=
  [QPush 1; QPush 2; QSize; QPush 3; QPop; QPush 4; QPop; QPop; QEmpty; QPop].

Lemma mpsc_refines_queue_witness :
  exists q, queue_calls demo_calls (MpscQueue_new 2) =
      Some ([QBool true; QBool true; QCount 2; QBool false; QValue (Some 1); QBool true; QValue (Some 2);
             QValue (Some 4); QBool true; QValue None], q) /\
    represents q [] /\ capacity q = 2 /\ (2 = 0 /\ 2 = 1 \/ 2 <= 2 < 2 * 2).
Proof. apply (mpsc_refines_queue 2 demo_calls); [lia|reflexivity]. Defined.
