(* ===== verification/MpscThreads.v ===== *)
(** * MpscThreads: producers and the consumer interleaved

    Any number of producer threads and one consumer thread share a queue; a
    schedule picks the thread that takes its next step, and a load reads the
    latest value.  The record of a run keeps three logs: the pushes in the order
    of their successful compare-and-swaps, the pushes that returned [true], and
    the popped values.  The slots are plain objects, so these runs are what the
    program does only as long as no two accesses to a slot race: MpscRaces adds
    the check that ends a run at its first race. *)
From S2P Require Import Prelude BitOps Fifo RingSlots MpscQueue.

Section Threads.
Context {A : Type}.
Implicit Types (q : MpscQueue A) (p : producer A).

Record config := mkConfig {
  queue : MpscQueue A;
  producers : list (producer A);
  popper : consumer A;
  claimed : list (nat * A);
  accepted : list (nat * A);
  delivered : list A;
}.

Inductive action : Type :=
  | Push (i : nat) (x : A)             (* thread [i] calls [try_push] *)
  | Produce (i : nat) (weak : bool)    (* thread [i] takes its next step *)
  | Pop                                (* the consumer calls [try_pop] *)
  | Consume.                           (* the consumer takes its next step *)

Definition claim_of (i : nat) p (p' : producer A) : list (nat * A) :=
  match p, p' with Claiming _ _, Writing x _ => [(i, x)] | _, _ => [] end.

Definition accept_of (i : nat) p (r : option bool) : list (nat * A) :=
  match p, r with Writing x _, Some true => [(i, x)] | _, _ => [] end.

Definition deliver_of (r : option (option A)) : list A :=
  match r with Some (Some x) => [x] | _ => [] end.

Definition act (a : action) (c : config) : option config :=
  match a with
  | Push i x =>
      match c.(producers) !! i with
      | Some Idle =>
          Some (mkConfig c.(queue) (<[i := push_start x c.(queue)]> c.(producers))
                  c.(popper) c.(claimed) c.(accepted) c.(delivered))
      | _ => None
      end
  | Produce i weak =>
      p ← c.(producers) !! i;
      '(p', r, q) ← producer_step weak p c.(queue);
      Some (mkConfig q (<[i := p']> c.(producers)) c.(popper)
              (c.(claimed) ++ claim_of i p p') (c.(accepted) ++ accept_of i p r) c.(delivered))
  | Pop =>
      match c.(popper) with
      | Waiting =>
          Some (mkConfig c.(queue) c.(producers) (pop_start c.(queue))
                  c.(claimed) c.(accepted) c.(delivered))
      | _ => None
      end
  | Consume =>
      '(k, r, q) ← consumer_step c.(popper) c.(queue);
      Some (mkConfig q c.(producers) k c.(claimed) c.(accepted)
              (c.(delivered) ++ deliver_of r))
  end.

Fixpoint run (sched : list action) (c : config) : option config :=
  match sched with
  | [] => Some c
  | a :: sched => c' ← act a c; run sched c'
  end.

Definition initial (n : Z) (threads : nat) : config :=
  mkConfig (MpscQueue_new n) (replicate threads Idle) Waiting [] [] [].

(** ** The invariant *)
Definition in_flight (i : nat) (ps : list (producer A)) : list (nat * A) :=
  match ps !! i with Some (Writing x _) => [(i, x)] | _ => [] end.

Definition of_thread (i : nat) (log : list (nat * A)) : list (nat * A) :=
  filter (fun e => e.1 = i) log.

Lemma of_thread_snoc i log j x :
  of_thread i (log ++ [(j, x)]) = of_thread i log ++ (if decide (j = i) then [(j, x)] else []).
Proof. unfold of_thread. by rewrite filter_app. Qed.

Definition producer_ok (c : config) (i : nat) p : Prop :=
  match p with
  | Idle => True
  | Looping _ t => 0 <= t <= c.(queue).(tail_)
  | Claiming _ t => 0 <= t <= c.(queue).(tail_) /\ t - c.(queue).(head_) < c.(queue).(capacity_)
  | Writing x t =>
      c.(queue).(head_) <= t /\ c.(claimed) !! Z.to_nat t = Some (i, x) /\
      at_pos c.(queue) t = None /\ forall y, c.(popper) <> Taken t y
  end.

Definition popper_ok (c : config) : Prop :=
  match c.(popper) with
  | Waiting => True
  | Loaded h => h = c.(queue).(head_)
  | Inspecting h t => h = c.(queue).(head_) /\ t <= c.(queue).(tail_)
  | Moving h => (h = c.(queue).(head_) /\ h < c.(queue).(tail_)) /\ is_Some (at_pos c.(queue) h)
  | Clearing h x => (h = c.(queue).(head_) /\ h < c.(queue).(tail_)) /\ at_pos c.(queue) h = Some x
  | Taken h x =>
      h = c.(queue).(head_) /\ at_pos c.(queue) h = None /\
      exists i, c.(claimed) !! Z.to_nat h = Some (i, x)
  end.

Record threads_inv (c : config) : Prop := {
  ti_geo : geometry c.(queue);
  ti_pos : 0 <= c.(queue).(head_) <= c.(queue).(tail_) /\
           c.(queue).(tail_) - c.(queue).(head_) <= c.(queue).(capacity_);
  ti_log : c.(queue).(tail_) = Z.of_nat (length c.(claimed));
  ti_delivered : c.(delivered) = snd <$> take (Z.to_nat c.(queue).(head_)) c.(claimed);
  ti_free : forall pos, c.(queue).(tail_) <= pos < c.(queue).(head_) + c.(queue).(capacity_) ->
            at_pos c.(queue) pos = None;
  ti_held : forall pos i x, c.(queue).(head_) <= pos ->
            c.(claimed) !! Z.to_nat pos = Some (i, x) ->
            at_pos c.(queue) pos = Some x \/
            (at_pos c.(queue) pos = None /\
             (c.(producers) !! i = Some (Writing x pos) \/ c.(popper) = Taken pos x));
  ti_producers : forall i p, c.(producers) !! i = Some p -> producer_ok c i p;
  ti_popper : popper_ok c;
  ti_own : forall i, of_thread i c.(claimed) =
                     of_thread i c.(accepted) ++ in_flight i c.(producers);
}.

Lemma in_flight_insert_ne i j p ps : i <> j -> in_flight j (<[i := p]> ps) = in_flight j ps.
Proof. intros H. unfold in_flight. by rewrite list_lookup_insert_ne. Qed.

Lemma in_flight_insert_eq i p ps :
  (i < length ps)%nat ->
  in_flight i (<[i := p]> ps) = match p with Writing x _ => [(i, x)] | _ => [] end.
Proof. intros H. unfold in_flight. by rewrite list_lookup_insert_eq. Qed.

Definition not_writing p : Prop := match p with Writing _ _ => False | _ => True end.

Lemma threads_initial_inv n threads : 0 <= n <= 2 ^ 63 -> threads_inv (initial n threads).
Proof.
  intros Hn. pose proof (new_geometry (A := A) n Hn) as Hg. pose proof (ge_cap_pos _ Hg).
  split; cbn [initial queue producers popper claimed accepted delivered]; try done.
  - cbn [MpscQueue_new head_ tail_]. lia.
  - intros pos _. by apply new_slots.
  - intros i p [-> _]%lookup_replicate. done.
  - intros i. unfold in_flight. destruct (replicate threads Idle !! i) eqn:E; [|done].
    by apply lookup_replicate in E as [-> _].
Qed.

(** A step of producer [i] that changes neither the queue nor the logs. *)
Lemma producer_local c i p p' :
  threads_inv c -> c.(producers) !! i = Some p -> not_writing p -> not_writing p' ->
  producer_ok c i p' ->
  threads_inv (mkConfig c.(queue) (<[i := p']> c.(producers)) c.(popper)
                 c.(claimed) c.(accepted) c.(delivered)).
Proof.
  intros [Hg Hp Hl Hd Hf Hh Hps Hk Ho] Ei Hw Hw' Hok. pose proof (lookup_lt_Some _ _ _ Ei) as Hi.
  split; cbn [queue producers popper claimed accepted delivered]; try done.
  - intros pos j x Hpos Ej. destruct (Hh pos j x Hpos Ej) as [|[E [Hj|]]]; [by left| |by auto].
    right. split; [done|]. left. rewrite list_lookup_insert_ne; [done|].
    intros ->. rewrite Ei in Hj. injection Hj as ->. done.
  - intros j p0 Ej. destruct (decide (i = j)) as [->|Hij].
    + rewrite list_lookup_insert_eq in Ej by done. injection Ej as <-. by destruct p'.
    + rewrite list_lookup_insert_ne in Ej by done. by apply (Hps j) in Ej; destruct p0.
  - intros j. rewrite Ho. f_equal. destruct (decide (i = j)) as [->|Hij].
    + rewrite in_flight_insert_eq by done. unfold in_flight. rewrite Ei. by destruct p, p'.
    + by rewrite in_flight_insert_ne.
Qed.

(** A step of the consumer that changes neither the queue nor the logs. *)
Lemma threads_popper_local c k :
  threads_inv c -> (forall h x, c.(popper) <> Taken h x) -> (forall h x, k <> Taken h x) ->
  popper_ok (mkConfig c.(queue) c.(producers) k c.(claimed) c.(accepted) c.(delivered)) ->
  threads_inv (mkConfig c.(queue) c.(producers) k c.(claimed) c.(accepted) c.(delivered)).
Proof.
  intros [Hg Hp Hl Hd Hf Hh Hps Hk Ho] Hn Hn' Hok.
  split; cbn [queue producers popper claimed accepted delivered]; try done.
  - intros pos j x Hpos Ej. destruct (Hh pos j x Hpos Ej) as [|[E [Hj|E']]]; [by auto..|].
    by destruct (Hn pos x).
  - intros j p Ej. apply Hps in Ej. destruct p as [|? ?|? ?|y t]; cbn in *; [done..|].
    destruct Ej as (? & ? & ? & _). done.
Qed.

Lemma claimed_app c pos i x e :
  threads_inv c -> 0 <= pos -> (c.(claimed) ++ [e]) !! Z.to_nat pos = Some (i, x) ->
  (pos < c.(queue).(tail_) /\ c.(claimed) !! Z.to_nat pos = Some (i, x)) \/
  (pos = c.(queue).(tail_) /\ e = (i, x)).
Proof.
  intros H Hpos E. pose proof (ti_log c H). pose proof (lookup_lt_Some _ _ _ E) as Hlt.
  rewrite length_app in Hlt. cbn in Hlt. destruct (decide (pos = tail_ (queue c))) as [->|].
  - right. split; [done|]. rewrite lookup_app_r in E by lia.
    replace (_ - _)%nat with 0%nat in E by lia. by injection E.
  - left. split; [lia|]. by rewrite lookup_app_l in E by lia.
Qed.

(** The compare-and-swap succeeds: producer [i] owns the tail position. *)
Lemma producer_claim c i x t :
  threads_inv c -> c.(producers) !! i = Some (Claiming x t) -> c.(queue).(tail_) = t ->
  let q := c.(queue) in
  threads_inv (mkConfig (mkMpscQueue q.(capacity_) q.(mask_) q.(head_) (t + 1) q.(buffer_))
                 (<[i := Writing x t]> c.(producers)) c.(popper)
                 (c.(claimed) ++ [(i, x)]) c.(accepted) c.(delivered)).
Proof.
  intros H Ei Et q. subst q. pose proof (lookup_lt_Some _ _ _ Ei) as Hi.
  pose proof (ti_producers c H i _ Ei) as [Ht Hc]. pose proof (claimed_app c) as Happ.
  destruct H as [Hg Hp Hl Hd Hf Hh Hps Hk Ho] eqn:EH. clear EH.
  assert (forall pos, at_pos (mkMpscQueue (capacity_ (queue c)) (mask_ (queue c))
    (head_ (queue c)) (t + 1) (buffer_ (queue c))) pos = at_pos (queue c) pos) as Hat by done.
  split; cbn [queue producers popper claimed accepted delivered capacity_ mask_ head_ tail_ buffer_].
  - by destruct Hg.
  - lia.
  - rewrite length_app. cbn. lia.
  - rewrite take_app_le by lia. done.
  - intros pos Hpos. rewrite Hat. apply Hf. lia.
  - intros pos j y Hpos Ej. rewrite Hat.
    destruct (Happ pos j y (i, x) H ltac:(lia) Ej) as [[Hlt E]|[-> [= <- <-]]].
    + destruct (Hh pos j y Hpos E) as [|[E0 [Hj|]]]; [by auto| |by auto].
      right. split; [done|]. left. rewrite list_lookup_insert_ne; [done|]. intros ->. congruence.
    + right. split; [apply Hf; lia|]. left. by rewrite list_lookup_insert_eq, Et.
  - intros j p Ej. destruct (decide (i = j)) as [->|Hij].
    + rewrite list_lookup_insert_eq in Ej by done. injection Ej as <-. cbn. rewrite Hat.
      split_and!; [lia| |apply Hf; lia|].
      * rewrite lookup_app_r by lia. by replace (_ - _)%nat with 0%nat by lia.
      * intros y E. unfold popper_ok in Hk. rewrite E in Hk. destruct Hk as (E1 & _ & k & E2).
        apply lookup_lt_Some in E2. lia.
    + rewrite list_lookup_insert_ne in Ej by done. apply Hps in Ej.
      destruct p as [|? ?|? ?|y s]; cbn in *; [done|lia|lia|]. rewrite Hat.
      destruct Ej as (? & E & ? & ?). split_and!; try done.
      rewrite lookup_app_l; [done|]. by apply lookup_lt_Some in E.
  - unfold popper_ok in *. cbn [queue popper claimed head_ tail_]. destruct (popper c); try done; [lia|split; [lia|apply Hk]|split; [lia|apply Hk]|].
    destruct Hk as (? & ? & k & E). split_and!; try done. exists k.
    rewrite lookup_app_l; [done|]. by apply lookup_lt_Some in E.
  - intros j. rewrite of_thread_snoc, Ho, <- app_assoc. f_equal.
    destruct (decide (i = j)) as [->|Hij].
    + rewrite in_flight_insert_eq by done. unfold in_flight. by rewrite Ei.
    + rewrite in_flight_insert_ne by done. apply app_nil_r.
Qed.

(** The claimed slot is written and the call returns [true]. *)
Lemma producer_write c i x t :
  threads_inv c -> c.(producers) !! i = Some (Writing x t) ->
  threads_inv (mkConfig (write_slot c.(queue) t (Some x)) (<[i := Idle]> c.(producers)) c.(popper)
                 c.(claimed) (c.(accepted) ++ [(i, x)]) c.(delivered)).
Proof.
  intros [Hg Hp Hl Hd Hf Hh Hps Hk Ho] Ei. pose proof (lookup_lt_Some _ _ _ Ei) as Hi.
  destruct (Hps i _ Ei) as (Hht & Et & En & Hnt). pose proof (lookup_lt_Some _ _ _ Et).
  split; cbn [queue producers popper claimed accepted delivered];
    change (head_ (write_slot ?q _ _)) with (head_ q);
    change (tail_ (write_slot ?q _ _)) with (tail_ q);
    change (capacity_ (write_slot ?q _ _)) with (capacity_ q); try done.
  - by apply write_slot_geometry.
  - intros pos Hpos. rewrite at_pos_write_ne by (done || lia). by apply Hf.
  - intros pos j y Hpos Ej. destruct (decide (pos = t)) as [->|].
    + rewrite at_pos_write_eq by done. rewrite Et in Ej. injection Ej as <- <-. by left.
    + pose proof (lookup_lt_Some _ _ _ Ej). rewrite at_pos_write_ne by (done || lia).
      destruct (Hh pos j y Hpos Ej) as [|[E0 [Hj|]]]; [by auto| |by auto].
      right. split; [done|]. left. rewrite list_lookup_insert_ne; [done|]. intros ->. congruence.
  - intros j p Ej. destruct (decide (i = j)) as [->|Hij].
    + rewrite list_lookup_insert_eq in Ej by done. by injection Ej as <-.
    + rewrite list_lookup_insert_ne in Ej by done. apply Hps in Ej.
      destruct p as [|? ?|? ?|y s]; cbn in *; [done|done|done|].
      destruct Ej as (? & E & ? & ?). split_and!; try done.
      pose proof (lookup_lt_Some _ _ _ E). rewrite at_pos_write_ne; [done|done|].
      assert (s <> t) by congruence. lia.
  - unfold popper_ok in *. cbn [queue popper claimed].
    change (head_ (write_slot ?q _ _)) with (head_ q).
    change (tail_ (write_slot ?q _ _)) with (tail_ q).
    destruct (popper c) as [| | |h|h y|h y] eqn:E; try done.
    1,2: destruct Hk as [[Eh ?] Hx]; split; [done|];
      assert (h <> t) by (intros E'; rewrite E', En in Hx; by naive_solver);
      rewrite at_pos_write_ne; (done || lia).
    destruct Hk as (? & ? & k & E2). pose proof (lookup_lt_Some _ _ _ E2).
    assert (h <> t) by (intros ->; by destruct (Hnt y)).
    split_and!; [done| |by exists k]. rewrite at_pos_write_ne; (done || lia).
  - intros j. rewrite of_thread_snoc, Ho, <- app_assoc. f_equal.
    destruct (decide (i = j)) as [->|Hij].
    + rewrite in_flight_insert_eq by done. unfold in_flight. by rewrite Ei.
    + by rewrite in_flight_insert_ne by done.
Qed.
(** The consumer resets the slot whose value it has moved out. *)
Lemma popper_take c h x :
  threads_inv c -> c.(popper) = Clearing h x ->
  threads_inv (mkConfig (write_slot c.(queue) h None) c.(producers) (Taken h x)
                 c.(claimed) c.(accepted) c.(delivered)).
Proof.
  intros [Hg Hp Hl Hd Hf Hh Hps Hk Ho] Ec. pose proof Hk as Hk0.
  unfold popper_ok in Hk0. rewrite Ec in Hk0. destruct Hk0 as [[-> Ht] Ex].
  split; cbn [queue producers popper claimed accepted delivered];
    change (head_ (write_slot ?q _ _)) with (head_ q);
    change (tail_ (write_slot ?q _ _)) with (tail_ q);
    change (capacity_ (write_slot ?q _ _)) with (capacity_ q); try done.
  - by apply write_slot_geometry.
  - intros pos Hpos. rewrite at_pos_write_ne by (done || lia). by apply Hf.
  - intros pos j y Hpos Ej. destruct (decide (pos = head_ (queue c))) as [->|].
    + rewrite at_pos_write_eq by done. right. split; [done|]. right.
      destruct (Hh _ j y Hpos Ej) as [E|[E _]]; congruence.
    + pose proof (lookup_lt_Some _ _ _ Ej). rewrite at_pos_write_ne by (done || lia).
      destruct (Hh pos j y Hpos Ej) as [|[E0 [Hj|E1]]]; [by auto..|congruence].
  - intros j p Ej. apply Hps in Ej. destruct p as [|? ?|? ?|y s]; cbn in *; [done..|].
    destruct Ej as (? & E & ? & _). assert (s <> head_ (queue c)) by congruence.
    pose proof (lookup_lt_Some _ _ _ E). split_and!; [done|done| |congruence].
    rewrite at_pos_write_ne; (done || lia).
  - unfold popper_ok. cbn [queue popper claimed].
    change (head_ (write_slot ?q _ _)) with (head_ q).
    split; [done|]. split; [by apply at_pos_write_eq|].
    destruct (claimed c !! Z.to_nat (head_ (queue c))) as [[j y]|] eqn:E.
    + exists j. destruct (Hh (head_ (queue c)) j y ltac:(lia) E) as [|[]]; congruence.
    + apply lookup_ge_None in E. lia.
Qed.

(** The consumer publishes the new head and returns the value. *)
Lemma threads_popper_publish c h x :
  threads_inv c -> c.(popper) = Taken h x ->
  let q := c.(queue) in
  threads_inv (mkConfig (mkMpscQueue q.(capacity_) q.(mask_) (h + 1) q.(tail_) q.(buffer_))
                 c.(producers) Waiting c.(claimed) c.(accepted) (c.(delivered) ++ [x])).
Proof.
  intros [Hg Hp Hl Hd Hf Hh Hps Hk Ho] Ec q. subst q.
  unfold popper_ok in Hk. rewrite Ec in Hk. destruct Hk as (-> & En & k & Ek).
  pose proof (lookup_lt_Some _ _ _ Ek) as Hlt.
  assert (forall pos, at_pos (mkMpscQueue (capacity_ (queue c)) (mask_ (queue c))
    (head_ (queue c) + 1) (tail_ (queue c)) (buffer_ (queue c))) pos = at_pos (queue c) pos) as Hat by done.
  split; cbn [queue producers popper claimed accepted delivered capacity_ mask_ head_ tail_ buffer_].
  - by destruct Hg.
  - lia.
  - done.
  - replace (Z.to_nat (head_ (queue c) + 1)) with (S (Z.to_nat (head_ (queue c)))) by lia.
    by rewrite (take_S_r _ _ _ Ek), fmap_app, Hd.
  - intros pos Hpos. rewrite Hat.
    destruct (decide (pos = head_ (queue c) + capacity_ (queue c))) as [->|].
    + by rewrite at_pos_period.
    + apply Hf. lia.
  - intros pos j y Hpos Ej. rewrite Hat.
    destruct (Hh pos j y ltac:(lia) Ej) as [|[E0 [Hj|E1]]]; [by auto..|].
    rewrite Ec in E1. injection E1. lia.
  - intros j p Ej. apply Hps in Ej. destruct p as [|? ?|? ?|y s]; cbn in *; [done|done|lia|].
    destruct Ej as (? & E & ? & Hn). rewrite Hat. split_and!; try done.
    assert (s <> head_ (queue c)) by (intros ->; by destruct (Hn x)). lia.
  - done.
  - done.
Qed.

(** ** Every step preserves the invariant *)
Lemma threads_produce_inv i weak c c' :
  threads_inv c -> c.(queue).(tail_) + 1 < 2 ^ 64 -> act (Produce i weak) c = Some c' ->
  threads_inv c' /\ capacity_ (queue c') = capacity_ (queue c) /\
  (length (claimed c') <= S (length (claimed c)))%nat.
Proof.
  intros H Hw. pose proof (ti_pos c H). pose proof (ge_cap_pos _ (ti_geo c H)). cbn [act].
  destruct (producers c !! i) as [p|] eqn:Ei; [|done]. cbn [mbind option_bind].
  pose proof (ti_producers c H i p Ei) as Hok.
  destruct p as [|x t|x t|x t]; cbn [producer_step producer_ok] in *; [done|..].
  - destruct (Z.leb_spec (capacity_ (queue c)) (u64 (t - head_ (queue c)))) as [|Hlt];
      cbn [mbind option_bind claim_of accept_of]; intros [= <-]; rewrite !app_nil_r;
      (split; [|cbn; split; [done|lia]]);
      apply (producer_local c i (Looping x t)); try (done || cbn; lia).
    cbn. destruct (decide (t < head_ (queue c))); [lia|].
    rewrite wrap_small in Hlt by (unfold in_width; lia). lia.
  - destruct (Z.eqb_spec (tail_ (queue c)) t) as [Et|]; [destruct weak|]; cbn [negb andb];
      cbn [mbind option_bind claim_of accept_of]; intros [= <-]; rewrite ?app_nil_r.
    2: { rewrite wrap_small by (unfold in_width; lia).
         split; [by apply producer_claim|cbn; rewrite length_app; cbn; split; [done|lia]]. }
    all: (split; [|cbn; split; [done|lia]]);
      apply (producer_local c i (Claiming x t)); (done || cbn; lia).
  - rewrite ge_assign by (apply H || lia). cbn [mbind option_bind claim_of accept_of].
    intros [= <-]. rewrite app_nil_r. split; [by apply (producer_write c i x t)|cbn; split; [done|lia]].
Qed.

Lemma threads_consume_inv c c' :
  threads_inv c -> c.(queue).(tail_) + 1 < 2 ^ 64 -> act Consume c = Some c' ->
  threads_inv c' /\ capacity_ (queue c') = capacity_ (queue c) /\
  (length (claimed c') <= S (length (claimed c)))%nat.
Proof.
  intros H Hw. pose proof (ti_pos c H). pose proof (ge_cap_pos _ (ti_geo c H)).
  pose proof (ti_popper c H) as Hk. unfold popper_ok in Hk. cbn [act].
  destruct (popper c) as [|h|h t|h|h x|h x] eqn:Ec; cbn [consumer_step]; [done|..].
  - cbn [mbind option_bind deliver_of]. intros [= <-]. rewrite app_nil_r.
    split; [|cbn; split; [done|lia]]. apply threads_popper_local; try done; by rewrite Ec.
  - destruct (Z.leb_spec t h).
    { cbn [mbind option_bind deliver_of]. intros [= <-]. rewrite app_nil_r.
      split; [|cbn; split; [done|lia]]. apply threads_popper_local; try done; by rewrite Ec. }
    rewrite ge_index by (apply H || lia). cbn [mbind option_bind].
    destruct (at_pos (queue c) h) as [x|] eqn:Ex;
      cbn [mbind option_bind deliver_of]; intros [= <-]; rewrite app_nil_r;
      (split; [|cbn; split; [done|lia]]); apply threads_popper_local; try done; try (by rewrite Ec).
    unfold popper_ok. cbn [popper queue]. destruct Hk as [-> ?]. rewrite Ex. split; [split; [done|lia]|done].
  - destruct Hk as [[-> ?] [x Ex]]. rewrite ge_index by (apply H || lia). rewrite Ex.
    cbn [mbind option_bind deliver_of]. intros [= <-]. rewrite app_nil_r.
    split; [|cbn; split; [done|lia]]. apply threads_popper_local; try done; by rewrite Ec.
  - destruct Hk as [[-> ?] Ex]. rewrite ge_assign by (apply H || lia).
    cbn [mbind option_bind deliver_of]. intros [= <-]. rewrite app_nil_r.
    split; [by apply popper_take|cbn; split; [done|lia]].
  - cbn [mbind option_bind deliver_of]. intros [= <-].
    destruct Hk as (-> & _ & k & Ek%lookup_lt_Some).
    rewrite wrap_small by (unfold in_width; lia).
    split; [by apply threads_popper_publish|cbn; split; [done|lia]].
Qed.

Lemma threads_act_inv a c c' :
  threads_inv c -> c.(queue).(tail_) + 1 < 2 ^ 64 -> act a c = Some c' ->
  threads_inv c' /\ capacity_ (queue c') = capacity_ (queue c) /\
  (length (claimed c') <= S (length (claimed c)))%nat.
Proof.
  intros H Hw. pose proof (ti_pos c H).
  destruct a as [i x|i weak| |]; [|by apply threads_produce_inv| |by apply threads_consume_inv]; cbn [act].
  - destruct (producers c !! i) as [[]|] eqn:Ei; try done. intros [= <-].
    split; [|cbn; split; [done|lia]]. apply (producer_local c i Idle); (done || cbn; lia).
  - destruct (popper c) eqn:Ec; try done. intros [= <-]. split; [|cbn; split; [done|lia]].
    apply threads_popper_local; try done; by rewrite Ec.
Qed.

Lemma threads_run_inv sched c c' :
  threads_inv c -> c.(queue).(tail_) + Z.of_nat (length sched) < 2 ^ 64 ->
  run sched c = Some c' -> threads_inv c' /\ capacity_ (queue c') = capacity_ (queue c).
Proof.
  revert c. induction sched as [|a sched IH]; intros c H Hw; cbn [run length] in *.
  { by intros [= <-]. }
  destruct (act a c) as [c1|] eqn:E; cbn [mbind option_bind]; [|done]. intros Er.
  destruct (threads_act_inv a c c1 H ltac:(lia) E) as (H1 & Hc & Hl).
  rewrite <- Hc. apply (IH c1); [done| |done].
  pose proof (ti_log c H). pose proof (ti_log c1 H1). lia.
Qed.

(** A step claims at most one position. *)
Lemma claims_bound sched c c' :
  run sched c = Some c' -> (length (claimed c') <= length (claimed c) + length sched)%nat.
Proof.
  revert c. induction sched as [|a sched IH]; intros c; cbn [run length]; [intros [= <-]; lia|].
  destruct (act a c) as [c1|] eqn:E; cbn [mbind option_bind]; [|done]. intros Er.
  apply IH in Er. enough (length (claimed c1) <= S (length (claimed c)))%nat by lia.
  destruct a as [i x|i weak| |]; cbn [act] in E.
  - destruct (producers c !! i) as [[]|]; try done. injection E as <-. cbn. lia.
  - destruct (producers c !! i) as [p|]; [|done]. cbn [mbind option_bind] in E.
    destruct (producer_step weak p (queue c)) as [[[p' r] q]|]; [|done]. injection E as <-.
    cbn [claimed]. rewrite length_app. destruct p, p'; cbn; lia.
  - destruct (popper c); try done. injection E as <-. cbn. lia.
  - destruct (consumer_step (popper c) (queue c)) as [[[k r] q]|]; [|done]. injection E as <-. cbn. lia.
Qed.

(** A thread inside a call can always take its next step: no access is out of range. *)
Lemma threads_act_defined c :
  threads_inv c ->
  (forall i p weak, c.(producers) !! i = Some p -> p <> Idle -> is_Some (act (Produce i weak) c)) /\
  (c.(popper) <> Waiting -> is_Some (act Consume c)).
Proof.
  intros H. pose proof (ti_pos c H). split.
  - intros i p weak Ei Hp. pose proof (ti_producers c H i p Ei) as Hok. cbn [act]. rewrite Ei.
    cbn [mbind option_bind].
    destruct p as [|x t|x t|x t]; cbn [producer_step producer_ok] in *; [done|..].
    1,2: case_match; by eexists.
    rewrite ge_assign by (apply H || lia). by eexists.
  - intros Hn. cbn [act]. pose proof (ti_popper c H) as Hk. unfold popper_ok in Hk.
    destruct (popper c) as [|h|h t|h|h x|h x]; cbn [consumer_step]; [done|by eexists| | | |by eexists].
    + destruct (t <=? h); [by eexists|]. rewrite ge_index by (apply H || lia). cbn [mbind option_bind].
      by destruct (at_pos (queue c) h); eexists.
    + destruct Hk as [[-> ?] [x Ex]]. rewrite ge_index, Ex by (apply H || lia). by eexists.
    + destruct Hk as [[-> ?] Ex]. rewrite ge_assign by (apply H || lia). by eexists.
Qed.

(** Between calls the queue holds exactly what was claimed and not delivered. *)
Lemma quiescent c :
  threads_inv c -> c.(queue).(tail_) < 2 ^ 64 -> Forall (fun p => p = Idle) c.(producers) ->
  c.(popper) = Waiting ->
  represents c.(queue) (snd <$> drop (Z.to_nat c.(queue).(head_)) c.(claimed)).
Proof.
  intros [Hg Hp Hl Hd Hf Hh Hps Hk Ho] Hw Hi Ec.
  assert (length (snd <$> drop (Z.to_nat (head_ (queue c))) (claimed c)) =
          Z.to_nat (tail_ (queue c) - head_ (queue c))) as Hlen.
  { rewrite length_fmap, length_drop. lia. }
  split; [done|rewrite Hlen; lia|rewrite Hlen; lia|]. intros i Hlt.
  rewrite list_lookup_fmap, lookup_drop.
  destruct (claimed c !! (Z.to_nat (head_ (queue c)) + i)%nat) as [[j x]|] eqn:E.
  - replace (Z.to_nat (head_ (queue c)) + i)%nat
      with (Z.to_nat (head_ (queue c) + Z.of_nat i)) in E by lia.
    destruct (Hh (head_ (queue c) + Z.of_nat i) j x ltac:(lia) E) as [->|[_ [Hj|Hj]]]; [done| |congruence].
    by apply (Forall_lookup_1 _ _ _ _ Hi) in Hj.
  - apply lookup_ge_None in E. apply Hf. lia.
Qed.
Lemma of_thread_others i n (l : list (nat * A)) :
  of_thread i (filter (fun e => ~ e.1 = n) l) = if decide (i = n) then [] else of_thread i l.
Proof.
  unfold of_thread. induction l as [|e l IH]; [by case_decide|]. rewrite !filter_cons.
  repeat case_decide; rewrite ?filter_cons; repeat case_decide; congruence.
Qed.

(** Logs with the same entries per thread are permutations of each other. *)
Lemma of_thread_permutation (l l' : list (nat * A)) :
  (forall i, of_thread i l = of_thread i l') -> l ≡ₚ l'.
Proof.
  assert (exists n, Forall (fun e => e.1 < n)%nat l /\ Forall (fun e => e.1 < n)%nat l') as (n & H & H').
  { exists (S (max_list (fst <$> (l ++ l')))). rewrite <- Forall_app.
    apply Forall_forall. intros e He. apply Nat.lt_succ_r, max_list_elem_of_le.
    by apply list_elem_of_fmap_2. }
  revert l l' H H'. induction n as [|n IH]; intros l l' H H' E.
  { destruct l as [|e l]; [|apply Forall_cons in H as [? _]; lia].
    destruct l' as [|e l']; [done|]. apply Forall_cons in H' as [? _]; lia. }
  rewrite <- (filter_app_complement (fun e => e.1 = n) l), <- (filter_app_complement (fun e => e.1 = n) l').
  change (filter (fun e => e.1 = n) ?k) with (of_thread n k). rewrite E. apply Permutation_app_head.
  assert (forall k : list (nat * A), Forall (fun e => e.1 < S n)%nat k ->
    Forall (fun e => e.1 < n)%nat (filter (fun e => ~ e.1 = n) k)) as Hlt.
  { intros k Hk. apply Forall_forall. intros e [Hn He]%list_elem_of_filter.
    rewrite Forall_forall in Hk. specialize (Hk e He). lia. }
  apply IH; [by apply Hlt..|]. intros i. by rewrite !of_thread_others, E.
Qed.

(** What an interleaving of producers and consumer leaves: the values are delivered
    in the order in which they were claimed, each once, there are never more than
    the capacity, every producer's values are claimed in the order of its calls,
    no thread inside a call is stuck, and between calls the queue holds the
    accepted values that were not delivered. *)
Lemma mpsc_interleaved n threads sched c :
  0 <= n <= 2 ^ 63 -> Z.of_nat (length sched) < 2 ^ 64 ->
  run sched (initial n threads) = Some c ->
  delivered c = snd <$> take (length (delivered c)) (claimed c) /\
  Z.of_nat (length (claimed c)) - Z.of_nat (length (delivered c)) <=
    capacity (MpscQueue_new (A := A) n) /\
  (forall i, of_thread i (claimed c) = of_thread i (accepted c) ++ in_flight i (producers c)) /\
  (forall i p weak, producers c !! i = Some p -> p <> Idle -> is_Some (act (Produce i weak) c)) /\
  (popper c <> Waiting -> is_Some (act Consume c)) /\
  (Forall (fun p => p = Idle) (producers c) -> popper c = Waiting ->
   fifo_inv (queue c) /\ delivered c ++ fifo_contents (queue c) ≡ₚ snd <$> accepted c).
Proof.
  intros Hn Hs Er. destruct (threads_run_inv sched (initial n threads) c) as [H Hc];
    [by apply threads_initial_inv|cbn; lia|done|].
  destruct (threads_act_defined c H) as [Hp Hk]. pose proof (ti_pos c H). pose proof (ti_log c H).
  assert (length (delivered c) = Z.to_nat (head_ (queue c))) as Hl.
  { rewrite (ti_delivered c H), length_fmap, length_take. lia. }
  split_and!; [by rewrite Hl; apply H| |apply H|done|done|].
  { change (capacity (MpscQueue_new n)) with (capacity_ (queue (initial n threads))). rewrite <- Hc. lia. }
  intros Hi Hw.
  assert (tail_ (queue c) < 2 ^ 64) as Ht.
  { pose proof (claims_bound sched _ _ Er) as Hb. cbn in Hb. lia. }
  pose proof (quiescent c H Ht Hi Hw) as Hr. split; [by eexists|].
  cbn [fifo_contents MpscQueue_fifo]. rewrite (represents_contents _ _ Hr), (ti_delivered c H).
  rewrite <- fmap_app, take_drop. apply fmap_Permutation, of_thread_permutation. intros i.
  rewrite (ti_own c H). unfold in_flight. destruct (producers c !! i) as [p|] eqn:Ei; [|apply app_nil_r].
  apply (Forall_lookup_1 _ _ _ _ Hi) in Ei as ->. apply app_nil_r.
Qed.

(** A push reports a full queue exactly when the queue is full as the caller
    sees it, or when the consumer has overtaken the caller's load of [tail_]:
    in the second case the report is spurious, and the queue may be empty. *)
Theorem mpsc_full_report_iff n threads sched c i x t weak c' :
  0 <= n <= 2 ^ 63 -> Z.of_nat (length sched) < 2 ^ 63 ->
  run sched (initial n threads) = Some c ->
  producers c !! i = Some (Looping x t) -> act (Produce i weak) c = Some c' ->
  (producers c' !! i = Some Idle <->
   t - head_ (queue c) = capacity (MpscQueue_new (A := A) n) \/ t < head_ (queue c)).
Proof.
  intros Hn Hs Er Ei Ea. destruct (threads_run_inv sched (initial n threads) c) as [H Hc];
    [by apply threads_initial_inv|cbn; lia|done|].
  pose proof (claims_bound sched _ _ Er) as Hb. cbn [initial claimed length] in Hb.
  pose proof (ti_pos c H). pose proof (ti_log c H). pose proof (ge_cap_pos _ (ti_geo c H)).
  pose proof (ti_producers c H i _ Ei) as Ht. cbn in Ht. pose proof (lookup_lt_Some _ _ _ Ei).
  cbn [act] in Ea. rewrite Ei in Ea. cbn [mbind option_bind producer_step] in Ea.
  change (capacity (MpscQueue_new n)) with (capacity_ (queue (initial n threads))). rewrite <- Hc. assert (t < head_ (queue c) \/ head_ (queue c) <= t) as [Hlt|Hge] by lia.
  - assert (u64 (t - head_ (queue c)) = 2 ^ 64 + (t - head_ (queue c))) as E.
    { unfold wrap. symmetry. apply (Z.mod_unique _ _ (-1)); lia. }
    rewrite E in Ea. destruct (Z.leb_spec (capacity_ (queue c)) (2 ^ 64 + (t - head_ (queue c)))); [|lia].
    injection Ea as <-. cbn [producers]. rewrite list_lookup_insert_eq by done. tauto.
  - rewrite wrap_small in Ea by (unfold in_width; lia).
    destruct (Z.leb_spec (capacity_ (queue c)) (t - head_ (queue c))); injection Ea as <-;
      cbn [producers]; rewrite list_lookup_insert_eq by done; [split; [lia|done]|split; [done|lia]].
Qed.
End Threads.
Arguments config : clear implicits.
Arguments action : clear implicits.

(** ** Runs that show the hazards *)
Definition solo_push (i : nat) (x : Z) : list (action Z) :=
  [Push i x; Produce i false; Produce i false; Produce i false].
Definition solo_pop : list (action Z) := [Pop; Consume; Consume; Consume; Consume; Consume].

(** Thread 0 loads [tail_], thread 1 pushes and the consumer pops: the queue is
    empty and thread 0 is told that it is full. *)
Definition overtaken : list (action Z) := [Push 0 10] ++ solo_push 1 20 ++ solo_pop.

Lemma mpsc_full_report_iff_witness :
  exists c c', run overtaken (initial 2 2) = Some c /\ act (Produce 0 false) c = Some c' /\
    empty (queue c) = true /\ producers c' !! 0%nat = Some Idle /\ accepted c' = [(1%nat, 20)].
Proof.
  destruct (run overtaken (initial 2 2)) as [c|] eqn:E; [|by vm_compute in E].
  destruct (act (Produce 0 false) c) as [c'|] eqn:E'.
  2: { exfalso. vm_compute in E. injection E as <-. by vm_compute in E'. }
  exists c, c'.
  assert (producers c !! 0%nat = Some (Looping 10 0) /\ head_ (queue c) = 1 /\
          empty (queue c) = true /\ accepted c' = [(1%nat, 20)]) as (Ep & Eh & Ee & Ea).
  { vm_compute in E. injection E as <-. vm_compute in E'. injection E' as <-. done. }
  split_and!; [done|done|done| |done].
  apply (mpsc_full_report_iff 2 2 overtaken c 0 10 0 false c'); [lia|reflexivity|exact E|exact Ep|exact E'|].
  right. rewrite Eh. reflexivity.
Defined.
