(* ===== verification/MpscRaces.v ===== *)
(** * MpscRaces: the order of the queue's accesses (core/mpsc_queue.hpp)

    The queue's slots are plain [std::optional]s, so two accesses to one slot by
    different threads must be ordered by the atomics, or the program is undefined.
    This file runs the interleavings of MpscThreads with the happens-before order
    of the source's memory orders, by vector clocks: each thread knows, for every
    thread, how many of that thread's slot accesses precede its own next step.  An
    acquire load or a successful compare-and-swap learns what was known at the
    releases it reads from, a release leaves what its thread knows, relaxed
    accesses order nothing.  A step that accesses a slot races when another thread
    accessed the slot before and the step does not know of it; a checked run
    ends, undefined, at its first race.

    The source publishes a position before it writes the slot, so the consumer
    knows of a write only by a later push of the same producer: what a checked
    run delivers is exact, and it never includes a producer's newest value. *)
From S2P Require Import Prelude BitOps Fifo RingSlots MpscQueue MpscThreads.

(** ** Clocks *)

(** Thread 0 is the consumer, thread [S i] the i-th producer. *)
Definition clock : Type := nat -> nat.

Definition join (a b : clock) : clock := fun t => Nat.max (a t) (b t).

(** An access to a slot: the slot, the thread, and its number among the thread's. *)
Record access := mkAccess { slot_of : Z; thread_of : nat; number : nat }.

Record views := mkViews {
  known : nat -> clock;        (* what each thread knows *)
  at_tail : clock;             (* what the last release on [tail_] left *)
  at_head : clock;             (* what the last release on [head_] left *)
  accesses : list access;
}.

Definition views_init : views := mkViews (fun _ _ => 0%nat) (fun _ => 0%nat) (fun _ => 0%nat) [].

Definition set_known (t : nat) (k : clock) (v : views) : views :=
  mkViews (fun u => if decide (u = t) then k else known v u) (at_tail v) (at_head v) (accesses v).

Definition acquire_tail (t : nat) (v : views) : views := set_known t (join (known v t) (at_tail v)) v.
Definition acquire_head (t : nat) (v : views) : views := set_known t (join (known v t) (at_head v)) v.

(** The compare-and-swap is [memory_order_acq_rel]. *)
Definition swap_tail (t : nat) (v : views) : views :=
  let v := acquire_tail t v in mkViews (known v) (known v t) (at_head v) (accesses v).
Definition release_head (t : nat) (v : views) : views :=
  mkViews (known v) (at_tail v) (known v t) (accesses v).

(** An earlier access that thread [t] does not know of. *)
Definition conflicts (t : nat) (slot : Z) (v : views) (a : access) : Prop :=
  slot_of a = slot /\ thread_of a <> t /\ (known v t (thread_of a) < number a)%nat.
#[global] Instance conflicts_dec t slot v a : Decision (conflicts t slot v a) := _.

Definition touch (t : nat) (slot : Z) (v : views) : option views :=
  if decide (Exists (conflicts t slot v) (accesses v)) then None else
  let n := S (known v t t) in
  Some (mkViews (known (set_known t (fun u => if decide (u = t) then n else known v t u) v))
          (at_tail v) (at_head v) (accesses v ++ [mkAccess slot t n])).

Section Races.
Context {A : Type}.
Implicit Types c : config A.

(** The order of a step, [None] when it races. *)
Definition order (a : action A) (c : config A) (v : views) : option views :=
  match a with
  | Push _ _ | Pop => Some v
  | Produce i weak =>
      match c.(producers) !! i with
      | Some (Looping _ _) => Some (acquire_head (S i) v)
      | Some (Claiming _ tail) =>
          Some (if (c.(queue).(tail_) =? tail) && negb weak then swap_tail (S i) v else v)
      | Some (Writing _ tail) => touch (S i) (Z.land tail c.(queue).(mask_)) v
      | _ => Some v
      end
  | Consume =>
      match c.(popper) with
      | Loaded _ => Some (acquire_tail 0 v)
      | Inspecting head tail =>
          if tail <=? head then Some v else touch 0 (Z.land head c.(queue).(mask_)) v
      | Moving head | Clearing head _ => touch 0 (Z.land head c.(queue).(mask_)) v
      | Taken _ _ => Some (release_head 0 v)
      | Waiting => Some v
      end
  end.

(** What becomes of a schedule: it is run to its end, or to its first race;
    undefined when it picks a thread that cannot take the step. *)
Inductive outcome : Type := Finished (c : config A) (v : views) | Raced (c : config A).

Fixpoint race_run (sched : list (action A)) (c : config A) (v : views) : option outcome :=
  match sched with
  | [] => Some (Finished c v)
  | a :: sched =>
      c' ← act a c;
      match order a c v with
      | Some v' => race_run sched c' v'
      | None => Some (Raced c)
      end
  end.

Lemma race_run_projects sched c v c' v' : race_run sched c v = Some (Finished c' v') -> run sched c = Some c'.
Proof.
  revert c v. induction sched as [|a sched IH]; intros c v; cbn [race_run run]; [by intros [= -> _]|].
  destruct (act a c) as [c1|]; cbn [mbind option_bind]; [|done].
  destruct (order a c v) as [v1|]; [apply IH|done].
Qed.

(** ** The invariant *)

(** How many positions producer [i] has claimed; its slot accesses are the writes
    of all of them but one it may be about to make. *)
Definition claims (i : nat) (log : list (nat * A)) : nat := length (of_thread i log).

(** The consumer is done with the slot of [pos]. *)
Definition passed (c : config A) (pos : nat) : Prop :=
  Z.of_nat pos < head_ (queue c) \/ exists y, popper c = Taken (Z.of_nat pos) y.

Record views_inv (c : config A) (v : views) : Prop := {
  vi_own : forall i, known v (S i) (S i) = claims i (accepted c);
  vi_known : forall t i, t <> S i -> (known v t (S i) <= pred (claims i (claimed c)))%nat;
  vi_tail : forall i, (at_tail v (S i) <= pred (claims i (claimed c)))%nat;
  vi_head : forall i, (at_head v (S i) <= pred (claims i (claimed c)))%nat;
  vi_last : forall i x t, producers c !! i = Some (Writing x t) ->
            claims i (drop (S (Z.to_nat t)) (claimed c)) = 0%nat;
  vi_written : forall pos i x, claimed c !! pos = Some (i, x) ->
            (forall y, producers c !! i <> Some (Writing y (Z.of_nat pos))) ->
            mkAccess (Z.land (Z.of_nat pos) (mask_ (queue c))) (S i) (claims i (take (S pos) (claimed c)))
              ∈ accesses v;
  vi_followed : forall pos i x, passed c pos -> claimed c !! pos = Some (i, x) ->
            (0 < claims i (drop (S pos) (claimed c)))%nat;
}.

Lemma claims_app i (l k : list (nat * A)) : claims i (l ++ k) = (claims i l + claims i k)%nat.
Proof. unfold claims, of_thread. by rewrite filter_app, length_app. Qed.

Lemma claims_one i j (x : A) : claims i [(j, x)] = if decide (j = i) then 1%nat else 0%nat.
Proof. unfold claims, of_thread. rewrite filter_cons. cbn [fst]. by repeat case_decide. Qed.

Lemma claims_split i n (l : list (nat * A)) : claims i l = (claims i (take n l) + claims i (drop n l))%nat.
Proof. by rewrite <- claims_app, take_drop. Qed.

Lemma claims_own c i : threads_inv c ->
  claims i (claimed c) = (claims i (accepted c) + length (in_flight i (producers c)))%nat.
Proof. intros H. unfold claims. by rewrite (ti_own c H), length_app. Qed.

Lemma in_flight_le i (ps : list (producer A)) : (length (in_flight i ps) <= 1)%nat.
Proof. unfold in_flight. destruct (ps !! i) as [[]|]; cbn; lia. Qed.

Lemma views_initial n threads : views_inv (initial n threads) views_init.
Proof. by split. Qed.

(** Steps that claim and write nothing. *)
Lemma views_same c c' v :
  views_inv c v -> claimed c' = claimed c -> accepted c' = accepted c -> mask_ (queue c') = mask_ (queue c) ->
  (forall i x t, producers c' !! i = Some (Writing x t) <-> producers c !! i = Some (Writing x t)) ->
  (forall pos i x, passed c' pos -> claimed c !! pos = Some (i, x) -> (0 < claims i (drop (S pos) (claimed c)))%nat) ->
  views_inv c' v.
Proof.
  intros [Ho Hk Ht Hh Hl Hw Hf] Ec Ea Em Hp Hpass.
  split; rewrite ?Ec, ?Ea, ?Em; try done.
  - intros i x t E. apply (Hl i x t). by apply Hp.
  - intros pos i x E Hn. apply (Hw pos i x E). intros y E'. by apply (Hn y), Hp.
Qed.

(** Learning what a release left. *)
Lemma views_join c v t k :
  threads_inv c -> views_inv c v -> (forall i, (k (S i) <= pred (claims i (claimed c)))%nat) ->
  views_inv c (set_known t (join (known v t) k) v).
Proof.
  intros H [Ho Hk Ht Hh Hl Hw Hf] Hle. split; cbn [known at_tail at_head accesses set_known]; try done.
  - intros i. case_decide as E; [|done]. subst t. unfold join. rewrite Ho.
    specialize (Hle i). rewrite (claims_own c i H) in Hle. pose proof (in_flight_le i (producers c)). lia.
  - intros u i Hu. case_decide; [|by apply Hk]. subst u. unfold join. specialize (Hle i). specialize (Hk t i Hu). lia.
Qed.

(** An access that does not race knows of every earlier one to its slot. *)
Lemma touch_ordered t slot v v' a :
  touch t slot v = Some v' -> a ∈ accesses v -> slot_of a = slot -> thread_of a <> t ->
  (number a <= known v t (thread_of a))%nat.
Proof.
  unfold touch. case_decide as Hn; [done|]. intros _ Ha Es Et.
  destruct (decide (known v t (thread_of a) < number a)%nat) as [Hlt|]; [|lia].
  destruct Hn. apply Exists_exists. by exists a.
Qed.

Lemma views_touch_consumer c v v' slot : views_inv c v -> touch 0 slot v = Some v' -> views_inv c v'.
Proof.
  intros [Ho Hk Ht Hh Hl Hw Hf]. unfold touch. case_decide; [done|]. intros [= <-].
  split; cbn [known at_tail at_head accesses set_known]; try done.
  - intros t i Hti. case_decide; [|by apply Hk]. cbn. by apply Hk.
  - intros pos i x E Hn. apply elem_of_app. left. by apply (Hw pos i x).
Qed.

(** The compare-and-swap of producer [i] succeeds. *)
Lemma views_claim c v i x t ps q :
  threads_inv c -> views_inv c v -> producers c !! i = Some (Claiming x t) ->
  ps = <[i := Writing x t]> (producers c) -> Z.to_nat t = length (claimed c) -> 0 <= t ->
  mask_ q = mask_ (queue c) -> head_ q = head_ (queue c) ->
  views_inv (mkConfig q ps (popper c) (claimed c ++ [(i, x)]) (accepted c) (delivered c)) (swap_tail (S i) v).
Proof.
  intros H Hv Ei -> Et Ht0 Em Eh. pose proof (lookup_lt_Some _ _ _ Ei) as Hi.
  pose proof (views_join c v (S i) (at_tail v) H Hv (vi_tail c v Hv)) as [Ho Hk Ht Hh Hl Hw Hf].
  assert (forall j, claims j (claimed c) <= claims j (claimed c ++ [(i, x)]))%nat as Hle.
  { intros j. rewrite claims_app. lia. }
  unfold swap_tail, acquire_tail. set (v1 := set_known _ _ _) in *.
  split; cbn [known at_tail at_head accesses claimed accepted queue producers popper]; rewrite ?Em.
  - done.
  - intros u j Hu. specialize (Hk u j Hu). specialize (Hle j). lia.
  - intros j. specialize (Hle j). destruct (decide (j = i)) as [->|].
    + rewrite Ho, claims_app, claims_one, decide_True by done.
      rewrite (claims_own c i H). unfold in_flight. rewrite Ei. cbn. lia.
    + specialize (Hk (S i) j ltac:(congruence)). lia.
  - intros j. specialize (Hh j). specialize (Hle j). lia.
  - intros j y u E. destruct (decide (i = j)) as [<-|Hij].
    + rewrite list_lookup_insert_eq in E by done. injection E as <- <-.
      rewrite drop_ge; [done|]. rewrite length_app. cbn. lia.
    + rewrite list_lookup_insert_ne in E by done. pose proof (ti_producers c H j _ E) as (_ & Ec & _).
      apply lookup_lt_Some in Ec. rewrite drop_app_le, claims_app, (Hl j y u E), claims_one by lia.
      by rewrite decide_False by congruence.
  - intros pos j y E Hn. destruct (decide (pos < length (claimed c))%nat) as [Hlt|].
    + rewrite lookup_app_l in E by done. rewrite take_app_le by lia. apply (Hw pos j y E).
      intros z Ez. destruct (decide (i = j)) as [<-|Hij]; [congruence|].
      apply (Hn z). by rewrite list_lookup_insert_ne by done.
    + pose proof (lookup_lt_Some _ _ _ E) as Hlt. rewrite length_app in Hlt. cbn in Hlt.
      assert (pos = length (claimed c)) as -> by lia.
      rewrite lookup_app_r, Nat.sub_diag in E by lia. injection E as <- <-.
      destruct (Hn x). rewrite list_lookup_insert_eq by done. do 2 f_equal. lia.
  - intros pos j y Hp E. destruct (decide (pos < length (claimed c))%nat) as [Hlt|].
    + rewrite lookup_app_l in E by done. rewrite drop_app_le, claims_app by lia.
      enough (0 < claims j (drop (S pos) (claimed c)))%nat by lia. apply (Hf pos j y); [|done].
      unfold passed in *. cbn [queue popper] in Hp. by rewrite Eh in Hp.
    + exfalso. pose proof (ti_pos c H). pose proof (ti_log c H).
      destruct Hp as [Hp|[z Hp]]; cbn [queue popper] in Hp; [rewrite Eh in Hp; lia|].
      pose proof (ti_popper c H) as Hk'. unfold popper_ok in Hk'. rewrite Hp in Hk'.
      destruct Hk' as (_ & _ & k & Ek). apply lookup_lt_Some in Ek. lia.
Qed.

(** Producer [i] writes the slot it has claimed. *)
Lemma views_write c v v' i x t q :
  threads_inv c -> views_inv c v -> producers c !! i = Some (Writing x t) ->
  touch (S i) (Z.land t (mask_ (queue c))) v = Some v' ->
  mask_ q = mask_ (queue c) -> head_ q = head_ (queue c) ->
  views_inv (mkConfig q (<[i := Idle]> (producers c)) (popper c) (claimed c) (accepted c ++ [(i, x)]) (delivered c)) v'.
Proof.
  intros H [Ho Hk Ht Hh Hl Hw Hf] Ei. pose proof (lookup_lt_Some _ _ _ Ei) as Hi.
  unfold touch. case_decide; [done|]. intros [= <-] Em Eh.
  pose proof (ti_producers c H i _ Ei) as (Hht & Et & _). pose proof (ti_pos c H) as Hp0.
  assert (claims i (claimed c) = S (claims i (accepted c))) as Hc.
  { rewrite (claims_own c i H). unfold in_flight. rewrite Ei. cbn. lia. }
  split; cbn [known at_tail at_head accesses claimed accepted queue producers popper set_known];
    rewrite ?Em; try done.
  - intros j. rewrite claims_app, claims_one. destruct (decide (j = i)) as [->|].
    + rewrite !decide_True by done. rewrite Ho. lia.
    + rewrite !decide_False by congruence. rewrite Ho. lia.
  - intros u j Hu. case_decide; [|by apply Hk]. subst u. rewrite decide_False by done. by apply Hk.
  - intros j y u E. destruct (decide (i = j)) as [<-|Hij].
    + by rewrite list_lookup_insert_eq in E by done.
    + rewrite list_lookup_insert_ne in E by done. by apply (Hl j y u).
  - intros pos j y E Hn. apply elem_of_app. destruct (decide (j = i /\ Z.of_nat pos = t)) as [[-> <-]|Hne].
    + right. apply list_elem_of_singleton. f_equal. rewrite Ho.
      pose proof (claims_split i (S pos) (claimed c)) as Hs. pose proof (Hl i x _ Ei) as Hz.
      rewrite Nat2Z.id in Hz. lia.
    + left. apply (Hw pos j y E). intros z Ez. destruct (decide (j = i)) as [->|Hij].
      * rewrite Ei in Ez. injection Ez. intros. by apply Hne.
      * apply (Hn z). by rewrite list_lookup_insert_ne by congruence.
  - intros pos j y Hp E. apply (Hf pos j y); [|done]. unfold passed in *. cbn [queue popper] in Hp.
    by rewrite Eh in Hp.
Qed.

(** The consumer reads a written slot without a race: its producer has claimed
    another position since. *)
Lemma read_followed c v v' h x i y :
  threads_inv c -> views_inv c v -> 0 <= h -> at_pos (queue c) h = Some x ->
  claimed c !! Z.to_nat h = Some (i, y) ->
  touch 0 (Z.land h (mask_ (queue c))) v = Some v' -> (0 < claims i (drop (S (Z.to_nat h)) (claimed c)))%nat.
Proof.
  intros H Hv Hh Ex Ec Et.
  assert (forall z, producers c !! i <> Some (Writing z h)) as Hn.
  { intros z Ez. pose proof (ti_producers c H i _ Ez) as (_ & _ & En & _). congruence. }
  pose proof (vi_written c v Hv _ _ _ Ec) as Ha. rewrite Z2Nat.id in Ha by done. specialize (Ha Hn).
  pose proof (touch_ordered _ _ _ _ _ Et Ha eq_refl ltac:(done)) as Hle. cbn [number thread_of] in Hle.
  pose proof (vi_known c v Hv 0 i ltac:(done)) as Hk.
  assert (0 < claims i (take (S (Z.to_nat h)) (claimed c)))%nat.
  { rewrite (take_S_r _ _ _ Ec), claims_app, claims_one, decide_True by done. lia. }
  pose proof (claims_split i (S (Z.to_nat h)) (claimed c)). lia.
Qed.

(** *** Every step that does not race preserves it *)
Lemma views_produce i weak c c' v v' :
  threads_inv c -> views_inv c v -> c.(queue).(tail_) + 1 < 2 ^ 64 ->
  act (Produce i weak) c = Some c' -> order (Produce i weak) c v = Some v' -> views_inv c' v'.
Proof.
  intros H Hv Hw. pose proof (ti_pos c H). pose proof (ti_log c H). cbn [act order].
  destruct (producers c !! i) as [p|] eqn:Ei; [|done]. cbn [mbind option_bind].
  pose proof (lookup_lt_Some _ _ _ Ei) as Hi. pose proof (ti_producers c H i p Ei) as Hok.
  assert (forall p' q v0, views_inv c v0 -> not_writing p -> not_writing p' -> mask_ q = mask_ (queue c) ->
    head_ q = head_ (queue c) ->
    views_inv (mkConfig q (<[i := p']> (producers c)) (popper c) (claimed c) (accepted c) (delivered c)) v0) as Hsame.
  { intros p' q v0 Hv0 Hp Hp' Em Eh. apply (views_same c); try done.
    - intros j x t. cbn [producers]. destruct (decide (i = j)) as [<-|Hij].
      + rewrite list_lookup_insert_eq, Ei by done. split; intros [= ->]; done.
      + by rewrite list_lookup_insert_ne.
    - intros pos j x Hp0. apply (vi_followed c v0 Hv0). unfold passed in *. cbn [queue popper] in Hp0.
      by rewrite Eh in Hp0. }
  destruct p as [|x t|x t|x t]; cbn [producer_step producer_ok] in *; [done|..].
  - pose proof (views_join c v (S i) (at_head v) H Hv (vi_head c v Hv)) as Hj.
    case_match; cbn [mbind option_bind claim_of accept_of]; intros [= <-] [= <-]; rewrite !app_nil_r; by apply Hsame.
  - destruct (Z.eqb_spec (tail_ (queue c)) t) as [Et|]; [destruct weak|]; cbn [negb andb];
      cbn [mbind option_bind claim_of accept_of]; intros [= <-] [= <-]; rewrite ?app_nil_r; [by apply Hsame| |by apply Hsame].
    apply (views_claim c v i x t); (done || lia).
  - rewrite ge_assign by (apply H || lia). cbn [mbind option_bind claim_of accept_of].
    intros [= <-] Et. rewrite app_nil_r. by apply (views_write c v v' i x t).
Qed.

Lemma views_consume c c' v v' :
  threads_inv c -> views_inv c v -> c.(queue).(tail_) + 1 < 2 ^ 64 ->
  act Consume c = Some c' -> order Consume c v = Some v' -> views_inv c' v'.
Proof.
  intros H Hv Hw. pose proof (ti_pos c H). pose proof (ti_log c H). cbn [act order].
  pose proof (ti_popper c H) as Hk. unfold popper_ok in Hk.
  assert (forall k q v0 l, views_inv c v0 -> (forall h y, k <> Taken h y) -> mask_ q = mask_ (queue c) ->
    head_ q = head_ (queue c) ->
    views_inv (mkConfig q (producers c) k (claimed c) (accepted c) l) v0) as Hsame.
  { intros k q v0 l Hv0 Hn Em Eh. apply (views_same c); try done.
    intros pos j x [Hp|[y Hp]]; cbn [queue popper] in Hp; [|by destruct (Hn _ _ Hp)].
    apply (vi_followed c v0 Hv0). left. by rewrite Eh in Hp. }
  destruct (popper c) as [|h|h t|h|h x|h x] eqn:Ec; cbn [consumer_step]; [done|..].
  - cbn [mbind option_bind]. intros [= <-] [= <-]. apply Hsame; try done.
    apply (views_join c v 0 (at_tail v) H Hv (vi_tail c v Hv)).
  - destruct (Z.leb_spec t h). { cbn [mbind option_bind]. intros [= <-] [= <-]. by apply Hsame. }
    rewrite ge_index by (apply H || lia). cbn [mbind option_bind].
    destruct (at_pos (queue c) h); cbn [mbind option_bind]; intros [= <-] Et;
      (apply (views_touch_consumer c) in Et; [by apply Hsame|done]).
  - destruct Hk as [[-> ?] [x Ex]]. rewrite ge_index, Ex by (apply H || lia). cbn [mbind option_bind].
    intros [= <-] Et. apply (views_touch_consumer c) in Et; [|done]; by apply Hsame.
  - destruct Hk as [[-> ?] Ex]. rewrite ge_assign by (apply H || lia). cbn [mbind option_bind].
    intros [= <-] Et. pose proof (views_touch_consumer _ _ _ _ Hv Et) as Hv'.
    apply (views_same c); try done. intros pos j y [Hp|[z Hp]] Ej; cbn [queue popper head_] in Hp.
    { apply (vi_followed c v' Hv' pos j y); [by left|done]. }
    injection Hp as Eh _. replace pos with (Z.to_nat (head_ (queue c))) in * by lia.
    apply (read_followed c v v' _ x j y); (done || lia).
  - destruct Hk as (-> & _ & k & Ek). pose proof (lookup_lt_Some _ _ _ Ek). cbn [mbind option_bind].
    rewrite wrap_small by (unfold in_width; lia). intros [= <-] [= <-].
    assert (views_inv c (release_head 0 v)) as Hv'.
    { destruct Hv as [Ho Hkn Ht Hh Hl Hwr Hf]. split; cbn [release_head known at_tail at_head accesses]; try done.
      intros i. by apply Hkn. }
    apply (views_same c); try done. intros pos j y [Hp|[z Hp]]; cbn [queue popper head_] in Hp; [|done].
    apply (vi_followed c _ Hv'). destruct (decide (Z.of_nat pos = head_ (queue c))) as [E|]; [|left; lia].
    right. exists x. by rewrite Ec, E.
Qed.

Lemma views_act a c c' v v' :
  threads_inv c -> views_inv c v -> c.(queue).(tail_) + 1 < 2 ^ 64 ->
  act a c = Some c' -> order a c v = Some v' -> views_inv c' v'.
Proof.
  intros H Hv Hw. destruct a as [i x|i weak| |]; [|by apply views_produce| |by apply views_consume]; cbn [act order].
  - destruct (producers c !! i) as [[]|] eqn:Ei; try done. intros [= <-] [= <-].
    apply (views_same c); try done; [|by apply (vi_followed c v Hv)]. intros j y t. cbn [producers].
    destruct (decide (i = j)) as [<-|Hij]; [|by rewrite list_lookup_insert_ne].
    rewrite list_lookup_insert_eq, Ei by (by eapply lookup_lt_Some). done.
  - destruct (popper c) eqn:Ec; try done. intros [= <-] [= <-]. apply (views_same c); try done.
    intros pos j x [Hp|[y Hp]]; cbn [queue popper] in Hp; [|done]. apply (vi_followed c v Hv). by left.
Qed.

Lemma race_run_inv sched c v c' v' :
  threads_inv c -> views_inv c v -> c.(queue).(tail_) + Z.of_nat (length sched) < 2 ^ 64 ->
  race_run sched c v = Some (Finished c' v') -> threads_inv c' /\ views_inv c' v'.
Proof.
  revert c v. induction sched as [|a sched IH]; intros c v H Hv Hw; cbn [race_run length] in *.
  { by intros [= <- <-]. }
  destruct (act a c) as [c1|] eqn:E; cbn [mbind option_bind]; [|done].
  destruct (order a c v) as [v1|] eqn:Ev; [|done].
  destruct (threads_act_inv a c c1 H ltac:(lia) E) as (H1 & Hc & Hl).
  pose proof (ti_log c H). pose proof (ti_log c1 H1).
  apply (IH c1 v1); [done| |lia]. by apply (views_act a c c1 v); [done|done|lia|..].
Qed.

(** C13: What the queue delivers when nothing races.  Whatever the interleaving of
    producers and consumer, as long as no two accesses to a slot have raced: the
    values are delivered in the order in which they were claimed, each exactly
    once, the queue never holds more than its capacity, no thread inside a call
    is stuck, every producer's values are claimed in the order of its calls, and
    between calls the queue holds exactly the accepted values that were not
    delivered.  But every value delivered was followed by another claim of the
    same producer: the slot is written after its position is published, so a
    consumer that takes a producer's newest value does race with the write. *)
Theorem mpsc_exactly_once n threads sched c v :
  0 <= n <= 2 ^ 63 -> Z.of_nat (length sched) < 2 ^ 64 ->
  race_run sched (initial n threads) views_init = Some (Finished c v) ->
  delivered c = snd <$> take (length (delivered c)) (claimed c) /\
  Z.of_nat (length (claimed c)) - Z.of_nat (length (delivered c)) <=
    capacity (MpscQueue_new (A := A) n) /\
  (forall i, of_thread i (claimed c) = of_thread i (accepted c) ++ in_flight i (producers c)) /\
  (forall i p weak, producers c !! i = Some p -> p <> Idle -> is_Some (act (Produce i weak) c)) /\
  (popper c <> Waiting -> is_Some (act Consume c)) /\
  (Forall (fun p => p = Idle) (producers c) -> popper c = Waiting ->
   fifo_inv (queue c) /\ delivered c ++ fifo_contents (queue c) ≡ₚ snd <$> accepted c) /\
  (forall pos i x, (pos < length (delivered c))%nat -> claimed c !! pos = Some (i, x) ->
   of_thread i (drop (S pos) (claimed c)) <> []).
Proof.
  intros Hn Hs Eo. pose proof (race_run_projects _ _ _ _ _ Eo) as Er.
  destruct (mpsc_interleaved n threads sched c Hn Hs Er) as (H1 & H2 & H3 & H4 & H5 & H6).
  split_and!; try done. intros pos i x Hpos Ep E.
  destruct (race_run_inv sched _ _ c v (threads_initial_inv n threads Hn) (views_initial n threads) ltac:(cbn; lia) Eo)
    as [H Hv].
  pose proof (ti_pos c H). rewrite (ti_delivered c H), length_fmap, length_take in Hpos.
  pose proof (vi_followed c v Hv pos i x) as Hf. unfold claims in Hf. rewrite E in Hf. cbn in Hf.
  enough (0 < 0)%nat by lia. apply Hf; [left; lia|done].
Qed.
End Races.
Arguments outcome : clear implicits.

(** *** Runs *)

(** Two producers push two values each, their steps interleaved, and the consumer
    takes the first value of each: nothing races. *)
Definition demo_sched : list (action Z) :=
  [Push 0 10; Push 1 20; Produce 0 false; Produce 1 false; Produce 1 true; Produce 1 false;
   Produce 0 false; Produce 1 false; Produce 0 false; Produce 1 false; Produce 1 false; Produce 1 false] ++ solo_push 1 21 ++ solo_push 0 11 ++ solo_pop ++ solo_pop.

Lemma mpsc_exactly_once_witness :
  exists c v, race_run demo_sched (initial 4 2) views_init = Some (Finished c v) /\
    Z.of_nat (length demo_sched) < 2 ^ 64 /\ delivered c = [10; 20] /\
    (forall pos i x, (pos < length (delivered c))%nat -> claimed c !! pos = Some (i, x) ->
     of_thread i (drop (S pos) (claimed c)) <> []) /\
    delivered c ++ fifo_contents (queue c) ≡ₚ snd <$> accepted c.
Proof.
  destruct (race_run demo_sched (initial 4 2) views_init) as [[c v|c]|] eqn:E; [|vm_compute in E; discriminate E..].
  exists c, v. split; [done|]. split; [reflexivity|].
  destruct (mpsc_exactly_once 4 2 demo_sched c v) as (_ & _ & _ & _ & _ & H & Hf); [lia|reflexivity|exact E|].
  assert (delivered c = [10; 20] /\ producers c = [Idle; Idle] /\ popper c = Waiting) as (Ed & Ep & Ec).
  { vm_compute in E. injection E as <- _. done. }
  split; [exact Ed|]. split; [exact Hf|]. apply H; [|exact Ec]. rewrite Ep. by repeat constructor.
Defined.

(** The queue has a data race on its slots.  A value pushed and popped, one call
    after the other, already races: nothing orders the producer's write before
    the consumer's test of the slot.  So does a pop that meets a claimed slot
    before its value is written: it finds the slot empty, and the write that
    follows races with its test. *)
Theorem mpsc_slot_race :
  (exists c, race_run (solo_push 0 10 ++ [Pop; Consume; Consume]) (initial 2 1) views_init = Some (Raced c) /\
     popper c = Inspecting 0 1 /\ accepted c = [(0%nat, 10)]) /\
  (exists c, race_run [Push 0 10; Produce 0 false; Produce 0 false; Pop; Consume; Consume; Produce 0 false]
       (initial 2 1) views_init = Some (Raced c) /\
     producers c !! 0%nat = Some (Writing 10 0) /\ popper c = Waiting).
Proof. split; eexists; by vm_compute. Qed.
