(* ===== verification/PacketRingSpsc.v ===== *)
(** * PacketRingSpsc: the ring's producer and consumer interleaved

    [PacketRing] models a call as one transition.  Here a call is the sequence
    of its accesses to shared state, and one producer and one consumer thread
    take turns in any order: the load of the peer's position, one slot per
    step of a copy loop, and the store that publishes.  The slots are plain
    objects; [spsc_linearizable] shows that the two threads never touch the same
    slot, so the interleaving semantics is the one C++ gives the program. *)
From S2P Require Import Prelude BitOps Memory Packet Fifo RingSlots PacketRing.

(** ** Calls as steps *)
Inductive push_req : Type := PushOne (p : Packet) | PushMany (ps : list Packet).
Inductive pop_req : Type := PopOne | PopMany (size : Z).

Definition offers (req : push_req) : list Packet :=
  match req with PushOne p => [p] | PushMany ps => ps end.

(** The number of packets a push may write, from the two positions it loads:
    the guard of [try_push] and the [min] of [try_push_batch]. *)
Definition admits (req : push_req) (cap write read : Z) : Z :=
  match req with
  | PushOne _ => if cap <=? u64 (write - read) then 0 else 1
  | PushMany ps => Z.min (Z.of_nat (length ps)) (u64 (cap - u64 (write - read)))
  end.

(** The number of packets a pop may take. *)
Definition yields (req : pop_req) (read write : Z) : Z :=
  match req with
  | PopOne => if write <=? read then 0 else 1
  | PopMany size => Z.min size (u64 (write - read))
  end.

Inductive producer : Type :=
  | Idle
  | Pushing (req : push_req) (write : Z)          (* [write_pos_] loaded *)
  | Copying (ps : list Packet) (write : Z) (i : nat).  (* [i] packets copied *)

Inductive consumer : Type :=
  | Waiting
  | Popping (req : pop_req) (read : Z)            (* [read_pos_] loaded *)
  | Taking (n : nat) (read : Z) (acc : list Packet).   (* [n] packets to go *)

Definition push_start (req : push_req) (r : PacketRing) : producer := Pushing req r.(write_pos_).
Definition pop_start (req : pop_req) (r : PacketRing) : consumer := Popping req r.(read_pos_).

Definition producer_step (p : producer) (r : PacketRing)
    : option (producer * option Z * PacketRing) :=
  match p with
  | Idle => None
  | Pushing req write =>
      let n := admits req r.(capacity_) write r.(read_pos_) in
      Some (if n =? 0 then (Idle, Some 0, r)
            else (Copying (take (Z.to_nat n) (offers req)) write 0, None, r))
  | Copying ps write i =>
      match ps !! i with
      | Some p =>
          slots ← assign r.(packets_) (Z.land (u64 (write + Z.of_nat i)) r.(mask_)) p;
          Some (Copying ps write (S i), None,
                mkPacketRing r.(capacity_) r.(mask_) r.(write_pos_) r.(read_pos_) slots)
      | None =>
          Some (Idle, Some (Z.of_nat i),
                mkPacketRing r.(capacity_) r.(mask_) (u64 (write + Z.of_nat i)) r.(read_pos_)
                  r.(packets_))
      end
  end.

Definition consumer_step (c : consumer) (r : PacketRing)
    : option (consumer * option (list Packet) * PacketRing) :=
  match c with
  | Waiting => None
  | Popping req read =>
      let n := yields req read r.(write_pos_) in
      Some (if n =? 0 then (Waiting, Some [], r) else (Taking (Z.to_nat n) read [], None, r))
  | Taking n read acc =>
      match n with
      | S n =>
          let slot := Z.land (u64 (read + Z.of_nat (length acc))) r.(mask_) in
          p ← index r.(packets_) slot;
          slots ← assign r.(packets_) slot (reset p);
          Some (Taking n read (acc ++ [p]), None,
                mkPacketRing r.(capacity_) r.(mask_) r.(write_pos_) r.(read_pos_) slots)
      | O =>
          Some (Waiting, Some acc,
                mkPacketRing r.(capacity_) r.(mask_) r.(write_pos_)
                  (u64 (read + Z.of_nat (length acc))) r.(packets_))
      end
  end.

(** ** Two threads *)
Record config := mkConfig {
  ring : PacketRing;
  pusher : producer;
  popper : consumer;
  published : list Packet;   (* packets of completed pushes, in order *)
  received : list Packet;    (* packets of completed pops, in order *)
}.

Inductive action : Type := Push (req : push_req) | Produce | Pop (req : pop_req) | Consume.

Definition publish_of (p : producer) (n : option Z) : list Packet :=
  match p, n with Copying ps _ _, Some _ => ps | _, _ => [] end.

Definition act (a : action) (c : config) : option config :=
  match a with
  | Push req =>
      match c.(pusher) with
      | Idle => Some (mkConfig c.(ring) (push_start req c.(ring)) c.(popper) c.(published) c.(received))
      | _ => None
      end
  | Produce =>
      '(p, n, r) ← producer_step c.(pusher) c.(ring);
      Some (mkConfig r p c.(popper) (c.(published) ++ publish_of c.(pusher) n) c.(received))
  | Pop req =>
      match c.(popper) with
      | Waiting => Some (mkConfig c.(ring) c.(pusher) (pop_start req c.(ring)) c.(published) c.(received))
      | _ => None
      end
  | Consume =>
      '(k, out, r) ← consumer_step c.(popper) c.(ring);
      Some (mkConfig r c.(pusher) k c.(published) (c.(received) ++ default [] out))
  end.

Fixpoint run (sched : list action) (c : config) : option config :=
  match sched with
  | [] => Some c
  | a :: sched => c' ← act a c; run sched c'
  end.

Definition initial (n : Z) : config := mkConfig (PacketRing_new n) Idle Waiting [] [].

(** Packets an action offers, and the caller's obligation on span sizes. *)
Definition offered (a : action) : Z :=
  match a with Push req => Z.of_nat (length (offers req)) | _ => 0 end.
Definition action_ok (a : action) : Prop :=
  match a with Pop (PopMany size) => 0 <= size < 2 ^ 64 | _ => True end.

(** ** The invariant *)
Definition copied (p : producer) : list Packet :=
  match p with Copying ps _ i => take i ps | _ => [] end.
Definition taken (k : consumer) : list Packet :=
  match k with Taking _ _ acc => acc | _ => [] end.

(** Everything written so far, and how much of it was read. *)
Definition log (c : config) : list Packet := c.(published) ++ copied c.(pusher).
Definition high (c : config) : Z := Z.of_nat (length (log c)).
Definition low (c : config) : Z := c.(ring).(read_pos_) + Z.of_nat (length (taken c.(popper))).

Definition pusher_ok (c : config) : Prop :=
  match c.(pusher) with
  | Idle => True
  | Pushing req w => w = c.(ring).(write_pos_)
  | Copying ps w i =>
      w = c.(ring).(write_pos_) /\ (i <= length ps)%nat /\
      w + Z.of_nat (length ps) <= c.(ring).(read_pos_) + c.(ring).(capacity_)
  end.

Definition popper_ok (c : config) : Prop :=
  match c.(popper) with
  | Waiting => True
  | Popping req rd =>
      rd = c.(ring).(read_pos_) /\ match req with PopMany n => 0 <= n < 2 ^ 64 | PopOne => True end
  | Taking n rd acc =>
      rd = c.(ring).(read_pos_) /\ low c + Z.of_nat n <= c.(ring).(write_pos_)
  end.

(** Packets the pending push may still publish. *)
Definition pending (p : producer) : Z :=
  match p with
  | Idle => 0
  | Pushing req _ => Z.of_nat (length (offers req))
  | Copying ps _ _ => Z.of_nat (length ps)
  end.

Record spsc_inv (c : config) : Prop := {
  si_cap : exists k, 0 <= k <= 63 /\ c.(ring).(capacity_) = 2 ^ k;
  si_mask : c.(ring).(mask_) = c.(ring).(capacity_) - 1;
  si_len : Z.of_nat (length c.(ring).(packets_)) = c.(ring).(capacity_);
  si_write : c.(ring).(write_pos_) = Z.of_nat (length c.(published));
  si_read : c.(ring).(read_pos_) = Z.of_nat (length c.(received));
  si_order : low c <= c.(ring).(write_pos_) /\ high c <= c.(ring).(read_pos_) + c.(ring).(capacity_);
  si_pusher : pusher_ok c;
  si_popper : popper_ok c;
  si_out : c.(received) ++ taken c.(popper) = take (Z.to_nat (low c)) c.(published);
  si_slots : forall pos, c.(ring).(read_pos_) <= pos < c.(ring).(read_pos_) + c.(ring).(capacity_) ->
    slot c.(ring).(packets_) c.(ring).(capacity_) pos =
      if decide (low c <= pos < high c) then log c !!! Z.to_nat pos else Packet_default;
  si_budget : c.(ring).(write_pos_) + pending c.(pusher) < 2 ^ 64;
}.

Lemma si_cap_pos c : spsc_inv c -> 0 < capacity_ (ring c) <= 2 ^ 63.
Proof.
  intros H. destruct (si_cap c H) as (k & Hk & ->).
  split; [apply Z.pow_pos_nonneg; lia|apply Z.pow_le_mono_r; lia].
Qed.

Lemma si_land c pos :
  spsc_inv c -> 0 <= pos < 2 ^ 64 ->
  Z.land (u64 pos) (mask_ (ring c)) = pos mod capacity_ (ring c).
Proof.
  intros H Hp. destruct (si_cap c H) as (k & Hk & E).
  rewrite wrap_small by (unfold in_width; lia). rewrite (si_mask c H), E. apply land_mask. lia.
Qed.

Lemma si_in c pos :
  spsc_inv c -> 0 <= pos mod capacity_ (ring c) < Z.of_nat (length (packets_ (ring c))).
Proof. intros H. rewrite (si_len c H). apply Z.mod_pos_bound, si_cap_pos, H. Qed.

Lemma low_read c : read_pos_ (ring c) <= low c.
Proof. unfold low. lia. Qed.

Lemma high_pos c : spsc_inv c ->
  high c = write_pos_ (ring c) + Z.of_nat (length (copied (pusher c))).
Proof. intros H. unfold high, log. rewrite length_app, (si_write c H). lia. Qed.

Lemma slot_period (l : list Packet) cap pos : 0 < cap -> slot l cap (pos + cap) = slot l cap pos.
Proof.
  intros. unfold slot. do 2 f_equal. rewrite <- Zplus_mod_idemp_r, Z.mod_same, Z.add_0_r by lia. done.
Qed.

(** A step of the producer that writes nothing. *)
Lemma pusher_local c p :
  spsc_inv c -> copied c.(pusher) = [] -> copied p = [] ->
  pusher_ok (mkConfig c.(ring) p c.(popper) c.(published) c.(received)) ->
  c.(ring).(write_pos_) + pending p < 2 ^ 64 ->
  spsc_inv (mkConfig c.(ring) p c.(popper) c.(published) c.(received)).
Proof.
  intros [? ? ? ? ? Ho ? ? ? Hs ?] E E' Hok Hb.
  assert (log (mkConfig c.(ring) p c.(popper) c.(published) c.(received)) = log c) as El.
  { unfold log. cbn. by rewrite E, E'. }
  split; try done; unfold high in *; rewrite ?El; done.
Qed.

(** A step of the consumer that takes nothing. *)
Lemma spsc_popper_local c k :
  spsc_inv c -> taken c.(popper) = [] -> taken k = [] ->
  popper_ok (mkConfig c.(ring) c.(pusher) k c.(published) c.(received)) ->
  spsc_inv (mkConfig c.(ring) c.(pusher) k c.(published) c.(received)).
Proof.
  intros [? ? ? ? ? Ho ? ? Hout Hs ?] E E' Hok.
  assert (low (mkConfig c.(ring) c.(pusher) k c.(published) c.(received)) = low c) as El.
  { unfold low. cbn. by rewrite E, E'. }
  split; try done; rewrite ?El; try done. cbn. rewrite E'. by rewrite E in Hout.
Qed.

(** One packet is copied into the ring. *)
Lemma pusher_copy c ps i p :
  spsc_inv c -> c.(pusher) = Copying ps c.(ring).(write_pos_) i -> ps !! i = Some p ->
  let r := c.(ring) in
  let cap := r.(capacity_) in
  spsc_inv (mkConfig
    (mkPacketRing cap r.(mask_) r.(write_pos_) r.(read_pos_)
      (<[Z.to_nat ((r.(write_pos_) + Z.of_nat i) mod cap) := p]> r.(packets_)))
    (Copying ps r.(write_pos_) (S i)) c.(popper) c.(published) c.(received)).
Proof.
  intros H Ep Ei r cap. subst r cap. pose proof (high_pos c H) as Hh. pose proof (low_read c). pose proof (si_cap_pos c H).
  pose proof (lookup_lt_Some _ _ _ Ei) as Hi.
  pose proof (si_pusher c H) as Hk. unfold pusher_ok in Hk. rewrite Ep in Hk. destruct Hk as (_ & _ & Hfit).
  rewrite Ep in Hh. cbn [copied] in Hh. rewrite length_take, Nat.min_l in Hh by lia.
  destruct H as [? ? ? Hw Hr Ho ? ? Hout Hs Hb].
  set (c' := mkConfig _ _ _ _ _).
  assert (log c' = log c ++ [p]) as El.
  { unfold log. cbn. rewrite Ep. cbn [copied]. by rewrite (take_S_r _ _ _ Ei), app_assoc. }
  assert (high c' = high c + 1) as Eh by (unfold high; rewrite El, length_app; cbn; lia).
  assert (low c' = low c) as Ew by done.
  split; rewrite ?Ew, ?Eh; try done; cbn [c' ring pusher popper published received capacity_ mask_ write_pos_ read_pos_ packets_].
  - by rewrite length_insert.
  - lia.
  - intros pos Hpos. rewrite <- Hh. destruct (decide (pos = high c)) as [->|Hne].
    + rewrite slot_insert_eq by lia. rewrite decide_True by lia.
      rewrite El. unfold high at 1. rewrite Nat2Z.id. symmetry. by apply list_lookup_total_middle.
    + rewrite slot_insert_ne by lia. rewrite Hs by done.
      destruct (decide (low c <= pos < high c)) as [Hd|Hd].
      * rewrite decide_True by lia. rewrite El, lookup_total_app_l; [done|]. unfold high in *. lia.
      * rewrite decide_False by lia. done.
  - rewrite Ep in Hb. done.
Qed.

(** The copied packets are published. *)
Lemma pusher_publish c ps :
  spsc_inv c -> c.(pusher) = Copying ps c.(ring).(write_pos_) (length ps) ->
  let r := c.(ring) in
  spsc_inv (mkConfig
    (mkPacketRing r.(capacity_) r.(mask_) (r.(write_pos_) + Z.of_nat (length ps)) r.(read_pos_)
      r.(packets_))
    Idle c.(popper) (c.(published) ++ ps) c.(received)).
Proof.
  intros H Ep r. subst r. pose proof (high_pos c H) as Hh. pose proof (low_read c).
  destruct H as [? ? ? Hw Hr Ho ? Hp Hout Hs Hb]. set (c' := mkConfig _ _ _ _ _).
  assert (log c' = log c) as El.
  { unfold log. cbn. rewrite Ep. cbn [copied]. by rewrite firstn_all, app_nil_r. }
  assert (high c' = high c) as Eh by (unfold high; by rewrite El).
  assert (low c' = low c) as Ew by done.
  rewrite Ep in Hb, Hh. cbn in Hb. cbn [copied] in Hh. rewrite firstn_all in Hh.
  split; rewrite ?Ew, ?Eh, ?El; try done;
    cbn [c' ring pusher popper published received capacity_ mask_ write_pos_ read_pos_ packets_].
  - rewrite length_app. lia.
  - lia.
  - unfold popper_ok in *. cbn [c' ring popper read_pos_ write_pos_]. rewrite Ew.
    destruct (popper c); try done. lia.
  - rewrite Hout. rewrite take_app_le by lia. done.
  - cbn. lia.
Qed.

(** One packet is taken out of the ring. *)
Lemma popper_step c n acc :
  spsc_inv c -> c.(popper) = Taking (S n) c.(ring).(read_pos_) acc ->
  let r := c.(ring) in
  let p := slot r.(packets_) r.(capacity_) (low c) in
  spsc_inv (mkConfig
    (mkPacketRing r.(capacity_) r.(mask_) r.(write_pos_) r.(read_pos_)
      (<[Z.to_nat (low c mod r.(capacity_)) := reset p]> r.(packets_)))
    c.(pusher) (Taking n r.(read_pos_) (acc ++ [p])) c.(published) c.(received)).
Proof.
  intros H Ep r p. pose proof (high_pos c H) as Hh. pose proof (low_read c). pose proof (si_cap_pos c H).
  pose proof (si_popper c H) as Hk. unfold popper_ok in Hk. rewrite Ep in Hk. destruct Hk as (_ & Hn).
  destruct H as [? ? ? Hw Hr Ho ? Hp Hout Hs Hb].
  assert (low c = read_pos_ r + Z.of_nat (length acc)) as Hlow by (unfold low; by rewrite Ep).
  assert (published c !! Z.to_nat (low c) = Some p) as Elow.
  { subst p r. rewrite Hs by lia. rewrite decide_True by lia. unfold log.
    rewrite lookup_total_app_l by lia. apply list_lookup_lookup_total_lt. lia. }
  set (c' := mkConfig _ _ _ _ _).
  assert (low c' = low c + 1) as Ew.
  { unfold low in Hlow |- *. rewrite Hlow. cbn. rewrite length_app. cbn. lia. }
  assert (high c' = high c) as Eh by done. assert (log c' = log c) as El by done.
  split; rewrite ?Ew, ?Eh, ?El; try done;
    cbn [c' ring pusher popper published received capacity_ mask_ write_pos_ read_pos_ packets_].
  - by rewrite length_insert.
  - subst r. lia.
  - unfold popper_ok. cbn [popper c']. split; [done|]. rewrite Ew. cbn. subst r. lia.
  - cbn [taken]. rewrite Ep in Hout. cbn [taken] in Hout. rewrite app_assoc, Hout.
    replace (Z.to_nat (low c + 1)) with (S (Z.to_nat (low c))) by lia.
    by rewrite (take_S_r _ _ _ Elow).
  - intros pos Hpos. subst r. destruct (decide (pos = low c)) as [->|Hne].
    + rewrite slot_insert_eq by lia. by rewrite decide_False by lia.
    + rewrite slot_insert_ne by lia. rewrite Hs by done.
      destruct (decide (low c <= pos < high c)); [rewrite decide_True by lia|rewrite decide_False by lia]; done.
Qed.

(** The slots of the taken packets are returned to the producer. *)
Lemma spsc_popper_publish c acc :
  spsc_inv c -> c.(popper) = Taking 0 c.(ring).(read_pos_) acc ->
  let r := c.(ring) in
  spsc_inv (mkConfig
    (mkPacketRing r.(capacity_) r.(mask_) r.(write_pos_) (r.(read_pos_) + Z.of_nat (length acc))
      r.(packets_))
    c.(pusher) Waiting c.(published) (c.(received) ++ acc)).
Proof.
  intros H Ep r. subst r. pose proof (si_cap_pos c H). pose proof (high_pos c H) as Hh.
  destruct H as [? ? ? Hw Hr Ho Hk Hp Hout Hs Hb]. set (c' := mkConfig _ _ _ _ _).
  assert (low c = read_pos_ (ring c) + Z.of_nat (length acc)) as Hlow by (unfold low; by rewrite Ep).
  assert (low c' = low c) as Ew by (rewrite Hlow; unfold low; cbn; lia).
  assert (high c' = high c) as Eh by done. assert (log c' = log c) as El by done.
  split; rewrite ?Ew, ?Eh, ?El; try done;
    cbn [c' ring pusher popper published received capacity_ mask_ write_pos_ read_pos_ packets_].
  - rewrite length_app. lia.
  - lia.
  - unfold pusher_ok in *. cbn [c' ring pusher capacity_ write_pos_ read_pos_].
    destruct (pusher c); try done. lia.
  - cbn [taken]. rewrite app_nil_r. by rewrite Ep in Hout.
  - intros pos Hpos. destruct (decide (pos < read_pos_ (ring c) + capacity_ (ring c))); [apply Hs; lia|].
    replace pos with (pos - capacity_ (ring c) + capacity_ (ring c)) at 1 by lia.
    rewrite slot_period, Hs by lia. by rewrite !decide_False by lia.
Qed.

(** ** Every step preserves the invariant *)
Lemma admits_fits req c :
  spsc_inv c -> copied c.(pusher) = [] ->
  let n := admits req (capacity_ (ring c)) (write_pos_ (ring c)) (read_pos_ (ring c)) in
  0 <= n <= Z.of_nat (length (offers req)) /\
  write_pos_ (ring c) + n <= read_pos_ (ring c) + capacity_ (ring c).
Proof.
  intros H E. pose proof (si_order c H). pose proof (low_read c). pose proof (si_cap_pos c H).
  pose proof (high_pos c H) as Hh. rewrite E in Hh. cbn [length] in Hh. cbv zeta.
  destruct req as [p|ps]; cbn [admits offers length];
    rewrite (wrap_small 64 (write_pos_ (ring c) - read_pos_ (ring c))) by (unfold in_width; lia).
  - destruct (Z.leb_spec (capacity_ (ring c)) (write_pos_ (ring c) - read_pos_ (ring c))); lia.
  - rewrite wrap_small by (unfold in_width; lia). lia.
Qed.

Lemma produce_inv c c' :
  spsc_inv c -> act Produce c = Some c' ->
  spsc_inv c' /\ capacity_ (ring c') = capacity_ (ring c) /\
  write_pos_ (ring c') + pending (pusher c') <= write_pos_ (ring c) + pending (pusher c).
Proof.
  intros H. pose proof (si_pusher c H) as Hok. pose proof (si_budget c H) as Hb. pose proof (si_write c H).
  unfold pusher_ok in Hok. cbn [act].
  destruct (pusher c) as [|req w|ps w i] eqn:Ep; cbn [producer_step]; [done|..].
  - subst w. destruct (admits_fits req c H) as [Hn Hfit]; [by rewrite Ep|]. cbv zeta in *.
    set (n := admits _ _ _ _) in *.
    assert (length (take (Z.to_nat n) (offers req)) = Z.to_nat n) as Hl by (rewrite length_take; lia).
    cbn [pending] in Hb.
    destruct (Z.eqb_spec n 0) as [E|E]; cbn [mbind option_bind publish_of]; intros [= <-];
      rewrite app_nil_r; cbn [ring pusher pending]; (split; [|split; [done|lia]]);
      apply pusher_local; rewrite ?Ep; try done; cbn [pending]; try lia.
    unfold pusher_ok. cbn [pusher ring]. split_and!; (done || lia).
  - destruct Hok as (-> & Hi & Hfit). cbn [pending] in Hb.
    destruct (ps !! i) as [p|] eqn:Ei.
    + pose proof (lookup_lt_Some _ _ _ Ei). rewrite si_land, assign_in by (done || lia || by apply si_in).
      cbn [mbind option_bind publish_of]. intros [= <-]. rewrite app_nil_r.
      split; [by apply pusher_copy|cbn; split; [done|lia]].
    + apply lookup_ge_None in Ei. assert (i = length ps) as -> by lia.
      cbn [mbind option_bind publish_of]. intros [= <-]. rewrite wrap_small by (unfold in_width; lia).
      split; [by apply pusher_publish|cbn; split; [done|lia]].
Qed.

Lemma consume_inv c c' :
  spsc_inv c -> act Consume c = Some c' ->
  spsc_inv c' /\ capacity_ (ring c') = capacity_ (ring c) /\
  write_pos_ (ring c') = write_pos_ (ring c) /\ pusher c' = pusher c.
Proof.
  intros H. pose proof (si_popper c H) as Hok. pose proof (si_budget c H) as Hb.
  pose proof (si_order c H). pose proof (low_read c). pose proof (si_cap_pos c H).
  pose proof (high_pos c H). pose proof (si_read c H).
  assert (0 <= pending (pusher c)) by (destruct (pusher c); cbn; lia).
  unfold popper_ok in Hok. cbn [act].
  destruct (popper c) as [|req rd|n rd acc] eqn:Ep; cbn [consumer_step]; [done|..].
  - destruct Hok as [-> Hreq]. set (n := yields _ _ _).
    assert (0 <= n /\ low c + n <= write_pos_ (ring c)) as Hn.
    { unfold n, low. rewrite Ep. cbn [taken length]. destruct req as [|size]; cbn [yields].
      - destruct (Z.leb_spec (write_pos_ (ring c)) (read_pos_ (ring c))); unfold low in *; rewrite Ep in *; cbn [taken length] in *; lia.
      - rewrite wrap_small by (unfold in_width; lia). lia. }
    destruct (Z.eqb_spec n 0); cbn [mbind option_bind default]; intros [= <-];
      rewrite app_nil_r; (split; [|done]); apply spsc_popper_local; rewrite ?Ep; try done.
    unfold popper_ok. cbn [popper ring]. split; [done|].
    unfold low in *. rewrite Ep in *. cbn [taken length ring popper] in *. lia.
  - destruct Hok as [-> Hn].
    assert (low c = read_pos_ (ring c) + Z.of_nat (length acc)) as Hlow by (unfold low; by rewrite Ep).
    destruct n as [|n].
    + cbn [mbind option_bind default]. intros [= <-]. rewrite wrap_small by (unfold in_width; lia).
      split; [by apply spsc_popper_publish|done].
    + rewrite <- Hlow, si_land by (done || lia). pose proof (si_in c (low c) H).
      assert (index (packets_ (ring c)) (low c mod capacity_ (ring c)) =
              Some (slot (packets_ (ring c)) (capacity_ (ring c)) (low c))) as ->.
      { unfold index, slot. destruct (Z.ltb_spec (low c mod capacity_ (ring c)) 0); [lia|].
        apply list_lookup_lookup_total_lt. lia. }
      cbn [mbind option_bind]. rewrite assign_in by done. cbn [mbind option_bind default].
      intros [= <-]. rewrite app_nil_r. split; [by apply popper_step|done].
Qed.

Lemma spsc_act_inv a c c' :
  spsc_inv c -> action_ok a -> write_pos_ (ring c) + pending (pusher c) + offered a < 2 ^ 64 ->
  act a c = Some c' ->
  spsc_inv c' /\ capacity_ (ring c') = capacity_ (ring c) /\
  write_pos_ (ring c') + pending (pusher c') <= write_pos_ (ring c) + pending (pusher c) + offered a.
Proof.
  intros H Hok Hb E. destruct a as [req| |req|]; cbn [offered] in *.
  - cbn [act] in E. destruct (pusher c) eqn:Ep; try done. injection E as <-. cbn [pending] in Hb.
    split; [|cbn; split; [done|lia]]. apply pusher_local; rewrite ?Ep; try done. cbn [pending push_start]. lia.
  - destruct (produce_inv c c' H E) as (? & ? & ?). split_and!; (done || lia).
  - cbn [act] in E. destruct (popper c) eqn:Ep; try done. injection E as <-.
    split; [|cbn; split; [done|lia]]. apply spsc_popper_local; rewrite ?Ep; done.
  - destruct (consume_inv c c' H E) as (? & ? & -> & ->). split_and!; (done || lia).
Qed.

Lemma spsc_run_inv sched c c' :
  spsc_inv c -> Forall action_ok sched ->
  write_pos_ (ring c) + pending (pusher c) + zsum (map offered sched) < 2 ^ 64 ->
  run sched c = Some c' -> spsc_inv c' /\ capacity_ (ring c') = capacity_ (ring c).
Proof.
  revert c. induction sched as [|a sched IH]; intros c H Hok Hb; cbn [run] in *; [by intros [= <-]|].
  apply Forall_cons in Hok as [Ha Hok]. cbn [map zsum foldr] in Hb. fold (zsum (map offered sched)) in Hb.
  assert (0 <= zsum (map offered sched)).
  { apply zsum_nonneg, Forall_map, Forall_true. intros []; cbn; lia. }
  destruct (act a c) as [c1|] eqn:E; cbn [mbind option_bind]; [|done]. intros Er.
  destruct (spsc_act_inv a c c1 H Ha ltac:(lia) E) as (H1 & <- & Hl). apply (IH c1); (done || lia).
Qed.

Lemma spsc_initial_inv n : 0 <= n <= 2 ^ 63 -> spsc_inv (initial n).
Proof.
  intros Hn. pose proof (ring_new_inv n ltac:(lia) ltac:(lia)) as Hr.
  destruct (PacketRing_new n) as [cap mask w rd slots] eqn:E.
  assert (w = 0 /\ rd = 0) as [-> ->] by (unfold PacketRing_new in E; injection E; auto).
  pose proof (ri_cap_pos _ Hr). destruct Hr as [? ? ? ? Hs]. cbn in *.
  unfold initial. rewrite E. split; try done.
  - unfold low, high. cbn. lia.
  - intros pos Hpos. cbn in *. rewrite Hs by lia. by case_decide.
Qed.

(** ** No data race *)

(** The slot that a thread's next step accesses. *)
Definition writes_slot (c : config) : option Z :=
  match c.(pusher) with
  | Copying ps w i =>
      if decide (i < length ps)%nat then Some (Z.land (u64 (w + Z.of_nat i)) c.(ring).(mask_)) else None
  | _ => None
  end.
Definition reads_slot (c : config) : option Z :=
  match c.(popper) with
  | Taking (S _) rd acc => Some (Z.land (u64 (rd + Z.of_nat (length acc))) c.(ring).(mask_))
  | _ => None
  end.

Lemma no_race c s : spsc_inv c -> writes_slot c = Some s -> reads_slot c = Some s -> False.
Proof.
  intros H Ew Er. pose proof (si_order c H). pose proof (low_read c). pose proof (si_cap_pos c H).
  pose proof (high_pos c H) as Hh. pose proof (si_pusher c H) as Hp. pose proof (si_popper c H) as Hk.
  pose proof (si_budget c H). pose proof (si_read c H).
  unfold writes_slot, reads_slot, pusher_ok, popper_ok, low in *.
  destruct (pusher c) as [| |ps w i]; try done. destruct (popper c) as [| |[|n] rd acc]; try done.
  cbn [copied taken pending] in *. rewrite length_take in Hh. case_decide; [|done].
  destruct Hp as (-> & _ & ?), Hk as (-> & ?).
  rewrite !si_land in * by (done || lia). rewrite <- Er in Ew. injection Ew as Ew.
  set (cap := capacity_ (ring c)) in *. set (rd := read_pos_ (ring c)) in *.
  assert (write_pos_ (ring c) + Z.of_nat i - rd = Z.of_nat (length acc)); [|lia].
  apply (mod_window_inj cap rd); [lia..|]. by rewrite Zplus_minus.
Qed.

(** ** A thread inside a call is never stuck, and finishes *)
Lemma spsc_act_defined c :
  spsc_inv c ->
  (c.(pusher) <> Idle -> is_Some (act Produce c)) /\ (c.(popper) <> Waiting -> is_Some (act Consume c)).
Proof.
  intros H. pose proof (si_order c H). pose proof (low_read c). pose proof (si_cap_pos c H).
  pose proof (si_budget c H). pose proof (high_pos c H). pose proof (si_read c H). split; intros Hn; cbn [act].
  - pose proof (si_pusher c H) as Hp. unfold pusher_ok in Hp.
    destruct (pusher c) as [|req w|ps w i]; cbn [producer_step pending] in *; [done|..].
    + case_match; by eexists.
    + destruct Hp as (-> & Hi & _). destruct (ps !! i) eqn:Ei; [|by eexists].
      rewrite si_land, assign_in by (done || lia || by apply si_in). by eexists.
  - pose proof (si_popper c H) as Hk. unfold popper_ok in Hk.
    assert (0 <= pending (pusher c)) by (destruct (pusher c); cbn; lia).
    destruct (popper c) as [|req rd|[|n] rd acc] eqn:Ep; cbn [consumer_step]; [done| |by eexists|].
    + destruct (yields _ _ _ =? 0); by eexists.
    + destruct Hk as [-> _].
      assert (low c = read_pos_ (ring c) + Z.of_nat (length acc)) as <- by (unfold low; by rewrite Ep).
      rewrite si_land by (done || lia).
      destruct (index_in (packets_ (ring c)) _ (si_in c (low c) H)) as [p ->].
      cbn [mbind option_bind]. rewrite assign_in by (by apply si_in). by eexists.
Qed.

#[export] Instance is_produce_dec a : Decision (a = Produce).
Proof. destruct a; (by left) || (by right). Defined.
#[export] Instance is_consume_dec a : Decision (a = Consume).
Proof. destruct a; (by left) || (by right). Defined.

(** Steps a call may still take. *)
Definition push_left (p : producer) : nat :=
  match p with
  | Idle => 0
  | Pushing req _ => length (offers req) + 2
  | Copying ps _ i => S (length ps - i)
  end.
Definition pop_left (k : consumer) : nat :=
  match k with
  | Waiting => 0
  | Popping PopOne _ => 3
  | Popping (PopMany size) _ => Z.to_nat size + 2
  | Taking n _ _ => S n
  end.

Lemma producer_step_left p r p' o r' :
  producer_step p r = Some (p', o, r') ->
  (push_left p' < push_left p)%nat /\ (o = None \/ p' = Idle).
Proof.
  destruct p as [|req w|ps w i]; cbn [producer_step]; [done|..].
  - case_match; intros [= <- <- <-]; cbn [push_left]; [split; [lia|by right]|].
    rewrite length_take. split; [lia|by left].
  - destruct (ps !! i) eqn:E; [|intros [= <- <- <-]; split; [cbn; lia|by right]].
    apply lookup_lt_Some in E. destruct (assign _ _ _); cbn [mbind option_bind]; [|done].
    intros [= <- <- <-]. cbn [push_left]. split; [lia|by left].
Qed.

Lemma consumer_step_left k r k' o r' :
  consumer_step k r = Some (k', o, r') ->
  (pop_left k' < pop_left k)%nat /\ (o = None \/ k' = Waiting).
Proof.
  destruct k as [|req rd|[|n] rd acc]; cbn [consumer_step]; [done|..].
  - case_match; intros [= <- <- <-]; destruct req; cbn [pop_left yields]; (split; [|auto]); try lia.
    case_match; lia.
  - intros [= <- <- <-]. split; [cbn; lia|by right].
  - destruct (index _ _); cbn [mbind option_bind]; [|done].
    destruct (assign _ _ _); cbn [mbind option_bind]; [|done]. intros [= <- <- <-].
    split; [cbn; lia|by left].
Qed.

(** *** Steps of one thread among those of both *)
Definition starts_push (a : action) : bool := match a with Push _ => true | _ => false end.
Definition starts_pop (a : action) : bool := match a with Pop _ => true | _ => false end.
Definition produces (sched : list action) : nat := length (filter (fun a => a = Produce) sched).
Definition consumes (sched : list action) : nat := length (filter (fun a => a = Consume) sched).

Lemma pushes_bounded sched c c' :
  run sched c = Some c' -> Forall (fun a => starts_push a = false) sched ->
  (produces sched + push_left (pusher c') <= push_left (pusher c))%nat.
Proof.
  unfold produces. revert c. induction sched as [|a sched IH]; intros c; cbn [run]; [intros [= <-]; cbn; lia|].
  destruct (act a c) as [c1|] eqn:E; cbn [mbind option_bind]; [|done]. intros Er [Ha Hs]%Forall_cons.
  specialize (IH c1 Er Hs). rewrite filter_cons. destruct a as [req| |req|]; [done|..]; cbn [act] in E.
  - rewrite decide_True by done. cbn [length].
    destruct (producer_step _ _) as [[[p o] r]|] eqn:Ep; [|done]. injection E as <-. cbn in *.
    apply producer_step_left in Ep. lia.
  - rewrite decide_False by done. destruct (popper c); try done. injection E as <-. cbn in *. lia.
  - rewrite decide_False by done. destruct (consumer_step _ _) as [[[k o] r]|]; [|done]. injection E as <-. cbn in *. lia.
Qed.

Lemma pops_bounded sched c c' :
  run sched c = Some c' -> Forall (fun a => starts_pop a = false) sched ->
  (consumes sched + pop_left (popper c') <= pop_left (popper c))%nat.
Proof.
  unfold consumes. revert c. induction sched as [|a sched IH]; intros c; cbn [run]; [intros [= <-]; cbn; lia|].
  destruct (act a c) as [c1|] eqn:E; cbn [mbind option_bind]; [|done]. intros Er [Ha Hs]%Forall_cons.
  specialize (IH c1 Er Hs). rewrite filter_cons. destruct a as [req| |req|]; [| |done|]; cbn [act] in E.
  - rewrite decide_False by done. destruct (pusher c); try done. injection E as <-. cbn in *. lia.
  - rewrite decide_False by done. destruct (producer_step _ _) as [[[p o] r]|]; [|done]. injection E as <-. cbn in *. lia.
  - rewrite decide_True by done. cbn [length].
    destruct (consumer_step _ _) as [[[k o] r]|] eqn:Ep; [|done]. injection E as <-. cbn in *.
    apply consumer_step_left in Ep. lia.
Qed.

Lemma push_left_0 p : push_left p = 0%nat -> p = Idle.
Proof. destruct p; cbn; (done || lia). Qed.
Lemma pop_left_0 k : pop_left k = 0%nat -> k = Waiting.
Proof. destruct k as [|[|] ?|]; cbn; (done || lia). Qed.

(** ** Theorems *)

(** C8: One producer and one consumer may interleave their calls, single or
    batched, in any way: the packets received are, in order, a prefix of the
    packets published; the ring never holds more than its capacity; no two
    concurrent slot accesses conflict; no thread inside a call is stuck; and
    between calls the ring is well formed and holds exactly the rest. *)
Theorem spsc_linearizable n sched c :
  0 <= n <= 2 ^ 63 -> Forall action_ok sched -> zsum (map offered sched) < 2 ^ 64 ->
  run sched (initial n) = Some c ->
  received c = take (length (received c)) (published c) /\
  Z.of_nat (length (log c)) - Z.of_nat (length (received c)) <= capacity (PacketRing_new n) /\
  (forall s, writes_slot c = Some s -> reads_slot c <> Some s) /\
  (pusher c <> Idle -> is_Some (act Produce c)) /\
  (popper c <> Waiting -> is_Some (act Consume c)) /\
  (pusher c = Idle -> popper c = Waiting ->
   ring_inv (ring c) /\ contents (ring c) = drop (length (received c)) (published c)).
Proof.
  intros Hn Hok Hb Er. destruct (spsc_run_inv sched (initial n) c) as [H Hc];
    [by apply spsc_initial_inv|done|cbn; lia|done|].
  destruct (spsc_act_defined c H) as [Hp Hk]. pose proof (si_order c H) as Ho. pose proof (low_read c).
  pose proof (si_read c H) as Hr. pose proof (si_write c H) as Hw. pose proof (high_pos c H) as Hh.
  pose proof (si_budget c H) as Hbu. pose proof (si_out c H) as Hout.
  assert (0 <= pending (pusher c)) by (destruct (pusher c); cbn; lia).
  split_and!; [| |intros s E1 E2; by apply (no_race c s)|done|done|].
  - apply (f_equal (take (length (received c)))) in Hout.
    rewrite take_app_length, take_take, Nat.min_l in Hout by lia. done.
  - change (capacity (PacketRing_new n)) with (capacity_ (ring (initial n))). rewrite <- Hc.
    unfold high in *. lia.
  - intros Ei Ew. rewrite Ei in Hh. unfold low, high, log in *. rewrite Ei, Ew in *.
    cbn [taken copied length] in *. rewrite app_nil_r in *. pose proof (si_slots c H) as Hs.
    unfold low, high, log in Hs. rewrite Ei, Ew in Hs. cbn [taken copied length] in Hs.
    rewrite app_nil_r in Hs. split.
    + split; [apply H..|lia|]. intros pos Hpos. rewrite Hs by lia. by rewrite decide_False by lia.
    + unfold contents, used. apply list_eq. intros i.
      destruct (decide (i < Z.to_nat (write_pos_ (ring c) - read_pos_ (ring c)))%nat) as [Hi|Hi].
      * rewrite window_lookup by done. rewrite Hs by lia. rewrite decide_True by lia.
        rewrite lookup_drop. replace (length (received c) + i)%nat
          with (Z.to_nat (read_pos_ (ring c) + Z.of_nat i)) by lia.
        symmetry. apply list_lookup_lookup_total_lt. lia.
      * rewrite !lookup_ge_None_2; rewrite ?length_window, ?length_drop; (done || lia).
Qed.

(** C40: Both ends are wait-free: in any interleaving, a call in progress takes at
    most a number of its own steps fixed by the request (two more than the
    packets it asks for), whatever the other thread does in between, new calls
    included; once it has taken that many it has returned.  [sched] is any
    schedule in which the thread itself starts no further call. *)
Theorem spsc_wait_free sched c c' :
  run sched c = Some c' ->
  (Forall (fun a => starts_push a = false) sched ->
     (produces sched + push_left (pusher c') <= push_left (pusher c))%nat /\
     ((push_left (pusher c) <= produces sched)%nat -> pusher c' = Idle)) /\
  (Forall (fun a => starts_pop a = false) sched ->
     (consumes sched + pop_left (popper c') <= pop_left (popper c))%nat /\
     ((pop_left (popper c) <= consumes sched)%nat -> popper c' = Waiting)).
Proof.
  intros Er. split; intros Hs.
  - pose proof (pushes_bounded sched c c' Er Hs) as H. split; [done|]. intros Hn. apply push_left_0. lia.
  - pose proof (pops_bounded sched c c' Er Hs) as H. split; [done|]. intros Hn. apply pop_left_0. lia.
Qed.

(** ** A call that runs alone is the operation of [PacketRing] *)
Fixpoint push_alone (fuel : nat) (p : producer) (r : PacketRing) : option (Z * PacketRing) :=
  match fuel with
  | O => None
  | S fuel =>
      '(p, n, r) ← producer_step p r;
      match n with Some n => Some (n, r) | None => push_alone fuel p r end
  end.

Fixpoint pop_alone (fuel : nat) (k : consumer) (r : PacketRing) : option (list Packet * PacketRing) :=
  match fuel with
  | O => None
  | S fuel =>
      '(k, out, r) ← consumer_step k r;
      match out with Some ps => Some (ps, r) | None => pop_alone fuel k r end
  end.

Lemma push_alone_loop ps w i r fuel :
  (i <= length ps)%nat -> (length ps - i < fuel)%nat ->
  push_alone fuel (Copying ps w i) r =
    slots ← push_loop (mask_ r) w (Z.of_nat i) (drop i ps) (packets_ r);
    Some (Z.of_nat (length ps),
          mkPacketRing (capacity_ r) (mask_ r) (u64 (w + Z.of_nat (length ps))) (read_pos_ r) slots).
Proof.
  revert i r. induction fuel as [|fuel IH]; intros i r Hi Hf; [lia|].
  cbn [push_alone producer_step]. destruct (ps !! i) as [p|] eqn:E.
  - rewrite (drop_S _ _ _ E). cbn [push_loop].
    destruct (assign _ _ p) as [sl|]; cbn [mbind option_bind]; [|done].
    pose proof (lookup_lt_Some _ _ _ E). rewrite IH by lia. cbn [mask_ packets_ capacity_ read_pos_].
    by replace (Z.of_nat (S i)) with (Z.of_nat i + 1) by lia.
  - apply lookup_ge_None in E. assert (i = length ps) as -> by lia. rewrite drop_all.
    cbn [push_loop mbind option_bind]. done.
Qed.

Lemma pop_alone_loop n rd acc r fuel :
  (n < fuel)%nat ->
  pop_alone fuel (Taking n rd acc) r =
    '(ps, slots) ← pop_loop (mask_ r) rd (Z.of_nat (length acc)) n (packets_ r);
    Some (acc ++ ps,
          mkPacketRing (capacity_ r) (mask_ r) (write_pos_ r) (u64 (rd + Z.of_nat (length (acc ++ ps)))) slots).
Proof.
  revert n acc r. induction fuel as [|fuel IH]; intros n acc r Hf; [lia|].
  cbn [pop_alone consumer_step]. destruct n as [|n]; cbn [pop_loop].
  { cbn [mbind option_bind]. by rewrite app_nil_r. }
  destruct (index _ _) as [p|]; cbn [mbind option_bind]; [|done].
  destruct (assign _ _ _) as [sl|]; cbn [mbind option_bind]; [|done].
  rewrite IH by lia. cbn [mask_ packets_ capacity_ write_pos_]. rewrite length_app. cbn [length].
  replace (Z.of_nat (length acc + 1)) with (Z.of_nat (length acc) + 1) by lia.
  destruct (pop_loop _ _ _ _ _) as [[ps sl']|]; cbn [mbind option_bind]; [|done].
  by rewrite <- app_assoc.
Qed.

Lemma length_pop_loop mask rd i n slots ps slots' :
  pop_loop mask rd i n slots = Some (ps, slots') -> length ps = n.
Proof.
  revert i slots ps. induction n as [|n IH]; intros i slots ps; cbn [pop_loop]; [by intros [= <- <-]|].
  destruct (index _ _) as [p|]; cbn [mbind option_bind]; [|done].
  destruct (assign _ _ _) as [sl|]; cbn [mbind option_bind]; [|done].
  destruct (pop_loop _ _ _ _ _) as [[ps' sl']|] eqn:E; cbn [mbind option_bind]; [|done].
  intros [= <- <-]. cbn. by rewrite (IH _ _ _ E).
Qed.

(** A call whose steps are not interleaved with the other thread's is the
    single operation of the sequential model: [try_push], [try_push_batch],
    [try_pop] and [try_pop_batch] are their step sequences. *)
Theorem spsc_calls_are_operations r p ps size :
  ring_inv r -> 0 <= size ->
  push_alone 3 (push_start (PushOne p) r) r =
    prod_map (fun b : bool => if b then 1 else 0) id <$> try_push r p /\
  push_alone (length ps + 2) (push_start (PushMany ps) r) r = try_push_batch r ps /\
  pop_alone 3 (pop_start PopOne r) r =
    prod_map (fun o : option Packet => match o with Some x => [x] | None => [] end) id <$> try_pop r /\
  pop_alone (Z.to_nat size + 2) (pop_start (PopMany size) r) r = try_pop_batch r size.
Proof.
  intros H Hz. destruct (ri_pos r H) as [? [? ?]]. split_and!; unfold push_start, pop_start.
  - unfold try_push. cbn [push_alone producer_step admits].
    destruct (capacity_ r <=? u64 (write_pos_ r - read_pos_ r)); cbn [Z.eqb mbind option_bind]; [done|].
    change (take (Z.to_nat 1) (offers (PushOne p))) with [p].
    cbn [push_alone producer_step lookup list_lookup]. change (Z.of_nat 0) with 0.
    rewrite Z.add_0_r, (wrap_small 64 (write_pos_ r)) by (unfold in_width; lia).
    by destruct (assign _ _ p).
  - replace (length ps + 2)%nat with (S (length ps + 1)) by lia.
    unfold try_push_batch. cbn [push_alone producer_step admits offers].
    set (n := Z.min _ _). destruct (Z.eqb_spec n 0) as [->|E]; cbn [mbind option_bind]; [done|].
    assert (0 <= n <= Z.of_nat (length ps)) as Hn.
    { subst n. pose proof (wrap_range 64 ltac:(lia) (capacity_ r - u64 (write_pos_ r - read_pos_ r))) as [? _]. lia. }
    rewrite push_alone_loop by (rewrite ?length_take; lia). rewrite drop_0, length_take.
    by replace (Z.of_nat (Nat.min (Z.to_nat n) (length ps))) with n by lia.
  - unfold try_pop. cbn [pop_alone consumer_step yields].
    destruct (write_pos_ r <=? read_pos_ r); cbn [Z.eqb mbind option_bind]; [done|].
    change (Z.to_nat 1) with 1%nat. cbn [pop_alone consumer_step length]. change (Z.of_nat 0) with 0.
    rewrite Z.add_0_r, (wrap_small 64 (read_pos_ r)) by (unfold in_width; lia).
    destruct (index _ _) as [x|]; cbn [mbind option_bind]; [|done]. by destruct (assign _ _ _).
  - replace (Z.to_nat size + 2)%nat with (S (Z.to_nat size + 1)) by lia.
    unfold try_pop_batch. cbn [pop_alone consumer_step yields].
    set (n := Z.min _ _). destruct (Z.eqb_spec n 0) as [->|E]; cbn [mbind option_bind]; [done|].
    assert (0 <= n <= size) as Hn.
    { subst n. pose proof (wrap_range 64 ltac:(lia) (write_pos_ r - read_pos_ r)) as [? _]. lia. }
    rewrite pop_alone_loop by lia. cbn [length app]. change (Z.of_nat 0) with 0.
    destruct (pop_loop _ _ _ _ _) as [[out sl]|] eqn:Ep; cbn [mbind option_bind]; [|done].
    apply length_pop_loop in Ep. rewrite Ep. by replace (Z.of_nat (Z.to_nat n)) with n by lia.
Qed.

(** ** Witnesses *)
Definition demo_sched : list action :=
  [Push (PushMany [demo_pkt 1; demo_pkt 2; demo_pkt 3]); Pop PopOne; Produce; Produce; Consume;
   Produce; Produce; Pop (PopMany 4); Consume; Push (PushOne (demo_pkt 4)); Consume; Produce;
   Consume; Consume].

Lemma spsc_linearizable_witness :
  exists c, run demo_sched (initial 2) = Some c /\ received c = [demo_pkt 1; demo_pkt 2] /\
    received c = take (length (received c)) (published c).
Proof.
  destruct (run demo_sched (initial 2)) as [c|] eqn:E; [|by vm_compute in E].
  exists c. split; [done|]. split; [by vm_compute in E; injection E as <-|].
  apply (spsc_linearizable 2 demo_sched c); [lia| |reflexivity|exact E].
  repeat constructor; cbn; lia.
Defined.

(** A push of one packet finishes while the consumer starts two calls. *)
Definition demo_push : config := default (initial 2) (run [Push (PushOne (demo_pkt 1))] (initial 2)).
Definition demo_overlap : list action := [Pop PopOne; Produce; Consume; Pop PopOne; Produce; Consume; Produce].

Lemma spsc_wait_free_witness :
  push_left (pusher demo_push) = 3%nat /\
  exists c', run demo_overlap demo_push = Some c' /\ pusher c' = Idle.
Proof.
  split; [reflexivity|]. destruct (run demo_overlap demo_push) as [c'|] eqn:E; [|by vm_compute in E].
  exists c'. split; [done|].
  refine (proj2 (proj1 (spsc_wait_free demo_overlap demo_push c' E) _) _); [repeat constructor|vm_compute; lia].
Defined.

Lemma spsc_calls_are_operations_witness :
  push_alone 3 (push_start (PushOne (demo_pkt 3)) full_ring) full_ring =
    prod_map (fun b : bool => if b then 1 else 0) id <$> try_push full_ring (demo_pkt 3) /\
  pop_alone 7 (pop_start (PopMany 5) full_ring) full_ring = try_pop_batch full_ring 5.
Proof.
  destruct (spsc_calls_are_operations full_ring (demo_pkt 3) [] 5 full_ring_inv) as (E1 & _ & _ & E4); [lia|].
  split; [exact E1|exact E4].
Defined.
