(* ===== verification/Messages.v ===== *)
(** * Messages: the applications' records and their bytes (apps/messages.hpp)

    The applications copy the structs to and from the wire with [memcpy]; the
    layout is the one of the x86-64 ABI: little endian, members aligned to their
    size, so [OrderRequest] has two padding bytes after [side] and [OrderAck]
    seven after [accepted].  Padding is arbitrary: [pad]. *)
From S2P Require Import Prelude Bytes.

Definition Buy : Z := 1.
Definition Sell : Z := 2.
Definition New : Z := 1.
Definition Cancel : Z := 2.
Definition Replace : Z := 3.

(** The enumerations are kept as the byte that was received. *)
Record OrderRequest := mkOrderRequest {
  client_order_id : Z;
  target_order_id : Z;
  instrument_id : Z;
  action : Z;
  side : Z;
  price : Z;
  quantity : Z;
  send_ts_ns : Z;
}.

Record OrderAck := mkOrderAck {
  ack_client_order_id : Z;
  server_order_id : Z;
  accepted : bool;
}.

Record MarketDataIncrement := mkMarketDataIncrement {
  seq : Z;
  stream_id : Z;
  md_instrument_id : Z;
  bid_price : Z;
  bid_qty : Z;
  ask_price : Z;
  ask_qty : Z;
  md_send_ts_ns : Z;
}.

Definition sizeof_OrderRequest : nat := 40.
Definition sizeof_OrderAck : nat := 24.
Definition sizeof_MarketDataIncrement : nat := 40.

Definition request_repr (pad : list Z) (r : OrderRequest) : list Z :=
  le_bytes 8 r.(client_order_id) ++ le_bytes 8 r.(target_order_id) ++ le_bytes 4 r.(instrument_id) ++
  le_bytes 1 r.(action) ++ le_bytes 1 r.(side) ++ pad ++ le_bytes 4 r.(price) ++
  le_bytes 4 r.(quantity) ++ le_bytes 8 r.(send_ts_ns).

Definition request_of_repr (bs : list Z) : OrderRequest :=
  mkOrderRequest (field bs 0 8) (field bs 8 8) (field bs 16 4) (field bs 20 1) (field bs 21 1)
    (field bs 24 4) (field bs 28 4) (field bs 32 8).

Definition ack_repr (pad : list Z) (a : OrderAck) : list Z :=
  le_bytes 8 a.(ack_client_order_id) ++ le_bytes 8 a.(server_order_id) ++
  [if a.(accepted) then 1 else 0] ++ pad.

Definition ack_of_repr (bs : list Z) : OrderAck :=
  mkOrderAck (field bs 0 8) (field bs 8 8) (negb (field bs 16 1 =? 0)).

Definition increment_repr (d : MarketDataIncrement) : list Z :=
  le_bytes 8 d.(seq) ++ le_bytes 4 d.(stream_id) ++ le_bytes 4 d.(md_instrument_id) ++
  le_bytes 4 d.(bid_price) ++ le_bytes 4 d.(bid_qty) ++ le_bytes 4 d.(ask_price) ++
  le_bytes 4 d.(ask_qty) ++ le_bytes 8 d.(md_send_ts_ns).

Definition increment_of_repr (bs : list Z) : MarketDataIncrement :=
  mkMarketDataIncrement (field bs 0 8) (field bs 8 4) (field bs 12 4) (field bs 16 4)
    (field bs 20 4) (field bs 24 4) (field bs 28 4) (field bs 32 8).

Record request_ok (r : OrderRequest) : Prop := {
  ro_client : in_width 64 r.(client_order_id);
  ro_target : in_width 64 r.(target_order_id);
  ro_instrument : in_width 32 r.(instrument_id);
  ro_action : in_width 8 r.(action);
  ro_side : in_width 8 r.(side);
  ro_price : in_width 32 r.(price);
  ro_quantity : in_width 32 r.(quantity);
  ro_ts : in_width 64 r.(send_ts_ns);
}.

Lemma le_val_le_bytes_small n x : in_width (8 * Z.of_nat n) x -> le_val (le_bytes n x) = x.
Proof.
  intros H. rewrite le_val_le_bytes. change 256 with (2 ^ 8). rewrite <- Z.pow_mul_r by lia.
  by apply Z.mod_small.
Qed.

Lemma field_skip (pre l : list Z) off n k :
  length pre = k -> (k <= off)%nat -> field (pre ++ l) off n = field l (off - k) n.
Proof. intros <- H. unfold field. by rewrite skipn_app, drop_ge by done. Qed.

Lemma field_here n x (post : list Z) : in_width (8 * Z.of_nat n) x -> field (le_bytes n x ++ post) 0 n = x.
Proof.
  intros H. unfold field. rewrite drop_0.
  rewrite <- (length_le_bytes n x) at 1. rewrite take_app_length. by apply le_val_le_bytes_small.
Qed.

(** Reads the field at a known offset of a concatenation of encoded members. *)
Ltac read_field :=
  repeat (erewrite field_skip by
    first [apply length_le_bytes | eassumption | reflexivity | lia]);
  cbn [Nat.sub]; apply field_here; assumption.

Lemma request_roundtrip pad r rest :
  request_ok r -> length pad = 2%nat -> request_of_repr (request_repr pad r ++ rest) = r.
Proof.
  intros [] Hp. unfold request_of_repr, request_repr. rewrite <- !app_assoc.
  destruct r. cbn [client_order_id target_order_id instrument_id action side price quantity send_ts_ns] in *.
  f_equal; read_field.
Qed.

Lemma length_request_repr pad r : length pad = 2%nat -> length (request_repr pad r) = sizeof_OrderRequest.
Proof. intros Hp. unfold request_repr. rewrite !length_app, !length_le_bytes, Hp. done. Qed.

Lemma length_ack_repr pad a : length pad = 7%nat -> length (ack_repr pad a) = sizeof_OrderAck.
Proof. intros Hp. unfold ack_repr. rewrite !length_app, !length_le_bytes, Hp. done. Qed.

Lemma ack_roundtrip pad a rest :
  in_width 64 a.(ack_client_order_id) -> in_width 64 a.(server_order_id) -> length pad = 7%nat ->
  ack_of_repr (ack_repr pad a ++ rest) = a.
Proof.
  intros H1 H2 Hp. unfold ack_of_repr, ack_repr. rewrite <- !app_assoc.
  destruct a as [c s b]. cbn [ack_client_order_id server_order_id accepted] in *.
  f_equal; [read_field..|]. 
  rewrite (field_skip _ _ _ _ 8), (field_skip _ _ _ _ 8) by (apply length_le_bytes || (simpl; lia)).
  by destruct b.
Qed.

Lemma increment_roundtrip d rest :
  in_width 64 d.(seq) -> in_width 32 d.(stream_id) -> in_width 32 d.(md_instrument_id) ->
  in_width 32 d.(bid_price) -> in_width 32 d.(bid_qty) -> in_width 32 d.(ask_price) ->
  in_width 32 d.(ask_qty) -> in_width 64 d.(md_send_ts_ns) ->
  increment_of_repr (increment_repr d ++ rest) = d.
Proof.
  intros. unfold increment_of_repr, increment_repr. rewrite <- !app_assoc.
  destruct d. cbn [seq stream_id md_instrument_id bid_price bid_qty ask_price ask_qty md_send_ts_ns] in *.
  f_equal; read_field.
Qed.
