(* ===== verification/OrderReceiver.v ===== *)
(** * OrderReceiver: in-order delivery over the reassembly buffer

    The data path of the order gateway (apps/order_tcp/order_gateway.cpp) hands
    an in-order payload to its order handler and then replays the buffered
    segments that became contiguous; any other payload goes to the reassembly
    buffer.  This file has that control flow for any handler that advances the
    receive sequence by the payload it consumed, and proves that the arrival
    order does not matter. *)
From S2P Require Import Prelude Bytes BitOps Memory TcpReassembly.

Section Receiver.
Context {S : Type}.
(** The handler of one payload, and the receive sequence of its state. *)
Variable process : list Z -> S -> M S.
Variable recv_seq : S -> Z.

Fixpoint process_all (payloads : list (list Z)) (s : S) : M S :=
  match payloads with
  | [] => mret s
  | bs :: payloads => s ← process bs s; process_all payloads s
  end.

Definition out_of_order (seq : Z) (bs : list Z) (s : S) : bool :=
  negb (length bs =? 0)%nat && negb (seq =? recv_seq s).

(** The in-order branch: process, pop what became contiguous, replay. *)
Definition deliver (bs : list Z) (s : S) (b : TcpReassemblyBuffer)
    : M (Z * S * TcpReassemblyBuffer) :=
  s ← process bs s;
  r ← lift (pop_contiguous (recv_seq s) b);
  let '(replayed, replay_segments, b) := r in
  s ← (if 0 <? replayed then process_all (map seg_data replay_segments) s else mret s);
  mret (replayed, s, b).

(** What the handler preserves, the in-order branch preserves. *)
Lemma deliver_preserves (P : S -> Prop) bs s b m n s' b' m' :
  (forall bs s m s' m', P s -> process bs s m = Some (s', m') -> P s') ->
  P s -> deliver bs s b m = Some ((n, s', b'), m') -> P s'.
Proof.
  intros Hp Hs. unfold deliver, mbind, M_bind.
  destruct (process bs s m) as [[s1 m1]|] eqn:E; [|done]. specialize (Hp bs s m s1 m1 Hs E) as H1.
  unfold lift. destruct (pop_contiguous _ b) as [[[k segs] b1]|]; [|done]. cbn [mbind option_bind].
  assert (forall l s m s' m', P s -> process_all l s m = Some (s', m') -> P s') as Hall.
  { induction l as [|x l IH]; intros t mt t' mt' Ht; cbn [process_all]; [by intros [= <- _]|].
    unfold mbind, M_bind. destruct (process x t mt) as [[t1 mt1]|] eqn:Et; [|done]. eauto. }
  destruct (0 <? k); [|by intros [= _ <- _ _]].
  destruct (process_all _ s1 m1) as [[s2 m2]|] eqn:E2; [|done]. intros [= _ <- _ _]. eauto.
Qed.

(** Payloads the handler accepts; each advances the receive sequence. *)
Variable good : list Z -> Prop.
Hypothesis good_nonempty : forall bs, good bs -> bs <> [].
Hypothesis process_advances : forall bs s m s' m',
  good bs -> process bs s m = Some (s', m') ->
  recv_seq s' = u32 (recv_seq s + u32 (Z.of_nat (length bs))).

Lemma stored_cut_cons c p pieces :
  stored (cut c (p :: pieces)) = Z.of_nat (length p) + stored (cut (u32 (c + Z.of_nat (length p))) pieces).
Proof. cbn [cut]. apply stored_cons. Qed.

(** The head of the stream is the only segment at its sequence number. *)
Lemma cut_head c p pieces bs :
  NoDup (cut c (p :: pieces)).*1 -> (c, bs) ∈ cut c (p :: pieces) -> bs = p.
Proof.
  cbn [cut fmap list_fmap fst]. intros [Hni _]%NoDup_cons [[= ->]|Hin]%elem_of_cons; [done|].
  destruct Hni. apply list_elem_of_fmap. by exists (c, bs).
Qed.

(** A contiguous run of segments of the stream is a prefix of the stream. *)
Lemma contiguous_prefix segs c e pieces rest :
  in_width 32 c -> Forall good pieces -> stored (cut c pieces) < 2 ^ 32 ->
  contiguous c segs e -> cut c pieces ≡ₚ pairs segs ++ rest ->
  exists tl, pieces = map seg_data segs ++ tl /\ rest ≡ₚ cut e tl /\ in_width 32 e /\
    (forall s m s' m', recv_seq s = c -> process_all (map seg_data segs) s m = Some (s', m') ->
     recv_seq s' = e).
Proof.
  intros Hc Hg Hst Hcon. revert pieces Hc Hg Hst.
  induction Hcon as [c|c bs segs e Hcon IH]; intros pieces Hc Hg Hst Hp.
  { exists pieces. cbn [map app pairs] in *. split_and!; try done. by intros s m s' m' ? [= <- <-]. }
  cbn [pairs map seg_seq seg_data app] in Hp. fold (pairs segs) in Hp.
  destruct (cut_keys c pieces Hc) as [_ Hnd]; [|done|].
  { eapply Forall_impl; [exact Hg|]. exact good_nonempty. }
  destruct pieces as [|p pieces].
  { cbn [cut] in Hp. by apply Permutation_nil_cons in Hp. }
  assert (bs = p) as -> by (eapply cut_head; [exact Hnd|]; rewrite Hp; by left).
  cbn [cut] in Hp. apply Permutation_cons_inv in Hp.
  rewrite stored_cut_cons in Hst. pose proof (stored_nonneg (cut (u32 (c + Z.of_nat (length p))) pieces)).
  apply Forall_cons in Hg as [Hgp Hg].
  rewrite (wrap_small 32 (Z.of_nat (length p))) in IH by (unfold in_width; lia).
  destruct (IH pieces) as (tl & -> & Hr & He & Hrun); [apply wrap_range; lia|done|lia|done|].
  exists tl. split_and!; try done. intros s m s' m' Es. cbn [map process_all seg_data].
  unfold mbind, M_bind. destruct (process p s m) as [[s1 m1]|] eqn:E; [|done].
  apply (Hrun s1 m1 s' m'). rewrite (process_advances _ _ _ _ _ Hgp E), Es.
  by rewrite (wrap_small 32 (Z.of_nat (length p))) by (unfold in_width; lia).
Qed.

Lemma cut_good c pieces kv : Forall good pieces -> kv ∈ cut c pieces -> good kv.2.
Proof.
  intros Hg. revert c. induction Hg as [|p pieces Hp _ IH]; intros c; cbn [cut];
    [by intros ?%elem_of_nil|]. intros [-> |?]%elem_of_cons; [done|by eapply IH].
Qed.

(** What the receiver has buffered and what is still to arrive make up the rest
    of the stream. *)
Record awaiting (s : S) (b : TcpReassemblyBuffer) (arrivals : segment_map)
    (rest : list (list Z)) : Prop := {
  aw_inv : buffer_inv b;
  aw_seq : in_width 32 (recv_seq s);
  aw_good : Forall good rest;
  aw_size : stored (cut (recv_seq s) rest) < 2 ^ 32;
  aw_split : segments_ b ++ arrivals ≡ₚ cut (recv_seq s) rest;
  aw_gap : map_find (recv_seq s) (segments_ b) = None;
}.

Lemma awaiting_nil s b rest : awaiting s b [] rest -> b = TcpReassemblyBuffer_new /\ rest = [].
Proof.
  intros [[_ _ Ht _] _ _ _ Hp Hg]. rewrite app_nil_r in Hp. destruct rest as [|p rest].
  - cbn [cut] in Hp. symmetry in Hp. apply Permutation_nil in Hp.
    destruct b as [m t]. cbn in *. by subst.
  - exfalso. apply map_find_None in Hg. rewrite Hp in Hg. cbn [cut] in Hg.
    apply Forall_cons in Hg as [Hg _]. by apply Hg.
Qed.

Lemma awaiting_insert s b seq bs arrivals rest :
  awaiting s b ((seq, bs) :: arrivals) rest -> seq <> recv_seq s ->
  awaiting s (snd (insert_bytes seq bs b)) arrivals rest.
Proof.
  intros [Hb Hs Hg Hst Hp Hgap] Hne.
  assert (Forall (fun p => p <> []) rest) as Hne' by (eapply Forall_impl; [exact Hg|exact good_nonempty]).
  destruct (cut_keys _ rest Hs Hne' Hst) as [Hk Hnd].
  assert ((seq, bs) ∈ cut (recv_seq s) rest) as Hin.
  { rewrite <- Hp. apply elem_of_app. right. by left. }
  assert (bs <> []) as Hbs.
  { exact (good_nonempty _ (cut_good _ _ _ Hg Hin)). }
  rewrite Forall_forall in Hk. destruct (Hk _ Hin) as [Hw _]. cbn [fst] in Hw.
  assert (map_find seq (segments_ b) = None) as Hf.
  { apply map_find_None, Forall_forall. intros [k v] Hkv E. cbn in E. subst k.
    rewrite <- Hp, fmap_app in Hnd. apply NoDup_app in Hnd as (_ & Hd & _).
    apply (Hd seq); [apply list_elem_of_fmap; by exists (seq, v)|].
    cbn [fmap list_fmap fst]. by left. }
  assert (stored (segments_ b) + Z.of_nat (length bs) <= stored (cut (recv_seq s) rest)) as Hfit.
  { rewrite <- (stored_perm _ _ Hp). unfold stored at 2. rewrite map_app, zsum_app. cbn [map zsum foldr snd].
    fold (zsum (map (fun kv => Z.of_nat (length kv.2)) arrivals)).
    pose proof (stored_nonneg arrivals). unfold stored in *. lia. }
  destruct (insert_bytes_spec seq bs b Hb Hw Hbs) as (ok & b' & E & Hb' & Hcase); [lia|].
  rewrite Hf in Hcase. destruct Hcase as (-> & Hperm & _). rewrite E. cbn [snd].
  split; try done.
  - rewrite Hperm, <- Hp. cbn [app]. apply Permutation_middle.
  - apply map_find_None. rewrite Hperm. apply Forall_cons. split; [done|by apply map_find_None].
Qed.
(** An in-order arrival: the handler runs on it and on every buffered segment
    that becomes contiguous, and the receiver waits for the rest. *)
Lemma awaiting_deliver s b bs arrivals rest :
  awaiting s b ((recv_seq s, bs) :: arrivals) rest ->
  exists rest', rest = bs :: rest' /\ good bs /\
    forall m s1 m1, process bs s m = Some (s1, m1) ->
    exists n segs b' tl, pop_contiguous (recv_seq s1) b = Some (n, segs, b') /\
      rest' = map seg_data segs ++ tl /\ (0 < n \/ segs = []) /\
      forall s2 m2, process_all (map seg_data segs) s1 m1 = Some (s2, m2) -> awaiting s2 b' arrivals tl.
Proof.
  intros [Hb Hs Hg Hst Hp Hgap].
  destruct (cut_keys _ rest Hs) as [_ Hnd]; [by eapply Forall_impl; [exact Hg|exact good_nonempty]|done|].
  assert ((recv_seq s, bs) ∈ cut (recv_seq s) rest) as Hin.
  { rewrite <- Hp. apply elem_of_app. right. by left. }
  destruct rest as [|p rest']; [cbn [cut] in Hin; by apply elem_of_nil in Hin|].
  apply (cut_head _ _ _ _ Hnd) in Hin as ->. exists rest'. split; [done|].
  apply Forall_cons in Hg as [Hgp Hg]. split; [done|]. intros m s1 m1 E.
  rewrite stored_cut_cons in Hst. set (c1 := u32 (recv_seq s + Z.of_nat (length p))) in *.
  pose proof (stored_nonneg (cut c1 rest')).
  assert (recv_seq s1 = c1) as E1.
  { rewrite (process_advances _ _ _ _ _ Hgp E). unfold c1.
    by rewrite (wrap_small 32 (Z.of_nat (length p))) by (unfold in_width; lia). }
  assert (segments_ b ++ arrivals ≡ₚ cut c1 rest') as Hp1.
  { cbn [cut] in Hp. rewrite <- Permutation_middle in Hp. by apply Permutation_cons_inv in Hp. }
  destruct (pop_contiguous_spec b c1 Hb) as (n & segs & b' & e & Epop & Hb' & Hcon & Hgap' & Hsp & Hn & _).
  destruct (contiguous_prefix segs c1 e rest' (segments_ b' ++ arrivals)) as (tl & Etl & Hr & He & Hrun);
    [apply wrap_range; lia|done|lia|done|by rewrite <- Hp1, Hsp, app_assoc|].
  exists n, segs, b', tl. rewrite E1. split_and!; [done|done| |].
  { destruct segs as [|[k d] segs]; [by right|left]. rewrite Hn. cbn [pairs map seg_seq seg_data].
    rewrite stored_cons. pose proof (stored_nonneg (pairs segs)) as Hnn. unfold pairs in Hnn.
    rewrite Etl in Hg. cbn [map app seg_data] in Hg. apply Forall_cons in Hg as [Hgd _].
    apply good_nonempty in Hgd. destruct d; [done|cbn [length]; lia]. }
  intros s2 m2 Eall. assert (recv_seq s2 = e) as E2 by exact (Hrun s1 m1 s2 m2 E1 Eall).
  assert (Forall good tl) as Hgt by (rewrite Etl in Hg; by apply Forall_app in Hg as [_ ?]).
  split; rewrite ?E2; try done.
  rewrite <- (stored_perm _ _ Hr). rewrite <- (stored_perm _ _ Hp1), (stored_perm _ _ (Permutation_app_tail arrivals Hsp)) in Hst.
  unfold stored in *. rewrite <- app_assoc, map_app, zsum_app in Hst.
  pose proof (stored_nonneg (pairs segs)) as Hnn. unfold stored in Hnn. lia.
Qed.

Lemma awaiting_buffer s b seq bs arrivals rest :
  awaiting s b ((seq, bs) :: arrivals) rest -> out_of_order seq bs s = true ->
  awaiting s (snd (insert_bytes seq bs b)) arrivals rest.
Proof.
  intros H Ho. apply awaiting_insert; [done|]. unfold out_of_order in Ho.
  apply andb_true_iff in Ho as [_ Ho]. by apply negb_true_iff, Z.eqb_neq in Ho.
Qed.

(** *** A handler that always succeeds

    [step] is the handler's effect on its state, [I] what it needs of the state
    and the memory. *)
Variable step : S -> list Z -> S.
Variable I : S -> mem -> Prop.
Hypothesis process_runs : forall bs s m,
  good bs -> I s m -> exists m', process bs s m = Some (step s bs, m') /\ I (step s bs) m'.

Lemma process_all_runs l s m :
  Forall good l -> I s m ->
  exists m', process_all l s m = Some (foldl step s l, m') /\ I (foldl step s l) m'.
Proof.
  intros Hl. revert s m. induction Hl as [|bs l Hg _ IH]; intros s m Hi; cbn [process_all foldl]; [by exists m|].
  destruct (process_runs bs s m Hg Hi) as (m1 & E & H1). destruct (IH _ _ H1) as (m2 & E2 & H2).
  exists m2. split; [|done]. by eapply bind_run.
Qed.

(** An in-order arrival is served, with everything it completes. *)
Lemma deliver_runs s b seq bs arrivals rest m :
  awaiting s b ((seq, bs) :: arrivals) rest -> out_of_order seq bs s = false -> I s m ->
  exists n s' b' m' tl, deliver bs s b m = Some ((n, s', b'), m') /\ I s' m' /\
    awaiting s' b' arrivals tl /\ foldl step s rest = foldl step s' tl.
Proof.
  intros H Ho Hi.
  assert (bs <> []) as Hbs.
  { apply good_nonempty, (cut_good (recv_seq s) rest (seq, bs) (aw_good _ _ _ _ H)).
    rewrite <- (aw_split _ _ _ _ H). apply elem_of_app. right. by left. }
  unfold out_of_order in Ho. destruct (Z.eqb_spec seq (recv_seq s)) as [->|]; [|by destruct bs].
  destruct (awaiting_deliver s b bs arrivals rest H) as (rest' & -> & Hgb & Hrun).
  destruct (process_runs bs s m Hgb Hi) as (m1 & E & H1).
  destruct (Hrun m _ m1 E) as (n & segs & b' & tl & Epop & -> & Hn & Hnext).
  pose proof (aw_good _ _ _ _ H) as Hg. apply Forall_cons in Hg as [_ [Hg _]%Forall_app].
  destruct (process_all_runs _ _ _ Hg H1) as (m2 & E2 & H2).
  exists n, (foldl step (step s bs) (map seg_data segs)), b', m2, tl. split_and!; try done.
  - unfold deliver. eapply bind_run; [exact E|]. eapply bind_run.
    { unfold lift. rewrite Epop. done. }
    cbv beta iota. eapply bind_run; [|done].
    destruct (Z.ltb_spec 0 n); [done|]. by destruct Hn as [?| ->]; [lia|].
  - by apply (Hnext _ m2).
  - cbn [foldl]. by rewrite foldl_app.
Qed.

Lemma awaiting_fresh s arrivals pieces :
  in_width 32 (recv_seq s) -> Forall good pieces -> stored (cut (recv_seq s) pieces) < 2 ^ 32 ->
  arrivals ≡ₚ cut (recv_seq s) pieces -> awaiting s TcpReassemblyBuffer_new arrivals pieces.
Proof.
  intros Hs Hg Hst Hp. split; try done. split; cbn; (constructor || done).
Qed.
End Receiver.
