(* ===== verification/OrderGateway.v ===== *)
(** * OrderGateway: the order gateway's request handling
    (apps/order_tcp/order_gateway.cpp)

    The processing phase of the gateway's loop: one packet popped from the
    request ring, with the descriptor it came from, is parsed and goes to the
    control path, to the reassembly buffer, or to the order handler, which
    answers every request with an acknowledgment frame.  The socket is the
    parameter [write_to] (what [write] returns for a descriptor and bytes, after
    the writes so far); [ack_obj] is the address of the handler's local
    [OrderAck], [ack_pad] the content of its padding. *)
From S2P Require Import Prelude Bytes BitOps Memory Packet TcpProtocol TcpStateMachine.
From S2P Require Import Allocator MemoryPool TcpReassembly Messages OrderReceiver.

Section Gateway.
Variable write_to : list (Z * list Z) -> Z -> list Z -> Z.
Variable ack_obj : ptr.
Variable ack_pad : list Z.
(** The command-line threshold (0 for none) and the ring's size when a request
    is handled. *)
Variable backpressure_threshold : Z.
Variable ring_size : Z.

(** What the handler writes to standard output: the note on a payload longer than
    a request, and the calls of the tracer, with the request and the ring's size. *)
Inductive note : Type := TrailingBytes (payload_len : Z) | AckTraced (id queue_depth : Z).

Record order_state := mkOrders {
  live_orders : gset Z;
  ack_pool : ZeroCopy.ZeroCopyMemoryPool;
  req_recv_total : Z;
  ack_sent_total : Z;
  reject_total : Z;
  backpressure_hits : Z;
  unexpected_disconnects : Z;
  written : list (Z * list Z);
  notes : list note;
}.

Record reorder_stats := mkReorder {
  reorder_buffered_total : Z;
  reorder_replayed_total : Z;
  reorder_hole_events : Z;
  reorder_hole_peak : Z;
  reorder_hole_bytes_peak : Z;
}.

Record context := mkContext { tcp : TcpConnection; reassembly : TcpReassemblyBuffer }.

Record gateway := mkGateway {
  conn_ctx : gmap Z context;
  orders : order_state;
  reorder : reorder_stats;
  keepalive_recv_total : Z;
}.

(** [allocate], build a frame in the block, [write_to], [deallocate]: the result
    of the write and the length it should have. *)
Definition send_frame (fd : Z) (build : ptr -> M Packet) (o : order_state)
    : M (bool * order_state) :=
  r ← lift (ZeroCopy.allocate o.(ack_pool));
  let '(buf, pool) := r in
  packet ← build buf;
  bytes ← load packet.(data) (Z.to_nat packet.(len));
  let nw := write_to o.(written) fd bytes in
  pool ← lift (ZeroCopy.deallocate packet.(data) pool);
  mret (nw =? packet.(len),
        mkOrders o.(live_orders) pool o.(req_recv_total) o.(ack_sent_total) o.(reject_total)
          o.(backpressure_hits) o.(unexpected_disconnects) (o.(written) ++ [(fd, bytes)]) o.(notes)).

(** The order book: [New] inserts the order, [Cancel] erases the target,
    [Replace] needs it; any other action byte is accepted without effect. *)
Definition apply_action (req : OrderRequest) (live : gset Z) : bool * gset Z :=
  if req.(action) =? New then (true, {[ req.(client_order_id) ]} ∪ live)
  else if req.(action) =? Cancel then
    (bool_decide (req.(target_order_id) ∈ live), live ∖ {[ req.(target_order_id) ]})
  else if req.(action) =? Replace then (bool_decide (req.(target_order_id) ∈ live), live)
  else (true, live).

Definition answer (req : OrderRequest) (ok : bool) : OrderAck :=
  mkOrderAck req.(client_order_id) (u64 (req.(client_order_id) + 1000000)) ok.

Definition length_note (payload : list Z) : list note :=
  if (sizeof_OrderRequest <? length payload)%nat then [TrailingBytes (Z.of_nat (length payload))] else [].

Definition process_order_payload (fd : Z) (payload : list Z) (st : order_state * TcpConnection)
    : M (order_state * TcpConnection) :=
  let '(o, conn) := st in
  if (length payload <? sizeof_OrderRequest)%nat then mret (o, conn) else
  let req := request_of_repr payload in
  let conn := set_recv_seq conn (u32 (conn.(recv_seq) + u32 (Z.of_nat (length payload)))) in
  let '(ok, live) := apply_action req o.(live_orders) in
  let reject := if ok then o.(reject_total) else u64 (o.(reject_total) + 1) in
  let backpressure :=
    if (0 <? backpressure_threshold) && (backpressure_threshold <=? ring_size)
    then u64 (o.(backpressure_hits) + 1) else o.(backpressure_hits) in
  let o := mkOrders live o.(ack_pool) (u64 (o.(req_recv_total) + 1)) o.(ack_sent_total) reject
             backpressure o.(unexpected_disconnects) o.(written) (o.(notes) ++ length_note payload) in
  store ack_obj (ack_repr ack_pad (answer req ok)) ;;
  r ← send_frame fd (create_data conn ack_obj sizeof_OrderAck) o;
  let '(sent, o) := r in
  let ack_sent := if (sent : bool) then u64 (o.(ack_sent_total) + 1) else o.(ack_sent_total) in
  let disconnects :=
    if (sent : bool) then o.(unexpected_disconnects) else u64 (o.(unexpected_disconnects) + 1) in
  let notes := if (sent : bool) then o.(notes) ++ [AckTraced req.(client_order_id) ring_size] else o.(notes) in
  mret (mkOrders o.(live_orders) o.(ack_pool) o.(req_recv_total) ack_sent o.(reject_total)
          o.(backpressure_hits) disconnects o.(written) notes, conn).

(** The control path: FIN and bare ACK. *)
Definition handle_control (fd : Z) (header : TcpHeader) (ctx : context) (g : gateway) : M gateway :=
  let conn := snd (handle_incoming ctx.(tcp) header 0) in
  let keepalive :=
    if has_ack header && negb (has_fin header) then u64 (g.(keepalive_recv_total) + 1)
    else g.(keepalive_recv_total) in
  r ← (if has_fin header then
         r ← send_frame fd (create_ack conn conn.(send_ack)) g.(orders);
         let '(_, o) := r in
         if bool_decide (conn.(state) = CLOSE_WAIT) then
           let '(ok, conn) := initiate_close conn in
           if ok then
             r ← send_frame fd (create_fin conn) o;
             let '(_, o) := r in mret (o, set_send_seq conn (u32 (conn.(send_seq) + 1)))
           else mret (o, conn)
         else mret (o, conn)
       else mret (g.(orders), conn));
  let '(o, conn) := r in
  let conns :=
    if bool_decide (conn.(state) = CLOSED) then delete fd g.(conn_ctx)
    else <[fd := mkContext conn ctx.(reassembly)]> g.(conn_ctx) in
  mret (mkGateway conns o g.(reorder) keepalive).

(** A payload that is not the next one is buffered, and the holes are measured. *)
Definition handle_out_of_order (fd seq : Z) (payload : list Z) (ctx : context) (g : gateway)
    : gateway :=
  let '(inserted, buf) := insert_bytes seq payload ctx.(reassembly) in
  let s := g.(reorder) in
  let stats :=
    if inserted then
      let holes := hole_count buf ctx.(tcp).(recv_seq) in
      let hole_bytes := total_hole_bytes buf ctx.(tcp).(recv_seq) in
      mkReorder (u64 (s.(reorder_buffered_total) + 1)) s.(reorder_replayed_total)
        (if 0 <? holes then u64 (s.(reorder_hole_events) + 1) else s.(reorder_hole_events))
        (Z.max s.(reorder_hole_peak) holes) (Z.max s.(reorder_hole_bytes_peak) hole_bytes)
    else s in
  mkGateway (<[fd := mkContext ctx.(tcp) buf]> g.(conn_ctx)) g.(orders) stats
    g.(keepalive_recv_total).

(** The in-order payload, and the replay of what it makes contiguous. *)
Definition handle_in_order (fd : Z) (payload : list Z) (ctx : context) (g : gateway) : M gateway :=
  r ← deliver (process_order_payload fd) (fun st : order_state * TcpConnection => st.2.(recv_seq)) payload
        (g.(orders), ctx.(tcp)) ctx.(reassembly);
  let '(replayed, (o, conn), buf) := r in
  let s := g.(reorder) in
  let stats :=
    if 0 <? replayed then
      mkReorder s.(reorder_buffered_total) (u64 (s.(reorder_replayed_total) + replayed))
        s.(reorder_hole_events) s.(reorder_hole_peak) s.(reorder_hole_bytes_peak)
    else s in
  mret (mkGateway (<[fd := mkContext conn buf]> g.(conn_ctx)) o stats g.(keepalive_recv_total)).

(** One packet of the ring.  [dropping]: the server-drop deadline has passed.  The
    result says whether the iteration gets to its end, past every [continue]. *)
Definition handle_packet (dropping : bool) (fd : Z) (pkt : Packet) (g : gateway) : M (bool * gateway) :=
  if dropping then
    mret (false, mkGateway (delete fd g.(conn_ctx)) g.(orders) g.(reorder) g.(keepalive_recv_total)) else
  match g.(conn_ctx) !! fd with
  | None => mret (false, g)
  | Some ctx =>
      r ← parse pkt (mkParsed TcpHeader_zero nullptr 0);
      let '(ok, out) := r in
      let header := out.(p_header) in
      if negb ok || is_malformed_header header then mret (false, g) else
      if (out.(p_payload_len) =? 0) && (has_fin header || has_ack header) then
        g ← handle_control fd header ctx g; mret (false, g)
      else
        payload ← load out.(p_payload) (Z.to_nat out.(p_payload_len));
        if out_of_order (fun st : order_state * TcpConnection => st.2.(recv_seq))
             header.(seq_num) payload (g.(orders), ctx.(tcp))
        then mret (false, handle_out_of_order fd header.(seq_num) payload ctx g)
        else g ← handle_in_order fd payload ctx g; mret (true, g)
  end.

Definition process_packet (dropping : bool) (fd : Z) (pkt : Packet) (g : gateway) : M gateway :=
  r ← handle_packet dropping fd pkt g; mret r.2.

(** What a packet does, whether or not the iteration gets to its end. *)
Lemma process_packet_eq dropping fd pkt g m :
  process_packet dropping fd pkt g m =
  (if dropping then mret (mkGateway (delete fd g.(conn_ctx)) g.(orders) g.(reorder) g.(keepalive_recv_total)) else
   match g.(conn_ctx) !! fd with
   | None => mret g
   | Some ctx =>
       r ← parse pkt (mkParsed TcpHeader_zero nullptr 0);
       let '(ok, out) := r in
       let header := out.(p_header) in
       if negb ok || is_malformed_header header then mret g else
       if (out.(p_payload_len) =? 0) && (has_fin header || has_ack header) then handle_control fd header ctx g
       else
         payload ← load out.(p_payload) (Z.to_nat out.(p_payload_len));
         if out_of_order (fun st : order_state * TcpConnection => st.2.(recv_seq))
              header.(seq_num) payload (g.(orders), ctx.(tcp))
         then mret (handle_out_of_order fd header.(seq_num) payload ctx g)
         else handle_in_order fd payload ctx g
   end) m.
Proof.
  unfold process_packet, handle_packet. destruct dropping; [done|]. destruct (conn_ctx g !! fd) as [ctx|]; [|done].
  unfold mbind, M_bind, mret, M_ret. destruct (parse _ _ m) as [[[ok out] m1]|]; [|done].
  destruct (negb ok || _); [done|]. destruct (_ && (_ || _)).
  { by destruct (handle_control _ _ _ _ _) as [[? ?]|]. }
  destruct (load _ _ m1) as [[bs m2]|]; [|done]. destruct (out_of_order _ _ _ _); [done|].
  by destruct (handle_in_order _ _ _ _ _) as [[? ?]|].
Qed.

(** A new connection, as the accept branch sets it up: its state stays the
    default one, CLOSED.  [INADDR_LOOPBACK] is 127.0.0.1. *)
Definition INADDR_LOOPBACK : Z := 2130706433.
Definition kListenPort : Z := 9000.

Definition accept_connection (fd remote_port : Z) (g : gateway) : gateway :=
  let c := TcpConnection_default in
  let conn := mkTcpConnection (htonl INADDR_LOOPBACK) (htonl INADDR_LOOPBACK) kListenPort remote_port
                1 1 c.(send_ack) c.(recv_ack) c.(state) c.(window_size) c.(recv_window)
                c.(peer_window) in
  let conns :=
    match g.(conn_ctx) !! fd with
    | Some _ => g.(conn_ctx)
    | None => <[fd := mkContext conn TcpReassemblyBuffer_new]> g.(conn_ctx)
    end in
  mkGateway conns g.(orders) g.(reorder) g.(keepalive_recv_total).

(** ** Serving one request *)

(** What one payload does, apart from the memory: the specification of
    [process_order_payload]. *)
Definition ack_frame (conn : TcpConnection) (a : OrderAck) : list Z :=
  wire (conn_header conn conn.(send_seq) conn.(recv_seq) 24) (ack_repr ack_pad a)
    conn.(local_ip) conn.(remote_ip).

Definition advance_recv (conn : TcpConnection) (payload : list Z) : TcpConnection :=
  set_recv_seq conn (u32 (conn.(recv_seq) + u32 (Z.of_nat (length payload)))).

Definition serve (fd : Z) (st : order_state * TcpConnection) (payload : list Z)
    : order_state * TcpConnection :=
  let '(o, conn) := st in
  let req := request_of_repr payload in
  let conn := advance_recv conn payload in
  let '(ok, live) := apply_action req o.(live_orders) in
  let frame := ack_frame conn (answer req ok) in
  let sent := write_to o.(written) fd frame =? 44 in
  (mkOrders live o.(ack_pool) (u64 (o.(req_recv_total) + 1))
     (if sent then u64 (o.(ack_sent_total) + 1) else o.(ack_sent_total))
     (if ok then o.(reject_total) else u64 (o.(reject_total) + 1))
     (if (0 <? backpressure_threshold) && (backpressure_threshold <=? ring_size)
      then u64 (o.(backpressure_hits) + 1) else o.(backpressure_hits))
     (if sent then o.(unexpected_disconnects) else u64 (o.(unexpected_disconnects) + 1))
     (o.(written) ++ [(fd, frame)])
     (if sent then (o.(notes) ++ length_note payload) ++ [AckTraced req.(client_order_id) ring_size]
      else o.(notes) ++ length_note payload), conn).

(** A request payload: at least one [OrderRequest], of bytes. *)
Definition request_payload (bs : list Z) : Prop := (sizeof_OrderRequest <= length bs)%nat /\ bytes bs.

Variable buf rx : ptr.
Variable rx_size : nat.
Hypothesis pad_ok : length ack_pad = 7%nat /\ bytes ack_pad.
Hypothesis apart : (buf + 44 <= ack_obj \/ ack_obj + 24 <= buf) /\
  (buf + 44 <= rx \/ rx + Z.of_nat rx_size <= buf) /\
  (ack_obj + 24 <= rx \/ rx + Z.of_nat rx_size <= ack_obj).

(** The pool hands out [buf] and takes it back. *)
Definition pool_ready (p : ZeroCopy.ZeroCopyMemoryPool) : Prop :=
  exists p', ZeroCopy.allocate p = Some (buf, p') /\ ZeroCopy.deallocate buf p' = Some p.

Record ready (st : order_state * TcpConnection) (m : mem) : Prop := {
  rd_conn : conn_ok st.2;
  rd_pool : pool_ready st.1.(ack_pool);
  rd_buf : valid m buf 44;
  rd_obj : valid m ack_obj 24;
  rd_rx : valid m rx rx_size;
}.

Lemma send_frame_run fd build o m pkt m1 bs :
  pool_ready o.(ack_pool) -> build buf m = Some (pkt, m1) -> pkt.(data) = buf ->
  read_bytes m1 buf (Z.to_nat pkt.(len)) = Some bs ->
  send_frame fd build o m =
    Some ((write_to o.(written) fd bs =? pkt.(len),
           mkOrders o.(live_orders) o.(ack_pool) o.(req_recv_total) o.(ack_sent_total) o.(reject_total)
             o.(backpressure_hits) o.(unexpected_disconnects) (o.(written) ++ [(fd, bs)]) o.(notes)), m1).
Proof.
  intros (p' & Ea & Ed) Eb Hd Hr. unfold send_frame. eapply bind_run; [unfold lift; by rewrite Ea|].
  cbv beta iota. eapply bind_run; [exact Eb|]. eapply bind_run; [rewrite Hd; by apply load_run|].
  cbv beta zeta. rewrite Hd. eapply bind_run; [unfold lift; by rewrite Ed|]. done.
Qed.

Lemma length_ack_frame conn a : conn_ok conn -> length (ack_frame conn a) = 44%nat.
Proof.
  intros H. unfold ack_frame. rewrite length_wire, length_ack_repr by apply pad_ok. done.
Qed.

Lemma ack_repr_bytes a : bytes (ack_repr ack_pad a).
Proof using pad_ok.
  clear -pad_ok.
  unfold ack_repr. repeat apply Forall_app_2; auto using le_bytes_bytes.
  - constructor; [destruct (accepted a); unfold byte; lia|done].
  - apply pad_ok.
Qed.

Lemma process_runs fd bs st m :
  request_payload bs -> ready st m ->
  exists m', process_order_payload fd bs st m = Some (serve fd st bs, m') /\ ready (serve fd st bs) m'.
Proof.
  intros [Hl _] [Hc Hp Hb Ho Hx]. destruct st as [o conn]. cbn [fst snd] in *. destruct apart as (A1 & A2 & A3).
  unfold process_order_payload, serve. destruct (Nat.ltb_spec (length bs) sizeof_OrderRequest); [lia|].
  fold (advance_recv conn bs). set (conn' := advance_recv conn bs).
  assert (conn_ok conn') as Hc' by (apply conn_ok_set_recv_seq; [done|apply u32_range]).
  destruct (apply_action (request_of_repr bs) (live_orders o)) as [ok live].
  set (ack := ack_repr ack_pad (answer (request_of_repr bs) ok)).
  assert (length ack = 24%nat) as Hla by (apply length_ack_repr, pad_ok).
  destruct (store_prefix m ack_obj 24 ack Ho) as (m1 & E1 & F1 & _ & D1); [lia|]. rewrite Hla in F1.
  assert (forall q k, valid m q k -> valid m1 q k) as V1.
  { intros q k. by apply valid_dom. }
  destruct (create_data_fills conn' ack_obj 24 m1 buf ack Hc') as (m2 & E2 & F2);
    [by apply V1|exact F1|apply ack_repr_bytes|done|lia|].
  fold (ack_frame conn' (answer (request_of_repr bs) ok)) in F2.
  exists m2. split.
  - eapply bind_run; [exact E1|]. eapply bind_run.
    { eapply send_frame_run; [exact Hp|exact E2|done|]. cbn [len Packet_new].
      change (Z.to_nat (20 + Z.of_nat 24)) with 44%nat. apply F2. }
    cbv beta iota zeta. cbn [len Packet_new live_orders ack_pool req_recv_total ack_sent_total reject_total
      backpressure_hits unexpected_disconnects written notes]. change (20 + Z.of_nat 24) with 44. done.
  - assert (forall q k, valid m q k -> valid m2 q k) as V2.
    { intros q k V. eapply valid_dom; [|by apply V1]. apply F2. }
    split; cbn [fst snd ack_pool]; auto.
Qed.
End Gateway.
