(* ===== verification/OrderStream.v ===== *)
(** * OrderStream: the order gateway serves a stream of requests

    The theorems about the gateway's processing phase (OrderGateway): the
    requests a client cut its stream into are served exactly once, in stream
    order, whatever order their frames arrive in; and what the control path
    does to a connection. *)
From S2P Require Import Prelude Bytes BitOps Memory Packet TcpProtocol TcpStateMachine.
From S2P Require Import Allocator MemoryPool TcpReassembly Messages OrderReceiver OrderGateway.

(** A pool with a free block hands it out and takes it back. *)
Lemma pool_ready_free p i fs :
  ZeroCopy.pool_inv p (i :: fs) ->
  pool_ready (p.(ZeroCopy.buffer_).(ZeroCopy.ptr_) + i * p.(ZeroCopy.block_size_)) p.
Proof.
  intros (Hc & _ & Hl & Hd & Hbs & Hn & Hs & Hfit). pose proof (chain_range _ _ _ Hc) as Hr.
  inversion Hc as [|? n ? Hne Hi Hc']; subst. cbn in Hne, Hi, Hl, Hd, Hbs, Hn, Hs, Hfit, Hr |- *.
  apply Forall_cons in Hr as [Hir _]. unfold pool_ready, ZeroCopy.allocate.
  destruct (Z.eqb_spec (ZeroCopy.next_free_ p) SIZE_MAX); [done|]. rewrite Hi. cbn [mbind option_bind].
  rewrite wrap_small by (unfold in_width; nia). eexists. split; [done|]. unfold ZeroCopy.deallocate.
  cbn [ZeroCopy.buffer_ ZeroCopy.block_size_ ZeroCopy.free_list_ ZeroCopy.next_free_ ZeroCopy.num_blocks_
    ZeroCopy.pool_use_huge_pages_].
  set (k := ZeroCopy.next_free_ p) in *. set (base := ZeroCopy.ptr_ (ZeroCopy.buffer_ p)) in *.
  destruct (Z.eqb_spec (base + k * ZeroCopy.block_size_ p) nullptr); [unfold nullptr in *; nia|].
  destruct (Z.ltb_spec (base + k * ZeroCopy.block_size_ p) base); [nia|].
  destruct (Z.leb_spec (base + ZeroCopy.size_ (ZeroCopy.buffer_ p)) (base + k * ZeroCopy.block_size_ p)); [nia|].
  cbn [orb]. replace ((base + k * ZeroCopy.block_size_ p - base) / ZeroCopy.block_size_ p) with k
    by (apply (Z.div_unique _ _ _ 0); lia).
  rewrite assign_in by lia. cbn [mbind option_bind]. unfold index in Hi.
  destruct (k <? 0); [done|]. rewrite list_insert_id by done. subst k base. by destruct p.
Qed.

(** ** The flag byte of a frame *)

(** Does the peer find a FIN in the frame? *)
Definition carries_fin (frame : list Z) : bool := has_fin (parsed_header frame).

(** The flag byte of a frame decides. *)
Lemma carries_fin_byte frame b : frame !! 13%nat = Some b -> Z.testbit b 0 = false -> carries_fin frame = false.
Proof.
  intros Hb Hf. unfold carries_fin, has_fin, has_flag, parsed_header.
  assert (field frame 13 1 = b) as ->.
  { unfold field. rewrite (drop_S _ _ _ Hb). cbn [take le_val]. rewrite take_0. cbn [le_val]. lia. }
  cbn [to_host_order flags]. apply negb_false_iff, Z.eqb_eq, Z.bits_inj'. intros i Hi.
  rewrite Z.land_spec, Z.shiftl_0_r, Z.bits_0. destruct (decide (i = 0)) as [->|Hne].
  - rewrite Z.lor_spec, Hf, orb_false_r. unfold wrap. rewrite Z.mod_pow2_bits_low by lia.
    by rewrite Z.shiftl_spec_low by lia.
  - change 1 with (2 ^ 0). rewrite Z.pow2_bits_false by done. apply andb_false_r.
Qed.

(** What a builder leaves in the flag byte. *)
Definition builds (flag_byte : Z) (build : ptr -> M Packet) : Prop :=
  forall p m pkt m', build p m = Some (pkt, m') ->
    pkt.(data) = p /\ 20 <= pkt.(len) /\ m' !! (p + 13) = Some flag_byte.

Lemma store_inv p bs m u m' : store p bs m = Some (u, m') -> write_bytes m p bs = Some m'.
Proof. unfold store. destruct (write_bytes m p bs); [|done]. by intros [= _ <-]. Qed.

Lemma load_inv p n m bs m' : load p n m = Some (bs, m') -> m' = m /\ read_bytes m p n = Some bs.
Proof. unfold load. destruct (read_bytes m p n); [|done]. by intros [= <- <-]. Qed.

Lemma emit_header_flags p h m u m' : emit_header p h m = Some (u, m') -> m' !! (p + 13) = Some (Z.land h.(flags) 255).
Proof.
  unfold emit_header. intros (u1 & m1 & _ & H)%bind_inv. apply bind_inv in H as (u2 & m2 & _ & H).
  apply bind_inv in H as (u3 & m3 & E3%store_inv & E4%store_inv).
  rewrite (write_bytes_outside _ _ _ _ _ E4) by lia. rewrite (write_bytes_spec _ _ _ _ E3).
  rewrite decide_True by (cbn; lia). by rewrite Z.sub_diag.
Qed.

Lemma emit_checksum_keeps p n sip dip m u m' :
  emit_checksum p n sip dip m = Some (u, m') -> m' !! (p + 13) = m !! (p + 13).
Proof.
  unfold emit_checksum, calculate_checksum. intros (c & m1 & H & E%store_inv)%bind_inv.
  apply bind_inv in H as (bs & m2 & [-> _]%load_inv & H). unfold lift in H.
  destruct (calculate_checksum_bytes bs sip dip); [|done]. injection H as _ <-.
  apply (write_bytes_outside _ _ _ _ _ E). lia.
Qed.

Lemma create_ack_builds conn ack : builds 16 (create_ack conn ack).
Proof.
  intros p m pkt m'. unfold create_ack. intros (u1 & m1 & E1%emit_header_flags & H)%bind_inv.
  apply bind_inv in H as (u2 & m2 & E2%emit_checksum_keeps & H). injection H as <- <-.
  cbn [data len Packet_new]. split_and!; [done|done|]. by rewrite E2, E1.
Qed.

Lemma create_data_builds conn d n : builds 24 (create_data conn d n).
Proof.
  intros p m pkt m'. unfold create_data. intros (u1 & m1 & E1%emit_header_flags & H)%bind_inv.
  apply bind_inv in H as (bs & m2 & [-> _]%load_inv & H). apply bind_inv in H as (u3 & m3 & E3%store_inv & H).
  apply bind_inv in H as (u4 & m4 & E4%emit_checksum_keeps & H). injection H as <- <-.
  cbn [data len Packet_new]. split_and!; [done|lia|]. rewrite E4, (write_bytes_outside _ _ _ _ _ E3), E1; [done|].
  unfold kHeaderLen. lia.
Qed.

Section Stream.
Variable write_to : list (Z * list Z) -> Z -> list Z -> Z.
Variable ack_obj : ptr.
Variable ack_pad : list Z.
Variable backpressure_threshold ring_size : Z.
Variable buf rx : ptr.
Variable rx_size : nat.
Hypothesis pad_ok : length ack_pad = 7%nat /\ bytes ack_pad.
Hypothesis apart : (buf + 44 <= ack_obj \/ ack_obj + 24 <= buf) /\
  (buf + 44 <= rx \/ rx + Z.of_nat rx_size <= buf) /\
  (ack_obj + 24 <= rx \/ rx + Z.of_nat rx_size <= ack_obj).

Abbreviation packet_step := (process_packet write_to ack_obj ack_pad backpressure_threshold ring_size).
Abbreviation handle := (process_order_payload write_to ack_obj ack_pad backpressure_threshold ring_size).
Abbreviation effect := (serve write_to ack_pad backpressure_threshold ring_size).
Abbreviation usable := (ready ack_obj buf rx rx_size).
Abbreviation seq_of := (fun st : order_state * TcpConnection => st.2.(recv_seq)).

(** The frame a client with the connection block [peer] sends for a segment. *)
Definition client_frame (peer : TcpConnection) (seq : Z) (payload : list Z) : frame :=
  FData (set_send_seq peer seq) rx payload.

(** Frames arriving one after the other in the receive buffer, each processed. *)
Fixpoint receive_packets (fd : Z) (peer : TcpConnection) (arrivals : list (Z * list Z)) (g : gateway)
    : M gateway :=
  match arrivals with
  | [] => mret g
  | (seq, payload) :: arrivals =>
      store rx (frame_wire (client_frame peer seq payload)) ;;
      g ← packet_step false fd (Packet_new rx (20 + Z.of_nat (length payload)) 0) g;
      receive_packets fd peer arrivals g
  end.

Definition fitting (bs : list Z) : Prop := request_payload bs /\ (20 + length bs <= rx_size)%nat.

Lemma fitting_nonempty bs : fitting bs -> bs <> [].
Proof. intros [[H _] _] ->. unfold sizeof_OrderRequest in H. cbn [length] in H. lia. Qed.

Lemma handle_advances fd bs st m st' m' :
  fitting bs -> handle fd bs st m = Some (st', m') ->
  st'.2.(recv_seq) = u32 (st.2.(recv_seq) + u32 (Z.of_nat (length bs))).
Proof.
  intros [[Hl _] _]. destruct st as [o conn]. unfold process_order_payload.
  destruct (Nat.ltb_spec (length bs) sizeof_OrderRequest); [lia|].
  destruct (apply_action _ _) as [ok live]. unfold mbind, M_bind.
  destruct (store _ _ m) as [[_ m1]|]; [|done].
  destruct (send_frame _ _ _ _ _) as [[[sent o'] m2]|]; [|done]. intros [= <- <-]. done.
Qed.

(** What the processing phase sees of a client frame. *)
Lemma client_frame_parsed peer seq payload st m :
  conn_ok peer -> in_width 32 seq -> fitting payload -> usable st m ->
  exists m1 header, store rx (frame_wire (client_frame peer seq payload)) m = Some (tt, m1) /\
    usable st m1 /\
    parse (Packet_new rx (20 + Z.of_nat (length payload)) 0) (mkParsed TcpHeader_zero nullptr 0) m1 =
      Some ((true, mkParsed header (rx + 20) (Z.of_nat (length payload))), m1) /\
    read_bytes m1 (rx + 20) (length payload) = Some payload /\
    header.(seq_num) = seq /\ has_fin header = false /\ is_malformed_header header = false.
Proof.
  intros Hp Hs [[_ Hby] Hfit] Hu. set (f := client_frame peer seq payload).
  assert (plain_header (frame_header f)) as Hf.
  { apply conn_header_plain; [by destruct Hp|done|apply Hp|unfold in_width; simpl; lia]. }
  assert (length (frame_wire f) = (20 + length payload)%nat) as Hlen by apply length_wire.
  destruct (store_prefix m rx rx_size (frame_wire f) (rd_rx _ _ _ _ _ _ Hu)) as (m1 & E & Hw & _ & Hdom); [lia|].
  rewrite Hlen in Hw.
  exists m1, (received (frame_header f)
          (frame_checksum (frame_header f) (frame_payload f) (frame_src f) (frame_dst f))).
  split_and!; try done.
  - destruct Hu. split; try done; (eapply valid_dom; [exact Hdom|done]).
  - by apply (parse_wire_run f).
  - pose proof (read_bytes_sub _ _ _ _ 20 (length payload) Hw ltac:(lia)) as H.
    change (Z.of_nat 20) with 20 in H. rewrite H. unfold frame_wire. rewrite drop_wire.
    f_equal. by apply take_ge.
Qed.

Abbreviation waits := (awaiting seq_of fitting).

(** A client frame reaches the buffering or the in-order branch. *)
Lemma client_frame_step fd peer seq payload g m ctx :
  conn_ok peer -> in_width 32 seq -> fitting payload -> g.(conn_ctx) !! fd = Some ctx ->
  usable (g.(orders), ctx.(tcp)) m ->
  exists m1, usable (g.(orders), ctx.(tcp)) m1 /\
    (store rx (frame_wire (client_frame peer seq payload)) ;;
      packet_step false fd (Packet_new rx (20 + Z.of_nat (length payload)) 0) g) m =
    (if out_of_order seq_of seq payload (g.(orders), ctx.(tcp))
     then mret (handle_out_of_order fd seq payload ctx g)
     else handle_in_order write_to ack_obj ack_pad backpressure_threshold ring_size fd payload ctx g) m1.
Proof.
  intros Hp Hs Hg Hfd Hu.
  destruct (client_frame_parsed peer seq payload _ m Hp Hs Hg Hu)
    as (m1 & header & E1 & Hu1 & Eparse & Hread & Eseq & Efin & Ebad).
  assert (length payload <> 0%nat) as Hlen by (destruct Hg as [[? _] _]; unfold sizeof_OrderRequest in *; lia).
  exists m1. split; [done|]. eapply bind_run; [exact E1|]. rewrite process_packet_eq, Hfd.
  eapply bind_run; [exact Eparse|]. cbn [p_header p_payload p_payload_len negb orb]. rewrite Ebad, Efin.
  destruct (Z.eqb_spec (Z.of_nat (length payload)) 0); [lia|]. cbn [andb].
  eapply bind_run; [apply load_run; rewrite Nat2Z.id; exact Hread|]. by rewrite Eseq.
Qed.

(** One arrival: the gateway keeps waiting for the rest of the stream, and what
    it has done together with serving the rest does not change. *)
Definition progress fd (g : gateway) (m : mem) (arrivals : list (Z * list Z))
    (served : order_state * TcpConnection) : Prop :=
  exists ctx rest, g.(conn_ctx) !! fd = Some ctx /\
    usable (g.(orders), ctx.(tcp)) m /\
    waits (g.(orders), ctx.(tcp)) ctx.(reassembly) arrivals rest /\
    foldl (effect fd) (g.(orders), ctx.(tcp)) rest = served.

Lemma packet_progress fd peer seq payload arrivals g m served :
  conn_ok peer -> progress fd g m ((seq, payload) :: arrivals) served ->
  exists g' m', (store rx (frame_wire (client_frame peer seq payload)) ;;
      packet_step false fd (Packet_new rx (20 + Z.of_nat (length payload)) 0) g) m = Some (g', m') /\
    progress fd g' m' arrivals served.
Proof.
  intros Hp (ctx & rest & Hfd & Hu & Hw & <-).
  assert ((seq, payload) ∈ cut (seq_of (g.(orders), ctx.(tcp))) rest) as Hin.
  { rewrite <- (aw_split _ _ _ _ _ _ Hw). apply elem_of_app. right. by left. }
  pose proof (cut_good _ _ _ _ (aw_good _ _ _ _ _ _ Hw) Hin) as Hg. cbn [snd] in Hg.
  destruct (cut_keys _ rest (aw_seq _ _ _ _ _ _ Hw)) as [Hk _];
    [eapply Forall_impl; [exact (aw_good _ _ _ _ _ _ Hw)|exact fitting_nonempty]|apply Hw|].
  rewrite Forall_forall in Hk. destruct (Hk _ Hin) as [Hs _]. cbn [fst] in Hs.
  destruct (client_frame_step fd peer seq payload g m ctx Hp Hs Hg Hfd Hu) as (m1 & Hu1 & Hstep).
  destruct (out_of_order seq_of seq payload (g.(orders), ctx.(tcp))) eqn:Eo.
  - eexists _, m1. split; [exact Hstep|].
    pose proof (awaiting_buffer seq_of fitting fitting_nonempty _ _ _ _ _ _ Hw Eo) as Hw'.
    unfold handle_out_of_order. destruct (insert_bytes seq payload (reassembly ctx)) as [ok b].
    exists (mkContext ctx.(tcp) b), rest. cbn [conn_ctx orders]. by rewrite lookup_insert_eq.
  - destruct (deliver_runs (handle fd) seq_of fitting fitting_nonempty (handle_advances fd)
      (effect fd) usable) with (s := (g.(orders), ctx.(tcp))) (b := ctx.(reassembly)) (seq := seq)
      (bs := payload) (arrivals := arrivals) (rest := rest) (m := m1)
      as (n & [o conn] & b' & m2 & tl & Ed & Hu2 & Hw2 & Ef); try done.
    { intros bs s m0 [Hb _] Hi. by apply process_runs. }
    eexists _, m2. split; [rewrite Hstep; unfold handle_in_order; eapply bind_run; [exact Ed|]; reflexivity|].
    exists (mkContext conn b'), tl. cbn [conn_ctx orders]. by rewrite lookup_insert_eq.
Qed.

Lemma receive_progress fd peer arrivals g m served :
  conn_ok peer -> progress fd g m arrivals served ->
  exists g' m', receive_packets fd peer arrivals g m = Some (g', m') /\ progress fd g' m' [] served.
Proof.
  intros Hp. revert g m. induction arrivals as [|[seq payload] arrivals IH]; intros g m Hpr; [by exists g, m|].
  destruct (packet_progress fd peer seq payload arrivals g m served Hp Hpr) as (g1 & m1 & E1 & H1).
  destruct (IH g1 m1 H1) as (g2 & m2 & E2 & H2). exists g2, m2. split; [|done]. cbn [receive_packets].
  unfold mbind, M_bind in E1 |- *. destruct (store _ _ m) as [[_ m0]|]; [|done].
  destruct (packet_step _ _ _ _ _) as [[g' m']|]; [|done]. injection E1 as -> ->. exact E2.
Qed.

(** ** What serving a stream amounts to *)

(** The order book run over the requests: the answers, and the live orders. *)
Fixpoint run_book (reqs : list OrderRequest) (live : gset Z) : list bool * gset Z :=
  match reqs with
  | [] => ([], live)
  | req :: reqs =>
      let '(ok, live) := apply_action req live in
      let '(oks, live) := run_book reqs live in (ok :: oks, live)
  end.

Definition rejections (oks : list bool) : Z := Z.of_nat (length (filter (fun ok => ok = false) oks)).

(** The client's reading of the frame the gateway answered with. *)
Definition read_ack (frame : list Z) : OrderAck := ack_of_repr (drop 20 frame).

Lemma read_ack_frame conn bs ok :
  bytes bs -> read_ack (ack_frame ack_pad conn (answer (request_of_repr bs) ok)) =
    answer (request_of_repr bs) ok.
Proof using pad_ok.
  clear -pad_ok. intros Hb. unfold read_ack, ack_frame. rewrite drop_wire.
  rewrite <- (app_nil_r (ack_repr _ _)). apply ack_roundtrip; [|apply wrap_range; lia|apply pad_ok].
  apply (field_width bs 0 8 Hb).
Qed.

(** How the totals move: modulo 2^64. *)
Record tally (fd : Z) (o o' : order_state) (answers : list (OrderRequest * bool)) (live : gset Z)
    (frames : list (list Z)) : Prop := {
  ta_live : o'.(live_orders) = live;
  ta_pool : o'.(ack_pool) = o.(ack_pool);
  ta_written : o'.(written) = o.(written) ++ map (pair fd) frames;
  ta_answers : map read_ack frames = map (uncurry answer) answers;
  ta_received : u64 o'.(req_recv_total) = u64 (o.(req_recv_total) + Z.of_nat (length answers));
  ta_rejected : u64 o'.(reject_total) = u64 (o.(reject_total) + rejections answers.*2);
  ta_sent : u64 (o'.(ack_sent_total) + o'.(unexpected_disconnects)) =
    u64 (o.(ack_sent_total) + o.(unexpected_disconnects) + Z.of_nat (length answers));
}.

Lemma serve_one fd o conn bs :
  request_payload bs -> let req := request_of_repr bs in
  exists o' frame, effect fd (o, conn) bs = (o', advance_recv conn bs) /\
    tally fd o o' [(req, (apply_action req o.(live_orders)).1)] (apply_action req o.(live_orders)).2 [frame].
Proof.
  intros [Hl Hb] req. unfold serve. fold req. destruct (apply_action req (live_orders o)) as [ok live].
  eexists _, (ack_frame ack_pad (advance_recv conn bs) (answer req ok)). split; [reflexivity|].
  split; cbn [live_orders ack_pool written req_recv_total reject_total ack_sent_total
    unexpected_disconnects fst snd map length fmap list_fmap]; try done.
  - f_equal. by apply read_ack_frame.
  - by rewrite wrap_wrap by lia.
  - unfold rejections. destruct ok; cbn; [by rewrite Z.add_0_r|by rewrite wrap_wrap by lia].
  - destruct (_ =? 44); rewrite ?wrap_add_l, ?wrap_add_r by lia; f_equal; lia.
Qed.

Lemma tally_trans fd o o1 o2 a1 a2 l1 l2 f1 f2 :
  tally fd o o1 a1 l1 f1 -> tally fd o1 o2 a2 l2 f2 -> tally fd o o2 (a1 ++ a2) l2 (f1 ++ f2).
Proof.
  intros [] []. split; [done|by etransitivity| | | | |].
  - rewrite ta_written1, ta_written0, map_app, <- app_assoc. done.
  - by rewrite !map_app, ta_answers0, ta_answers1.
  - rewrite ta_received1, <- wrap_add_l, ta_received0, wrap_add_l, length_app by lia. f_equal. lia.
  - rewrite ta_rejected1, <- wrap_add_l, ta_rejected0, wrap_add_l by lia. f_equal.
    unfold rejections. rewrite fmap_app, filter_app, length_app. lia.
  - rewrite ta_sent1, <- wrap_add_l, ta_sent0, wrap_add_l, length_app by lia. f_equal. lia.
Qed.

Lemma length_run_book reqs live : length (run_book reqs live).1 = length reqs.
Proof.
  revert live. induction reqs as [|req reqs IH]; intros live; [done|]. cbn [run_book].
  destruct (apply_action req live) as [ok l]. specialize (IH l). destruct (run_book reqs l). cbn in *. by rewrite IH.
Qed.

Lemma tally_refl fd o : tally fd o o [] o.(live_orders) [].
Proof. split; cbn; rewrite ?app_nil_r, ?Z.add_0_r; done. Qed.

Lemma serve_all fd pieces o conn :
  in_width 32 conn.(recv_seq) -> Forall request_payload pieces ->
  let reqs := map request_of_repr pieces in
  exists o' frames, foldl (effect fd) (o, conn) pieces =
      (o', set_recv_seq conn (u32 (conn.(recv_seq) + Z.of_nat (length (concat pieces))))) /\
    tally fd o o' (zip reqs (run_book reqs o.(live_orders)).1) (run_book reqs o.(live_orders)).2 frames.
Proof.
  intros Hc Hp. revert o conn Hc. induction Hp as [|bs pieces Hb _ IH]; intros o conn Hc; cbn [map concat foldl].
  { exists o, []. split; [|apply tally_refl]. cbn [length]. rewrite Z.add_0_r, wrap_small by done. by destruct conn. }
  destruct (serve_one fd o conn bs Hb) as (o1 & frame & E & T1).
  destruct (IH o1 (advance_recv conn bs)) as (o' & frames & E' & T2); [apply u32_range|].
  exists o', (frame :: frames). rewrite E, E'. split.
  - f_equal. unfold set_recv_seq, advance_recv. cbn [recv_seq set_recv_seq local_ip remote_ip local_port remote_port
      send_seq send_ack recv_ack state window_size recv_window peer_window].
    f_equal. rewrite wrap_add_l, length_app, Nat2Z.inj_add, Z.add_assoc by lia.
    rewrite <- wrap_add_l, wrap_add_r, wrap_add_l by lia. done.
  - cbn [run_book]. pose proof (ta_live _ _ _ _ _ _ T1) as El. rewrite El in T2.
    destruct (apply_action (request_of_repr bs) (live_orders o)) as [ok live]. cbn [fst snd] in *.
    destruct (run_book (map request_of_repr pieces) live) as [oks live']. cbn [fst snd zip zip_with] in *.
    exact (tally_trans _ _ _ _ _ _ _ _ _ _ T1 T2).
Qed.

(** C2: The gateway serves a request stream exactly once and in stream order.
    A client's requests, framed and arriving in any order, one frame per packet
    (the stream below 2^32 bytes, each piece a full request), are all processed:
    the order book and the answers are those of handling the requests one after
    the other in stream order, one acknowledgment frame is written per request
    and reads back as its answer, received and rejected totals count them, each
    write is counted as sent or failed, and the connection ends with nothing
    buffered and its receive sequence at the end of the stream. *)
Theorem gateway_serves_stream fd peer conn pieces arrivals g m :
  conn_ok peer -> g.(conn_ctx) !! fd = Some (mkContext conn TcpReassemblyBuffer_new) ->
  usable (g.(orders), conn) m -> Forall fitting pieces ->
  Z.of_nat (length (concat pieces)) < 2 ^ 32 -> arrivals ≡ₚ cut conn.(recv_seq) pieces ->
  let reqs := map request_of_repr pieces in
  let '(oks, live) := run_book reqs g.(orders).(live_orders) in
  exists g' m' frames, receive_packets fd peer arrivals g m = Some (g', m') /\
    g'.(orders).(live_orders) = live /\
    g'.(orders).(written) = g.(orders).(written) ++ map (pair fd) frames /\
    map read_ack frames = zip_with answer reqs oks /\
    u64 g'.(orders).(req_recv_total) =
      u64 (g.(orders).(req_recv_total) + Z.of_nat (length pieces)) /\
    u64 g'.(orders).(reject_total) = u64 (g.(orders).(reject_total) + rejections oks) /\
    u64 (g'.(orders).(ack_sent_total) + g'.(orders).(unexpected_disconnects)) =
      u64 (g.(orders).(ack_sent_total) + g.(orders).(unexpected_disconnects) +
           Z.of_nat (length pieces)) /\
    g'.(conn_ctx) !! fd = Some (mkContext (set_recv_seq conn
      (u32 (conn.(recv_seq) + Z.of_nat (length (concat pieces))))) TcpReassemblyBuffer_new).
Proof.
  intros Hp Hfd Hu Hg Hlen Ha reqs.
  assert (in_width 32 conn.(recv_seq)) as Hseq by apply (rd_conn _ _ _ _ _ _ Hu).
  assert (Forall request_payload pieces) as Hreq by (eapply Forall_impl; [exact Hg|]; by intros ? []).
  destruct (serve_all fd pieces g.(orders) conn Hseq Hreq) as (o' & frames & Eall & T).
  fold reqs in T. pose proof (length_run_book reqs (live_orders (orders g))) as Hbook.
  destruct (run_book reqs (live_orders (orders g))) as [oks live]. cbn [fst snd] in *.
  destruct (receive_progress fd peer arrivals g m (o', set_recv_seq conn
    (u32 (conn.(recv_seq) + Z.of_nat (length (concat pieces))))) Hp)
    as (g' & m' & E & (ctx & rest & Hfd' & _ & Hw & Ef)).
  { exists (mkContext conn TcpReassemblyBuffer_new), pieces. split_and!; try done.
    apply awaiting_fresh; try done. by rewrite stored_cut. }
  destruct (awaiting_nil _ _ _ _ _ Hw) as [Eb ->]. cbn [foldl] in Ef.
  injection Ef as Eo Ec. exists g', m', frames. destruct T. rewrite Eo.
  assert (length (zip reqs oks) = length pieces) as Hz.
  { rewrite length_zip_with, Hbook, Nat.min_id. apply length_map. }
  rewrite Hz in *. split_and!; try done.
  - rewrite ta_answers0. clear. generalize oks. induction reqs as [|r rs IH]; intros [|b bs]; cbn; [done..|].
    f_equal. apply IH.
  - rewrite ta_rejected0, snd_zip; [done|]. lia.
  - rewrite Hfd'. destruct ctx. cbn in *. by subst.
Qed.

(** ** The control path on a connection of the gateway *)

(** What the loop does to the gateway's state: a new connection, a connection
    that hung up or failed, one packet of the ring (read from any memory). *)
Inductive gateway_step : gateway -> gateway -> Prop :=
  | step_accept fd remote_port g : gateway_step g (accept_connection fd remote_port g)
  | step_hangup fd g :
      gateway_step g (mkGateway (delete fd g.(conn_ctx)) g.(orders) g.(reorder) g.(keepalive_recv_total))
  | step_packet dropping fd pkt g m g' m' :
      packet_step dropping fd pkt g m = Some (g', m') -> gateway_step g g'.

Definition all_closed (g : gateway) : Prop :=
  map_Forall (fun _ ctx => ctx.(tcp).(state) = CLOSED) g.(conn_ctx).

Lemma control_drops_closed fd header ctx g m g' m' :
  ctx.(tcp).(state) = CLOSED -> handle_control write_to fd header ctx g m = Some (g', m') ->
  g'.(conn_ctx) = delete fd g.(conn_ctx).
Proof.
  intros Hs. unfold handle_control. pose proof (closed_stays (Incoming header 0) _ Hs) as E. cbn [apply_event] in E.
  set (conn := snd (handle_incoming (tcp ctx) header 0)) in *. unfold mbind, M_bind.
  destruct (has_fin header).
  - destruct (send_frame _ _ _ _ m) as [[[ok o] m1]|]; [|done].
    rewrite (bool_decide_eq_false_2 (state conn = CLOSE_WAIT)) by (rewrite E; done).
    intros [= <- _]. cbn [conn_ctx]. by rewrite bool_decide_eq_true_2.
  - intros [= <- _]. cbn [conn_ctx]. by rewrite bool_decide_eq_true_2.
Qed.

Lemma handle_keeps_state s fd bs st m st' m' :
  st.2.(state) = s -> handle fd bs st m = Some (st', m') -> st'.2.(state) = s.
Proof.
  destruct st as [o conn]. intros E. unfold process_order_payload.
  destruct (_ <? _)%nat; [by intros [= <- _]|]. destruct (apply_action _ _) as [ok live].
  unfold mbind, M_bind. destruct (store _ _ m) as [[_ m1]|]; [|done].
  destruct (send_frame _ _ _ _ _) as [[[sent o'] m2]|]; [|done]. by intros [= <- _].
Qed.

Lemma packet_keeps_closed dropping fd pkt g m g' m' :
  all_closed g -> packet_step dropping fd pkt g m = Some (g', m') -> all_closed g'.
Proof.
  intros Hg. rewrite process_packet_eq. destruct dropping.
  { intros [= <- _]. by apply map_Forall_delete. }
  destruct (conn_ctx g !! fd) as [ctx|] eqn:Hfd; [|by intros [= <- _]].
  pose proof (Hg fd ctx Hfd) as Hs. cbn beta in Hs. unfold mbind, M_bind.
  destruct (parse _ _ m) as [[[ok out] m1]|]; [|done].
  destruct (negb ok || _); [by intros [= <- _]|]. destruct (_ && (_ || _)).
  { intros E. unfold all_closed. rewrite (control_drops_closed _ _ _ _ _ _ _ Hs E). by apply map_Forall_delete. }
  destruct (load _ _ m1) as [[bs m2]|]; [|done].
  destruct (out_of_order _ _ _ _).
  - unfold handle_out_of_order. destruct (insert_bytes _ _ _) as [i b]. intros [= <- _].
    by apply map_Forall_insert_2.
  - unfold handle_in_order, mbind, M_bind.
    destruct (deliver _ _ _ _ _ _) as [[[[n [o conn]] b] m3]|] eqn:E; [|done]. intros [= <- _].
    apply map_Forall_insert_2; [|done].
    refine (deliver_preserves (handle fd) seq_of (fun st => st.2.(state) = CLOSED)
      bs (g.(orders), ctx.(tcp)) _ m2 n (o, conn) b m3 _ Hs E).
    intros ????? Hst. by apply handle_keeps_state.
Qed.

Lemma step_keeps_closed g g' : gateway_step g g' -> all_closed g -> all_closed g'.
Proof.
  intros [fd port h|fd h|dropping fd pkt h m h' m' E] Hg; [| |by eapply packet_keeps_closed].
  - unfold all_closed, accept_connection. cbn [conn_ctx]. destruct (conn_ctx h !! fd); [done|].
    by apply map_Forall_insert_2.
  - by apply map_Forall_delete.
Qed.

(** *** The frames the gateway writes *)

(** The frames [o] has sent since [o0], none of them with a FIN. *)
Definition quiet_since (o0 o : order_state) : Prop :=
  exists sent, o.(written) = o0.(written) ++ sent /\ Forall (fun e => carries_fin e.2 = false) sent.

Lemma quiet_refl o o' : o'.(written) = o.(written) -> quiet_since o o'.
Proof using Type. intros E. exists []. rewrite app_nil_r. by split. Qed.

Lemma quiet_trans o1 o2 o3 : quiet_since o1 o2 -> quiet_since o2 o3 -> quiet_since o1 o3.
Proof using Type.
  intros (l & E & H) (l' & E' & H'). exists (l ++ l'). rewrite E', E, app_assoc. split; [done|]. by apply Forall_app_2.
Qed.

Lemma send_frame_quiet fd b build o m ok o' m' :
  builds b build -> Z.testbit b 0 = false -> send_frame write_to fd build o m = Some ((ok, o'), m') ->
  exists frame, o'.(written) = o.(written) ++ [(fd, frame)] /\ carries_fin frame = false.
Proof using Type.
  clear apart pad_ok. intros Hb Hf. unfold send_frame. intros ([b' pool] & m1 & _ & H)%bind_inv.
  apply bind_inv in H as (pkt & m2 & E2 & H). apply Hb in E2 as (Ed & El & E13).
  apply bind_inv in H as (bs & m3 & [-> Er]%load_inv & H). apply bind_inv in H as (pool' & m4 & _ & H).
  injection H as _ <- _. cbn [written]. exists bs. split; [done|]. apply (carries_fin_byte _ b); [|done].
  rewrite Ed in Er. apply read_bytes_lookup in Er as [_ Er]. rewrite <- E13. symmetry. apply (Er 13%nat). lia.
Qed.

Lemma handle_quiet fd bs st m st' m' : handle fd bs st m = Some (st', m') -> quiet_since st.1 st'.1.
Proof using Type.
  destruct st as [o conn]. unfold process_order_payload.
  destruct (_ <? _)%nat; [intros [= <- _]; by apply quiet_refl|]. destruct (apply_action _ _) as [ok live].
  intros (u & m1 & _ & H)%bind_inv. apply bind_inv in H as ([sent o'] & m2 & E & H). injection H as <- _.
  apply (send_frame_quiet _ 24) in E as (frame & E & Ef); [|apply create_data_builds|done].
  exists [(fd, frame)]. cbn [fst written] in *. split; [done|]. by repeat constructor.
Qed.

(** What the control path does on a closed connection: an acknowledgment answers a
    FIN, nothing else is written. *)
Lemma control_written fd header ctx g m g' m' :
  ctx.(tcp).(state) = CLOSED -> handle_control write_to fd header ctx g m = Some (g', m') ->
  exists frames, g'.(orders).(written) = g.(orders).(written) ++ map (pair fd) frames /\
    length frames = (if has_fin header then 1 else 0)%nat /\ Forall (fun f => carries_fin f = false) frames.
Proof using Type.
  intros Hs. unfold handle_control. pose proof (closed_stays (Incoming header 0) _ Hs) as E. cbn [apply_event] in E.
  set (conn := snd (handle_incoming (tcp ctx) header 0)) in *. intros ([o c] & m1 & H & H')%bind_inv.
  injection H' as <- _. cbn [orders]. destruct (has_fin header).
  - apply bind_inv in H as ([ok o1] & m2 & E1 & H).
    rewrite (bool_decide_eq_false_2 (state conn = CLOSE_WAIT)) in H by (rewrite E; done). injection H as <- _ _.
    apply (send_frame_quiet _ 16) in E1 as (frame & E1 & Ef); [|apply create_ack_builds|done].
    exists [frame]. by repeat constructor.
  - injection H as <- _ _. exists []. rewrite app_nil_r. by repeat constructor.
Qed.

Lemma packet_quiet dropping fd pkt g m g' m' :
  all_closed g -> packet_step dropping fd pkt g m = Some (g', m') -> quiet_since g.(orders) g'.(orders).
Proof using Type.
  intros Hg. rewrite process_packet_eq. destruct dropping; [intros [= <- _]; by apply quiet_refl|].
  destruct (conn_ctx g !! fd) as [ctx|] eqn:Hfd; [|intros [= <- _]; by apply quiet_refl].
  pose proof (Hg fd ctx Hfd) as Hs. cbn beta in Hs. intros ([ok out] & m1 & _ & H)%bind_inv. cbv zeta in H.
  destruct (negb ok || _); [injection H as <- _; by apply quiet_refl|]. destruct (_ && (_ || _)).
  - apply (control_written _ _ _ _ _ _ _ Hs) in H as (frames & E & _ & Hf). exists (map (pair fd) frames).
    split; [done|]. by apply Forall_map.
  - apply bind_inv in H as (bs & m2 & _ & H). destruct (out_of_order _ _ _ _).
    + injection H as <- _. unfold handle_out_of_order. destruct (insert_bytes _ _ _). by apply quiet_refl.
    + unfold handle_in_order in H. apply bind_inv in H as ([[n [o conn]] b] & m3 & E & H). injection H as <- _.
      cbn [orders].
      refine (deliver_preserves (handle fd) seq_of (fun st => quiet_since g.(orders) st.1)
        bs (g.(orders), ctx.(tcp)) _ m2 n (o, conn) b m3 _ (quiet_refl _ _ eq_refl) E).
      intros ????? Hq Hh. eapply quiet_trans; [exact Hq|]. by eapply handle_quiet.
Qed.

Lemma step_quiet g g' : gateway_step g g' -> all_closed g -> quiet_since g.(orders) g'.(orders).
Proof using Type.
  intros [fd port h|fd h|dropping fd pkt h m h' m' E] Hg.
  - unfold accept_connection. by apply quiet_refl.
  - by apply quiet_refl.
  - by eapply packet_quiet.
Qed.

(** C28: The gateway never leaves CLOSED: it accepts connections without setting
    a state, so whatever packets arrive every connection it holds is CLOSED, no
    frame it ever writes carries a FIN, and every control packet (a keepalive
    included) makes it drop the connection, after one acknowledgment if the
    packet was a FIN and without a word otherwise. *)
Theorem gateway_never_established g0 g :
  g0.(conn_ctx) = ∅ -> rtc gateway_step g0 g ->
  (forall fd ctx, g.(conn_ctx) !! fd = Some ctx -> ctx.(tcp).(state) = CLOSED) /\
  (exists sent, g.(orders).(written) = g0.(orders).(written) ++ sent /\
     Forall (fun e => carries_fin e.2 = false) sent) /\
  (forall fd ctx header m g' m', g.(conn_ctx) !! fd = Some ctx ->
     handle_control write_to fd header ctx g m = Some (g', m') ->
     g'.(conn_ctx) = delete fd g.(conn_ctx) /\
     exists frames, g'.(orders).(written) = g.(orders).(written) ++ map (pair fd) frames /\
       length frames = (if has_fin header then 1 else 0)%nat /\ Forall (fun f => carries_fin f = false) frames).
Proof.
  intros H0 Hr.
  assert (all_closed g0) as Hc by (unfold all_closed; rewrite H0; apply map_Forall_empty). clear H0.
  assert (all_closed g /\ quiet_since g0.(orders) g.(orders)) as [Hg Hq].
  { induction Hr as [g|g0 g1 g Hs _ IH]; [split; [done|by apply quiet_refl]|].
    destruct IH as [Hg Hq]; [by eapply step_keeps_closed|]. split; [done|].
    eapply quiet_trans; [by apply step_quiet|done]. }
  split; [exact Hg|]. split; [exact Hq|]. intros fd ctx header m g' m' Hfd E. split.
  - eapply control_drops_closed; [exact (Hg fd ctx Hfd)|exact E].
  - eapply control_written; [exact (Hg fd ctx Hfd)|exact E].
Qed.
End Stream.

(** ** Witnesses *)
Definition demo_write (sent : list (Z * list Z)) (fd : Z) (bs : list Z) : Z := Z.of_nat (length bs).

Definition demo_pool : ZeroCopy.ZeroCopyMemoryPool :=
  ZeroCopy.mkZeroCopyMemoryPool 36 2 false (ZeroCopy.mkZeroCopyBuffer 1000 72 false) [1; SIZE_MAX] 0.

Definition demo_gateway : gateway :=
  mkGateway ∅ (mkOrders ∅ demo_pool 0 0 0 0 0 [] []) (mkReorder 0 0 0 0 0) 0.

Definition demo_storage : mem :=
  alloc (alloc (alloc ∅ 1000 (replicate 72 0)) 2000 (replicate 24 0)) 3000 (replicate 64 0).

Definition demo_requests : list (list Z) :=
  [request_repr [0; 0] (mkOrderRequest 7 0 1 New Buy 100 5 1);
   request_repr [0; 0] (mkOrderRequest 8 7 1 Cancel Buy 0 0 2)].

Definition demo_accepted : TcpConnection :=
  mkTcpConnection (htonl INADDR_LOOPBACK) (htonl INADDR_LOOPBACK) kListenPort 40000
    1 1 0 0 CLOSED 65535 65535 65535.

Lemma demo_accepted_ok : conn_ok demo_accepted.
Proof. split; vm_compute; split; congruence. Qed.

Lemma demo_usable : ready 2000 1000 3000 64 ((accept_connection 5 40000 demo_gateway).(orders), demo_accepted) demo_storage.
Proof.
  split; [apply demo_accepted_ok| |apply read_bytes_valid; eexists; vm_compute; reflexivity..].
  apply (pool_ready_free demo_pool 0 [1]). unfold ZeroCopy.pool_inv, Pool.pool_inv. cbn.
  split_and!; try (done || lia); repeat econstructor; cbn; unfold SIZE_MAX; try (done || lia); set_solver.
Qed.

Lemma demo_fitting : Forall (fitting 64) demo_requests.
Proof. unfold fitting, request_payload. by apply (bool_decide_unpack _). Qed.

Lemma gateway_serves_stream_witness :
  exists g' m' frames,
    receive_packets demo_write 2000 (replicate 7 0) 0 0 3000 5 demo_accepted
      (rev (cut 1 demo_requests)) (accept_connection 5 40000 demo_gateway) demo_storage = Some (g', m') /\
    g'.(orders).(live_orders) = ∅ /\ g'.(orders).(written) = map (pair 5) frames /\
    map read_ack frames = [mkOrderAck 7 1000007 true; mkOrderAck 8 1000008 true] /\
    u64 g'.(orders).(req_recv_total) = 2.
Proof.
  pose proof (gateway_serves_stream demo_write 2000 (replicate 7 0) 0 0 1000 3000 64) as H.
  specialize (H ltac:(split; [done|by apply Forall_replicate]) ltac:(lia) 5 demo_accepted demo_accepted demo_requests
    (rev (cut 1 demo_requests)) (accept_connection 5 40000 demo_gateway) demo_storage demo_accepted_ok
    ltac:(reflexivity) demo_usable demo_fitting ltac:(reflexivity)
    ltac:(symmetry; apply Permutation_rev)).
  destruct (run_book (map request_of_repr demo_requests)
    (live_orders (orders (accept_connection 5 40000 demo_gateway)))) as [oks live] eqn:E in H.
  vm_compute in E. injection E as <- <-.
  destruct H as (g' & m' & frames & E1 & E2 & E3 & E4 & E5 & _).
  exists g', m', frames. split; [exact E1|]. split; [rewrite E2; reflexivity|]. split; [exact E3|].
  split; [rewrite E4; reflexivity|rewrite E5; reflexivity].
Defined.

(** A client connects and sends a FIN. *)
Definition demo_fin_in : TcpHeader := mkTcpHeader 40000 9000 1 1 5 0 1 65535 0 0.

Lemma gateway_never_established_witness :
  exists ctx g' m' frame, (accept_connection 5 40000 demo_gateway).(conn_ctx) !! 5 = Some ctx /\
    ctx.(tcp).(state) = CLOSED /\
    handle_control demo_write 5 demo_fin_in ctx (accept_connection 5 40000 demo_gateway) demo_storage = Some (g', m') /\
    g'.(conn_ctx) = ∅ /\ g'.(orders).(written) = [(5, frame)] /\ carries_fin frame = false.
Proof.
  destruct ((accept_connection 5 40000 demo_gateway).(conn_ctx) !! 5) as [ctx|] eqn:E; [|by vm_compute in E].
  destruct (handle_control demo_write 5 demo_fin_in ctx (accept_connection 5 40000 demo_gateway) demo_storage)
    as [[g' m']|] eqn:Eh; [|exfalso; vm_compute in E; injection E as <-; by vm_compute in Eh].
  destruct (gateway_never_established demo_write 2000 [] 0 0 demo_gateway (accept_connection 5 40000 demo_gateway))
    as (Hc & _ & H); [reflexivity|apply rtc_once; constructor|].
  destruct (H 5 ctx demo_fin_in demo_storage g' m' E Eh) as (Ed & frames & Ew & El & Ef).
  destruct frames as [|frame [|? ?]]; [discriminate El| |discriminate El].
  exists ctx, g', m', frame. split; [done|]. split; [exact (Hc 5 ctx E)|]. split; [done|].
  split; [rewrite Ed; vm_compute; reflexivity|]. split; [rewrite Ew; reflexivity|].
  by apply Forall_cons in Ef as [Ef _].
Defined.
