(* ===== verification/GatewayLoop.v ===== *)
(** * GatewayLoop: one round of the order gateway's event loop
    (apps/order_tcp/order_gateway.cpp)

    A round first goes through the events epoll reported: it accepts connections
    and reads from the ready ones into a buffer that is local to the event, and
    pushes a packet that points into that buffer onto the request ring.  Then it
    drains the ring.  The kernel's answers are part of the events. *)
From S2P Require Import Prelude Bytes BitOps Memory Packet TcpProtocol TcpStateMachine.
From S2P Require Import Fifo RingSlots PacketRing Allocator MemoryPool TcpReassembly Messages.
From S2P Require Import OrderReceiver OrderGateway.

(** What [read] answers: some bytes, end of stream (no bytes), EAGAIN, or another
    error. *)
Inductive read_result : Type := ReadBytes (bs : list Z) | ReadAgain | ReadError.

(** A ready listening socket, with what [accept4] and [epoll_ctl] answer, or a
    ready connection. *)
Inductive io_event : Type :=
  | NewConnection (conn_fd sin_port : Z) (added : bool)
  | Readable (fd : Z) (r : read_result).

Record gateway_loop := mkLoop {
  gw : gateway;
  req_ring : PacketRing;
  accept_failures : Z;
  active_conn_peak : Z;
}.

Definition kReadBuffer : nat := 2048.

(** The connection is removed and counted. *)
Definition disconnect (fd : Z) (g : gateway) : gateway :=
  let o := g.(orders) in
  mkGateway (delete fd g.(conn_ctx))
    (mkOrders o.(live_orders) o.(ack_pool) o.(req_recv_total) o.(ack_sent_total) o.(reject_total)
       o.(backpressure_hits) (u64 (o.(unexpected_disconnects) + 1)) o.(written) o.(notes))
    g.(reorder) g.(keepalive_recv_total).

(** The packet of a read; the ring drops it when full. *)
Definition read_packet (buf fd : Z) (bs : list Z) : Packet :=
  let p := Packet_new buf (Z.of_nat (length bs)) 0 in
  mkPacket p.(data) p.(len) p.(timestamp) (u16 fd) p.(pflags).

Definition io_step (buf : ptr) (e : io_event) (s : gateway_loop) : M gateway_loop :=
  match e with
  | NewConnection conn_fd sin_port added =>
      if conn_fd <? 0 then
        mret (mkLoop s.(gw) s.(req_ring) (u64 (s.(accept_failures) + 1)) s.(active_conn_peak))
      else if negb added then mret s else
      let g := accept_connection conn_fd (ntohs sin_port) s.(gw) in
      mret (mkLoop g s.(req_ring) s.(accept_failures)
              (Z.max s.(active_conn_peak) (Z.of_nat (base.size g.(conn_ctx)))))
  | Readable fd ReadAgain => mret s
  | Readable fd ReadError =>
      mret (mkLoop (disconnect fd s.(gw)) s.(req_ring) s.(accept_failures) s.(active_conn_peak))
  | Readable fd (ReadBytes []) =>
      mret (mkLoop (disconnect fd s.(gw)) s.(req_ring) s.(accept_failures) s.(active_conn_peak))
  | Readable fd (ReadBytes bs) =>
      with_local buf (replicate kReadBuffer 0)
        (store buf bs ;;
         r ← lift (try_push s.(req_ring) (read_packet buf fd bs));
         mret (mkLoop s.(gw) r.2 s.(accept_failures) s.(active_conn_peak)))
  end.

Fixpoint io_stage (buf : ptr) (events : list io_event) (s : gateway_loop) : M gateway_loop :=
  match events with
  | [] => mret s
  | e :: events => s ← io_step buf e s; io_stage buf events s
  end.

Section Loop.
Variable write_to : list (Z * list Z) -> Z -> list Z -> Z.
Variable ack_obj : ptr.
Variable ack_pad : list Z.
Variable backpressure_threshold : Z.

(** Draining the ring; [dropping] as in [process_packet].  Without fuel left it is
    undefined. *)
Fixpoint process_stage (fuel : nat) (dropping : bool) (s : gateway_loop) : M gateway_loop :=
  match fuel with
  | O => lift None
  | S fuel =>
      r ← lift (try_pop s.(req_ring));
      let '(pkt, ring) := r in
      match pkt with
      | None => mret (mkLoop s.(gw) ring s.(accept_failures) s.(active_conn_peak))
      | Some pkt =>
          g ← process_packet write_to ack_obj ack_pad backpressure_threshold (PacketRing.size ring)
                dropping pkt.(port) pkt s.(gw);
          process_stage fuel dropping (mkLoop g ring s.(accept_failures) s.(active_conn_peak))
      end
  end.

Definition gateway_round (fuel : nat) (dropping : bool) (buf : ptr) (events : list io_event)
    (s : gateway_loop) : M gateway_loop :=
  s ← io_stage buf events s; process_stage fuel dropping s.

(** ** The ring after the I/O stage *)
Definition reads_fit (e : io_event) : Prop :=
  match e with Readable _ (ReadBytes bs) => (length bs <= kReadBuffer)%nat | _ => True end.

Definition fresh_buffer (buf : ptr) (m : mem) : Prop :=
  forall a, buf <= a < buf + Z.of_nat kReadBuffer -> m !! a = None.

(** Room for one more push per event before the positions wrap. *)
Definition ring_ready (n : nat) (r : PacketRing) : Prop :=
  ring_inv r /\ write_pos_ r + Z.of_nat n < 2 ^ 64.

(** One event: memory is left as it was, and the ring only gains packets that
    point into the buffer. *)
Lemma io_step_run buf e s m :
  reads_fit e -> fresh_buffer buf m -> ring_inv s.(req_ring) -> write_pos_ s.(req_ring) + 1 < 2 ^ 64 ->
  exists s' new, io_step buf e s m = Some (s', m) /\ ring_inv s'.(req_ring) /\
    write_pos_ s'.(req_ring) <= write_pos_ s.(req_ring) + 1 /\
    contents s'.(req_ring) = contents s.(req_ring) ++ new /\
    Forall (fun p => p.(data) = buf /\ 0 < p.(len) <= Z.of_nat kReadBuffer) new.
Proof.
  intros Hfit Hf Hi Hw. destruct e as [c p added|fd [[|b bs]| |]]; cbn [io_step].
  - destruct (c <? 0); [|destruct (negb added)]; (eexists _, []; split; [reflexivity|]);
      cbn [req_ring]; rewrite app_nil_r; by split_and!; try lia.
  - eexists _, []; split; [reflexivity|]. cbn [req_ring]. rewrite app_nil_r. by split_and!; try lia.
  - destruct (try_push (req_ring s) (read_packet buf fd (b :: bs))) as [[ok r]|] eqn:E.
    2: { rewrite try_push_run in E by done. done. }
    eexists (mkLoop s.(gw) r s.(accept_failures) s.(active_conn_peak)), (if ok then [read_packet buf fd (b :: bs)] else []).
    destruct (store_prefix (alloc m buf (replicate kReadBuffer 0)) buf kReadBuffer (b :: bs)) as (w & Es & _ & Ho & _).
    { pose proof (valid_alloc m buf (replicate kReadBuffer 0)) as H. by rewrite length_replicate in H. }
    { done. }
    split.
    { eapply with_local_run; rewrite ?length_replicate; [exact Hf| |].
      - eapply bind_run; [exact Es|]. eapply bind_run; [reflexivity|]. reflexivity.
      - intros a Ha. by apply Ho. }
    cbn [req_ring]. rewrite try_push_run in E by done.
    destruct (Z.leb_spec (capacity_ (req_ring s)) (write_pos_ (req_ring s) - read_pos_ (req_ring s))) as [Hc|Hc];
      injection E as <- <-.
    + rewrite app_nil_r. by split_and!; try lia.
    + destruct (ri_pos _ Hi). split_and!; [apply pushed_inv; (done || lia)|cbn; lia|apply pushed_contents; (done || lia)|].
      constructor; [|constructor]. cbn in *. unfold kReadBuffer in *. lia.
  - eexists _, []; split; [reflexivity|]. cbn [req_ring]. rewrite app_nil_r. by split_and!; try lia.
  - eexists _, []; split; [reflexivity|]. cbn [req_ring]. rewrite app_nil_r. by split_and!; try lia.
Qed.

Lemma io_stage_run buf events s m :
  Forall reads_fit events -> fresh_buffer buf m -> ring_inv s.(req_ring) ->
  write_pos_ s.(req_ring) + Z.of_nat (length events) < 2 ^ 64 ->
  exists s' new, io_stage buf events s m = Some (s', m) /\ ring_inv s'.(req_ring) /\
    contents s'.(req_ring) = contents s.(req_ring) ++ new /\
    Forall (fun p => p.(data) = buf /\ 0 < p.(len) <= Z.of_nat kReadBuffer) new.
Proof.
  intros Hfit Hf. revert s. induction Hfit as [|e events He _ IH]; intros s Hi Hw; cbn [io_stage length] in *.
  { exists s, []. rewrite app_nil_r. by split_and!. }
  destruct (io_step_run buf e s m He Hf Hi ltac:(lia)) as (s1 & n1 & E1 & Hi1 & Hw1 & C1 & F1).
  destruct (IH s1 Hi1 ltac:(lia)) as (s2 & n2 & E2 & Hi2 & C2 & F2).
  exists s2, (n1 ++ n2). split; [eapply bind_run; [exact E1|exact E2]|]. split; [done|].
  split; [by rewrite C2, C1, app_assoc|by apply Forall_app_2].
Qed.

Lemma dead_packet_undefined fd pkt g m ctx threshold size :
  g.(conn_ctx) !! fd = Some ctx -> kHeaderLen <= pkt.(len) -> m !! pkt.(data) = None ->
  process_packet write_to ack_obj ack_pad threshold size false fd pkt g m = None.
Proof.
  intros Hc Hl Hd. rewrite process_packet_eq, Hc. unfold mbind, M_bind at 1, TcpProtocol.parse.
  destruct (Z.ltb_spec (len pkt) kHeaderLen); [lia|]. unfold mbind, M_bind at 1, load at 1.
  cbn [read_bytes]. rewrite Hd. done.
Qed.

(** A round of the event loop processes packets after the storage they point
    to is gone.  Starting with an empty ring, the I/O stage leaves memory as it
    was, whatever epoll reported, and every packet it queued points to the read
    buffer, a local of the event that queued it.  If the first one is long
    enough to be a frame and comes from a known connection, draining the ring
    reads through a dangling pointer: the round is undefined. *)
Theorem gateway_round_dangles fuel buf events s m :
  Forall reads_fit events -> fresh_buffer buf m -> ring_inv s.(req_ring) -> contents s.(req_ring) = [] ->
  write_pos_ s.(req_ring) + Z.of_nat (length events) < 2 ^ 64 ->
  exists s', io_stage buf events s m = Some (s', m) /\
    Forall (fun p => p.(data) = buf /\ forall n, n <> 0%nat -> load p.(data) n m = None)
      (contents s'.(req_ring)) /\
    forall pkt rest ctx, contents s'.(req_ring) = pkt :: rest ->
      s'.(gw).(conn_ctx) !! pkt.(port) = Some ctx -> kHeaderLen <= pkt.(len) ->
      gateway_round (S fuel) false buf events s m = None.
Proof.
  intros Hfit Hf Hi He Hw. destruct (io_stage_run buf events s m Hfit Hf Hi Hw) as (s' & new & E & Hi' & Hc & Hn).
  rewrite He in Hc. cbn [app] in Hc. exists s'. split; [done|].
  assert (m !! buf = None) as Hd by (apply Hf; unfold kReadBuffer; lia).
  split.
  - rewrite Hc. eapply Forall_impl; [exact Hn|]. intros p [-> _]. split; [done|].
    intros [|n] Hne; [done|]. unfold load. cbn [read_bytes]. by rewrite Hd.
  - intros pkt rest ctx Hp Hctx Hl. unfold gateway_round, mbind, M_bind at 1. rewrite E. cbn [process_stage].
    destruct (@fifo_pop_ok PacketRing Packet PacketRing_fifo (req_ring s') pkt rest Hi' Hp) as (r & Er & _). cbn [fifo_pop PacketRing_fifo] in Er.
    unfold mbind, M_bind at 1, lift at 1. rewrite Er. cbn [mbind option_bind].
    rewrite Hc in Hp. rewrite Hp in Hn. apply Forall_cons in Hn as [[Hb _] _].
    unfold M_bind at 1. by rewrite (dead_packet_undefined _ _ _ _ ctx) by (rewrite ?Hb; done).
Qed.
End Loop.

(** A client connects and its first frame is read in the same round. *)
Definition demo_loop : gateway_loop :=
  mkLoop (mkGateway ∅ (mkOrders ∅ (ZeroCopy.mkZeroCopyMemoryPool 36 2 false
      (ZeroCopy.mkZeroCopyBuffer 1000 72 false) [1; SIZE_MAX] 0) 0 0 0 0 0 [] []) (mkReorder 0 0 0 0 0) 0)
    (PacketRing_new 64) 0 0.

Definition demo_events : list io_event :=
  [NewConnection 5 20480 true; Readable 5 (ReadBytes (replicate 60 1))].

Lemma gateway_round_dangles_witness :
  map (fun p => (p.(data), p.(len), p.(port)))
    (from_option (fun s => contents s.1.(req_ring)) [] (io_stage 7000 demo_events demo_loop ∅)) = [(7000, 60, 5)] /\
  gateway_round (fun _ _ bs => Z.of_nat (length bs)) 2000 [] 0 10 false 7000 demo_events demo_loop ∅ = None.
Proof.
  destruct (gateway_round_dangles (fun _ _ bs => Z.of_nat (length bs)) 2000 [] 0 9 7000 demo_events demo_loop ∅)
    as (s' & E & _ & H).
  - constructor; [exact I|]. constructor; [|constructor]. apply (bool_decide_unpack _). vm_compute. exact I.
  - intros a _. apply lookup_empty.
  - apply ring_new_inv; lia.
  - reflexivity.
  - vm_compute. reflexivity.
  - assert (io_stage 7000 demo_events demo_loop ∅ = Some (s', ∅)) as E' by exact E.
    assert (option_map (fun s => (map (fun p => (p.(data), p.(len), p.(port))) (contents s.1.(req_ring)),
      match s.1.(gw).(conn_ctx) !! 5 with Some _ => true | None => false end))
      (io_stage 7000 demo_events demo_loop ∅) = Some ([(7000, 60, 5)], true)) as Ev by (vm_compute; reflexivity).
    rewrite E' in *. injection Ev as Er Ec. split; [exact Er|].
    destruct (contents (req_ring s')) as [|pkt [|? ?]]; [discriminate Er| |discriminate Er]. injection Er as Ed El Ep.
    destruct (conn_ctx (gw s') !! 5) as [ctx|] eqn:Hc; [|discriminate Ec].
    apply (H pkt [] ctx eq_refl); [rewrite Ep; exact Hc|]. rewrite El. unfold kHeaderLen. lia.
Defined.
