(* ===== verification/Doubles.v ===== *)
(** * Doubles: the double arithmetic of the programs

    The programs use [double] for the indices of percentiles, for the drop and
    reorder rates and the draws compared with them, and for the reject rate.  The
    arithmetic is the standard library's specification of binary64, with 53 bits
    of precision and exponents below 1024.  Here: conversions, and the division,
    which gives the exact quotient rounded to nearest, ties to even ([rne]). *)
From Stdlib Require Import Floats.SpecFloat.
From S2P Require Import Prelude.

Abbreviation double := spec_float.
Abbreviation prec := 53.
Abbreviation emax := 1024.

(** [static_cast<double>(n)] of an unsigned [n], and [static_cast<size_t>(x)]:
    undefined out of range. *)
Definition double_of (n : Z) : double := binary_normalize prec emax n 0 false.

Definition size_of_double (x : double) : option Z :=
  match x with
  | S754_zero _ => Some 0
  | S754_finite s m e =>
      let n := Z.shiftl (Zpos m) e in
      if s then (if n =? 0 then Some 0 else None)
      else if n <? 2 ^ 64 then Some n else None
  | _ => None
  end.

Definition divide (x y : double) : double := SFdiv prec emax x y.

(** The double nearest to [a / b]: the value of a decimal text. *)
Definition quotient (a b : Z) : double :=
  if a =? 0 then S754_zero false else
  let '(q, e, l) := SFdiv_core_binary prec emax a 0 b 0 in binary_round_aux prec emax false q e l.

(** ** Rounding *)

(** [n / d] rounded to the nearest integer, to the even one in the middle. *)
Definition rne (n d : Z) : Z :=
  let q := n / d in
  match 2 * (n mod d) ?= d with
  | Lt => q
  | Eq => if Z.even q then q else q + 1
  | Gt => q + 1
  end.

(** [R * 2 ^ e] with the carry of a rounded mantissa. *)
Definition normal (R e : Z) : double :=
  if R =? 2 ^ 53 then S754_finite false (2 ^ 52) (e + 1) else S754_finite false (Z.to_pos R) e.

Lemma rne_near n d : 0 < d -> 2 * n - d <= 2 * (rne n d * d) <= 2 * n + d /\ n / d <= rne n d <= n / d + 1.
Proof.
  intros Hd. unfold rne. pose proof (Z.div_mod n d ltac:(lia)) as E. pose proof (Z.mod_pos_bound n d Hd).
  destruct (Z.compare_spec (2 * (n mod d)) d); [destruct (Z.even (n / d))|..]; nia.
Qed.

Lemma rne_scale n d c : 0 < c -> 0 < d -> rne (n * c) (d * c) = rne n d.
Proof.
  intros Hc Hd. unfold rne. rewrite Z.div_mul_cancel_r, Z.mul_mod_distr_r by lia.
  replace (2 * (n mod d * c) ?= d * c) with (2 * (n mod d) ?= d); [done|].
  rewrite Z.mul_assoc. by apply Zmult_compare_compat_r, Z.lt_gt.
Qed.

Lemma rne_exact n d : 0 < d -> rne (n * d) d = n.
Proof.
  intros Hd. unfold rne. rewrite Z.div_mul, Z.mod_mul by lia. destruct (Z.compare_spec (2 * 0) d); lia.
Qed.

Lemma digits2_pos_log2 p : Zpos (digits2_pos p) = Z.log2 (Zpos p) + 1.
Proof.
  induction p as [p IH|p IH|]; [| |done]; cbn [digits2_pos]; rewrite Pos2Z.inj_succ, IH;
    [rewrite (Pos2Z.inj_xI p), Z.log2_succ_double by lia|rewrite (Pos2Z.inj_xO p), Z.log2_double by lia]; lia.
Qed.

Lemma iter_pos_nat {A} (f : A -> A) p x : SpecFloat.iter_pos f p x = Nat.iter (Pos.to_nat p) f x.
Proof.
  revert x. induction p as [p IH|p IH|]; intros x; cbn [SpecFloat.iter_pos]; rewrite ?IH.
  - rewrite Pos2Nat.inj_xI, Nat.iter_succ_r, <- Nat.iter_add. f_equal. lia.
  - rewrite Pos2Nat.inj_xO, <- Nat.iter_add. f_equal. lia.
  - done.
Qed.

(** After [k] shifts of the quotient of [V] by [b]: what is left of it, the last
    bit shifted out and whether anything smaller was. *)
Definition shifted (V b : Z) (k : nat) (x : shr_record) : Prop :=
  let d := b * 2 ^ Z.of_nat k in
  exists rem, 0 <= rem < d /\ V = shr_m x * d + rem /\ 0 <= shr_m x /\
    shr_r x = (d <=? 2 * rem) /\ shr_s x = negb (2 * rem =? if shr_r x then d else 0).

Lemma shifted_start V b : 0 < b -> 0 <= V -> shifted V b 0 (shr_record_of_loc (V / b) (new_location b (V mod b))).
Proof.
  intros Hb HV. unfold shifted. change (2 ^ Z.of_nat 0) with 1. rewrite Z.mul_1_r.
  pose proof (Z.mod_pos_bound V b Hb) as Hr. pose proof (Z.div_mod V b ltac:(lia)) as E.
  pose proof (Z.div_pos V b HV Hb) as Hq. set (q := V / b) in *. set (r := V mod b) in *. clearbody q r.
  exists r. unfold new_location, new_location_even, new_location_odd.
  destruct (Z.even b) eqn:Eb; destruct (Z.eqb_spec r 0) as [->|Hne];
    try (cbn [shr_record_of_loc shr_m shr_r shr_s]; destruct (Z.leb_spec b (2 * 0)); cbn [negb]; split_and!; (lia || done)).
  - destruct (Z.compare_spec (2 * r) b); cbn [shr_record_of_loc shr_m shr_r shr_s];
      destruct (Z.leb_spec b (2 * r)); cbn [negb]; split_and!; lia.
  - assert (2 * r <> b) as Hodd. { intros E2. by rewrite <- E2, Z.even_mul in Eb. }
    destruct (Z.compare_spec (2 * r + 1) b); cbn [shr_record_of_loc shr_m shr_r shr_s];
      destruct (Z.leb_spec b (2 * r)); cbn [negb]; split_and!; lia.
Qed.

Lemma shr_1_half x : 0 <= shr_m x ->
  shr_1 x = Build_shr_record (shr_m x / 2) (Z.odd (shr_m x)) (shr_r x || shr_s x).
Proof.
  destruct x as [m r s]. cbn. intros Hm. rewrite <- Z.div2_div.
  by destruct m as [|[p|p|]|p]; [| | | |lia].
Qed.

Lemma shifted_iter V b k x : 0 < b -> shifted V b 0 x -> shifted V b k (Nat.iter k shr_1 x).
Proof.
  intros Hb H0. induction k as [|k IH]; [done|].
  destruct IH as (rem & Hrem & EM & Hm & Er & Es). rewrite Nat.iter_succ. unfold shifted.
  set (y := Nat.iter k _ _) in *. clearbody y. rewrite shr_1_half by done.
  assert (b * 2 ^ Z.of_nat (S k) = 2 * (b * 2 ^ Z.of_nat k)) as -> by (rewrite Nat2Z.inj_succ, Z.pow_succ_r; lia).
  set (P := b * 2 ^ Z.of_nat k) in *. clearbody P.
  pose proof (Z.div_mod (shr_m y) 2 ltac:(lia)) as Hd. rewrite Zmod_odd in Hd.
  assert (shr_r y || shr_s y = negb (rem =? 0)) as ->.
  { rewrite Es, Er. destruct (Z.leb_spec P (2 * rem)), (Z.eqb_spec rem 0); cbn; lia. }
  exists ((if Z.odd (shr_m y) then 1 else 0) * P + rem). cbn [shr_m shr_r shr_s].
  destruct (Z.odd (shr_m y)); split_and!; try nia; lia.
Qed.

Lemma shifted_rne V b k x : 0 < b -> shifted V b k x ->
  round_nearest_even (shr_m x) (loc_of_shr_record x) = rne V (b * 2 ^ Z.of_nat k) /\
  shr_m x = V / (b * 2 ^ Z.of_nat k).
Proof.
  intros Hb (rem & Hrem & -> & Hm & Er & Es). destruct x as [q r s]. cbn [shr_m shr_r shr_s] in *.
  set (d := b * 2 ^ Z.of_nat k) in *. clearbody d. unfold rne.
  rewrite (Z.add_comm (q * d)), Z.mod_add, Z.mod_small, Z.div_add, Z.div_small, Z.add_0_l by lia. split; [|done].
  destruct (Z.leb_spec d (2 * rem)), r; try done; destruct (Z.compare_spec (2 * rem) d) as [Ec|Ec|Ec]; try lia.
  - rewrite (proj2 (Z.eqb_eq _ _) Ec) in Es. by subst s.
  - rewrite (proj2 (Z.eqb_neq _ _)) in Es by lia. by subst s.
  - destruct s; cbn; done.
Qed.

Lemma digits_of_range m d : 0 < d -> 2 ^ (d - 1) <= m < 2 ^ d -> Zdigits2 m = d.
Proof.
  intros Hd Hm. assert (0 < m) by (pose proof (Z.pow_pos_nonneg 2 (d - 1)); lia).
  destruct m as [|p|p]; [lia| |lia]. cbn [Zdigits2]. rewrite digits2_pos_log2.
  rewrite (Z.log2_unique (Zpos p) (d - 1)); [lia|lia|]. by replace (Z.succ (d - 1)) with d by lia.
Qed.

Lemma digits_bounds m : 0 < m -> 0 < Zdigits2 m /\ 2 ^ (Zdigits2 m - 1) <= m < 2 ^ Zdigits2 m.
Proof.
  intros Hm. destruct m as [|p|p]; [lia| |lia]. cbn [Zdigits2]. rewrite digits2_pos_log2.
  pose proof (Z.log2_nonneg (Zpos p)). pose proof (Z.log2_spec (Zpos p) ltac:(lia)) as H1.
  replace (Z.log2 (Zpos p) + 1 - 1) with (Z.log2 (Zpos p)) by lia. split; [lia|].
  by replace (Z.log2 (Zpos p) + 1) with (Z.succ (Z.log2 (Zpos p))) by lia.
Qed.

Lemma shr_fexp_shifts m e l k : 2 ^ (52 + Z.of_nat k) <= m < 2 ^ (53 + Z.of_nat k) -> -1000 <= e ->
  shr_fexp prec emax m e l = (Nat.iter k shr_1 (shr_record_of_loc m l), e + Z.of_nat k).
Proof.
  intros Hm He. unfold shr_fexp.
  rewrite (digits_of_range m (53 + Z.of_nat k));
    [|lia|by replace (53 + Z.of_nat k - 1) with (52 + Z.of_nat k) by lia].
  unfold fexp, emin. replace (_ - e) with (Z.of_nat k) by lia. unfold shr.
  destruct (Z.of_nat k) as [|p|p] eqn:Ek; [|rewrite iter_pos_nat|lia].
  - replace k with O by lia. by rewrite Z.add_0_r.
  - by replace (Pos.to_nat p) with k by lia.
Qed.

(** A quotient of [53 + k] bits is rounded to the nearest multiple of [2 ^ k]. *)
Lemma aux_rounds V b e k :
  0 < b -> 2 ^ (52 + Z.of_nat k) <= V / b < 2 ^ (53 + Z.of_nat k) -> -1000 <= e -> e + Z.of_nat k < 900 ->
  binary_round_aux prec emax false (V / b) e (new_location b (V mod b)) =
    normal (rne V (b * 2 ^ Z.of_nat k)) (e + Z.of_nat k) /\
  2 ^ 52 <= rne V (b * 2 ^ Z.of_nat k) <= 2 ^ 53.
Proof.
  intros Hb HM He Hk. unfold binary_round_aux. rewrite (shr_fexp_shifts _ e _ k HM He).
  assert (0 <= V) as HV.
  { pose proof (Z.pow_pos_nonneg 2 (52 + Z.of_nat k) ltac:(lia) ltac:(lia)).
    destruct (Z.lt_ge_cases V 0); [|done]. pose proof (Z.div_lt_upper_bound V b 0). lia. }
  destruct (shifted_rne V b k _ Hb (shifted_iter V b k _ Hb (shifted_start V b Hb HV))) as [-> Em].
  assert (0 < b * 2 ^ Z.of_nat k) as Hd by nia.
  pose proof (rne_near V (b * 2 ^ Z.of_nat k) Hd) as [_ Hi].
  set (R := rne V (b * 2 ^ Z.of_nat k)) in *. assert (2 ^ 52 <= R <= 2 ^ 53) as HR.
  { rewrite <- Z.div_div in Hi by lia. rewrite !Z.pow_add_r in HM by lia. set (P := 2 ^ Z.of_nat k) in *.
    assert (2 ^ 52 <= V / b / P < 2 ^ 53); [|lia]. split; [apply Z.div_le_lower_bound|apply Z.div_lt_upper_bound]; lia. }
  split; [|exact HR]. unfold normal. destruct (Z.eqb_spec R (2 ^ 53)) as [->|HR'].
  - rewrite (shr_fexp_shifts _ _ _ 1) by (cbn; lia). cbn [Nat.iter shr_record_of_loc].
    destruct (Z.leb_spec (e + Z.of_nat k + Z.of_nat 1) (1024 - 53)); [done|lia].
  - rewrite (shr_fexp_shifts _ _ _ 0) by (rewrite ?Z.add_0_r; cbn; lia).
    cbn [Nat.iter nat_rect nat_rec shr_record_of_loc shr_m].
    destruct R as [|R'|R'] eqn:E; [lia| |lia]. cbn [Z.to_pos].
    destruct (Z.leb_spec (e + Z.of_nat k + Z.of_nat 0) (1024 - 53)); [|lia]. by rewrite Z.add_0_r.
Qed.

(** A mantissa of [53 + k] bits is rounded to a multiple [R] of [2 ^ k]. *)
Lemma binary_round_near M e k :
  2 ^ (52 + Z.of_nat k) <= Zpos M < 2 ^ (53 + Z.of_nat k) -> -1000 <= e -> e + Z.of_nat k < 900 ->
  exists R R' j, binary_round_aux prec emax false (Zpos M) e loc_Exact = S754_finite false R' (e + Z.of_nat k + j) /\
    j = (if R =? 2 ^ 53 then 1 else 0) /\ Zpos R' * 2 ^ j = R /\
    2 * Zpos M - 2 ^ Z.of_nat k <= 2 * (R * 2 ^ Z.of_nat k) <= 2 * Zpos M + 2 ^ Z.of_nat k.
Proof.
  intros HM He Hk. destruct (aux_rounds (Zpos M) 1 e k) as [E HR]; rewrite ?Z.div_1_r in *; [lia|done..|].
  rewrite Z.mod_1_r, Z.mul_1_l in *. change (new_location 1 0) with loc_Exact in E. rewrite E.
  exists (rne (Zpos M) (2 ^ Z.of_nat k)). pose proof (rne_near (Zpos M) (2 ^ Z.of_nat k) ltac:(lia)) as [Hn _].
  unfold normal. destruct (Z.eqb_spec (rne (Zpos M) (2 ^ Z.of_nat k)) (2 ^ 53)) as [Er|Er].
  - by exists (2 ^ 52)%positive, 1; rewrite Er in *.
  - exists (Z.to_pos (rne (Zpos M) (2 ^ Z.of_nat k))), 0. rewrite Z.add_0_r. split_and!; [done..| |lia|lia].
    rewrite Z.mul_1_r. apply Z2Pos.id. lia.
Qed.

(** Division: [s] scales the quotient to 53 bits. *)
Lemma core_div m1 e1 m2 e2 s :
  0 < m1 -> 0 < m2 -> 0 <= e1 - e2 + s -> -800 <= s <= 900 ->
  2 ^ 52 * m2 <= m1 * 2 ^ (e1 - e2 + s) < 2 ^ 53 * m2 ->
  (let '(q, e, l) := SFdiv_core_binary prec emax m1 e1 m2 e2 in binary_round_aux prec emax false q e l) =
    normal (rne (m1 * 2 ^ (e1 - e2 + s)) m2) (- s) /\
  2 ^ 52 <= rne (m1 * 2 ^ (e1 - e2 + s)) m2 <= 2 ^ 53.
Proof.
  intros H1 H2 Hs0 Hs HM. unfold SFdiv_core_binary, fexp, emin.
  destruct (digits_bounds m1 H1) as [D1 B1]. destruct (digits_bounds m2 H2) as [D2 B2].
  set (d1 := Zdigits2 m1) in *. set (d2 := Zdigits2 m2) in *. clearbody d1 d2.
  set (t := e1 - e2 + s) in *.
  assert (d1 - 1 + t < 53 + d2) as Hup.
  { apply (Z.pow_lt_mono_r_iff 2); [lia|lia|]. rewrite !Z.pow_add_r by lia. nia. }
  assert (52 + (d2 - 1) < d1 + t) as Hlo.
  { apply (Z.pow_lt_mono_r_iff 2); [lia|lia|]. rewrite !Z.pow_add_r by lia. nia. }
  set (e' := Z.min _ (e1 - e2)). assert (e' <= - s /\ e' <= e1 - e2 /\ -1000 <= e') as (He & He1 & He2) by lia.
  assert (exists k : nat, - s = e' + Z.of_nat k) as [k Ek] by (exists (Z.to_nat (- s - e')); lia).
  set (V := m1 * 2 ^ (e1 - e2 - e')).
  assert (match e1 - e2 - e' with Z0 => m1 | Zpos _ => Z.shiftl m1 (e1 - e2 - e') | Zneg _ => 0 end = V) as ->.
  { unfold V. destruct (e1 - e2 - e') eqn:E; [lia| |lia]. rewrite <- E, Z.shiftl_mul_pow2 by lia. done. }
  assert (V = m1 * 2 ^ t * 2 ^ Z.of_nat k) as EV.
  { unfold V. rewrite <- Z.mul_assoc, <- Z.pow_add_r by lia. do 2 f_equal. lia. }
  pose proof (Z.pow_pos_nonneg 2 (Z.of_nat k) ltac:(lia) ltac:(lia)) as Hpk.
  assert (2 ^ (52 + Z.of_nat k) <= V / m2 < 2 ^ (53 + Z.of_nat k)) as HV.
  { rewrite EV, !Z.pow_add_r by lia. split; [apply Z.div_le_lower_bound|apply Z.div_lt_upper_bound]; nia. }
  pose proof (Z.div_mod V m2 ltac:(lia)) as Hdm. unfold Z.div, Z.modulo in *.
  destruct (Z.div_eucl V m2) as [q r] eqn:Eq.
  assert (q = V / m2 /\ r = V mod m2) as [-> ->] by (unfold Z.div, Z.modulo; by rewrite Eq).
  destruct (aux_rounds V m2 e' k H2 HV) as [-> HR]; [lia|lia|].
  rewrite EV, rne_scale in * by lia. by rewrite Ek.
Qed.

(** *** Integers below 2^53 are exact *)
Lemma iter_double d p : Zpos (Pos.iter xO p d) = Zpos p * 2 ^ Zpos d.
Proof.
  induction d as [|d IH] using Pos.peano_ind; [cbn; lia|].
  rewrite Pos.iter_succ, Pos2Z.inj_succ, Z.pow_succ_r, Pos2Z.inj_xO, IH by lia. lia.
Qed.

Lemma double_of_exact n : 0 < n < 2 ^ 53 ->
  let s := 52 - Z.log2 n in
  0 <= s /\ exists m, double_of n = S754_finite false m (- s) /\ Zpos m = n * 2 ^ s /\ 2 ^ 52 <= Zpos m < 2 ^ 53.
Proof.
  intros Hn. cbv zeta. pose proof (Z.log2_spec n ltac:(lia)) as Hl.
  assert (Z.log2 n < 53) as Hl53 by (apply Z.log2_lt_pow2; lia). pose proof (Z.log2_nonneg n).
  set (s := 52 - Z.log2 n). split; [lia|]. destruct n as [|n|n]; [lia| |lia].
  assert (exists m, shl_align n 0 (- s) = (m, - s) /\ Zpos m = Zpos n * 2 ^ s) as (m & E & Em).
  { unfold shl_align. destruct (- s - 0) as [|d|d] eqn:Es; [exists n|lia|exists (Pos.iter xO n d)].
    - replace s with 0 by lia. split; [done|lia].
    - split; [done|]. rewrite iter_double. by replace s with (Zpos d) by lia. }
  assert (2 ^ 52 <= Zpos m < 2 ^ 53) as Hm.
  { rewrite Em. replace 52 with (Z.log2 (Zpos n) + s) at 1 by lia.
    replace 53 with (Z.succ (Z.log2 (Zpos n)) + s) by lia. rewrite !Z.pow_add_r by lia.
    assert (0 < 2 ^ s) by lia. nia. }
  destruct (binary_round_near m (- s) 0) as (R & R' & j & Er & Ej & ER & Hr); [done|lia|lia|].
  change (2 ^ Z.of_nat 0) with 1 in Hr. assert (R = Zpos m) as -> by lia.
  destruct (Z.eqb_spec (Zpos m) (2 ^ 53)); [lia|]. subst j. rewrite !Z.add_0_r in Er.
  exists m. split; [|done]. unfold double_of, binary_normalize, binary_round, fexp, emin.
  rewrite digits2_pos_log2. replace (Z.max _ _) with (- s) by lia. rewrite E, Er. f_equal. lia.
Qed.


(** ** Quotients *)

(** The binade of a quotient. *)
Lemma binade a b : 0 < a <= b -> b < 2 ^ 800 ->
  exists s, 52 <= s <= 900 /\ 2 ^ 52 * b <= a * 2 ^ s < 2 ^ 53 * b.
Proof.
  intros Ha Hb. pose proof (Z.log2_spec a ltac:(lia)) as La. pose proof (Z.log2_spec b ltac:(lia)) as Lb.
  pose proof (Z.log2_nonneg a). pose proof (Z.log2_le_mono a b ltac:(lia)).
  assert (Z.log2 b < 800) by (apply Z.log2_lt_pow2; lia).
  set (t := Z.log2 b - Z.log2 a). assert (0 <= t) by lia.
  assert (2 ^ t * 2 ^ Z.log2 a = 2 ^ Z.log2 b) as Et by (rewrite <- Z.pow_add_r by lia; f_equal; lia).
  rewrite !Z.pow_succ_r in * by lia. set (P := 2 ^ t) in *.
  destruct (Z.le_gt_cases b (a * P)) as [Hc|Hc]; [exists (52 + t)|exists (53 + t)]; rewrite Z.pow_add_r by lia;
    fold P; (split; [lia|]); split; nia.
Qed.

Lemma quotient_normal a b : 0 < a <= b -> b < 2 ^ 800 ->
  exists s, 52 <= s <= 900 /\ quotient a b = normal (rne (a * 2 ^ s) b) (- s) /\
    2 ^ 52 <= rne (a * 2 ^ s) b <= 2 ^ 53.
Proof.
  intros Ha Hb. destruct (binade a b Ha Hb) as (s & Hs & HM). exists s. split; [done|].
  unfold quotient. destruct (Z.eqb_spec a 0); [lia|].
  destruct (core_div a 0 b 0 s) as [E HR]; rewrite ?Z.sub_diag, ?Z.add_0_l in *; try lia. done.
Qed.

(** The divisions of the programs are of integers below 2^53. *)
Lemma divide_quotient a b : 0 <= a <= b -> 0 < b < 2 ^ 53 -> divide (double_of a) (double_of b) = quotient a b.
Proof.
  intros Ha Hb. destruct (double_of_exact b ltac:(lia)) as (Hs2 & m2 & E2 & Em2 & _).
  set (s2 := 52 - Z.log2 b) in *. destruct (decide (a = 0)) as [->|Hne].
  { rewrite E2. reflexivity. }
  destruct (double_of_exact a ltac:(lia)) as (Hs1 & m1 & E1 & Em1 & _). set (s1 := 52 - Z.log2 a) in *.
  destruct (binade a b ltac:(lia) ltac:(lia)) as (s & Hs & HM). pose proof (Z.log2_nonneg a).
  rewrite E1, E2. unfold divide, SFdiv, quotient. destruct (Z.eqb_spec a 0); [lia|]. cbn [xorb].
  destruct (core_div a 0 b 0 s) as [-> _]; rewrite ?Z.sub_diag, ?Z.add_0_l in *; try lia.
  assert (0 < 2 ^ s2) by lia.
  assert (Zpos m1 * 2 ^ (- s1 - - s2 + s) = a * 2 ^ s * 2 ^ s2) as Ev.
  { rewrite Em1, <- !Z.mul_assoc, <- !Z.pow_add_r by lia. do 2 f_equal. lia. }
  destruct (core_div (Zpos m1) (- s1) (Zpos m2) (- s2) s) as [E _]; try lia.
  { rewrite Ev, Em2. nia. }
  assert (rne (a * 2 ^ s * 2 ^ s2) (Zpos m2) = rne (a * 2 ^ s) b) as Er by (rewrite Em2; apply rne_scale; lia).
  by rewrite Ev, Er in E.
Qed.

(** The quotient depends on the rational only. *)
Lemma quotient_scale a b c : 0 <= a <= b -> 0 < b -> 0 < c -> b * c < 2 ^ 800 -> quotient (a * c) (b * c) = quotient a b.
Proof.
  intros Ha Hb Hc Hbc. unfold quotient. destruct (Z.eqb_spec a 0) as [->|Hne]; [done|].
  destruct (Z.eqb_spec (a * c) 0) as [E0|_]; [apply Z.mul_eq_0 in E0; lia|].
  assert (b < 2 ^ 800) as Hb8 by (generalize dependent (2 ^ 800); intros P HP; nia).
  destruct (binade a b ltac:(lia) Hb8) as (s & Hs & HM).
  destruct (core_div a 0 b 0 s) as [-> _]; rewrite ?Z.sub_diag, ?Z.add_0_l in *; try lia.
  destruct (core_div (a * c) 0 (b * c) 0 s) as [-> _]; rewrite ?Z.sub_diag, ?Z.add_0_l in *; try nia.
  replace (a * c * 2 ^ s) with (a * 2 ^ s * c) by ring. by rewrite rne_scale.
Qed.

(** *** Comparing quotients *)

(** The value of a double as a multiple of 2^-1000. *)
Definition scaled_value (x : double) : Z :=
  match x with S754_finite false m e => Zpos m * 2 ^ (1000 + e) | _ => 0 end.

Lemma normal_value R e : 2 ^ 52 <= R <= 2 ^ 53 -> -1000 <= e -> scaled_value (normal R e) = R * 2 ^ (1000 + e).
Proof.
  intros HR He. unfold normal. destruct (Z.eqb_spec R (2 ^ 53)) as [->|_]; cbn [scaled_value].
  - replace (1000 + (e + 1)) with (Z.succ (1000 + e)) by lia. rewrite Z.pow_succ_r by lia.
    change (2 ^ 53) with (2 * Zpos (2 ^ 52)). ring.
  - rewrite Z2Pos.id by lia. done.
Qed.

Definition is_normal (x : double) : Prop :=
  exists m e, x = S754_finite false m e /\ 2 ^ 52 <= Zpos m < 2 ^ 53 /\ -1000 <= e.

Lemma normal_normal R e : 2 ^ 52 <= R <= 2 ^ 53 -> -1000 <= e -> is_normal (normal R e).
Proof.
  intros HR He. unfold normal, is_normal. destruct (Z.eqb_spec R (2 ^ 53)).
  - by exists (2 ^ 52)%positive, (e + 1); split_and!; [|lia..].
  - exists (Z.to_pos R), e. rewrite Z2Pos.id by lia. split_and!; [done|lia..].
Qed.

Lemma compare_normal x y : is_normal x -> is_normal y -> SFcompare x y = Some (scaled_value x ?= scaled_value y).
Proof.
  intros (m1 & e1 & -> & H1 & L1) (m2 & e2 & -> & H2 & L2). cbn [SFcompare scaled_value].
  destruct (Z.compare_spec e1 e2) as [->|Hlt|Hgt]; f_equal; symmetry.
  - rewrite <- Zmult_compare_compat_r; [done|]. apply Z.lt_gt, Z.pow_pos_nonneg; lia.
  - apply Z.compare_lt_iff. replace (1000 + e2) with ((1000 + e1) + Z.succ (e2 - e1 - 1)) by lia.
    rewrite (Z.pow_add_r 2 (1000 + e1) (Z.succ _)), Z.pow_succ_r by lia.
    pose proof (Z.pow_pos_nonneg 2 (1000 + e1) ltac:(lia) ltac:(lia)).
    pose proof (Z.pow_pos_nonneg 2 (e2 - e1 - 1) ltac:(lia) ltac:(lia)). set (P := 2 ^ (1000 + e1)) in *. set (Q := 2 ^ (e2 - e1 - 1)) in *.
    assert (Zpos m2 * 2 <= Zpos m2 * (2 * Q)) by (apply Z.mul_le_mono_nonneg_l; lia).
    assert (Zpos m1 < Zpos m2 * (2 * Q)) by lia. nia.
  - apply Z.compare_gt_iff. replace (1000 + e1) with ((1000 + e2) + Z.succ (e1 - e2 - 1)) by lia.
    rewrite (Z.pow_add_r 2 (1000 + e2) (Z.succ _)), Z.pow_succ_r by lia.
    pose proof (Z.pow_pos_nonneg 2 (1000 + e2) ltac:(lia) ltac:(lia)).
    pose proof (Z.pow_pos_nonneg 2 (e1 - e2 - 1) ltac:(lia) ltac:(lia)). set (P := 2 ^ (1000 + e2)) in *. set (Q := 2 ^ (e1 - e2 - 1)) in *.
    assert (Zpos m1 * 2 <= Zpos m1 * (2 * Q)) by (apply Z.mul_le_mono_nonneg_l; lia).
    assert (Zpos m2 < Zpos m1 * (2 * Q)) by lia. nia.
Qed.

Lemma quotient_value a b : 0 < a <= b -> b < 2 ^ 800 ->
  is_normal (quotient a b) /\
  2 * (a * 2 ^ 1000) - b * 2 ^ 948 <= 2 * (scaled_value (quotient a b) * b) <= 2 * (a * 2 ^ 1000) + b * 2 ^ 948.
Proof.
  intros Ha Hb. destruct (quotient_normal a b Ha Hb) as (s & Hs & -> & HR).
  split; [apply normal_normal; lia|]. rewrite normal_value by lia.
  destruct (rne_near (a * 2 ^ s) b ltac:(lia)) as [Hn _]. set (R := rne _ b) in *. clearbody R.
  assert (2 ^ 1000 = 2 ^ s * 2 ^ (1000 + - s)) as -> by (rewrite <- Z.pow_add_r by lia; f_equal; lia).
  assert (2 ^ 948 = 2 ^ (s - 52) * 2 ^ (1000 + - s)) as -> by (rewrite <- Z.pow_add_r by lia; f_equal; lia).
  pose proof (Z.pow_pos_nonneg 2 (1000 + - s) ltac:(lia) ltac:(lia)) as HT.
  pose proof (Z.pow_pos_nonneg 2 (s - 52) ltac:(lia) ltac:(lia)) as HU.
  set (T := 2 ^ (1000 + - s)) in *. set (U := 2 ^ (s - 52)) in *. set (S := 2 ^ s) in *. clearbody T U S.
  assert (b * T <= b * (U * T)) by (apply Z.mul_le_mono_nonneg_l; nia).
  assert (2 * (R * b) * T <= (2 * (a * S) + b) * T) by (apply Z.mul_le_mono_nonneg_r; lia).
  assert ((2 * (a * S) - b) * T <= 2 * (R * b) * T) by (apply Z.mul_le_mono_nonneg_r; lia).
  split; lia.
Qed.

Lemma value_lt a b c d v1 v2 U : 0 < b -> 0 < d -> b * d < 2 ^ 52 -> 0 < U ->
  2 * (v1 * b) <= 2 * (a * (2 ^ 52 * U)) + b * U -> 2 * (c * (2 ^ 52 * U)) - d * U <= 2 * (v2 * d) ->
  a * d < c * b -> v1 < v2.
Proof.
  intros Hb Hd Hbd HU H1 H2 Hlt. destruct (Z.lt_ge_cases v1 v2) as [|Hge]; [done|exfalso].
  assert (2 * (v1 * b) * d <= (2 * (a * (2 ^ 52 * U)) + b * U) * d) as G1 by (apply Z.mul_le_mono_nonneg_r; lia).
  assert ((2 * (c * (2 ^ 52 * U)) - d * U) * b <= 2 * (v2 * d) * b) as G2 by (apply Z.mul_le_mono_nonneg_r; lia).
  assert (v2 * (b * d) <= v1 * (b * d)) as G3 by (apply Z.mul_le_mono_nonneg_r; nia).
  assert ((a * d + 1) * (2 ^ 52 * U) <= c * b * (2 ^ 52 * U)) as G4 by (apply Z.mul_le_mono_nonneg_r; lia).
  assert (b * d * U < 2 ^ 52 * U) as G5 by (apply Z.mul_lt_mono_pos_r; lia). lia.
Qed.

(** Rounded quotients of small numbers compare as the rationals do. *)
Lemma quotient_compare a b c d : 0 <= a <= b -> 0 < b -> 0 <= c <= d -> 0 < d -> b * d < 2 ^ 52 ->
  SFcompare (quotient a b) (quotient c d) = Some (a * d ?= c * b).
Proof.
  intros Ha Hb Hc Hd Hbd. assert (b * 1 <= b * d /\ 1 * d <= b * d) as [H1 H2] by (split; nia).
  assert (b < 2 ^ 800 /\ d < 2 ^ 800) as [Hb8 Hd8] by lia. symmetry.
  destruct (decide (a = 0)) as [->|Ha0].
  { destruct (decide (c = 0)) as [->|Hc0]; [by rewrite !Z.mul_0_l|].
    destruct (quotient_value c d ltac:(lia) Hd8) as [(m & e & -> & _) _].
    rewrite (proj2 (Z.compare_lt_iff _ _)) by nia. done. }
  destruct (quotient_value a b ltac:(lia) Hb8) as [N1 V1]. destruct (decide (c = 0)) as [->|Hc0].
  { destruct N1 as (m & e & -> & _). rewrite (proj2 (Z.compare_gt_iff _ _)) by nia. done. }
  destruct (quotient_value c d ltac:(lia) Hd8) as [N2 V2]. rewrite compare_normal by done. f_equal.
  change (2 ^ 1000) with (2 ^ 52 * 2 ^ 948) in *. pose proof (Z.pow_pos_nonneg 2 948 ltac:(lia) ltac:(lia)) as HU.
  destruct (Z.compare_spec (a * d) (c * b)) as [Heq|Hlt|Hgt]; symmetry.
  - apply Z.compare_eq_iff. f_equal.
    rewrite <- (quotient_scale a b d), <- (quotient_scale c d b), Heq, (Z.mul_comm b) by lia. done.
  - apply Z.compare_lt_iff. exact (value_lt a b c d _ _ (2 ^ 948) Hb Hd Hbd HU (proj2 V1) (proj1 V2) Hlt).
  - apply Z.compare_gt_iff. refine (value_lt c d a b _ _ (2 ^ 948) Hd Hb _ HU (proj2 V2) (proj1 V1) _); lia.
Qed.
