(* ===== verification/Percentile.v ===== *)
(** * Percentile: [percentile_us] of the client and of the subscriber
    (apps/order_tcp/order_client.cpp, apps/market_udp/feed_subscriber.cpp)

    The index is computed in [double].  [None] stands for undefined behaviour: a
    conversion out of range, or an index past the end of the samples. *)
From Stdlib Require Import Floats.SpecFloat.
From stdpp Require Import sorting.
From S2P Require Import Prelude Doubles.

(** The literal [a / b] written in decimal. *)
Definition literal (a b : Z) : double := divide (double_of a) (double_of b).

Definition percentile_index (n : nat) (q : double) : option Z :=
  size_of_double (SFmul prec emax q (double_of (Z.of_nat n - 1))).

Definition percentile_us (samples : list Z) (q : double) : option Z :=
  match samples with
  | [] => Some 0
  | _ => idx ← percentile_index (length samples) q; merge_sort Z.le samples !! Z.to_nat idx
  end.

(** The quantiles the programs report. *)
Definition p50 : double := literal 1 2.
Definition p99 : double := literal 99 100.
Definition p999 : double := literal 999 1000.
Definition p100 : double := literal 1 1.

(** ** The index *)

(** A quantile [q] within a quarter unit of its last place below [a / b]. *)
Record approximates (q : double) (a b : Z) : Prop := {
  ap_frac : 0 < a <= b /\ b < 2 ^ 12;
  ap_q : exists m c r, q = S754_finite false m (- c) /\ 2 ^ 52 <= Zpos m < 2 ^ 53 /\ 52 <= c <= 53 /\
           b * Zpos m = a * 2 ^ c - r /\ 0 <= r /\ 4 * r < b;
}.

(** The rounded product lies between the same integers as the exact one. *)
Lemma product_floor a b c s k r m N M R :
  0 < a <= b -> b < 2 ^ 12 -> b * m = a * 2 ^ c - r -> 0 <= r -> 4 * r < b ->
  0 <= c -> 0 <= s -> 52 <= k <= 53 -> k + 12 <= c + s -> 0 < N -> N * 2 ^ s < 2 ^ 53 -> M = m * (N * 2 ^ s) ->
  2 * M - 2 ^ k <= 2 * (R * 2 ^ k) <= 2 * M + 2 ^ k ->
  R / 2 ^ (c + s - k) = a * N / b.
Proof.
  intros Ha Hb Em Hr Hrb Hc Hs Hk Hj HN HNs -> HR.
  set (K := a * N / b). pose proof (Z.div_mod (a * N) b ltac:(lia)) as HK. fold K in HK.
  pose proof (Z.mod_pos_bound (a * N) b ltac:(lia)) as Ht. set (t := (a * N) mod b) in *.
  assert (2 ^ (c + s) = 2 ^ k * 2 ^ (c + s - k)) as Ecs by (rewrite <- Z.pow_add_r by lia; f_equal; lia).
  assert (2 ^ 12 <= 2 ^ (c + s - k)) as HJ by (apply Z.pow_le_mono_r; lia).
  assert (2 ^ 52 <= 2 ^ k) as HP by (apply Z.pow_le_mono_r; lia).
  set (J := 2 ^ (c + s - k)) in *. set (P := 2 ^ k) in *.
  assert (b * (m * (N * 2 ^ s)) = (K * b + t) * (P * J) - r * (N * 2 ^ s)) as EM.
  { rewrite <- Ecs, Z.pow_add_r by lia. rewrite Z.mul_assoc, Em.
    replace (K * b + t) with (a * N) by lia. ring. }
  symmetry. apply Z.div_unique_pos with (R - J * K); [|lia]. clearbody K J P t.
  assert (0 <= r * (N * 2 ^ s) /\ 4 * (r * (N * 2 ^ s)) < b * 2 ^ 53) as Herr by nia.
  set (err := r * (N * 2 ^ s)) in *. set (M := m * (N * 2 ^ s)) in *. clearbody err M.
  assert (0 < P * J) by nia. assert (0 <= t * (P * J) <= (b - 1) * (P * J)) as Htj by nia.
  assert (b * P < P * J) by nia. split.
  - assert (b * (M - (K * (P * J) - 2 ^ 51)) > 0) by lia.
    assert (M > K * (P * J) - 2 ^ 51) by nia.
    assert ((R - J * K + 1) * P > 0) by lia. nia.
  - assert (b * (M + P - (K + 1) * (P * J)) < 0) by lia.
    assert (M + P < (K + 1) * (P * J)) by nia.
    assert ((R - J * K - J) * P < 0) by lia. nia.
Qed.

Lemma mantissa_product m n : 2 ^ 52 <= m < 2 ^ 53 -> 2 ^ 52 <= n < 2 ^ 53 ->
  exists k : nat, 52 <= Z.of_nat k <= 53 /\ 2 ^ (52 + Z.of_nat k) <= m * n < 2 ^ (53 + Z.of_nat k).
Proof.
  intros Hm Hn. assert (2 ^ 52 * 2 ^ 52 <= m * n < 2 ^ 53 * 2 ^ 53) by nia.
  destruct (Z.lt_ge_cases (m * n) (2 ^ 105)); [exists 52%nat|exists 53%nat]; cbn [Z.of_nat] in *; lia.
Qed.

Lemma percentile_index_exact q a b n : approximates q a b -> (0 < n)%nat -> Z.of_nat n <= 2 ^ 40 ->
  percentile_index n q = Some (a * (Z.of_nat n - 1) / b).
Proof.
  intros [[Ha Hb] (m & c & r & -> & Hm & Hc & Eq & Hr & Hrb)] Hn0 Hn.
  unfold percentile_index. set (N := Z.of_nat n - 1) in *.
  destruct (decide (N = 0)) as [->|HN]; [by rewrite Z.mul_0_r|].
  destruct (double_of_exact N) as (Hs & m' & -> & Em & Hm'); [lia|]. set (s := 52 - Z.log2 N) in *.
  assert (Z.log2 N < 40) as Hl by (apply Z.log2_lt_pow2; lia). pose proof (Z.log2_nonneg N).
  destruct (mantissa_product _ _ Hm Hm') as (k & Hk & HM). cbn [SFmul xorb].
  destruct (binary_round_near (m * m') (- c + - s) k) as (R & R' & j & -> & Ej & ER & HR);
    [rewrite Pos2Z.inj_mul; exact HM|lia|lia|].
  rewrite Pos2Z.inj_mul, Em in HR.
  pose proof (product_floor a b c s (Z.of_nat k) r (Zpos m) N _ R Ha Hb Eq Hr Hrb ltac:(lia) Hs Hk
    ltac:(lia) ltac:(lia) ltac:(lia) eq_refl HR) as Ei.
  assert (0 <= j <= 1) by (subst j; by destruct (_ =? _)).
  cbn [size_of_double]. replace (- c + - s + Z.of_nat k + j) with (- (c + s - Z.of_nat k - j)) by lia.
  rewrite Z.shiftl_div_pow2 by lia. rewrite Z.opp_involutive.
  assert (Zpos R' / 2 ^ (c + s - Z.of_nat k - j) = a * N / b) as ->.
  { rewrite <- Ei, <- ER. replace (c + s - Z.of_nat k) with (c + s - Z.of_nat k - j + j) at 2 by lia.
    rewrite Z.pow_add_r, Z.div_mul_cancel_r by lia. done. }
  assert (a * N / b <= N) by (apply Z.div_le_upper_bound; nia).
  by destruct (Z.ltb_spec (a * N / b) (2 ^ 64)); [|lia].
Qed.

(** The four literals. *)
Definition reported : list (double * Z * Z) :=
  [(p50, 1, 2); (p99, 99, 100); (p999, 999, 1000); (p100, 1, 1)].

Ltac literal m c r := split; [lia|]; exists m, c, r; split; [by vm_compute|lia].

Lemma reported_approximates q a b : (q, a, b) ∈ reported -> approximates q a b.
Proof.
  unfold reported. rewrite !elem_of_cons, elem_of_nil.
  intros [[= -> -> ->]|[[= -> -> ->]|[[= -> -> ->]|[[= -> -> ->]|[]]]]].
  - literal 4503599627370496%positive 53 0.
  - literal 8917127262193582%positive 53 8.
  - literal 8998192055486251%positive 53 8.
  - literal 4503599627370496%positive 52 0.
Qed.

(** ** The order statistics *)

(** [v] has [i] samples before it and the others after it. *)
Definition order_statistic (samples : list Z) (i : nat) (v : Z) : Prop :=
  exists lo hi, samples ≡ₚ lo ++ v :: hi /\ length lo = i /\
    Forall (fun x => x <= v) lo /\ Forall (fun x => v <= x) hi.

Lemma sorted_lookup l i v : StronglySorted Z.le l -> l !! i = Some v -> order_statistic l i v.
Proof.
  intros Hs Hv. exists (take i l), (drop (S i) l).
  pose proof (take_drop_middle _ _ _ Hv) as E. split; [by rewrite E|].
  split; [apply length_take_le; apply lookup_lt_Some in Hv; lia|].
  rewrite <- E in Hs. clear E. apply lookup_lt_Some in Hv. induction (take i l) as [|x lo IH] in Hs |- *.
  - cbn [app] in Hs. inversion Hs; subst. by split.
  - cbn [app] in Hs. inversion Hs as [|? ? Hs' Hx]; subst. destruct (IH Hs') as [H1 H2]. split; [|done].
    constructor; [|done]. rewrite Forall_forall in Hx. apply Hx, elem_of_app. right. by left.
Qed.

Lemma order_statistic_perm l l' i v : l ≡ₚ l' -> order_statistic l i v -> order_statistic l' i v.
Proof. intros E (lo & hi & H & ?). exists lo, hi. by rewrite <- E. Qed.

Lemma merge_sorted l : StronglySorted Z.le (merge_sort Z.le l).
Proof. apply StronglySorted_merge_sort; [intros ? ? ?; lia|intros x y; lia]. Qed.

Lemma percentile_us_sorted samples q a b :
  approximates q a b -> 0 < Z.of_nat (length samples) <= 2 ^ 40 ->
  let i := Z.to_nat (a * (Z.of_nat (length samples) - 1) / b) in
  (i < length samples)%nat /\ percentile_us samples q = merge_sort Z.le samples !! i.
Proof.
  intros Hq Hn. cbv zeta. destruct Hq as [[Ha Hb] Hm] eqn:EHq. clear EHq. split.
  - assert (a * (Z.of_nat (length samples) - 1) / b <= Z.of_nat (length samples) - 1)
      by (apply Z.div_le_upper_bound; nia). lia.
  - unfold percentile_us. destruct samples as [|x samples]; [cbn in Hn; lia|].
    rewrite (percentile_index_exact q a b) by (done || lia). done.
Qed.

(** C11: The percentiles are the exact order statistics.  The index is computed by
    truncating a rounded double product with a rounded literal, yet for any
    non-empty samples (up to 2^40 of them) and each quantile a/b the programs
    report it is the integer quotient of a * (n - 1) by b: the product never
    rounds across an integer.  The result is a sample with exactly that many
    samples before it in ascending order; it does not depend on the order the
    samples came in, and no index is ever out of range. *)
Theorem percentile_exact samples q a b :
  (q, a, b) ∈ reported -> 0 < Z.of_nat (length samples) <= 2 ^ 40 ->
  exists v, percentile_us samples q = Some v /\
    order_statistic samples (Z.to_nat (a * (Z.of_nat (length samples) - 1) / b)) v /\
    forall samples', samples' ≡ₚ samples -> percentile_us samples' q = Some v.
Proof.
  intros Hq%reported_approximates Hn. destruct (percentile_us_sorted samples q a b Hq Hn) as [Hi E].
  destruct (lookup_lt_is_Some_2 (merge_sort Z.le samples) (Z.to_nat (a * (Z.of_nat (length samples) - 1) / b)))
    as [v Hv]; [by rewrite merge_sort_Permutation|].
  exists v. rewrite E. split; [done|]. split.
  - eapply order_statistic_perm; [apply (merge_sort_Permutation Z.le)|]. apply sorted_lookup; [apply merge_sorted|done].
  - intros samples' Hp. pose proof (Permutation_length Hp) as Hl.
    destruct (percentile_us_sorted samples' q a b Hq) as [_ ->]; [by rewrite Hl|].
    rewrite Hl. replace (merge_sort Z.le samples') with (merge_sort Z.le samples); [done|].
    apply (StronglySorted_unique Z.le); [apply merge_sorted..|]. by rewrite !merge_sort_Permutation.
Qed.

Lemma sorted_mono l i j x y : StronglySorted Z.le l -> l !! i = Some x -> l !! j = Some y -> (i <= j)%nat -> x <= y.
Proof.
  intros Hs Hx Hy Hij. destruct (decide (i = j)) as [->|Hne]; [rewrite Hx in Hy; injection Hy; lia|].
  rewrite <- (take_drop_middle _ _ _ Hx) in Hs, Hy.
  pose proof (lookup_lt_Some _ _ _ Hx). rewrite lookup_app_r in Hy by (rewrite length_take_le; lia).
  rewrite length_take_le, lookup_cons_ne_0 in Hy by lia.
  apply StronglySorted_app_1_r in Hs. inversion Hs as [|? ? _ Hall]; subst. rewrite Forall_forall in Hall.
  by apply Hall, (list_elem_of_lookup_2 _ _ _ Hy).
Qed.

Lemma percentiles_mono samples q1 a1 b1 q2 a2 b2 : approximates q1 a1 b1 -> approximates q2 a2 b2 ->
  a1 * b2 <= a2 * b1 -> 0 < Z.of_nat (length samples) <= 2 ^ 40 ->
  exists v1 v2, percentile_us samples q1 = Some v1 /\ percentile_us samples q2 = Some v2 /\ v1 <= v2.
Proof.
  intros H1 H2 Hle Hn. set (N := Z.of_nat (length samples) - 1).
  destruct (percentile_us_sorted samples _ _ _ H1 Hn) as [Hi1 ->].
  destruct (percentile_us_sorted samples _ _ _ H2 Hn) as [Hi2 ->]. fold N in Hi1, Hi2 |- *.
  rewrite <- (Permutation_length (merge_sort_Permutation Z.le samples)) in Hi1, Hi2.
  destruct (lookup_lt_is_Some_2 _ _ Hi1) as [v1 E1], (lookup_lt_is_Some_2 _ _ Hi2) as [v2 E2].
  exists v1, v2. split; [done|]. split; [done|]. eapply sorted_mono; [apply merge_sorted|done..|].
  destruct H1 as [[Ha1 _] _], H2 as [[Ha2 _] _]. apply Z2Nat.inj_le; [apply Z.div_pos; nia..|].
  apply Z.div_le_lower_bound; [lia|]. pose proof (Z.mul_div_le (a1 * N) b1 ltac:(lia)).
  assert (b1 * (b2 * (a1 * N / b1)) <= b1 * (a2 * N)) by nia. nia.
Qed.

(** The reported percentiles never decrease from p50 to the maximum, which is the
    greatest sample. *)
Theorem percentiles_ordered samples : 0 < Z.of_nat (length samples) <= 2 ^ 40 ->
  exists v50 v99 v999 vmax, percentile_us samples p50 = Some v50 /\ percentile_us samples p99 = Some v99 /\
    percentile_us samples p999 = Some v999 /\ percentile_us samples p100 = Some vmax /\
    v50 <= v99 <= v999 /\ v999 <= vmax /\ vmax ∈ samples /\ forall x, x ∈ samples -> x <= vmax.
Proof.
  intros Hn. assert (Forall (fun t => approximates t.1.1 t.1.2 t.2) reported) as Hr.
  { apply Forall_forall. intros [[q a] b]. apply reported_approximates. }
  unfold reported in Hr. rewrite !Forall_cons in Hr. cbn [fst snd] in Hr. destruct Hr as (H50 & H99 & H999 & H100 & _).
  destruct (percentiles_mono samples _ _ _ _ _ _ H50 H99) as (v50 & v99 & E50 & E99 & L1); [lia|done|].
  destruct (percentiles_mono samples _ _ _ _ _ _ H99 H999) as (w99 & v999 & F99 & E999 & L2); [lia|done|].
  destruct (percentiles_mono samples _ _ _ _ _ _ H999 H100) as (w999 & vmax & F999 & E100 & L3); [lia|done|].
  destruct (percentile_us_sorted samples _ _ _ H100 Hn) as [_ Emax]. rewrite Emax in E100.
  apply (sorted_lookup _ _ _ (merge_sorted samples)) in E100 as Hos.
  eapply order_statistic_perm in Hos; [|apply (merge_sort_Permutation Z.le)].
  destruct Hos as (lo & hi & Hp & Hl & Hlo & _). simplify_eq.
  exists v50, v99, v999, vmax. rewrite Emax. split_and!; try done; rewrite ?Hp; [set_solver|].
  pose proof (Permutation_length Hp) as Hlen. rewrite length_app, Hl in Hlen. cbn [length] in Hlen.
  rewrite Z.mul_1_l, Z.div_1_r in Hlen. assert (hi = []) as -> by (apply length_zero_iff_nil; lia).
  intros x. rewrite Hp. intros [Hx| ->%list_elem_of_singleton]%elem_of_app; [|lia].
  rewrite Forall_forall in Hlo. by apply Hlo.
Qed.

(** ** Witnesses *)
Lemma percentile_exact_witness :
  (p99, 99, 100) ∈ reported /\ percentile_us [7; 3; 9; 3; 5] p99 = Some 7 /\
  order_statistic [7; 3; 9; 3; 5] 3 7.
Proof.
  assert ((p99, 99, 100) ∈ reported) as Hr by (right; left).
  destruct (percentile_exact [7; 3; 9; 3; 5] p99 99 100 Hr) as (v & E & Ho & _); [split; reflexivity || discriminate|].
  split; [exact Hr|]. assert (v = 7) as ->.
  { assert (percentile_us [7; 3; 9; 3; 5] p99 = Some 7) as E' by (vm_compute; reflexivity). congruence. }
  split; [exact E|exact Ho].
Defined.

Lemma percentiles_ordered_witness :
  exists v50 vmax, percentile_us [4; 1; 1] p50 = Some v50 /\ percentile_us [4; 1; 1] p100 = Some vmax /\
    v50 = 1 /\ vmax = 4.
Proof.
  destruct (percentiles_ordered [4; 1; 1]) as (v50 & v99 & v999 & vmax & E50 & _ & _ & E100 & _);
    [split; reflexivity || discriminate|].
  exists v50, vmax. split; [exact E50|]. split; [exact E100|].
  assert (percentile_us [4; 1; 1] p50 = Some 1) as E1 by (vm_compute; reflexivity).
  assert (percentile_us [4; 1; 1] p100 = Some 4) as E2 by (vm_compute; reflexivity).
  split; congruence.
Defined.
