(* ===== verification/OrderClient.v ===== *)
(** * OrderClient: the order client's request loop
    (apps/order_tcp/order_client.cpp)

    One iteration builds a request, asks the flow-control checks, sends the
    frame and tracks it for retransmission, waits for the answer while
    retransmitting what is due, and processes the acknowledgment.  The socket is
    the parameter [write_to] (as in OrderGateway) and the results of [read] are a
    script of events; clock readings and the random percentage are arguments.
    [req_obj] and [ack_buf] are the addresses of the iteration's local request
    and receive buffer, [req_pad] the request's padding bytes, [begin_key] the
    key at [unordered_map::begin]. *)
From stdpp Require Import sorting.
From S2P Require Import Prelude Bytes Memory Packet TcpProtocol TcpStateMachine.
From S2P Require Import MemoryPool TcpRetransmission TcpCongestion Messages.

(** The counters, by their name in the source. *)
Inductive counter : Type :=
  | req_sent_total | ack_recv_total | ack_timeout_total | reconnect_total | send_blocked_total
  | retransmit_total | retransmit_failed_total | retransmit_drop_total | new_total | cancel_total
  | replace_total | keepalive_sent_total | cwnd_blocked_total | congestion_loss_total.

#[export] Instance counter_eq_dec : EqDecision counter.
Proof. solve_decision. Defined.

Inductive ClientState : Type := CONNECTING | ACTIVE | RETRYING | STOPPED.

Record client := mkClient {
  conn : TcpConnection;
  pool : Pool.MemoryPool;
  order_id : Z;
  totals : counter -> Z;
  order_book_shadow : gmap Z OrderRequest;
  retrans_q : queue;
  rto_estimator : TcpRtoEstimator;
  cc : TcpCongestionController;
  outstanding_segments : gmap Z (list Z);
  g_running : bool;
  sent : list (Z * list Z);
}.

Definition with_conn (x : TcpConnection) (c : client) : client :=
  mkClient x c.(pool) c.(order_id) c.(totals) c.(order_book_shadow) c.(retrans_q) c.(rto_estimator)
    c.(cc) c.(outstanding_segments) c.(g_running) c.(sent).
Definition with_sent (p : Pool.MemoryPool) (fd : Z) (bs : list Z) (c : client) : client :=
  mkClient c.(conn) p c.(order_id) c.(totals) c.(order_book_shadow) c.(retrans_q) c.(rto_estimator)
    c.(cc) c.(outstanding_segments) c.(g_running) (c.(sent) ++ [(fd, bs)]).
Definition with_transport (q : queue) (w : TcpCongestionController) (out : gmap Z (list Z))
    (c : client) : client :=
  mkClient c.(conn) c.(pool) c.(order_id) c.(totals) c.(order_book_shadow) q c.(rto_estimator)
    w out c.(g_running) c.(sent).
Definition with_book (b : gmap Z OrderRequest) (e : TcpRtoEstimator) (c : client) : client :=
  mkClient c.(conn) c.(pool) c.(order_id) c.(totals) b c.(retrans_q) e
    c.(cc) c.(outstanding_segments) c.(g_running) c.(sent).
Definition add_total (k : counter) (n : Z) (c : client) : client :=
  mkClient c.(conn) c.(pool) c.(order_id)
    (fun k' => if decide (k' = k) then u64 (c.(totals) k' + n) else c.(totals) k')
    c.(order_book_shadow) c.(retrans_q) c.(rto_estimator) c.(cc) c.(outstanding_segments)
    c.(g_running) c.(sent).
Definition stop (c : client) : client :=
  mkClient c.(conn) c.(pool) c.(order_id) c.(totals) c.(order_book_shadow) c.(retrans_q)
    c.(rto_estimator) c.(cc) c.(outstanding_segments) false c.(sent).

Abbreviation bump k := (add_total k 1).

Definition kGatewayPort : Z := 9000.
Definition kClientPort : Z := 9101.
Definition kKeepaliveIntervalMs : Z := 1000.
Definition max_retransmissions : Z := 5.

(** The state the loop starts from. *)
Definition client_init (p : Pool.MemoryPool) : client :=
  mkClient
    (mkTcpConnection (htonl 2130706433) (htonl 2130706433) kClientPort kGatewayPort 1 1 0 0 CLOSED
       65535 65535 65535)
    p 1 (fun _ => 0) ∅ [] TcpRtoEstimator_new (TcpCongestionController_new 1200) ∅ true [].

Section Client.
Variable write_to : list (Z * list Z) -> Z -> list Z -> Z.
Variable req_obj ack_buf : ptr.
Variable req_pad : list Z.
Variable begin_key : gmap Z OrderRequest -> Z.

(** [allocate], build a frame in the block, [write_to], [deallocate]: what the
    write returned and the bytes of the frame. *)
Definition send_frame (fd : Z) (build : ptr -> M Packet) (c : client) : M (Z * list Z * client) :=
  r ← lift (Pool.allocate c.(pool));
  let '(buf, p) := r in
  packet ← build buf;
  bytes ← load packet.(data) (Z.to_nat packet.(len));
  let n := write_to c.(sent) fd bytes in
  p ← lift (Pool.deallocate packet.(data) p);
  mret (n, bytes, with_sent p fd bytes c).

(** Whether a keepalive was due and fully sent, which restarts the idle time. *)
Definition keepalive (fd now_ms last_activity_ms : Z) (c : client) : M (bool * client) :=
  if should_send_keepalive now_ms last_activity_ms kKeepaliveIntervalMs then
    r ← send_frame fd (create_keepalive c.(conn)) c;
    let '(n, bytes, c) := r in
    if n =? Z.of_nat (length bytes) then mret (true, bump keepalive_sent_total c)
    else mret (false, c)
  else mret (false, c).

(** The periodic reconnect; [new_fd] is what [connect_to_gateway] returns. *)
Definition reconnect (new_fd : Z) (c : client) : ClientState * client :=
  if new_fd <? 0 then (RETRYING, c) else
  (ACTIVE, with_transport c.(retrans_q) (TcpCongestionController_new 1200) c.(outstanding_segments)
             (bump reconnect_total c)).

(** The next request: a new order, or a cancel or replace of a live one. *)
Definition build_request (p cancel_ratio replace_ratio ts : Z) (c : client) : OrderRequest * client :=
  let next := u64 (c.(order_id) + 1) in
  let side := if next mod 2 =? 0 then Buy else Sell in
  let price := 100000 + next mod 100 in
  let live := negb (bool_decide (c.(order_book_shadow) = ∅)) in
  let '(action, target, price) :=
    if (p <=? cancel_ratio) && live then (Cancel, begin_key c.(order_book_shadow), price)
    else if (p <=? cancel_ratio + replace_ratio) && live
      then (Replace, begin_key c.(order_book_shadow), price + 1)
    else (New, 0, price) in
  (mkOrderRequest c.(order_id) target 10001 action side price 1 ts,
   mkClient c.(conn) c.(pool) next c.(totals) c.(order_book_shadow) c.(retrans_q) c.(rto_estimator)
     c.(cc) c.(outstanding_segments) c.(g_running) c.(sent)).

(** Flow control: the counter of the check that refuses, if one does. *)
Definition blocked_by (c : client) : option counter :=
  let inflight_bytes := u64 (Z.of_nat (base.size c.(outstanding_segments)) * Z.of_nat sizeof_OrderRequest) in
  let len := Z.of_nat sizeof_OrderRequest in
  if negb (TcpStateMachine.can_send c.(conn) len) then Some send_blocked_total
  else if negb (TcpCongestion.can_send c.(cc) inflight_bytes len c.(conn).(peer_window))
    then Some cwnd_blocked_total
  else None.

(** Sending the request and tracking it; a failed or partial write stops the
    client. *)
Definition transmit (fd : Z) (req : OrderRequest) (now_ms : Z) (c : client) : M client :=
  let len := Z.of_nat sizeof_OrderRequest in
  let seg_seq := c.(conn).(send_seq) in
  store req_obj (request_repr req_pad req) ;;
  r ← send_frame fd (create_data c.(conn) req_obj sizeof_OrderRequest) c;
  let '(n, wire_copy, c) := r in
  if negb (n =? Z.of_nat (length wire_copy)) then mret (stop c) else
  let c := bump req_sent_total c in
  let q := track_segment seg_seq len now_ms c.(rto_estimator).(rto_ms_) c.(retrans_q) in
  let c := with_transport q c.(cc) (<[seg_seq := wire_copy]> c.(outstanding_segments)) c in
  mret (with_conn (set_send_seq c.(conn) (u32 (c.(conn).(send_seq) + u32 len))) c).

(** Writing the due segments again. *)
Fixpoint retransmit (fd : Z) (due : queue) (c : client) : client :=
  match due with
  | [] => c
  | entry :: due =>
      match c.(outstanding_segments) !! entry.(seq_start) with
      | None => retransmit fd due c
      | Some seg =>
          let rw := write_to c.(sent) fd seg in
          let c := with_sent c.(pool) fd seg c in
          retransmit fd due
            (bump (if rw =? Z.of_nat (length seg) then retransmit_total else retransmit_failed_total) c)
      end
  end.

(** One tick of the wait loop: segments out of retries are forgotten, the due ones
    are sent again. *)
Definition on_tick (fd tick_ms : Z) (c : client) : client :=
  let '(due, q) := collect_due tick_ms c.(rto_estimator).(rto_ms_) max_retransmissions c.(retrans_q) in
  let out := filter (fun kv => contains kv.1 q = true) c.(outstanding_segments) in
  let c := add_total retransmit_drop_total
    (Z.of_nat (base.size c.(outstanding_segments)) - Z.of_nat (base.size out)) c in
  let c := with_transport q c.(cc) out c in
  match due with
  | [] => c
  | _ :: _ =>
      let c := with_transport c.(retrans_q) (on_loss c.(cc)) c.(outstanding_segments) c in
      retransmit fd due (bump congestion_loss_total c)
  end.

(** What [read] returns in one iteration of the wait loop: bytes, end of stream,
    an error, or nothing yet (with the clock then); or the loop test finds that a
    signal cleared [g_running]. *)
Inductive read_event : Type :=
  | ReadBytes (bs : list Z) | ReadClosed | ReadFailed | ReadAgain (tick_ms : Z) | Interrupted.

Inductive wait_outcome : Type := Received (bs : list Z) | Ended | StillWaiting.

Fixpoint wait_ack (fd : Z) (events : list read_event) (c : client) : wait_outcome * client :=
  match events with
  | [] => (StillWaiting, c)
  | ReadBytes bs :: _ => (Received bs, c)
  | ReadClosed :: _ => (Ended, stop c)
  | ReadFailed :: _ => (Ended, stop (bump ack_timeout_total c))
  | Interrupted :: _ => (Ended, stop c)
  | ReadAgain tick_ms :: events => wait_ack fd events (on_tick fd tick_ms c)
  end.

(** The shadow order book after an answered request. *)
Definition apply_answer (req : OrderRequest) (b : gmap Z OrderRequest) : gmap Z OrderRequest :=
  if req.(action) =? New then <[req.(client_order_id) := req]> b
  else if req.(action) =? Cancel then delete req.(target_order_id) b
  else alter (fun o => mkOrderRequest o.(client_order_id) o.(target_order_id) o.(instrument_id)
                o.(action) o.(side) req.(price) o.(quantity) o.(send_ts_ns)) req.(target_order_id) b.

Definition answered_total (req : OrderRequest) : counter :=
  if req.(action) =? New then new_total else if req.(action) =? Cancel then cancel_total
  else replace_total.

(** The frame read is an acknowledgment: what it covers is released, the window,
    the round-trip estimate and the order book are updated. *)
Definition accept_ack (req : OrderRequest) (header : TcpHeader) (rtt_us : Z) (c : client)
    : option client :=
  let x := set_recv_ack (on_window_update c.(conn) header.(window)) header.(ack_num) in
  let '(acked_segments, q) := ack_up_to header.(ack_num) c.(retrans_q) in
  w ← on_ack (u64 (Z.of_nat acked_segments * Z.of_nat sizeof_OrderRequest)) c.(cc);
  let out := filter (fun kv => header.(ack_num) < u32 (kv.1 + u32 (Z.of_nat sizeof_OrderRequest)))
               c.(outstanding_segments) in
  let e := sample_rtt (Z.max 1 (rtt_us / 1000)) c.(rto_estimator) in
  let c := bump ack_recv_total (with_transport q w out (with_conn x c)) in
  Some (bump (answered_total req) (with_book (apply_answer req c.(order_book_shadow)) e c)).

(** The bytes [read] left in the receive buffer. *)
Definition process_ack (req : OrderRequest) (bs : list Z) (rtt_us : Z) (c : client) : M client :=
  store ack_buf bs ;;
  r ← parse (Packet_new ack_buf (Z.of_nat (length bs)) 0) (mkParsed TcpHeader_zero nullptr 0);
  let '(ok, out) := r in
  let ack_header := out.(p_header) in
  if negb ok || is_malformed_header ack_header then mret (stop c) else
  if negb (has_ack ack_header) then mret (stop c) else
  lift (accept_ack req ack_header rtt_us c).

(** One iteration of the burst loop. *)
Definition iteration (fd p cancel_ratio replace_ratio ts now_ms : Z) (events : list read_event)
    (rtt_us : Z) (c : client) : M client :=
  let '(req, c) := build_request p cancel_ratio replace_ratio ts c in
  match blocked_by c with
  | Some k => mret (bump k c)
  | None =>
      c ← transmit fd req now_ms c;
      if negb c.(g_running) then mret c else
      match wait_ack fd events c with
      | (Received bs, c) => process_ack req bs rtt_us c
      | (_, c) => mret c
      end
  end.

(** The teardown: FIN, then at most four reads (each the bytes it returned). *)
Fixpoint close_loop (n : nat) (fd : Z) (reads : list (list Z)) (c : client) : M client :=
  match n, reads with
  | S n, bs :: reads =>
      store ack_buf bs ;;
      r ← parse (Packet_new ack_buf (Z.of_nat (length bs)) 0) (mkParsed TcpHeader_zero nullptr 0);
      let '(ok, out) := r in
      let close_h := out.(p_header) in
      if negb ok || is_malformed_header close_h then close_loop n fd reads c else
      let c := with_conn (snd (handle_incoming c.(conn) close_h out.(p_payload_len))) c in
      r ← (if has_fin close_h then
             send_frame fd (create_ack c.(conn) c.(conn).(send_ack)) c
           else mret (0, [], c));
      let '(_, _, c) := r in
      if bool_decide (c.(conn).(state) = TIME_WAIT) || bool_decide (c.(conn).(state) = CLOSED)
      then mret c else close_loop n fd reads c
  | _, _ => mret c
  end.

Definition teardown (fd : Z) (st : ClientState) (reads : list (list Z)) (c : client) : M client :=
  match (0 <=? fd), st with
  | true, ACTIVE =>
      let '(ok, x) := initiate_close c.(conn) in
      if ok then
        let c := with_conn x c in
        r ← send_frame fd (create_fin c.(conn)) c;
        let '(_, _, c) := r in
        close_loop 4 fd reads (with_conn (set_send_seq c.(conn) (u32 (c.(conn).(send_seq) + 1))) c)
      else mret c
  | _, _ => mret c
  end.

(** ** Retransmission while waiting *)

(** Everything of the client but its counters and what it has written. *)
Definition core (c : client) :=
  (c.(conn), c.(pool), c.(order_id), c.(order_book_shadow), c.(retrans_q), c.(rto_estimator),
   c.(cc), c.(outstanding_segments), c.(g_running)).

Lemma retransmit_core fd due c : core (retransmit fd due c) = core c.
Proof.
  revert c. induction due as [|e due IH]; intros c; [done|]. cbn [retransmit].
  destruct (outstanding_segments c !! _); [|apply IH]. by rewrite IH.
Qed.

Definition copies (c : client) (rs : list (list Z)) : Prop :=
  Forall (fun w => exists s, c.(outstanding_segments) !! s = Some w) rs.

Lemma retransmit_sent fd due c :
  exists rs, sent (retransmit fd due c) = c.(sent) ++ map (pair fd) rs /\
    (length rs <= length due)%nat /\ copies c rs.
Proof.
  revert c. induction due as [|e due IH]; intros c; cbn [retransmit].
  { exists []. rewrite app_nil_r. repeat split; [done|constructor]. }
  destruct (outstanding_segments c !! seq_start e) as [w|] eqn:E.
  - set (k := if _ =? _ then _ else _).
    destruct (IH (bump k (with_sent (pool c) fd w c))) as (rs & Es & Hl & Hf). exists (w :: rs).
    cbn [sent add_total with_sent] in Es. rewrite Es, <- app_assoc. cbn [map app length].
    repeat split; [lia|]. constructor; [by eexists|exact Hf].
  - destruct (IH c) as (rs & Es & Hl & Hf). exists rs. repeat split; [done|cbn; lia|done].
Qed.

(** One tick, apart from counters. *)
Lemma on_tick_spec fd t c :
  let r := collect_due t c.(rto_estimator).(rto_ms_) max_retransmissions c.(retrans_q) in
  let c' := on_tick fd t c in
  let out := filter (fun kv => contains kv.1 r.2 = true) c.(outstanding_segments) in
  core c' = (c.(conn), c.(pool), c.(order_id), c.(order_book_shadow), r.2, c.(rto_estimator),
             match r.1 with [] => c.(cc) | _ => on_loss c.(cc) end, out, c.(g_running)) /\
  exists rs, c'.(sent) = c.(sent) ++ map (pair fd) rs /\ (length rs <= length r.1)%nat /\ copies c rs.
Proof.
  cbv zeta. unfold on_tick. destruct (collect_due _ _ _ _) as [due q]. cbn [fst snd].
  set (out := filter _ _).
  assert (forall c0 rs, outstanding_segments c0 = out -> copies c0 rs -> copies c rs) as Hcop.
  { intros c0 rs E H. eapply Forall_impl; [exact H|]. intros w [s Hs]. exists s. rewrite E in Hs.
    by apply map_lookup_filter_Some in Hs as [? _]. }
  destruct due as [|e due].
  - split; [done|]. exists []. cbn [map]. rewrite app_nil_r. repeat split; [done|constructor].
  - set (c0 := bump congestion_loss_total _). split; [by rewrite retransmit_core|].
    destruct (retransmit_sent fd (e :: due) c0) as (rs & Es & Hl & Hf). exists rs.
    split; [exact Es|]. split; [done|]. by apply (Hcop c0).
Qed.

(** A request whose acknowledgment never comes. *)
Lemma wait_without_answer fd ticks c :
  Forall (fun e => in_width 32 e.(retries)) c.(retrans_q) ->
  exists c' rs, wait_ack fd (map ReadAgain ticks) c = (StillWaiting, c') /\
    c'.(sent) = c.(sent) ++ map (pair fd) rs /\
    Z.of_nat (length rs) <= budget max_retransmissions c.(retrans_q) /\
    copies c rs /\ c'.(g_running) = c.(g_running).
Proof.
  revert c. induction ticks as [|t ticks IH]; intros c Hr; cbn [map wait_ack].
  { exists c, []. cbn [map]. rewrite app_nil_r. repeat split; [|constructor].
    apply budget_nonneg. }
  destruct (on_tick_spec fd t c) as [Hcore (rs & Es & Hl & Hf)].
  destruct (collect_due _ _ _ _) as [due q] eqn:E in *. cbn [fst snd] in *.
  assert (in_width 32 max_retransmissions) as Hm by by vm_compute.
  destruct (collect_budget _ _ _ _ _ _ Hm Hr E) as [Hb Hr'].
  injection Hcore as _ _ _ _ Eq _ _ Eo Eg.
  destruct (IH (on_tick fd t c)) as (c' & rs' & Ew & Es' & Hb' & Hf' & Eg'); [by rewrite Eq|].
  exists c', (rs ++ rs'). rewrite Ew, Es', Es, map_app, <- app_assoc, length_app, Eg', Eg. rewrite Eq in Hb'.
  split; [done|]. split; [done|]. split; [lia|]. split; [|done]. apply Forall_app. split; [done|].
  eapply Forall_impl; [exact Hf'|]. intros w [s Hs]. exists s. rewrite Eo in Hs.
  by apply map_lookup_filter_Some in Hs as [? _].
Qed.

(** The wait for an acknowledgment has no timeout of its own.  As long as the
    socket has nothing to read, at whatever clock readings, the client keeps
    waiting and keeps running; what it writes meanwhile are byte-exact copies of
    outstanding segments, at most five for each tracked one, after which it waits
    in silence. *)
Theorem unanswered_request_waits fd ticks c :
  Forall (fun e => e.(retries) = 0) c.(retrans_q) -> c.(g_running) = true ->
  exists c' rs, wait_ack fd (map ReadAgain ticks) c = (StillWaiting, c') /\ c'.(g_running) = true /\
    c'.(sent) = c.(sent) ++ map (pair fd) rs /\
    Z.of_nat (length rs) <= 5 * Z.of_nat (length c.(retrans_q)) /\
    Forall (fun w => exists s, c.(outstanding_segments) !! s = Some w) rs.
Proof.
  intros Hz Hg. destruct (wait_without_answer fd ticks c) as (c' & rs & E & Es & Hb & Hf & Eg).
  { eapply Forall_impl; [exact Hz|]. intros e ->. by vm_compute. }
  exists c', rs. rewrite Eg. repeat split; try done.
  by rewrite budget_fresh in Hb.
Qed.

(** ** The two records of what is outstanding

    The client keeps an outstanding segment twice: its range in the
    retransmission queue and its frame in the map.  [tracked] says the two agree,
    for a stream that has not wrapped around 2^32. *)
Record tracked (c : client) : Prop := {
  tr_sorted : StronglySorted (fun a b => a.2 <= b.1) (ranges c.(retrans_q));
  tr_ranges : Forall (fun r => 0 <= r.1 /\ r.2 = r.1 + 40 /\ r.2 <= c.(conn).(send_seq))
                (ranges c.(retrans_q));
  tr_out : forall s, is_Some (c.(outstanding_segments) !! s) <-> s ∈ (ranges c.(retrans_q)).*1;
  tr_seq : in_width 32 c.(conn).(send_seq);
}.

Lemma tracked_in_order c : tracked c -> in_order c.(retrans_q).
Proof.
  intros [Hs Hr _ _]. unfold in_order. induction (retrans_q c) as [|e q IH]; [constructor|].
  cbn [ranges map] in Hs, Hr. fold (ranges q) in Hs, Hr. apply Forall_cons in Hr as [He Hr].
  inversion Hs as [|? ? Hs' Hall]; subst. constructor; [auto|].
  apply Forall_forall. intros x Hx. rewrite Forall_forall in Hall, Hr.
  assert ((seq_start x, seq_end x) ∈ ranges q) as Hin by (apply list_elem_of_fmap; eauto).
  specialize (Hall _ Hin). specialize (Hr _ Hin). cbn in *. lia.
Qed.

Lemma tick_tracked fd t c : tracked c -> tracked (on_tick fd t c).
Proof.
  intros [Hs Hr Ho Hq]. destruct (on_tick_spec fd t c) as [Hcore _].
  pose proof (collect_due_sublist t c.(rto_estimator).(rto_ms_) max_retransmissions c.(retrans_q)) as Hsub.
  injection Hcore as Ec _ _ _ Eq _ _ Eo _. split; rewrite ?Ec, ?Eq; try done.
  - by eapply StronglySorted_sublist.
  - by eapply Forall_sublist.
  - intros s. rewrite <- contains_iff, Eo. unfold is_Some. setoid_rewrite map_lookup_filter_Some.
    cbn [fst]. split; [by intros (w & _ & H)|]. intros Hc.
    destruct (proj2 (Ho s)) as [w Hw]; [|by exists w].
    apply contains_iff, list_elem_of_fmap in Hc as (r & -> & Hin). apply list_elem_of_fmap.
    exists r. split; [done|]. by eapply elem_of_sublist.
Qed.

Lemma wait_tracked fd events c r c' : wait_ack fd events c = (r, c') -> tracked c -> tracked c'.
Proof.
  revert c. induction events as [|[bs| | |t|] events IH]; intros c; cbn [wait_ack];
    [by intros [= _ <-] []..| |by intros [= _ <-] []].
  intros E Hc. by eapply IH, tick_tracked.
Qed.

(** A connection whose send sequence is the given one, with nothing tracked
    beyond it. *)
Lemma track_tracked c seg len now rto w x :
  tracked c -> seg = c.(conn).(send_seq) -> len = 40 -> seg + 40 < 2 ^ 32 ->
  x.(send_seq) = u32 (seg + u32 len) ->
  tracked (with_conn x (with_transport (track_segment seg len now rto c.(retrans_q)) c.(cc)
    (<[seg := w]> c.(outstanding_segments)) c)).
Proof.
  intros [Hs Hr Ho Hq] -> -> Hfit Ex. unfold in_width in *. unfold track_segment. change (u32 40) with 40 in *.
  rewrite (wrap_small 32 (_ + 40)) in * by (unfold in_width; lia).
  split; cbn [conn retrans_q outstanding_segments with_conn with_transport]; rewrite ?Ex;
    unfold ranges; rewrite ?map_app; fold (ranges (retrans_q c)); cbn [map seq_start seq_end].
  - apply StronglySorted_app_2; [|done|by repeat constructor].
    intros a b Ha ->%list_elem_of_singleton. rewrite Forall_forall in Hr. apply (Hr a Ha).
  - apply Forall_app. split; [|constructor; [cbn; lia|done]].
    eapply Forall_impl; [exact Hr|]. cbn. intros r (? & ? & ?). lia.
  - intros s. rewrite elem_of_app. cbn [fst]. rewrite list_elem_of_singleton.
    change (map fst (ranges (retrans_q c))) with ((ranges (retrans_q c)).*1). rewrite <- Ho. destruct (decide (s = send_seq (conn c))) as [->|].
    + rewrite lookup_insert_eq. split; [by right|by eexists].
    + rewrite lookup_insert_ne by done. split; [by left|by intros [?|?]].
  - unfold in_width. lia.
Qed.

Lemma send_frame_client fd build c m n bs c' m' :
  send_frame fd build c m = Some ((n, bs, c'), m') -> exists p, c' = with_sent p fd bs c.
Proof.
  unfold send_frame, mbind, M_bind, lift. destruct (Pool.allocate (pool c)) as [[buf p]|]; [|done].
  cbn [mbind option_bind]. destruct (build buf m) as [[pkt m1]|]; [|done].
  destruct (load _ _ m1) as [[bytes m2]|]; [|done].
  destruct (Pool.deallocate _ p) as [p'|]; [|done]. cbn [mbind option_bind]. intros [= _ <- <- _]. by eexists.
Qed.

(** What a transmission does to the state, the memory apart. *)
Lemma transmit_client fd req now c m c' m' :
  transmit fd req now c m = Some (c', m') ->
  exists p w, let c1 := with_sent p fd w c in
    c' = stop c1 \/
    c' = with_conn (set_send_seq c.(conn) (u32 (c.(conn).(send_seq) + u32 40)))
           (with_transport (track_segment c.(conn).(send_seq) 40 now c.(rto_estimator).(rto_ms_)
              c.(retrans_q)) c.(cc) (<[c.(conn).(send_seq) := w]> c.(outstanding_segments))
              (bump req_sent_total c1)).
Proof.
  unfold transmit, mbind, M_bind. destruct (store _ _ m) as [[_ m1]|]; [|done].
  destruct (send_frame _ _ _ m1) as [[[[n w] c1] m2]|] eqn:E; [|done].
  apply send_frame_client in E as [p ->]. intros H. exists p, w. cbv zeta. revert H.
  destruct (negb _); intros [= <- _]; [by left|by right].
Qed.

Lemma transmit_tracked fd req now c m c' m' :
  transmit fd req now c m = Some (c', m') -> tracked c -> c.(conn).(send_seq) + 40 < 2 ^ 32 -> tracked c'.
Proof.
  intros E Ht Hfit. destruct (transmit_client _ _ _ _ _ _ _ E) as (p & w & [->| ->]); [by destruct Ht|].
  apply (track_tracked (bump req_sent_total (with_sent p fd w c)) (send_seq (conn c)) 40 now _ w
    (set_send_seq (conn c) _)); try done. by destruct Ht.
Qed.

Lemma ack_tracked req h rtt c c' : accept_ack req h rtt c = Some c' -> tracked c -> tracked c'.
Proof.
  intros E Ht. pose proof (tracked_in_order c Ht) as Hord. destruct Ht as [Hs Hr Ho Hq].
  unfold accept_ack in E. pose proof (ack_up_to_suffix (ack_num h) (retrans_q c)) as [k Hk].
  rewrite (ack_up_to_filter _ _ Hord) in E, Hk. cbn [snd] in Hk.
  set (q := filter _ (retrans_q c)) in *. set (out := filter _ (outstanding_segments c)) in *.
  destruct (on_ack _ _) as [w|]; [|done]. cbn [mbind option_bind] in E. injection E as <-.
  assert (ranges q `sublist_of` ranges (retrans_q c)) as Hsub.
  { rewrite Hk. unfold ranges. rewrite map_app. by apply sublist_inserts_l. }
  split; cbn [conn retrans_q outstanding_segments add_total with_book with_transport with_conn
    set_recv_ack on_window_update send_seq]; [by eapply StronglySorted_sublist|by eapply Forall_sublist| |done].
  intros s. unfold is_Some, out. setoid_rewrite map_lookup_filter_Some. cbn [fst].
  rewrite Forall_forall in Hr. rewrite list_elem_of_fmap. unfold q, ranges.
  setoid_rewrite list_elem_of_fmap. setoid_rewrite list_elem_of_filter. split.
  - intros (wc & Hw & Ha). assert (s ∈ (ranges (retrans_q c)).*1) as Hin by (apply Ho; by eexists).
    apply list_elem_of_fmap in Hin as (r & -> & Hin). pose proof (Hr r Hin) as (? & ? & ?).
    apply list_elem_of_fmap in Hin as (e & -> & Hin). cbn in *. unfold in_width in *.
    exists (seq_start e, seq_end e). split; [done|]. exists e. split; [done|]. split; [|done].
    change (u32 (Z.of_nat sizeof_OrderRequest)) with 40 in Ha.
    rewrite wrap_small in Ha by (unfold in_width; lia). lia.
  - intros (r & -> & e & -> & Ha & Hin). cbn [fst].
    assert ((seq_start e, seq_end e) ∈ ranges (retrans_q c)) as Hin' by (apply list_elem_of_fmap; eauto).
    destruct (proj2 (Ho (seq_start e))) as [wc Hw]; [apply list_elem_of_fmap; by eexists (_, _)|].
    exists wc. split; [done|]. destruct (Hr _ Hin') as (? & ? & ?). cbn in *. unfold in_width in *.
    change (u32 (Z.of_nat sizeof_OrderRequest)) with 40.
    rewrite wrap_small by (unfold in_width; lia). lia.
Qed.

(** ** Runs of the client *)

(** What the loop does between two points where it tests [g_running]. *)
Inductive client_step : client -> client -> Prop :=
  | cs_keepalive fd now_ms last_ms c m b c' m' :
      keepalive fd now_ms last_ms c m = Some ((b, c'), m') -> client_step c c'
  | cs_reconnect new_fd c : client_step c (snd (reconnect new_fd c))
  | cs_iteration fd p cancel_ratio replace_ratio ts now_ms events rtt_us c m c' m' :
      iteration fd p cancel_ratio replace_ratio ts now_ms events rtt_us c m = Some (c', m') ->
      client_step c c'.

(** Properties of what the loop's pieces read and write: a property that none of
    them can break is an invariant of the loop. *)
Section Invariant.
Variable P : client -> Prop.
Variable bound : Z -> Prop.
Hypothesis P_send : forall p fd w c, P c -> P (with_sent p fd w c).
Hypothesis P_total : forall k n c, P c -> P (add_total k n c).
Hypothesis P_stop : forall c, P c -> P (stop c).
Hypothesis P_request : forall p a b ts c, P c -> P (snd (build_request p a b ts c)).
Hypothesis P_reset : forall c w, P c -> P (with_transport c.(retrans_q) w c.(outstanding_segments) c).
Hypothesis P_transmit : forall fd req now c m c' m',
  transmit fd req now c m = Some (c', m') -> P c -> bound c.(conn).(send_seq) -> P c'.
Hypothesis P_tick : forall fd t c, P c -> P (on_tick fd t c).
Hypothesis P_ack : forall req h rtt c c', accept_ack req h rtt c = Some c' -> P c -> P c'.

Lemma wait_keeps fd events c : P c -> P (snd (wait_ack fd events c)).
Proof using P_stop P_total P_tick.
  revert c. induction events as [|[bs| | |t|] events IH]; intros c Hc; cbn [wait_ack snd]; auto.
Qed.

Lemma process_ack_keeps req bs rtt c m c' m' :
  process_ack req bs rtt c m = Some (c', m') -> P c -> P c'.
Proof using P_stop P_ack.
  unfold process_ack, mbind, M_bind. destruct (store _ _ m) as [[_ m1]|]; [|done].
  destruct (parse _ _ m1) as [[[ok out] m2]|]; [|done].
  destruct (_ || _); [intros [= <- _]; auto|]. destruct (negb _); [intros [= <- _]; auto|].
  unfold lift. destruct (accept_ack _ _ _ _) as [c1|] eqn:E; [|done]. cbn [mbind option_bind].
  intros [= <- _]. by eapply P_ack.
Qed.

Lemma step_keeps c c' : client_step c c' -> bound c.(conn).(send_seq) -> P c -> P c'.
Proof using All.
  intros [fd now last x m b x' m' E|fd x|fd p a b ts now events rtt x m x' m' E] Hfit Hx.
  - unfold keepalive, mbind, M_bind in E. destruct (should_send_keepalive _ _ _); [|by injection E as <- <-].
    destruct (send_frame _ _ _ m) as [[[[n w] c1] m1]|] eqn:Es; [|done].
    apply send_frame_client in Es as [p ->]. destruct (n =? _); injection E as _ <- _; auto.
  - unfold reconnect. destruct (fd <? 0); cbn [snd]; [done|].
    apply (P_reset (bump reconnect_total x)). auto.
  - unfold iteration, mbind, M_bind in E.
    assert (send_seq (conn (snd (build_request p a b ts x))) = send_seq (conn x)) as Eq.
    { unfold build_request. by destruct (if _ && _ then _ else _) as [[? ?] ?]. }
    destruct (build_request p a b ts x) as [req c1] eqn:Er.
    assert (P c1) as H1 by (change c1 with (snd (req, c1)); rewrite <- Er; auto). cbn [snd] in Eq.
    destruct (blocked_by c1); [injection E as <- _; auto|].
    destruct (transmit fd req now c1 m) as [[c2 m2]|] eqn:Et; [|done].
    assert (P c2) as H2 by (eapply P_transmit; [exact Et|done|by rewrite Eq]).
    destruct (negb (g_running c2)); [by injection E as <- _|].
    pose proof (wait_keeps fd events c2 H2) as H3.
    destruct (wait_ack fd events c2) as [[bs| |] c3]; cbn [snd] in H3;
      [by eapply process_ack_keeps|by injection E as <- _..].
Qed.
End Invariant.

(** Runs in which the send sequence does not reach 2^32. *)
Definition unwrapped_step (c c' : client) : Prop :=
  client_step c c' /\ c.(conn).(send_seq) + 40 < 2 ^ 32.

Lemma request_fields p a b ts c :
  let c' := snd (build_request p a b ts c) in
  c'.(conn) = c.(conn) /\ c'.(retrans_q) = c.(retrans_q) /\
  c'.(outstanding_segments) = c.(outstanding_segments).
Proof. unfold build_request. by destruct (if _ && _ then _ else _) as [[? ?] ?]. Qed.

Lemma init_tracked p : tracked (client_init p).
Proof.
  split; cbn [client_init retrans_q outstanding_segments conn send_seq ranges map];
    [constructor|constructor| |unfold in_width; lia].
  intros s. rewrite lookup_empty. split; [by intros []|by intros ?%elem_of_nil].
Qed.

Lemma run_tracked p c : rtc unwrapped_step (client_init p) c -> tracked c.
Proof.
  assert (forall c0, rtc unwrapped_step c0 c -> tracked c0 -> tracked c) as H; [|intros Hr; by eapply H, init_tracked].
  intros c0. induction 1 as [|x y z [Hs Hfit] _ IH]; [done|]. intros Hx. apply IH.
  eapply (step_keeps tracked (fun seq => seq + 40 < 2 ^ 32)); [..|exact Hs|exact Hfit|exact Hx]; clear.
  1-3,5: by intros; match goal with H : tracked _ |- _ => destruct H; by split end.
  - intros p a b ts c [H1 H2 H3 H4]. destruct (request_fields p a b ts c) as (E1 & E2 & E3).
    split; rewrite ?E1, ?E2, ?E3; done.
  - apply transmit_tracked.
  - apply tick_tracked.
  - apply ack_tracked.
Qed.

(** C21: The client's two records of outstanding segments always agree.  In every
    run from the initial state in which the sequence has not wrapped, a segment
    is in [outstanding_segments] exactly when the retransmission queue tracks it,
    the tracked segments are consecutive disjoint 40-byte ranges below the send
    sequence, and any acknowledgment releases the same segments from both. *)
Theorem client_records_agree p c :
  rtc unwrapped_step (client_init p) c ->
  (forall s, is_Some (c.(outstanding_segments) !! s) <-> contains s c.(retrans_q) = true) /\
  StronglySorted (fun a b => a.2 <= b.1) (ranges c.(retrans_q)) /\
  Forall (fun r => 0 <= r.1 /\ r.2 = r.1 + 40 /\ r.2 <= c.(conn).(send_seq)) (ranges c.(retrans_q)) /\
  (forall req h rtt c', accept_ack req h rtt c = Some c' ->
     forall s, is_Some (c'.(outstanding_segments) !! s) <-> contains s c'.(retrans_q) = true).
Proof.
  intros Hr. pose proof (run_tracked p c Hr) as Ht.
  assert (forall x, tracked x -> forall s,
    is_Some (x.(outstanding_segments) !! s) <-> contains s x.(retrans_q) = true) as Hagree.
  { intros x [_ _ Ho _] s. by rewrite contains_iff, Ho. }
  split; [by apply Hagree|]. destruct Ht. split; [done|]. split; [done|].
  intros req h rtt c' E. by apply Hagree, (ack_tracked _ _ _ _ _ E).
Qed.

Lemma closed_ack req h rtt c c' :
  accept_ack req h rtt c = Some c' -> c.(conn).(state) = CLOSED -> c'.(conn).(state) = CLOSED.
Proof.
  unfold accept_ack. destruct (ack_up_to _ _) as [n q]. destruct (on_ack _ _) as [w|]; [|done].
  cbn [mbind option_bind]. intros [= <-] E. exact E.
Qed.

(** No step opens the connection, nor does a signal. *)
Lemma step_closed c c' : client_step c c' -> c.(conn).(state) = CLOSED -> c'.(conn).(state) = CLOSED.
Proof.
  intros Hs. apply (step_keeps (fun c => c.(conn).(state) = CLOSED) (fun _ => True)); [..|exact Hs|done]; try done.
  - intros p a b ts x. by destruct (request_fields p a b ts x) as (-> & _).
  - intros fd req now x m x' m' (p & w & [->| ->])%transmit_client Hx _; exact Hx.
  - intros fd t x. destruct (on_tick_spec fd t x) as [H _]. by injection H as -> _.
  - apply closed_ack.
Qed.

Lemma teardown_closed c fd st reads m :
  c.(conn).(state) = CLOSED -> teardown fd st reads c m = Some (c, m).
Proof.
  intros E. unfold teardown. destruct (0 <=? fd), st; try done.
  unfold initiate_close. rewrite E. by rewrite !bool_decide_eq_false_2.
Qed.

(** The client's FIN teardown never runs: the client connects without moving
    its connection out of CLOSED, so after any run, whatever the state, the
    descriptor and what could be read, the teardown writes nothing and changes
    nothing. *)
Theorem teardown_never_sends p c fd st reads m :
  rtc client_step (client_init p) c ->
  c.(conn).(state) = CLOSED /\ teardown fd st reads c m = Some (c, m).
Proof.
  intros Hr. assert (c.(conn).(state) = CLOSED) as E; [|split; [done|by apply teardown_closed]].
  cut (forall c0, rtc client_step c0 c -> c0.(conn).(state) = CLOSED -> c.(conn).(state) = CLOSED);
    [intros H; by apply (H _ Hr)|].
  clear Hr. intros c0. induction 1 as [|x y z Hs _ IH]; [done|]. intros Hx. by apply IH, (step_closed x).
Qed.
End Client.

(** ** Witnesses *)
Definition demo_pool : Pool.MemoryPool := Pool.mkMemoryPool 76 2 4000 152 [1; SIZE_MAX] 0.

(** A client with one 60-byte segment outstanding since time 0. *)
Definition demo_client : client :=
  with_transport [mkEntry 1 41 300 0] (TcpCongestionController_new 1200) {[1 := replicate 60 7]}
    (client_init demo_pool).

Definition demo_send (w : list (Z * list Z)) (fd : Z) (bs : list Z) : Z := Z.of_nat (length bs).

Lemma unanswered_request_waits_witness :
  exists c' rs, wait_ack demo_send 4 (map ReadAgain [100; 300; 900; 2000; 10000; 20000; 50000; 90000]) demo_client =
      (StillWaiting, c') /\ c'.(g_running) = true /\ c'.(sent) = map (pair 4) rs /\
    Z.of_nat (length rs) <= 5 /\
    Forall (fun w => exists s, demo_client.(outstanding_segments) !! s = Some w) rs.
Proof.
  destruct (unanswered_request_waits demo_send 4 [100; 300; 900; 2000; 10000; 20000; 50000; 90000] demo_client)
    as (c' & rs & E & Eg & Es & Hl & Hf).
  - by repeat constructor.
  - reflexivity.
  - exists c', rs. split; [exact E|]. split; [exact Eg|]. split; [exact Es|]. split; [exact Hl|exact Hf].
Defined.

(** A run of one step, a reconnect. *)
Definition demo_reconnected : client := snd (reconnect 9 (client_init demo_pool)).

Lemma demo_run :
  rtc (unwrapped_step demo_send 5000 6000 [0; 0] (fun _ => 0)) (client_init demo_pool) demo_reconnected.
Proof. apply rtc_once. split; [constructor|reflexivity]. Qed.

(** One more step: an order is sent and nothing is read yet. *)
Definition demo_sending : option (client * mem) :=
  iteration demo_send 5000 6000 [0; 0] (fun _ => 0) 9 100 0 0 7 20 [] 0 demo_reconnected
    (alloc (alloc ∅ 4000 (replicate 152 0)) 5000 (replicate 40 0)).
Definition demo_waiting : client := from_option fst demo_reconnected demo_sending.

Lemma demo_longer_run :
  rtc (unwrapped_step demo_send 5000 6000 [0; 0] (fun _ => 0)) (client_init demo_pool) demo_waiting.
Proof.
  eapply rtc_r; [apply demo_run|]. split; [|vm_compute; reflexivity]. unfold demo_waiting.
  assert (match demo_sending with Some _ => true | None => false end = true) as H by (vm_compute; reflexivity).
  destruct demo_sending as [[c m]|] eqn:E; [|discriminate]. eapply cs_iteration. exact E.
Qed.

Lemma client_records_agree_witness :
  map seq_start demo_waiting.(retrans_q) = [1] /\ is_Some (demo_waiting.(outstanding_segments) !! 1) /\
  (is_Some (demo_waiting.(outstanding_segments) !! 1) <-> contains 1 demo_waiting.(retrans_q) = true).
Proof.
  split; [vm_compute; reflexivity|]. split; [vm_compute; eexists; reflexivity|].
  apply (client_records_agree demo_send 5000 6000 [0; 0] (fun _ => 0) demo_pool demo_waiting demo_longer_run).
Defined.

Lemma teardown_never_sends_witness :
  demo_reconnected.(conn).(state) = CLOSED /\
  teardown demo_send 6000 9 ACTIVE [replicate 20 0] demo_reconnected ∅ = Some (demo_reconnected, ∅).
Proof.
  apply (teardown_never_sends demo_send 5000 6000 [0; 0] (fun _ => 0) demo_pool).
  apply rtc_once. constructor.
Defined.
