(* ===== verification/OrderExchange.v ===== *)
(** * OrderExchange: the client and the gateway together

    One turn of the order protocol over a connection that delivers what is
    written: the client's iteration (OrderClient) sends a request, the gateway
    (OrderGateway) processes the packet and writes its answer, the client's
    iteration reads it.  Each process has its own memory. *)
From S2P Require Import Prelude Bytes Memory Packet TcpProtocol TcpStateMachine Allocator MemoryPool TcpReassembly.
From S2P Require Import TcpRetransmission TcpCongestion Messages OrderReceiver OrderGateway OrderStream OrderClient.

Section Exchange.
(** The client's environment. *)
Variable client_write : list (Z * list Z) -> Z -> list Z -> Z.
Variable req_obj ack_buf client_block : ptr.
Variable req_pad : list Z.
Variable begin_key : gmap Z OrderRequest -> Z.
Hypothesis client_writes : forall w fd bs, client_write w fd bs = Z.of_nat (length bs).
Hypothesis req_pad_ok : length req_pad = 2%nat /\ bytes req_pad.
Hypothesis begin_key_in : forall b, b <> ∅ -> is_Some (b !! begin_key b).
Hypothesis client_apart : (client_block + 60 <= req_obj \/ req_obj + 40 <= client_block).
(** The gateway's. *)
Variable gateway_write : list (Z * list Z) -> Z -> list Z -> Z.
Variable ack_obj block rx : ptr.
Variable ack_pad : list Z.
Variable backpressure_threshold ring_size : Z.
Hypothesis gateway_writes : forall w fd bs, gateway_write w fd bs = Z.of_nat (length bs).
Hypothesis ack_pad_ok : length ack_pad = 7%nat /\ bytes ack_pad.
Hypothesis gateway_apart : (block + 44 <= ack_obj \/ ack_obj + 24 <= block) /\
  (block + 44 <= rx \/ rx + Z.of_nat 60 <= block) /\
  (ack_obj + 24 <= rx \/ rx + Z.of_nat 60 <= ack_obj).

Abbreviation client_transmit := (OrderClient.transmit client_write req_obj req_pad).
Abbreviation client_iteration := (OrderClient.iteration client_write req_obj ack_buf req_pad begin_key).
Abbreviation gateway_packet := (process_packet gateway_write ack_obj ack_pad backpressure_threshold ring_size).
Abbreviation gateway_effect := (serve gateway_write ack_pad backpressure_threshold ring_size).

(** The inputs of a turn: the random percentage and the clock readings. *)
Record turn := mkTurn { percent : Z; ts : Z; now_ms : Z; rtt_us : Z }.

Variable cancel_ratio replace_ratio : Z.
Variable client_fd gateway_fd : Z.

Record system := mkSystem { cl : client; cl_mem : mem; gw : gateway; gw_mem : mem }.

Definition exchange (t : turn) (s : system) : option system :=
  let '(req, c) := build_request begin_key t.(percent) cancel_ratio replace_ratio t.(ts) s.(cl) in
  '(c, _) ← client_transmit client_fd req t.(now_ms) c s.(cl_mem);
  '(_, frame) ← last c.(sent);
  '(g, mg) ← (store rx frame ;;
    gateway_packet false gateway_fd (Packet_new rx (Z.of_nat (length frame)) 0) s.(gw)) s.(gw_mem);
  '(_, ack) ← last g.(orders).(written);
  '(c, mc) ← client_iteration client_fd t.(percent) cancel_ratio replace_ratio t.(ts) t.(now_ms)
    [ReadBytes ack] t.(rtt_us) s.(cl) s.(cl_mem);
  Some (mkSystem c mc g mg).

Definition run_exchanges (turns : list turn) (s : system) : option system :=
  foldl (fun s t => s ≫= exchange t) (Some s) turns.

(** Between two turns: nothing outstanding, sequence numbers and order books
    agree. *)
Record client_idle (c : client) (m : mem) : Prop := {
  id_conn : conn_ok c.(conn);
  id_window : 40 <= c.(conn).(peer_window);
  id_cc : cong_inv c.(cc) /\ 40 <= c.(cc).(mss_bytes_);
  id_queue : c.(retrans_q) = [] /\ c.(outstanding_segments) = ∅;
  id_order : in_width 64 c.(order_id);
  id_book : map_Forall (fun k _ => in_width 64 k) c.(order_book_shadow);
  id_running : c.(g_running) = true;
  id_pool : exists p, Pool.allocate c.(pool) = Some (client_block, p) /\
              Pool.deallocate client_block p = Some c.(pool);
  id_block : valid m client_block 60;
  id_req : valid m req_obj 40;
  id_ack : valid m ack_buf 256;
}.

Record synced (s : system) : Prop := {
  sy_idle : client_idle s.(cl) s.(cl_mem);
  sy_ctx : exists ctx, s.(gw).(conn_ctx) !! gateway_fd = Some ctx /\
    ctx.(reassembly) = TcpReassemblyBuffer_new /\
    ctx.(tcp).(recv_seq) = s.(cl).(conn).(send_seq) /\ 256 <= ctx.(tcp).(window_size) /\
    ready ack_obj block rx 60 (s.(gw).(orders), ctx.(tcp)) s.(gw_mem);
  sy_book : dom s.(cl).(order_book_shadow) = s.(gw).(orders).(live_orders);
}.

(** ** The request *)
Lemma request_next p a b ts c m :
  in_width 64 ts -> client_idle c m ->
  exists req c1, build_request begin_key p a b ts c = (req, c1) /\ request_ok req /\ client_idle c1 m /\
    c1.(conn) = c.(conn) /\ c1.(order_book_shadow) = c.(order_book_shadow) /\ c1.(sent) = c.(sent) /\
    (req.(action) = New \/
     (req.(action) = Cancel \/ req.(action) = Replace) /\
       is_Some (c.(order_book_shadow) !! req.(target_order_id))).
Proof.
  intros Hts [Hc Hw Hcc Hq Ho Hb Hr Hp H1 H2 H3]. unfold build_request.
  assert (in_width 64 (u64 (order_id c + 1))) as Hnext by (apply wrap_range; lia).
  pose proof (Z.mod_pos_bound (u64 (order_id c + 1)) 100 ltac:(lia)) as Hm.
  set (next := u64 (order_id c + 1)) in *.
  assert (in_width 8 (if next mod 2 =? 0 then Buy else Sell)) as Hside by (by destruct (_ =? _)).
  set (live := negb _). assert (live = true -> is_Some (order_book_shadow c !! begin_key (order_book_shadow c))) as Hlive.
  { unfold live. rewrite negb_true_iff, bool_decide_eq_false. apply begin_key_in. }
  assert (live = true -> in_width 64 (begin_key (order_book_shadow c))) as Hkey.
  { intros E. destruct (Hlive E) as [o Hl]. exact (Hb _ _ Hl). }
  destruct ((p <=? a) && live) eqn:E1; [|destruct ((p <=? a + b) && live) eqn:E2];
    (eexists _, _; split; [reflexivity|]);
    try apply andb_true_iff in E1 as [_ E1]; try apply andb_true_iff in E2 as [_ E2];
    (split; [split; cbn [client_order_id target_order_id instrument_id action side price quantity send_ts_ns];
       first [done|by apply Hkey|unfold in_width; lia]|]);
    (split; [by split|]); split_and!; try done; cbn [action target_order_id]; auto 6.
Qed.

(** What a request does to the client's book and to the gateway's set. *)
Lemma books_agree req book :
  (req.(action) = New \/
   (req.(action) = Cancel \/ req.(action) = Replace) /\ is_Some (book !! req.(target_order_id))) ->
  apply_action req (dom book) = (true, dom (apply_answer req book)).
Proof.
  unfold apply_action, apply_answer. intros [E|[[E|E] Hin]]; rewrite E; cbn.
  - f_equal. by rewrite dom_insert_L.
  - rewrite bool_decide_eq_true_2 by by apply elem_of_dom. f_equal. by rewrite dom_delete_L.
  - rewrite bool_decide_eq_true_2 by by apply elem_of_dom. f_equal. by rewrite dom_alter_L.
Qed.

Lemma book_widths req book :
  in_width 64 req.(client_order_id) ->
  map_Forall (fun k (_ : OrderRequest) => in_width 64 k) book ->
  map_Forall (fun k (_ : OrderRequest) => in_width 64 k) (apply_answer req book).
Proof.
  intros Hid Hb. unfold apply_answer. destruct (_ =? New); [by apply map_Forall_insert_2|].
  destruct (_ =? Cancel); [by apply map_Forall_delete|].
  intros k o. destruct (decide (k = target_order_id req)) as [->|].
  - rewrite lookup_alter_eq. intros (o' & Hl & _)%fmap_Some. exact (Hb _ _ Hl).
  - rewrite lookup_alter_ne by done. apply Hb.
Qed.

Lemma request_payload_repr req :
  let payload := request_repr req_pad req in
  length payload = 40%nat /\ bytes payload.
Proof.
  split; [by apply length_request_repr, req_pad_ok|].
  unfold request_repr. repeat apply Forall_app_2; auto using le_bytes_bytes. apply req_pad_ok.
Qed.

(** ** The client's half *)
Definition request_frame (c : client) (req : OrderRequest) : list Z :=
  frame_wire (client_frame rx c.(conn) c.(conn).(send_seq) (request_repr req_pad req)).

Definition transmitted (req : OrderRequest) (now : Z) (c : client) : client :=
  let seg := c.(conn).(send_seq) in
  with_conn (set_send_seq c.(conn) (u32 (seg + 40)))
    (with_transport (track_segment seg 40 now c.(rto_estimator).(rto_ms_) c.(retrans_q)) c.(cc)
       (<[seg := request_frame c req]> c.(outstanding_segments))
       (bump req_sent_total (with_sent c.(pool) client_fd (request_frame c req) c))).

Lemma transmit_run req now c m :
  client_idle c m ->
  exists m', client_transmit client_fd req now c m = Some (transmitted req now c, m') /\
    (forall a, is_Some (m' !! a) <-> is_Some (m !! a)).
Proof.
  intros [Hc _ _ _ _ _ _ (p & Ea & Ed) Hb Hr _]. destruct (request_payload_repr req) as [Hl Hby].
  set (payload := request_repr req_pad req) in *.
  destruct (store_prefix m req_obj 40 payload Hr) as (m1 & E1 & Hread & _ & D1); [lia|]. rewrite Hl in Hread.
  assert (valid m1 client_block 60) as Hb1 by by eapply valid_dom.
  destruct (create_data_fills c.(conn) req_obj 40 m1 client_block payload Hc Hb1 Hread Hby)
    as (m2 & E2 & F2 & _ & D2); [lia|lia|].
  assert (request_frame c req = wire (conn_header c.(conn) c.(conn).(send_seq) c.(conn).(recv_seq) 24)
    payload c.(conn).(local_ip) c.(conn).(remote_ip)) as Ef by (unfold request_frame; by destruct (conn c)).
  rewrite <- Ef in F2. pose proof (read_bytes_length _ _ _ _ F2) as Hlf.
  exists m2. split; [|intros x; by rewrite D2, D1].
  unfold OrderClient.transmit. fold payload. eapply bind_run; [exact E1|].
  eapply (bind_run _ _ _ (60, request_frame c req, with_sent c.(pool) client_fd (request_frame c req) c)).
  { unfold OrderClient.send_frame. eapply bind_run; [unfold lift; by rewrite Ea|]. cbv beta iota.
    eapply bind_run; [exact E2|]. eapply bind_run; [apply load_run, F2|]. cbv beta zeta.
    eapply bind_run; [unfold lift; cbn [data Packet_new]; by rewrite Ed|].
    rewrite client_writes, Hlf. reflexivity. }
  cbv beta iota. rewrite Hlf. reflexivity.
Qed.

(** The answer as the client reads it: an acknowledgment of everything sent. *)
Lemma process_ack_run req c m x a rtt :
  conn_ok x -> valid m ack_buf 256 -> in_width 64 a.(ack_client_order_id) ->
  exists h m', has_ack h = true /\ ack_num h = x.(recv_seq) /\
    256 * (x.(window_size) / 256) <= h.(window) < 2 ^ 16 /\
    (forall y, is_Some (m' !! y) <-> is_Some (m !! y)) /\
    process_ack ack_buf req (ack_frame ack_pad x a) rtt c m = lift (accept_ack req h rtt c) m'.
Proof.
  intros Hx Hv _. set (f := FData x rx (ack_repr ack_pad a)).
  assert (length (ack_repr ack_pad a) = 24%nat) as Hl by (apply length_ack_repr, ack_pad_ok).
  assert (bytes (ack_repr ack_pad a)) as Hby by (by apply ack_repr_bytes).
  assert (plain_header (frame_header f)) as Hf.
  { apply conn_header_plain; [done|apply Hx|apply Hx|unfold in_width; simpl; lia]. }
  assert (length (frame_wire f) = 44%nat) as Hlf.
  { unfold frame_wire. rewrite length_wire. cbn [frame_payload f]. by rewrite Hl. }
  destruct (store_prefix m ack_buf 256 (frame_wire f) Hv) as (m1 & E1 & Hread & _ & D1); [lia|].
  rewrite Hlf in Hread.
  pose proof (parse_wire_run f ack_buf (mkParsed TcpHeader_zero nullptr 0) m1 Hf Hby) as Hp.
  cbn [frame_payload f] in Hp. rewrite Hl in Hp. specialize (Hp Hread).
  set (h := received _ _) in Hp. exists h, m1.
  pose proof (frame_checksum_range (frame_header f) (frame_payload f) (frame_src f) (frame_dst f) Hf Hby) as Hck.
  assert (0 <= x.(window_size) / 256 < 256) as Hw.
  { destruct Hx. unfold in_width in *. split; [apply Z.div_pos; lia|apply Z.div_lt_upper_bound; lia]. }
  assert (0 <= frame_checksum (frame_header f) (frame_payload f) (frame_src f) (frame_dst f) / 256 < 256) as Hc2.
  { unfold in_width in *. split; [apply Z.div_pos; lia|apply Z.div_lt_upper_bound; lia]. }
  split; [done|]. split; [done|]. split.
  { change (window h) with (256 * (window_size x / 256) + frame_checksum (frame_header f)
      (frame_payload f) (frame_src f) (frame_dst f) / 256). lia. }
  split; [done|].
  change (ack_frame ack_pad x a) with (frame_wire f). unfold process_ack. rewrite Hlf.
  eapply bind_run; [exact E1|]. eapply bind_run; [exact Hp|]. reflexivity.
Qed.

Lemma accept_run req h now rtt c m m' :
  client_idle c m -> request_ok req -> has_ack h = true ->
  ack_num h = u32 (c.(conn).(send_seq) + 40) -> 40 <= h.(window) < 2 ^ 16 ->
  (forall y, is_Some (m' !! y) <-> is_Some (m !! y)) ->
  exists c', accept_ack req h rtt (transmitted req now c) = Some c' /\ client_idle c' m' /\
    c'.(order_book_shadow) = apply_answer req c.(order_book_shadow) /\
    c'.(conn).(send_seq) = u32 (c.(conn).(send_seq) + 40).
Proof.
  intros [Hc Hw [Hcc Hmss] [Eq Eo] Ho Hb Hr Hp H1 H2 H3] Hreq _ Ha Hwin Hdom.
  unfold accept_ack, transmitted. cbn [conn retrans_q cc outstanding_segments rto_estimator order_book_shadow
    add_total with_conn with_transport with_sent].
  unfold track_segment. rewrite Eq, Eo, Ha. change (u32 40) with 40. cbn [app ack_up_to seq_end].
  rewrite Z.leb_refl. cbn [prod_map fst snd id].
  change (u64 (Z.of_nat 1 * Z.of_nat sizeof_OrderRequest)) with 40.
  destruct (cong_step_inv (TcpCongestion.Ack 40) c.(cc) Hcc) as (w & Ew & Hw' & Emss); [cbn; lia|].
  cbn [cong_step] in Ew. rewrite Ew. cbn [mbind option_bind]. eexists. split; [reflexivity|].
  assert (conn_ok (set_recv_ack (on_window_update (set_send_seq c.(conn) (u32 (c.(conn).(send_seq) + 40)))
    h.(window)) (u32 (c.(conn).(send_seq) + 40)))) as Hx.
  { apply conn_ok_set_recv_ack, u32_range. apply conn_ok_window; [|unfold in_width; lia].
    destruct Hc. split; cbn [set_send_seq local_ip remote_ip local_port remote_port send_seq recv_seq send_ack
      recv_ack window_size recv_window peer_window]; try done. apply u32_range. }
  split; [|done]. split; cbn [conn pool order_id order_book_shadow retrans_q rto_estimator cc outstanding_segments
    g_running sent add_total with_conn with_transport with_book with_sent]; try done.
  - cbn. lia.
  - by rewrite Emss.
  - split; [done|]. apply map_empty. intros i. apply map_lookup_filter_None. right.
    intros x [[<- _]|[_ Hx']]%lookup_insert_Some; [|by rewrite lookup_empty in Hx'].
    cbn [fst]. change (u32 (Z.of_nat sizeof_OrderRequest)) with 40. lia.
  - apply book_widths; [apply Hreq|done].
  - by eapply valid_dom.
  - by eapply valid_dom.
  - by eapply valid_dom.
Qed.

(** ** The gateway's half *)
Lemma gateway_run c req g m ctx :
  conn_ok c.(conn) -> g.(conn_ctx) !! gateway_fd = Some ctx -> ctx.(reassembly) = TcpReassemblyBuffer_new ->
  ctx.(tcp).(recv_seq) = c.(conn).(send_seq) -> ready ack_obj block rx 60 (g.(orders), ctx.(tcp)) m ->
  exists g' m', (store rx (request_frame c req) ;;
      gateway_packet false gateway_fd (Packet_new rx 60 0) g) m = Some (g', m') /\
    exists o' x', gateway_effect gateway_fd (g.(orders), ctx.(tcp)) (request_repr req_pad req) = (o', x') /\
      g'.(orders) = o' /\ g'.(conn_ctx) !! gateway_fd = Some (mkContext x' TcpReassemblyBuffer_new) /\
      ready ack_obj block rx 60 (o', x') m'.
Proof.
  intros Hc Hfd Hb Hseq Hr. destruct (request_payload_repr req) as [Hl Hby].
  set (payload := request_repr req_pad req) in *.
  assert (in_width 32 ctx.(tcp).(recv_seq)) as Hs by (rewrite Hseq; apply Hc).
  assert (fitting 60 payload) as Hfit by (split; [split; [unfold sizeof_OrderRequest; lia|done]|lia]).
  destruct (packet_progress gateway_write ack_obj ack_pad backpressure_threshold ring_size block rx 60
    ack_pad_ok gateway_apart gateway_fd c.(conn) c.(conn).(send_seq) payload [] g m
    (gateway_effect gateway_fd (g.(orders), ctx.(tcp)) payload) Hc)
    as (g' & m' & E & (ctx' & rest & Hfd' & Hr' & Hw & Ef)).
  { exists ctx, [payload]. split; [done|]. split; [done|]. split; [|done]. rewrite Hb.
    apply awaiting_fresh; cbn [snd]; [done|by constructor| |].
    - rewrite stored_cut. cbn [concat]. rewrite app_nil_r. lia.
    - cbn [cut]. by rewrite Hseq. }
  destruct (awaiting_nil _ _ _ _ _ Hw) as [Eb ->]. cbn [foldl] in Ef.
  exists g', m'. split; [unfold request_frame; fold payload; rewrite Hl in E; exact E|].
  exists g'.(orders), ctx'.(tcp). split; [done|]. split; [done|]. split; [|done].
  rewrite Hfd'. by destruct ctx' as [x b]; cbn in Eb |- *; subst.
Qed.

(** A request for an order of the book, or for a new one, is accepted. *)
Lemma gateway_turn c req g m ctx book :
  conn_ok c.(conn) -> g.(conn_ctx) !! gateway_fd = Some ctx -> ctx.(reassembly) = TcpReassemblyBuffer_new ->
  ctx.(tcp).(recv_seq) = c.(conn).(send_seq) -> ready ack_obj block rx 60 (g.(orders), ctx.(tcp)) m ->
  request_ok req -> dom book = g.(orders).(live_orders) ->
  (req.(action) = New \/
   (req.(action) = Cancel \/ req.(action) = Replace) /\ is_Some (book !! req.(target_order_id))) ->
  let x := advance_recv ctx.(tcp) (request_repr req_pad req) in
  exists g' m', (store rx (request_frame c req) ;;
      gateway_packet false gateway_fd (Packet_new rx 60 0) g) m = Some (g', m') /\
    g'.(conn_ctx) !! gateway_fd = Some (mkContext x TcpReassemblyBuffer_new) /\
    ready ack_obj block rx 60 (g'.(orders), x) m' /\
    g'.(orders).(live_orders) = dom (apply_answer req book) /\
    g'.(orders).(written) = g.(orders).(written) ++ [(gateway_fd, ack_frame ack_pad x (answer req true))] /\
    g'.(orders).(reject_total) = g.(orders).(reject_total) /\
    g'.(orders).(ack_sent_total) = u64 (g.(orders).(ack_sent_total) + 1).
Proof.
  intros Hc Hfd Hb Hseq Hr Hreq Hbook Hact x.
  destruct (gateway_run c req g m ctx Hc Hfd Hb Hseq Hr) as (g' & m' & E & o' & x' & Eeff & Eo & Hfd' & Hr').
  assert (conn_ok x) as Hx by (apply conn_ok_set_recv_seq; [apply (rd_conn _ _ _ _ _ _ Hr)|apply u32_range]).
  unfold serve in Eeff. fold x in Eeff.
  rewrite <- (app_nil_r (request_repr req_pad req)), request_roundtrip in Eeff by (done || apply req_pad_ok).
  rewrite <- Hbook, (books_agree req _ Hact), gateway_writes, (length_ack_frame ack_pad ack_pad_ok) in Eeff by done.
  pose proof (f_equal fst Eeff) as Eo'. pose proof (f_equal snd Eeff) as Ex'. cbn [fst snd] in Eo', Ex'.
  clear Eeff. rewrite <- Ex' in Hfd', Hr'. rewrite <- Eo' in Eo, Hr'. exists g', m'. by rewrite Eo.
Qed.

Lemma answer_read x req ok :
  request_ok req -> read_ack (ack_frame ack_pad x (answer req ok)) = answer req ok.
Proof.
  intros Hreq. destruct (request_payload_repr req) as [_ Hby].
  pose proof (read_ack_frame ack_pad ack_pad_ok x (request_repr req_pad req ++ []) ok) as H.
  rewrite request_roundtrip in H by (done || apply req_pad_ok). apply H. by rewrite app_nil_r.
Qed.

(** ** One turn *)
Lemma idle_unblocked c m : client_idle c m -> blocked_by c = None.
Proof.
  intros [Hc Hw [Hcc Hmss] [_ Eo] _ _ _ _ _ _ _]. unfold blocked_by, TcpStateMachine.can_send, TcpCongestion.can_send.
  rewrite Eo, map_size_empty. change (u64 (u64 (Z.of_nat 0 * Z.of_nat sizeof_OrderRequest) + Z.of_nat sizeof_OrderRequest)) with 40.
  change (Z.of_nat sizeof_OrderRequest) with 40. destruct Hcc.
  destruct (Z.leb_spec 40 (peer_window (conn c))); [|lia].
  by destruct (Z.leb_spec 40 (Z.min (cwnd_bytes_ (cc c)) (peer_window (conn c)))); [|lia].
Qed.

Lemma iteration_run t c m req c1 m1 bs :
  client_idle c m -> build_request begin_key t.(percent) cancel_ratio replace_ratio t.(ts) c = (req, c1) ->
  client_idle c1 m -> client_transmit client_fd req t.(now_ms) c1 m = Some (transmitted req t.(now_ms) c1, m1) ->
  client_iteration client_fd t.(percent) cancel_ratio replace_ratio t.(ts) t.(now_ms) [ReadBytes bs] t.(rtt_us) c m =
    process_ack ack_buf req bs t.(rtt_us) (transmitted req t.(now_ms) c1) m1.
Proof.
  intros _ Er Hi Et. unfold OrderClient.iteration. rewrite Er, (idle_unblocked c1 m Hi).
  eapply bind_run; [exact Et|]. cbv beta. change (g_running (transmitted req (now_ms t) c1)) with (g_running c1).
  by rewrite (id_running _ _ Hi).
Qed.

Record turn_done (req : OrderRequest) (s s' : system) : Prop := {
  td_synced : synced s';
  td_written : exists ack, s'.(gw).(orders).(written) = s.(gw).(orders).(written) ++ [(gateway_fd, ack)] /\
    read_ack ack = answer req true;
  td_rejects : s'.(gw).(orders).(reject_total) = s.(gw).(orders).(reject_total);
  td_acks : s'.(gw).(orders).(ack_sent_total) = u64 (s.(gw).(orders).(ack_sent_total) + 1);
  td_book : s'.(cl).(order_book_shadow) = apply_answer req s.(cl).(order_book_shadow);
  td_seq : s'.(cl).(conn).(send_seq) = u32 (s.(cl).(conn).(send_seq) + 40);
}.

Lemma exchange_run t s :
  in_width 64 t.(ts) -> synced s -> exists req s', exchange t s = Some s' /\ turn_done req s s'.
Proof.
  intros Hts [Hi (ctx & Hfd & Hb & Hseq & Hwin & Hr) Hbook].
  destruct (request_next t.(percent) cancel_ratio replace_ratio t.(ts) s.(cl) s.(cl_mem) Hts Hi)
    as (req & c1 & Er & Hreq & Hi1 & Ec & Eb & Es & Hact).
  destruct (transmit_run req t.(now_ms) c1 s.(cl_mem) Hi1) as (m1 & Et & Hd1).
  rewrite <- Ec in Hseq.
  destruct (request_payload_repr req) as [Hl _].
  destruct (gateway_turn c1 req s.(gw) s.(gw_mem) ctx s.(cl).(order_book_shadow) (id_conn _ _ Hi1) Hfd Hb Hseq Hr
    Hreq Hbook Hact) as (g' & mg & Eg & Hfd' & Hr' & Elive & Ewr & Erej & Eack).
  set (x := advance_recv _ _) in *.
  assert (conn_ok x) as Hx by apply (rd_conn _ _ _ _ _ _ Hr').
  assert (recv_seq x = u32 (c1.(conn).(send_seq) + 40)) as Eseq by (rewrite <- Hseq; unfold x, advance_recv; by rewrite Hl).
  destruct (process_ack_run req (transmitted req t.(now_ms) c1) m1 x (answer req true) t.(rtt_us) Hx)
    as (h & m2 & Ha & Hack & Hwin2 & Hd2 & Ep); [eapply valid_dom; [exact Hd1|apply Hi]|apply Hreq|].
  assert (256 * 1 <= 256 * (window_size x / 256)) as Hw1.
  { apply Z.mul_le_mono_nonneg_l; [lia|]. apply Z.div_le_lower_bound; [lia|]. exact Hwin. }
  destruct (accept_run req h t.(now_ms) t.(rtt_us) c1 s.(cl_mem) m2 Hi1 Hreq Ha)
    as (c2 & Ea & Hi2 & Eb2 & Es2); [congruence|lia|intros y; by rewrite Hd2|].
  exists req, (mkSystem c2 m2 g' mg). split.
  - unfold exchange. rewrite Er, Et. cbn [mbind option_bind sent transmitted with_conn with_transport add_total with_sent].
    rewrite last_snoc. cbn [mbind option_bind].
    assert (length (request_frame c1 req) = 60%nat) as Hlf.
    { unfold request_frame, frame_wire. rewrite length_wire. cbn [client_frame frame_payload]. by rewrite Hl. }
    rewrite Hlf. change (Z.of_nat 60) with 60. rewrite Eg. cbn [mbind option_bind].
    rewrite Ewr, last_snoc. cbn [mbind option_bind].
    rewrite (iteration_run t s.(cl) s.(cl_mem) req c1 m1 _ Hi Er Hi1 Et), Ep. unfold lift. by rewrite Ea.
  - rewrite Eb in Eb2. split; cbn [cl gw cl_mem gw_mem]; try done; [split; cbn [cl gw cl_mem gw_mem]; [done| |congruence]| |].
    + exists (mkContext x TcpReassemblyBuffer_new). split_and!; try done. cbn [tcp]. congruence.
    + eexists. split; [exact Ewr|by apply answer_read].
    + congruence.
Qed.

Lemma run_exchanges_run turns s :
  Forall (fun t => in_width 64 t.(ts)) turns -> synced s ->
  exists s' acks, run_exchanges turns s = Some s' /\ synced s' /\
    s'.(gw).(orders).(written) = s.(gw).(orders).(written) ++ map (pair gateway_fd) acks /\
    length acks = length turns /\ Forall (fun f => (read_ack f).(accepted) = true) acks /\
    s'.(gw).(orders).(reject_total) = s.(gw).(orders).(reject_total) /\
    u64 s'.(gw).(orders).(ack_sent_total) = u64 (s.(gw).(orders).(ack_sent_total) + Z.of_nat (length turns)).
Proof.
  intros Hts. unfold run_exchanges. revert s. induction Hts as [|t turns Ht _ IH]; intros s Hs; cbn [foldl].
  { exists s, []. cbn [map length]. rewrite app_nil_r, Z.add_0_r. split_and!; try done. }
  destruct (exchange_run t s Ht Hs) as (req & s1 & E & [H1 (ack & Ew & Er) Erej Eack _ _]).
  destruct (IH s1 H1) as (s' & acks & E' & H' & Ew' & Hl & Hf & Erej' & Eack').
  exists s', (ack :: acks). cbn [mbind option_bind]. rewrite E.
  split_and!; try done; cbn [map length].
  - by rewrite Ew', Ew, <- app_assoc.
  - by rewrite Hl.
  - constructor; [by rewrite Er|done].
  - congruence.
  - rewrite Eack', Eack, wrap_add_l by lia. f_equal. lia.
Qed.

(** C4: The client and the gateway work together.  Over a connection that
    delivers what is written, any number of turns (whatever the random
    percentages and the clock) succeed: every request, new, cancel or replace, is
    answered and accepted, the gateway rejects none, the answers reach the client
    one per turn, and after every run the client's shadow order book holds
    exactly the gateway's live orders, nothing is outstanding on the client and
    the gateway expects the client's next sequence number. *)
Theorem orders_stay_in_sync turns s :
  Forall (fun t => in_width 64 t.(ts)) turns -> synced s ->
  exists s' acks, run_exchanges turns s = Some s' /\ synced s' /\
    s'.(gw).(orders).(written) = s.(gw).(orders).(written) ++ map (pair gateway_fd) acks /\
    length acks = length turns /\ Forall (fun f => (read_ack f).(accepted) = true) acks /\
    s'.(gw).(orders).(reject_total) = s.(gw).(orders).(reject_total) /\
    u64 s'.(gw).(orders).(ack_sent_total) = u64 (s.(gw).(orders).(ack_sent_total) + Z.of_nat (length turns)) /\
    dom s'.(cl).(order_book_shadow) = s'.(gw).(orders).(live_orders) /\
    s'.(cl).(retrans_q) = [] /\ s'.(cl).(outstanding_segments) = ∅.
Proof.
  intros Hts Hs. destruct (run_exchanges_run turns s Hts Hs) as (s' & acks & E & H' & Ew & Hl & Hf & Erej & Eack).
  exists s', acks. destruct (id_queue _ _ (sy_idle s' H')). split_and!; try done. apply H'.
Qed.

(** ** After a reconnect *)
Lemma stale_packets peer seq payload n fd g m ctx :
  conn_ok peer -> in_width 32 seq -> fitting 60 payload -> g.(conn_ctx) !! fd = Some ctx ->
  seq <> ctx.(tcp).(recv_seq) -> ready ack_obj block rx 60 (g.(orders), ctx.(tcp)) m ->
  exists g' m', receive_packets gateway_write ack_obj ack_pad backpressure_threshold ring_size rx fd peer
      (replicate n (seq, payload)) g m = Some (g', m') /\
    g'.(orders) = g.(orders) /\
    exists b, g'.(conn_ctx) !! fd = Some (mkContext ctx.(tcp) b).
Proof.
  intros Hp Hs Hfit. revert g m ctx. induction n as [|n IH]; intros g m ctx Hfd Hne Hr; cbn [replicate receive_packets].
  { exists g, m. split; [done|]. split; [done|]. exists ctx.(reassembly). rewrite Hfd. by destruct ctx. }
  destruct (client_frame_step gateway_write ack_obj ack_pad backpressure_threshold ring_size block rx 60
    ack_pad_ok gateway_apart fd peer seq payload g m ctx Hp Hs Hfit Hfd Hr) as (m1 & Hr1 & E).
  assert (out_of_order (fun st : order_state * TcpConnection => st.2.(recv_seq)) seq payload
    (g.(orders), ctx.(tcp)) = true) as Eo.
  { unfold out_of_order. destruct Hfit as [[Hl _] _]. unfold sizeof_OrderRequest in Hl.
    destruct (Nat.eqb_spec (length payload) 0); [lia|]. cbn [snd]. by destruct (Z.eqb_spec seq (recv_seq (tcp ctx))). }
  rewrite Eo in E. unfold handle_out_of_order in E. destruct (insert_bytes seq payload (reassembly ctx)) as [ok b].
  match type of E with _ = mret ?x m1 => set (g1 := x) in * end.
  destruct (IH g1 m1 (mkContext ctx.(tcp) b)) as (g' & m' & E' & Eord & Hb);
    [by apply lookup_insert_eq|done|done|].
  exists g', m'. split; [|by rewrite Eord].
  unfold mbind, M_bind in E |- *. destruct (store _ _ m) as [[_ m0]|]; [|done]. by rewrite E.
Qed.

Lemma reconnect_idle c m : client_idle c m -> client_idle (snd (reconnect client_fd c)) m.
Proof.
  intros Hi. unfold reconnect. destruct (client_fd <? 0); [done|]. by destruct Hi.
Qed.

Lemma accepted_conn_ok port :
  in_width 16 port ->
  conn_ok (mkTcpConnection (htonl INADDR_LOOPBACK) (htonl INADDR_LOOPBACK) kListenPort port 1 1 0 0 CLOSED
    65535 65535 65535).
Proof. intros Hp. split; first [exact Hp|vm_compute; split; congruence]. Qed.

(** C38: A reconnect silences the client.  The client keeps its sequence number
    while the gateway starts the new connection at 1, so once anything has been
    sent, the next request and every retransmission of it are taken for
    out-of-order data: however often its frame arrives, the gateway handles no
    request and writes no answer. *)
Theorem reconnect_starves fd port now req n s :
  synced s -> s.(cl).(conn).(send_seq) <> 1 -> s.(gw).(conn_ctx) !! fd = None -> in_width 16 port ->
  let c := snd (reconnect client_fd s.(cl)) in
  exists c1 m1 g' m', client_transmit client_fd req now c s.(cl_mem) = Some (c1, m1) /\
    c1.(sent) = c.(sent) ++ [(client_fd,
      frame_wire (client_frame rx c.(conn) c.(conn).(send_seq) (request_repr req_pad req)))] /\
    receive_packets gateway_write ack_obj ack_pad backpressure_threshold ring_size rx fd c.(conn)
      (replicate n (c.(conn).(send_seq), request_repr req_pad req))
      (accept_connection fd port s.(gw)) s.(gw_mem) = Some (g', m') /\
    g'.(orders) = s.(gw).(orders).
Proof.
  intros [Hi (ctx & _ & _ & _ & _ & Hr) _] Hseq Hfd Hport c.
  pose proof (reconnect_idle _ _ Hi) as Hi'. fold c in Hi'.
  assert (c.(conn) = s.(cl).(conn)) as Ec by (unfold c, reconnect; by destruct (client_fd <? 0)).
  destruct (transmit_run req now c s.(cl_mem) Hi') as (m1 & Et & _).
  destruct (request_payload_repr req) as [Hl Hby].
  assert (fitting 60 (request_repr req_pad req)) as Hfit by (split; [split; [unfold sizeof_OrderRequest; lia|done]|lia]).
  destruct (stale_packets c.(conn) c.(conn).(send_seq) (request_repr req_pad req) n fd
    (accept_connection fd port s.(gw)) s.(gw_mem)
    (mkContext (mkTcpConnection (htonl INADDR_LOOPBACK) (htonl INADDR_LOOPBACK) kListenPort port 1 1 0 0 CLOSED
      65535 65535 65535) TcpReassemblyBuffer_new)) as (g' & m' & E & Eo & _);
    [apply Hi'|apply Hi'|done|unfold accept_connection; rewrite Hfd; by apply lookup_insert_eq|
     by rewrite Ec| |].
  { pose proof (accepted_conn_ok port Hport). by destruct Hr. }
  exists (transmitted req now c), m1, g', m'. split; [exact Et|]. split; [done|]. split; [exact E|exact Eo].
Qed.
End Exchange.

(** ** Witnesses *)
Definition first_key (b : gmap Z OrderRequest) : Z :=
  match map_to_list b with [] => 0 | (k, _) :: _ => k end.

Lemma first_key_in b : b <> ∅ -> is_Some (b !! first_key b).
Proof.
  intros Hb. unfold first_key. destruct (map_to_list b) as [|[k o] l] eqn:E.
  - by apply map_to_list_empty_iff in E.
  - exists o. apply elem_of_map_to_list. rewrite E. by left.
Qed.

Definition demo_client_pool : Pool.MemoryPool := Pool.mkMemoryPool 76 2 4000 152 [1; SIZE_MAX] 0.

Definition demo_client_mem : mem :=
  alloc (alloc (alloc ∅ 4000 (replicate 76 0)) 5000 (replicate 40 0)) 6000 (replicate 256 0).

(** Both ends of a connection on which everything below [seq] was exchanged. *)
Definition demo_system (seq : Z) : system :=
  let c := client_init demo_client_pool in
  mkSystem (with_conn (set_send_seq c.(conn) seq) c) demo_client_mem
    (mkGateway {[5 := mkContext (set_recv_seq demo_accepted seq) TcpReassemblyBuffer_new]}
       demo_gateway.(orders) demo_gateway.(reorder) 0)
    demo_storage.

Lemma demo_synced seq : in_width 32 seq -> synced 5000 6000 4000 2000 1000 3000 5 (demo_system seq).
Proof.
  intros Hs. split; cbn [demo_system cl cl_mem gw gw_mem].
  - split; try done; try (apply read_bytes_valid; eexists; vm_compute; reflexivity).
    eexists. split; reflexivity.
  - eexists. split; [apply lookup_insert_eq|]. split; [done|]. split; [done|]. split; [by vm_compute|].
    destruct demo_usable as [Hc Hp H1 H2 H3].
    split; cbn [orders tcp fst snd]; [by apply conn_ok_set_recv_seq|exact Hp|exact H1|exact H2|].
    intros i Hi. apply H3. lia.
  - done.
Qed.

Definition demo_turns : list turn := [mkTurn 100 11 1 500; mkTurn 1 12 2 500; mkTurn 60 13 3 700].

Definition full_write (w : list (Z * list Z)) (fd : Z) (bs : list Z) : Z := Z.of_nat (length bs).

Lemma orders_stay_in_sync_witness :
  exists s' acks,
    run_exchanges full_write 5000 6000 [0; 0] first_key full_write 2000 3000 (replicate 7 0) 0 0 30 30 4 5
      demo_turns (demo_system 1) = Some s' /\
    s'.(gw).(orders).(written) = map (pair 5) acks /\ length acks = 3%nat /\
    Forall (fun f => (read_ack f).(accepted) = true) acks /\ s'.(gw).(orders).(reject_total) = 0 /\
    dom s'.(cl).(order_book_shadow) = s'.(gw).(orders).(live_orders) /\ s'.(cl).(retrans_q) = [].
Proof.
  destruct (orders_stay_in_sync full_write 5000 6000 4000 [0; 0] first_key) with
    (gateway_write := full_write) (ack_obj := 2000) (block := 1000) (rx := 3000) (ack_pad := replicate 7 0)
    (backpressure_threshold := 0) (ring_size := 0) (cancel_ratio := 30) (replace_ratio := 30)
    (client_fd := 4) (gateway_fd := 5) (turns := demo_turns) (s := demo_system 1)
    as (s' & acks & E & _ & Ew & El & Hf & Er & _ & Ed & Eq & _).
  - done.
  - split; [done|by repeat constructor].
  - apply first_key_in.
  - lia.
  - done.
  - split; [done|by apply Forall_replicate].
  - lia.
  - by repeat constructor.
  - by apply demo_synced.
  - exists s', acks. split; [exact E|]. split; [exact Ew|]. split; [exact El|]. split; [exact Hf|].
    split; [exact Er|]. split; [exact Ed|exact Eq].
Defined.

Lemma reconnect_starves_witness :
  let req := mkOrderRequest 2 0 10001 New Buy 100001 1 9 in
  let c := snd (reconnect 4 (demo_system 41).(cl)) in
  exists c1 m1 g' m', transmit full_write 5000 [0; 0] 4 req 20 c demo_client_mem = Some (c1, m1) /\
    c1.(sent) = [(4, frame_wire (client_frame 3000 c.(conn) 41 (request_repr [0; 0] req)))] /\
    receive_packets full_write 2000 (replicate 7 0) 0 0 3000 6 c.(conn)
      (replicate 6 (41, request_repr [0; 0] req))
      (accept_connection 6 9101 (demo_system 41).(gw)) demo_storage = Some (g', m') /\
    g'.(orders).(written) = [] /\ g'.(orders).(req_recv_total) = 0.
Proof.
  intros req c.
  destruct (reconnect_starves full_write 5000 6000 4000 [0; 0]) with
    (gateway_write := full_write) (ack_obj := 2000) (block := 1000) (rx := 3000) (ack_pad := replicate 7 0)
    (backpressure_threshold := 0) (ring_size := 0) (client_fd := 4) (gateway_fd := 5) (fd := 6) (port := 9101)
    (now := 20) (req := req) (n := 6%nat) (s := demo_system 41)
    as (c1 & m1 & g' & m' & E1 & E2 & E3 & E4).
  - done.
  - split; [done|by repeat constructor].
  - lia.
  - split; [done|by apply Forall_replicate].
  - lia.
  - by apply demo_synced.
  - done.
  - done.
  - done.
  - exists c1, m1, g', m'. split; [exact E1|]. split; [exact E2|]. split; [exact E3|].
    rewrite E4. split; reflexivity.
Defined.
