(* ===== verification/MarketFeed.v ===== *)
(** * MarketFeed: the market-data publisher and subscriber
    (apps/market_udp/feed_publisher.cpp, apps/market_udp/feed_subscriber.cpp)

    The publisher numbers its increments, drops or swaps some for the simulation
    and sends the rest as datagrams; the subscriber parses each datagram and
    accounts for its sequence number (UdpFeedback).  [sendto] is a parameter;
    the floating-point comparisons with the drop and reorder rates are the
    arguments [dropped] and [swapped], which PublisherProgram computes.  [payload_obj] is the address of the
    payload vector, [payload_bytes] its size, at least an increment's. *)
From S2P Require Import Prelude Bytes Memory Packet UdpProtocol MemoryPool UdpFeedback Messages.
From S2P Require Import Fifo RingSlots PacketRing BatchIo BusyPoll IoStatus.

Definition kMulticastPort : Z := 9100.
Definition kSrcPort : Z := 9001.
Definition kPublisherIp : Z := 2130706433.
Definition kGroupIp : Z := 4009754625.

(** ** The publisher *)
Record publisher := mkPublisher {
  next_seq : Z;
  reorder_q : list MarketDataIncrement;
  sent_total : Z;
  dropped_total : Z;
  reordered_total : Z;
  pub_pool : Pool.MemoryPool;
  datagrams : list (list Z);
}.

Definition publisher_init (pool : Pool.MemoryPool) : publisher := mkPublisher 1 [] 0 0 0 pool [].

(** [std::swap] of the last two elements. *)
Definition swap_last {A} (l : list A) : list A :=
  match rev l with
  | x :: y :: r => rev (y :: x :: r)
  | _ => l
  end.

Section Publisher.
Variable sendto : list (list Z) -> list Z -> Z.
Variable payload_obj : ptr.
Variable payload_bytes : nat.
Variable streams : Z.

(** One datagram: the increment at the start of a zeroed payload. *)
Definition send_increment (d : MarketDataIncrement) (p : publisher) : M (bool * publisher) :=
  store payload_obj (splice 0 (increment_repr d) (replicate payload_bytes 0)) ;;
  r ← lift (Pool.allocate p.(pub_pool));
  let '(buf, pool) := r in
  packet ← encapsulate payload_obj payload_bytes kSrcPort kMulticastPort kPublisherIp kGroupIp true buf;
  bs ← load packet.(data) (Z.to_nat packet.(len));
  let n := sendto p.(datagrams) bs in
  pool ← lift (Pool.deallocate packet.(data) pool);
  let sent_total := if n =? packet.(len) then u64 (p.(sent_total) + 1) else p.(sent_total) in
  mret (n =? packet.(len),
        mkPublisher p.(next_seq) p.(reorder_q) sent_total p.(dropped_total) p.(reordered_total) pool
          (p.(datagrams) ++ [bs])).

Definition with_queue (q : list MarketDataIncrement) (p : publisher) : publisher :=
  mkPublisher p.(next_seq) q p.(sent_total) p.(dropped_total) p.(reordered_total) p.(pub_pool)
    p.(datagrams).

(** [while (reorder_q.size() > 1)]: the queue [q] from its front; a failed send
    ends the program. *)
Fixpoint drain_queue (q : list MarketDataIncrement) (p : publisher) : M (bool * publisher) :=
  match q with
  | [] => mret (true, with_queue [] p)
  | d :: q' =>
      match q' with
      | [] => mret (true, with_queue [d] p)
      | _ :: _ =>
          r ← send_increment d (with_queue q' p);
          let '(ok, p) := r in
          if (ok : bool) then drain_queue q' p else mret (false, p)
      end
  end.

Definition next_increment (ts : Z) (p : publisher) : MarketDataIncrement :=
  mkMarketDataIncrement p.(next_seq) (u32 (u64 (p.(next_seq) - 1) mod streams)) 10001 100000 10
    100010 10 ts.

(** One iteration of the loop; the result says whether the program goes on. *)
Definition publish (dropped swapped : bool) (ts : Z) (p : publisher) : M (bool * publisher) :=
  let m := next_increment ts p in
  let p := mkPublisher (u64 (p.(next_seq) + 1)) p.(reorder_q) p.(sent_total) p.(dropped_total)
             p.(reordered_total) p.(pub_pool) p.(datagrams) in
  if dropped then
    mret (true, mkPublisher p.(next_seq) p.(reorder_q) p.(sent_total) (u64 (p.(dropped_total) + 1))
                  p.(reordered_total) p.(pub_pool) p.(datagrams))
  else
    let q := p.(reorder_q) ++ [m] in
    if swapped && (2 <=? length q)%nat then
      drain_queue (swap_last q)
        (mkPublisher p.(next_seq) q p.(sent_total) p.(dropped_total) (u64 (p.(reordered_total) + 1))
           p.(pub_pool) p.(datagrams))
    else drain_queue q (with_queue q p).

(** The inputs of one iteration, and a run. *)
Record tick := mkTick { dropped : bool; swapped : bool; clock_ns : Z }.

Fixpoint publish_all (ticks : list tick) (p : publisher) : M (bool * publisher) :=
  match ticks with
  | [] => mret (true, p)
  | t :: ticks =>
      r ← publish t.(dropped) t.(swapped) t.(clock_ns) p;
      let '(ok, p) := r in
      if (ok : bool) then publish_all ticks p else mret (false, p)
  end.
End Publisher.

(** ** The subscriber *)
Record subscriber := mkSubscriber {
  feedback : UdpDeliveryFeedback;
  latency_us_samples : list Z;
}.

Definition subscriber_init : subscriber := mkSubscriber UdpDeliveryFeedback_new [].

(** The increment a datagram carries, if it is valid and long enough. *)
Definition decode_increment (pkt : Packet) : M (option MarketDataIncrement) :=
  r ← UdpProtocol.parse pkt (UdpProtocol.mkParsed (mkUdpHeader 0 0 0 0) nullptr 0);
  let '(ok, out) := r in
  if negb ok then mret None else
  if out.(UdpProtocol.p_payload_len) <? Z.of_nat sizeof_MarketDataIncrement then mret None else
  bs ← load out.(UdpProtocol.p_payload) sizeof_MarketDataIncrement;
  mret (Some (increment_of_repr bs)).

(** The latency of an increment in microseconds, unless its clock is ahead. *)
Definition latency_of (m : MarketDataIncrement) (now_ns : Z) : option Z :=
  if m.(md_send_ts_ns) <=? now_ns then Some (u64 (now_ns - m.(md_send_ts_ns)) / 1000) else None.

Definition record_increment (m : MarketDataIncrement) (now_ns : Z) (s : subscriber) : subscriber :=
  mkSubscriber (observe m.(Messages.seq) s.(feedback))
    (match latency_of m now_ns with
     | Some us => s.(latency_us_samples) ++ [us]
     | None => s.(latency_us_samples)
     end).

(** What a packet changes in the statistics; the trace and metrics lines are added
    by [FeedProgram.on_packet]. *)
Definition process_packet (pkt : Packet) (now_ns : Z) (s : subscriber) : M subscriber :=
  m ← decode_increment pkt;
  match m with
  | Some m => mret (record_increment m now_ns s)
  | None => mret s
  end.

(** The poll function: whether it found data, whether it stopped the poller, and
    whether it cleared [g_running]. *)
Record poll_outcome := mkPoll { has_data : bool; stopped : bool; cleared : bool }.

Section Polling.
(** [handle ring pkt k s]: the k-th packet popped, the ring being what is left. *)
Context {S : Type} (handle : PacketRing -> Packet -> nat -> S -> M S).

(** The loop over the ring; undefined when the fuel runs out. *)
Fixpoint process_ring (fuel : nat) (k : nat) (ring : PacketRing) (s : S) : M (nat * PacketRing * S) :=
  match fuel with
  | O => lift None
  | Datatypes.S fuel =>
      r ← lift (PacketRing.try_pop ring);
      let '(pkt, ring) := r in
      match pkt with
      | None => mret (k, ring, s)
      | Some pkt => s ← handle ring pkt k s; process_ring fuel (Datatypes.S k) ring s
      end
  end.

(** [g_running i] is what the program's one flag holds at its i-th load of a call:
    the test at the entry, then, as the cancel flag of the receive, the test
    before the first [recvmmsg], the one after an empty answer and the one that
    classifies the result; with a timeout of 0 there is one [recvmmsg].  [sys] and
    [poll] are the kernel's answers. *)
Definition receive_kernel (g_running : nat -> bool) (sys poll : nat -> Z) : kernel :=
  mkKernel (g_running 1%nat) sys (fun _ => g_running 2%nat) poll (g_running 3%nat).

Definition poll_function (g_running : nat -> bool) (sys poll : nat -> Z) (fuel : nat) (buffers : list ptr)
    (lens : list Z) (ring : PacketRing) (s : S) : M (poll_outcome * PacketRing * S) :=
  if negb (g_running 0%nat) then mret (mkPoll false true false, ring, s) else
  let options := mkOptions 0 true 1 in
  r ← lift (recv_batch_ring fuel options (receive_kernel g_running sys poll) buffers lens 16 ring);
  let '(batch_result, ring) := r in
  let io_result := of_batch batch_result in
  if bool_decide (io_result.(IoStatus.status) = SysError) then
    mret (mkPoll false true true, ring, s)
  else if bool_decide (classify_loop_control io_result = Stop) &&
          negb (bool_decide (io_result.(IoStatus.status) = Cancelled)) then
    mret (mkPoll false true false, ring, s)
  else
    r ← process_ring fuel 0 ring s;
    let '(n, ring, s) := r in
    mret (mkPoll (negb (n =? 0)%nat || (0 <? io_result.(IoStatus.count))) false false, ring, s).
End Polling.

(** The configuration the subscriber polls with; its cancel flag is [g_running]. *)
Definition poll_cfg : BusyPollConfig := mkConfig 1000 100000 1000 true.
Definition poll_control : BusyPollControl := mkControl (-1) true.

(** ** The datagram of an increment *)
Section Datagram.
Variable payload_bytes : nat.
Hypothesis payload_size : (40 <= payload_bytes)%nat /\ Z.of_nat payload_bytes <= 65527.

Definition increment_payload (d : MarketDataIncrement) : list Z :=
  increment_repr d ++ replicate (payload_bytes - 40) 0.

(** The datagram of an increment. *)
Definition feed_datagram (d : MarketDataIncrement) : list Z :=
  datagram kSrcPort kMulticastPort (8 + Z.of_nat payload_bytes)
    (datagram_checksum kSrcPort kMulticastPort kPublisherIp kGroupIp true (increment_payload d))
    (increment_payload d).

Lemma length_increment_repr d : length (increment_repr d) = 40%nat.
Proof. unfold increment_repr. by rewrite !length_app, !length_le_bytes. Qed.

Lemma increment_payload_splice d :
  splice 0 (increment_repr d) (replicate payload_bytes 0) = increment_payload d.
Proof.
  unfold splice, increment_payload. rewrite take_0, Nat.add_0_l, length_increment_repr, drop_replicate. done.
Qed.

Lemma length_increment_payload d : length (increment_payload d) = payload_bytes.
Proof.
  unfold increment_payload. rewrite length_app, length_increment_repr, length_replicate. lia.
Qed.

Lemma increment_payload_bytes d : bytes (increment_payload d).
Proof.
  unfold increment_payload, increment_repr. repeat apply Forall_app_2; auto using le_bytes_bytes.
  apply Forall_replicate. unfold in_width. lia.
Qed.

Definition increment_ok (d : MarketDataIncrement) : Prop :=
  in_width 64 d.(Messages.seq) /\ in_width 32 d.(stream_id) /\ in_width 32 d.(md_instrument_id) /\
  in_width 32 d.(bid_price) /\ in_width 32 d.(bid_qty) /\ in_width 32 d.(ask_price) /\
  in_width 32 d.(ask_qty) /\ in_width 64 d.(md_send_ts_ns).

Lemma increment_payload_read d : increment_ok d -> increment_of_repr (take 40 (increment_payload d)) = d.
Proof.
  intros (H1 & H2 & H3 & H4 & H5 & H6 & H7 & H8). unfold increment_payload.
  rewrite <- (length_increment_repr d), take_app_length, <- (app_nil_r (increment_repr d)).
  by apply increment_roundtrip.
Qed.

Lemma decode_increment_run d rx m :
  increment_ok d -> read_bytes m rx (8 + payload_bytes) = Some (feed_datagram d) ->
  decode_increment (Packet_new rx (8 + Z.of_nat payload_bytes) 0) m = Some (Some d, m).
Proof.
  intros Hd Hr. pose proof (length_increment_payload d) as Hl.
  pose proof (datagram_checksum_range kSrcPort kMulticastPort kPublisherIp kGroupIp true _
    (increment_payload_bytes d)) as Hck.
  pose proof (read_bytes_sub _ _ _ _ 0 8 Hr ltac:(lia)) as H8. rewrite Z.add_0_r, drop_0 in H8.
  pose proof (read_bytes_sub _ _ _ _ 8 40 Hr ltac:(lia)) as H40. change (Z.of_nat 8) with 8 in H40.
  unfold feed_datagram in H8, H40. rewrite drop_datagram in H40.
  unfold decode_increment. eapply bind_run.
  { erewrite udp_parse_run; [|cbn; unfold sizeof_UdpHeader; lia|exact H8].
    rewrite datagram_header by (done || by vm_compute). cbv zeta. cbn [length_ len data Packet_new].
    rewrite wrap_small by (unfold in_width; lia). unfold sizeof_UdpHeader.
    destruct (Z.ltb_spec (8 + Z.of_nat payload_bytes) 8); [lia|]. rewrite Z.ltb_irrefl. reflexivity. }
  cbv beta iota. cbn [negb UdpProtocol.p_payload UdpProtocol.p_payload_len].
  destruct (Z.ltb_spec (8 + Z.of_nat payload_bytes - 8) (Z.of_nat sizeof_MarketDataIncrement));
    [unfold sizeof_MarketDataIncrement in *; lia|].
  eapply bind_run; [apply load_run, H40|]. by rewrite increment_payload_read.
Qed.

Lemma process_packet_exact d rx now s m :
  increment_ok d -> read_bytes m rx (8 + payload_bytes) = Some (feed_datagram d) ->
  process_packet (Packet_new rx (8 + Z.of_nat payload_bytes) 0) now s m = Some (record_increment d now s, m).
Proof. intros Hd Hr. unfold process_packet. eapply bind_run; [by apply decode_increment_run|done]. Qed.

Lemma process_packet_run d rx now s m :
  increment_ok d -> read_bytes m rx (8 + payload_bytes) = Some (feed_datagram d) ->
  exists lat, process_packet (Packet_new rx (8 + Z.of_nat payload_bytes) 0) now s m =
    Some (mkSubscriber (observe d.(Messages.seq) s.(feedback)) lat, m).
Proof. intros Hd Hr. eexists. rewrite (process_packet_exact d) by done. reflexivity. Qed.

End Datagram.

(** ** Sending *)
Section Sending.
Variable sendto : list (list Z) -> list Z -> Z.
Variable payload_obj block : ptr.
Variable payload_bytes : nat.
Variable streams : Z.
Hypothesis sends_all : forall w bs, sendto w bs = Z.of_nat (length bs).
Hypothesis payload_size : (40 <= payload_bytes)%nat /\ Z.of_nat payload_bytes <= 65527.
Hypothesis apart : block + Z.of_nat (8 + payload_bytes) <= payload_obj \/
  payload_obj + Z.of_nat payload_bytes <= block.

Abbreviation wire d := (feed_datagram payload_bytes d).

Record pub_ready (pool : Pool.MemoryPool) (m : mem) : Prop := {
  pr_pool : exists p, Pool.allocate pool = Some (block, p) /\ Pool.deallocate block p = Some pool;
  pr_block : valid m block (8 + payload_bytes);
  pr_payload : valid m payload_obj payload_bytes;
}.

Lemma send_increment_run d p m :
  pub_ready p.(pub_pool) m ->
  exists m', send_increment sendto payload_obj payload_bytes d p m =
      Some ((true, mkPublisher p.(next_seq) p.(reorder_q) (u64 (p.(sent_total) + 1)) p.(dropped_total)
                     p.(reordered_total) p.(pub_pool) (p.(datagrams) ++ [wire d])), m') /\
    pub_ready p.(pub_pool) m'.
Proof.
  intros [(q & Ea & Ed) Hb Hp]. pose proof (length_increment_payload payload_bytes payload_size d) as Hl.
  destruct (store_prefix m payload_obj payload_bytes (increment_payload payload_bytes d) Hp) as (m1 & E1 & Hr & _ & D1); [lia|].
  assert (call_ok m1 block payload_obj (increment_payload payload_bytes d) kSrcPort kMulticastPort) as Hc.
  { split; rewrite ?Hl; try done; [by eapply valid_dom|by rewrite Hl in Hr|apply increment_payload_bytes|..];
      by vm_compute. }
  destruct (encapsulate_fills m1 block payload_obj (increment_payload payload_bytes d) kSrcPort kMulticastPort kPublisherIp
    kGroupIp true Hc) as (m2 & E2 & F2 & _ & D2); [right; lia|]. rewrite Hl in E2, F2.
  fold (wire d) in F2. pose proof (read_bytes_length _ _ _ _ F2) as Hlen.
  exists m2. split.
  - unfold send_increment. rewrite increment_payload_splice. eapply bind_run; [exact E1|].
    eapply bind_run; [unfold lift; by rewrite Ea|]. cbv beta iota. eapply bind_run; [exact E2|].
    eapply bind_run.
    { apply load_run. cbn [data len Packet_new].
      replace (Z.to_nat (8 + Z.of_nat payload_bytes)) with (8 + payload_bytes)%nat by lia. exact F2. }
    cbv beta zeta. eapply bind_run; [unfold lift; cbn [data Packet_new]; by rewrite Ed|].
    cbn [len Packet_new]. rewrite sends_all, Hlen, Nat2Z.inj_add, Z.eqb_refl. done.
  - split; [by exists q|..]; (eapply valid_dom; [|eassumption]; intros y; by rewrite D2, D1).
Qed.


(** ** Runs of the publisher *)
Abbreviation seqs l := (map Messages.seq l).
Abbreviation heard S := (observe_all (seqs S) UdpDeliveryFeedback_new).

(** 1 when the increment waiting in the queue is older than something sent. *)
Definition overtaken (q : list MarketDataIncrement) (f : UdpDeliveryFeedback) : Z :=
  match q with d :: _ => if d.(Messages.seq) <? f.(expected_seq) then 1 else 0 | [] => 0 end.

(** After [n] iterations: what was sent, what waits and what was dropped are the
    numbers 1 to [n]. *)
Record feed_inv (n : Z) (p : publisher) (S : list MarketDataIncrement) (drops : list Z) : Prop := {
  fi_seq : p.(next_seq) = n + 1;
  fi_sent : p.(datagrams) = map (feed_datagram payload_bytes) S;
  fi_count : p.(sent_total) = Z.of_nat (length S);
  fi_dropped : p.(dropped_total) = Z.of_nat (length drops);
  fi_queue : (length p.(reorder_q) <= 1)%nat;
  fi_ok : Forall increment_ok S /\ Forall increment_ok p.(reorder_q);
  fi_perm : seqs S ++ seqs p.(reorder_q) ++ drops ≡ₚ seqZ 1 n;
  fi_swaps : (heard S).(reorder_events) + overtaken p.(reorder_q) (heard S) <= p.(reordered_total) <= n;
}.

Lemma seqZ_snoc n : 0 <= n -> seqZ 1 (n + 1) = seqZ 1 n ++ [n + 1].
Proof. clear. intros Hn. rewrite seqZ_app by lia. cbn. by rewrite Z.add_comm. Qed.

Lemma inv_member n p S drops x :
  feed_inv n p S drops -> x ∈ seqs S ++ seqs p.(reorder_q) ++ drops -> 1 <= x <= n.
Proof. clear. intros H Hx. rewrite (fi_perm _ _ _ _ H), elem_of_seqZ in Hx. lia. Qed.

Lemma inv_length n p S drops :
  0 <= n -> feed_inv n p S drops ->
  Z.of_nat (length S) + Z.of_nat (length p.(reorder_q)) + Z.of_nat (length drops) = n.
Proof.
  clear. intros Hn H. pose proof (Permutation_length (fi_perm _ _ _ _ H)) as Hl.
  rewrite !length_app, !length_map, length_seqZ in Hl. lia.
Qed.

Lemma inv_accounted n p S drops :
  0 <= n < 2 ^ 64 - 2 -> feed_inv n p S drops ->
  accounted (seqs S) (heard S) /\ expected_seq (heard S) <= n + 1.
Proof.
  clear. intros Hn H. assert (Forall (fun x => 1 <= x <= n) (seqs S)) as Hs.
  { apply Forall_forall. intros x Hx. apply (inv_member _ _ _ _ _ H). apply elem_of_app. by left. }
  pose proof (inv_length n p S drops ltac:(lia) H) as Hl.
  assert (accounted (seqs S) (heard S)) as Ha.
  { apply observe_all_accounted; [|rewrite length_map; lia]. eapply Forall_impl; [exact Hs|]. cbn. lia. }
  split; [done|]. destruct (ac_max _ _ Ha) as [->|Hin]; [lia|]. rewrite Forall_forall in Hs.
  specialize (Hs _ Hin). cbn in Hs. lia.
Qed.

Lemma heard_snoc S d : heard (S ++ [d]) = observe d.(Messages.seq) (heard S).
Proof. clear. unfold observe_all. by rewrite map_app, foldl_app. Qed.

Lemma inv_drop n p S drops :
  0 <= n < 2 ^ 64 - 2 -> feed_inv n p S drops ->
  feed_inv (n + 1) (mkPublisher (n + 2) p.(reorder_q) p.(sent_total) (u64 (p.(dropped_total) + 1))
    p.(reordered_total) p.(pub_pool) p.(datagrams)) S (drops ++ [n + 1]).
Proof.
  clear. intros Hn H. pose proof (inv_length n p S drops ltac:(lia) H) as Hl. destruct H.
  split; cbn [next_seq datagrams sent_total dropped_total reorder_q reordered_total]; try done; try lia.
  - rewrite length_app, wrap_small by (unfold in_width; lia). cbn [length]. lia.
  - rewrite seqZ_snoc, <- fi_perm0, <- !app_assoc by lia. done.
Qed.

Lemma inv_keep n p S drops d :
  feed_inv n p S drops -> p.(reorder_q) = [] -> d.(Messages.seq) = n + 1 -> increment_ok d ->
  0 <= n < 2 ^ 64 - 2 ->
  feed_inv (n + 1) (mkPublisher (n + 2) [d] p.(sent_total) p.(dropped_total)
    p.(reordered_total) p.(pub_pool) p.(datagrams)) S drops.
Proof.
  clear. intros H Eq Ed Hd Hn. destruct (inv_accounted n p S drops Hn H) as [_ He]. destruct H.
  rewrite Eq in *.
  split; cbn [next_seq datagrams sent_total dropped_total reorder_q reordered_total length]; try done; try lia.
  - split; [apply fi_ok0|by constructor].
  - rewrite seqZ_snoc, <- fi_perm0 by lia. cbn [map app]. rewrite Ed, <- !Permutation_cons_append.
    symmetry. apply Permutation_middle.
  - cbn [overtaken] in *. rewrite Ed. destruct (Z.ltb_spec (n + 1) (expected_seq (heard S))); lia.
Qed.

Lemma inv_send n p S drops a q r :
  feed_inv n p S drops -> 0 <= n < 2 ^ 64 - 2 -> (length q <= 1)%nat -> increment_ok a -> Forall increment_ok q ->
  seqs (a :: q) ≡ₚ seqs p.(reorder_q) ++ [n + 1] ->
  (observe a.(Messages.seq) (heard S)).(reorder_events) +
    overtaken q (observe a.(Messages.seq) (heard S)) <= r <= n + 1 ->
  feed_inv (n + 1) (mkPublisher (n + 2) q (u64 (p.(sent_total) + 1)) p.(dropped_total) r p.(pub_pool)
    (p.(datagrams) ++ [wire a])) (S ++ [a]) drops.
Proof.
  clear. intros H Hn Hq Ha Hqok Hperm Hr. pose proof (inv_length n p S drops ltac:(lia) H) as Hl. destruct H.
  split; cbn [next_seq datagrams sent_total dropped_total reorder_q reordered_total]; try done; try lia.
  - by rewrite map_app, fi_sent0.
  - rewrite length_app, wrap_small by (unfold in_width; lia). cbn [length]. lia.
  - split; [|done]. apply Forall_app. split; [apply fi_ok0|by constructor].
  - rewrite seqZ_snoc, <- fi_perm0, map_app, <- !app_assoc by lia. apply Permutation_app_head.
    cbn [map app]. cbn [map] in Hperm. rewrite app_comm_cons, Hperm, <- app_assoc.
    apply Permutation_app_head, Permutation_app_comm.
  - by rewrite heard_snoc.
Qed.

(** The queue holds two increments: the first is sent, the second waits. *)
Lemma drain_two a b p m :
  pub_ready p.(pub_pool) m ->
  exists m', drain_queue sendto payload_obj payload_bytes [a; b] p m =
    Some ((true, mkPublisher p.(next_seq) [b] (u64 (p.(sent_total) + 1)) p.(dropped_total)
       p.(reordered_total) p.(pub_pool) (p.(datagrams) ++ [wire a])), m') /\
    pub_ready p.(pub_pool) m'.
Proof.
  intros Hp. destruct (send_increment_run a (with_queue [b] p) m Hp) as (m' & E & Hp'). exists m'.
  split; [|exact Hp']. cbn [drain_queue]. eapply bind_run; [exact E|]. reflexivity.
Qed.

Lemma next_increment_ok ts p :
  1 <= p.(next_seq) < 2 ^ 64 -> in_width 64 ts -> 1 <= streams -> increment_ok (next_increment streams ts p).
Proof.
  clear. intros Hs Ht Hst. unfold increment_ok. cbn. unfold in_width in *.
  split; [lia|]. split; [apply wrap_range; lia|]. lia.
Qed.

Lemma publish_step n p S drops t m :
  feed_inv n p S drops -> 0 <= n < 2 ^ 64 - 2 -> pub_ready p.(pub_pool) m -> in_width 64 t.(clock_ns) ->
  1 <= streams ->
  exists p' m' S', publish sendto payload_obj payload_bytes streams t.(dropped) t.(swapped) t.(clock_ns) p m =
      Some ((true, p'), m') /\ pub_ready p'.(pub_pool) m' /\
    feed_inv (n + 1) p' S' (drops ++ if t.(dropped) then [n + 1] else []).
Proof.
  intros H Hn Hp Hts Hst. destruct (inv_accounted n p S drops Hn H) as [Hacc He].
  pose proof (inv_length n p S drops ltac:(lia) H) as Hlen.
  assert (Z.of_nat (length (seqs S)) + 1 < 2 ^ 64) as HlS by (rewrite length_map; lia).
  pose proof (fi_seq _ _ _ _ H) as Eseq. set (d := next_increment streams t.(clock_ns) p).
  assert (d.(Messages.seq) = n + 1) as Ed by exact Eseq.
  assert (increment_ok d) as Hd by (apply next_increment_ok; lia || done).
  unfold publish. fold d. rewrite Eseq. replace (u64 (n + 1 + 1)) with (n + 2) by (rewrite wrap_small; unfold in_width; lia).
  destruct (dropped t).
  { do 2 eexists. exists S. split; [reflexivity|]. split; [exact Hp|]. exact (inv_drop n p S drops Hn H). }
  rewrite app_nil_r. destruct (reorder_q p) as [|x [|y q]] eqn:Eq; [| |pose proof (fi_queue _ _ _ _ H) as Hq; rewrite Eq in Hq; cbn in Hq; lia].
  { cbn [app length Nat.leb]. rewrite andb_false_r. do 2 eexists. exists S. split; [reflexivity|].
    split; [exact Hp|]. exact (inv_keep n p S drops d H Eq Ed Hd Hn). }
  assert (increment_ok x) as Hx by (pose proof (fi_ok _ _ _ _ H) as [_ Hx]; rewrite Eq in Hx; by inversion Hx).
  assert (1 <= x.(Messages.seq) <= n) as Hxn.
  { apply (inv_member _ _ _ _ _ H). rewrite Eq. apply elem_of_app. right. by left. }
  pose proof (fi_swaps _ _ _ _ H) as Hsw. rewrite Eq in Hsw. cbn [overtaken] in Hsw.
  pose proof (ac_reorder _ _ Hacc) as Hre.
  cbn [app length Nat.leb]. rewrite andb_true_r. destruct (swapped t).
  - cbn [swap_last rev app].
    match goal with |- context [drain_queue _ _ _ _ ?p0] =>
      destruct (drain_two d x p0 m Hp) as (m' & E & Hp') end.
    eexists _, m', (S ++ [d]). split; [exact E|]. split; [exact Hp'|].
    cbn [next_seq sent_total dropped_total reordered_total pub_pool datagrams] in *.
    destruct (observe_newer _ _ (n + 1) Hacc) as [E1 E2]; [lia|done|].
    apply (inv_send n p); try done; [by constructor|rewrite Eq; cbn [map app]; rewrite Ed; apply perm_swap|].
    cbn [overtaken]. rewrite Ed, E1, E2.
    destruct (Z.ltb_spec (Messages.seq x) (n + 1 + 1)), (Z.ltb_spec (Messages.seq x) (expected_seq (heard S)));
      rewrite ?wrap_small by (unfold in_width; lia); lia.
  - match goal with |- context [drain_queue _ _ _ _ ?p0] =>
      destruct (drain_two x d p0 m Hp) as (m' & E & Hp') end.
    eexists _, m', (S ++ [x]). split; [exact E|]. split; [exact Hp'|].
    cbn [next_seq sent_total dropped_total reordered_total pub_pool datagrams with_queue] in *.
    apply (inv_send n p); try done; [by constructor|rewrite Eq; cbn [map app]; by rewrite Ed|].
    cbn [overtaken]. rewrite Ed. destruct (Z.ltb_spec (Messages.seq x) (expected_seq (heard S))) as [Hlt|Hge].
    + destruct (observe_older _ _ (Messages.seq x) Hacc) as [E1 E2]; [lia|done|]. rewrite E1, E2.
      destruct (Z.ltb_spec (n + 1) (expected_seq (heard S))); lia.
    + destruct (observe_newer _ _ (Messages.seq x) Hacc) as [E1 E2]; [lia|done|]. rewrite E1, E2.
      destruct (Z.ltb_spec (n + 1) (Messages.seq x + 1)); lia.
Qed.

(** The sequence numbers dropped by a run that starts after [n] iterations. *)
Fixpoint dropped_seqs (n : Z) (ticks : list tick) : list Z :=
  match ticks with
  | [] => []
  | t :: ticks => (if t.(dropped) then [n + 1] else []) ++ dropped_seqs (n + 1) ticks
  end.

Lemma publish_all_run ticks n p S drops m :
  feed_inv n p S drops -> 0 <= n -> n + Z.of_nat (length ticks) < 2 ^ 64 - 2 -> pub_ready p.(pub_pool) m ->
  Forall (fun t => in_width 64 t.(clock_ns)) ticks -> 1 <= streams ->
  exists p' m' S', publish_all sendto payload_obj payload_bytes streams ticks p m = Some ((true, p'), m') /\
    feed_inv (n + Z.of_nat (length ticks)) p' S' (drops ++ dropped_seqs n ticks).
Proof.
  intros H Hn Hlen Hp Ht Hst. revert n p S drops m H Hn Hlen Hp.
  induction Ht as [|t ticks Ht _ IH]; intros n p S drops m H Hn Hlen Hp; cbn [publish_all dropped_seqs length] in *.
  { exists p, m, S. rewrite app_nil_r, Z.add_0_r. done. }
  destruct (publish_step n p S drops t m H) as (p1 & m1 & S1 & E1 & Hp1 & H1); [lia|done..|].
  destruct (IH (n + 1) p1 S1 _ m1 H1) as (p2 & m2 & S2 & E2 & H2); [lia|lia|done|].
  exists p2, m2, S2. split; [eapply bind_run; [exact E1|exact E2]|].
  rewrite <- app_assoc in H2. replace (n + Z.of_nat (Datatypes.S (length ticks))) with (n + 1 + Z.of_nat (length ticks)) by lia.
  done.
Qed.

(** A network that delivers every datagram, in order, into the buffer at [rx];
    [clock k] is the subscriber's clock at the k-th. *)
Fixpoint deliver_all (rx : ptr) (clock : nat -> Z) (k : nat) (dgs : list (list Z)) (s : subscriber)
    : M subscriber :=
  match dgs with
  | [] => mret s
  | dg :: dgs =>
      store rx dg ;;
      s ← process_packet (Packet_new rx (Z.of_nat (length dg)) 0) (clock k) s;
      deliver_all rx clock (Datatypes.S k) dgs s
  end.

Lemma deliver_all_run rx clock k S s m :
  Forall increment_ok S -> valid m rx (8 + payload_bytes) ->
  exists s' m', deliver_all rx clock k (map (feed_datagram payload_bytes) S) s m = Some (s', m') /\
    s'.(feedback) = observe_all (seqs S) s.(feedback).
Proof.
  intros HS. revert k s m. induction HS as [|d S Hd _ IH]; intros k s m Hv; cbn [map deliver_all]; [by exists s, m|].
  assert (length (feed_datagram payload_bytes d) = (8 + payload_bytes)%nat) as Hl.
  { unfold feed_datagram. by rewrite length_datagram, length_increment_payload. }
  destruct (store_prefix m rx (8 + payload_bytes) (feed_datagram payload_bytes d) Hv) as (m1 & E1 & Hr & _ & D1); [lia|].
  rewrite Hl in Hr. destruct (process_packet_run payload_bytes payload_size d rx (clock k) s m1 Hd Hr) as (lat & E2).
  destruct (IH (Datatypes.S k) (mkSubscriber (observe d.(Messages.seq) s.(feedback)) lat) m1) as (s' & m' & E3 & Ef);
    [by eapply valid_dom|].
  exists s', m'. split; [|exact Ef]. eapply bind_run; [exact E1|]. rewrite Hl, Nat2Z.inj_add.
  eapply bind_run; [exact E2|exact E3].
Qed.

(** Numbers up to [M]. *)
Definition upto (M : Z) (l : list Z) : Z := Z.of_nat (length (filter (fun x => x <= M) l)).

Lemma upto_app M l k : upto M (l ++ k) = upto M l + upto M k.
Proof. clear. unfold upto. rewrite filter_app, length_app. lia. Qed.

Lemma upto_seqZ M n : 0 <= M <= n -> upto M (seqZ 1 n) = M.
Proof.
  clear. intros H. replace n with (M + (n - M)) by lia. rewrite seqZ_app by lia. rewrite upto_app. unfold upto.
  rewrite filter_all by (apply Forall_forall; intros x Hx%elem_of_seqZ; lia). rewrite length_seqZ.
  rewrite filter_none by (apply Forall_forall; intros x Hx%elem_of_seqZ; lia). cbn. lia.
Qed.

(** C9: What the subscriber's loss counters mean.  For any run of the publisher,
    whatever it drops and swaps, over a network that delivers its datagrams in
    order: the subscriber's total is what was sent; its gap count is exactly the
    dropped increments among those numbered up to the newest received, plus the
    one increment the publisher may still hold back, plus one per reordering it
    saw; and it sees no more reorderings than the publisher made swaps. *)
Theorem feed_gaps_explained pool ticks m rx clock ms :
  pub_ready pool m -> Z.of_nat (length ticks) < 2 ^ 64 - 2 ->
  Forall (fun t => in_width 64 t.(clock_ns)) ticks -> 1 <= streams -> valid ms rx (8 + payload_bytes) ->
  exists p m' s ms', publish_all sendto payload_obj payload_bytes streams ticks (publisher_init pool) m =
      Some ((true, p), m') /\
    deliver_all rx clock 0 p.(datagrams) subscriber_init ms = Some (s, ms') /\
    let f := s.(feedback) in
    let newest := f.(expected_seq) - 1 in
    f.(total) = p.(sent_total) /\
    f.(gaps) = upto newest (dropped_seqs 0 ticks) + upto newest (seqs p.(reorder_q)) + f.(reorder_events) /\
    f.(reorder_events) <= p.(reordered_total) /\
    (length p.(reorder_q) <= 1)%nat /\
    p.(dropped_total) = Z.of_nat (length (dropped_seqs 0 ticks)) /\
    newest <= Z.of_nat (length ticks).
Proof.
  intros Hp Hl Ht Hst Hv.
  assert (feed_inv 0 (publisher_init pool) [] []) as H0 by (split; cbn; done || lia).
  destruct (publish_all_run ticks 0 (publisher_init pool) [] [] m H0) as (p & m' & S & E & H); [done|lia|done..|].
  cbn [app] in H. rewrite Z.add_0_l in H. set (n := Z.of_nat (length ticks)) in *.
  destruct (deliver_all_run rx clock 0 S subscriber_init ms) as (s & ms' & Es & Ef); [apply H|done|].
  destruct (inv_accounted n p S _ ltac:(lia) H) as [Ha He].
  exists p, m', s, ms'. split; [exact E|]. rewrite (fi_sent _ _ _ _ H). split; [exact Es|].
  rewrite Ef. cbn [subscriber_init feedback]. fold (heard S). cbv zeta.
  assert (0 <= expected_seq (heard S) - 1 <= n) as HM by (destruct Ha; lia).
  pose proof (upto_seqZ _ n HM) as Hu. unfold upto in Hu at 1. rewrite <- (fi_perm _ _ _ _ H) in Hu.
  fold (upto (expected_seq (heard S) - 1) (seqs S ++ seqs (reorder_q p) ++ dropped_seqs 0 ticks)) in Hu.
  rewrite !upto_app in Hu. unfold upto in Hu at 1. rewrite filter_all in Hu.
  2: { eapply Forall_impl; [apply (ac_seen _ _ Ha)|]. cbn. lia. }
  pose proof (ac_balance _ _ Ha) as Hb. pose proof (ac_total _ _ Ha) as Htot. pose proof (fi_swaps _ _ _ _ H) as Hsw.
  assert (0 <= overtaken (reorder_q p) (heard S)) as Hov.
  { unfold overtaken. destruct (reorder_q p); [lia|]. by destruct (_ <? _). }
  rewrite length_map in *. split; [rewrite Htot; by rewrite (fi_count _ _ _ _ H)|].
  split; [lia|]. split; [lia|]. split; [apply H|]. split; [apply H|lia].
Qed.
End Sending.

(** ** The subscriber's polling *)

(** The subscriber stops before it receives anything.  Both the poller and the
    batch receive take [g_running], which is true while the program runs, for
    their cancel flag: the busy-poll loop ends in its first round, Cancelled, with
    no iteration made, and the poll function itself, were it called, would report
    no data and leave the ring and the counters as they are, whatever the socket
    holds. *)
Theorem subscriber_stops_at_once start idle r rs g_running sys poll fuel buffers lens clock ring s m :
  let handle := fun (_ : PacketRing) pkt k => process_packet pkt (clock k) in
  r.(running) = true -> r.(cancel) = true -> (forall i, (i <= 3)%nat -> g_running i = true) ->
  PacketRing.try_pop ring = Some (None, ring) ->
  start_with_control poll_cfg poll_control start idle (r :: rs) =
    Some (BusyPoll.mkResult 0 0 BusyPoll.Cancelled) /\
  poll_function handle g_running sys poll (Datatypes.S fuel) buffers lens ring s m =
    Some ((mkPoll false false false, ring, s), m).
Proof.
  intros handle Hr Hc Hg Hpop. split.
  - unfold start_with_control, poll_control. cbn [poll_loop]. unfold step. rewrite Hr. cbn [negb BusyPoll.has_flag].
    by rewrite Hc.
  - unfold poll_function. rewrite Hg by lia. cbn [negb]. unfold recv_batch_ring, recvmmsg_with_policy.
    cbn [BatchIo.has_flag cancelled_before receive_kernel]. rewrite Hg by lia. cbn [andb Z.eqb Pos.eqb mbind option_bind].
    eapply bind_run; [unfold lift; cbn [ret Z.leb Z.compare mbind option_bind]; reflexivity|].
    cbv beta iota. unfold classify. cbn [ret Z.ltb Z.compare BatchIo.has_flag cancelled_after receive_kernel]. rewrite Hg by lia.
    cbn [andb of_batch of_batch_status BatchIo.status IoStatus.status IoStatus.count BatchIo.count].
    rewrite bool_decide_eq_false_2 by done. unfold classify_loop_control. cbn [IoStatus.status].
    eapply (bind_run _ _ _ (0%nat, ring, s)); [|reflexivity]. cbn [process_ring].
    eapply bind_run; [unfold lift; by rewrite Hpop|]. done.
Qed.

(** ** Witnesses *)
Definition demo_pub_pool : Pool.MemoryPool := Pool.mkMemoryPool 64 2 4000 128 [1; SIZE_MAX] 0.
Definition demo_pub_mem : mem := alloc (alloc ∅ 4000 (replicate 64 0)) 5000 (replicate 40 0).
Definition demo_rx_mem : mem := alloc ∅ 3000 (replicate 48 0).
Definition demo_sendto (w : list (list Z)) (bs : list Z) : Z := Z.of_nat (length bs).

Lemma demo_pub_ready : pub_ready 5000 4000 40 demo_pub_pool demo_pub_mem.
Proof.
  split; [eexists; split; reflexivity|apply read_bytes_valid; eexists; vm_compute; reflexivity..].
Qed.

(** 1 waits, 2 is swapped before it, 3 is dropped, 4 pushes 1 out. *)
Definition demo_ticks : list tick :=
  [mkTick false false 10; mkTick false true 20; mkTick true false 30; mkTick false false 40].

Lemma feed_gaps_explained_witness :
  exists p m' s ms', publish_all demo_sendto 5000 40 2 demo_ticks (publisher_init demo_pub_pool) demo_pub_mem =
      Some ((true, p), m') /\
    deliver_all 3000 (fun _ => 100) 0 p.(datagrams) subscriber_init demo_rx_mem = Some (s, ms') /\
    s.(feedback).(total) = p.(sent_total) /\
    s.(feedback).(gaps) = upto (s.(feedback).(expected_seq) - 1) [3] +
      upto (s.(feedback).(expected_seq) - 1) (map Messages.seq p.(reorder_q)) + s.(feedback).(reorder_events) /\
    p.(dropped_total) = 1.
Proof.
  destruct (feed_gaps_explained demo_sendto 5000 4000 40 2) with
    (pool := demo_pub_pool) (ticks := demo_ticks) (m := demo_pub_mem) (rx := 3000) (clock := fun _ : nat => 100)
    (ms := demo_rx_mem) as (p & m' & s & ms' & E1 & E2 & Et & Eg & _ & _ & Ed & _).
  - reflexivity.
  - lia.
  - lia.
  - apply demo_pub_ready.
  - reflexivity.
  - by repeat constructor.
  - lia.
  - apply read_bytes_valid. eexists. vm_compute. reflexivity.
  - exists p, m', s, ms'. split; [exact E1|]. split; [exact E2|]. split; [exact Et|]. split; [exact Eg|exact Ed].
Defined.

Lemma subscriber_stops_at_once_witness :
  let r := mkRound true true 0 true 0 0 in
  let ring := mkPacketRing 2 1 0 0 [Packet_default; Packet_default] in
  start_with_control poll_cfg poll_control 0 0 [r] = Some (BusyPoll.mkResult 0 0 BusyPoll.Cancelled) /\
  poll_function (fun _ pkt _ => process_packet pkt 0) (fun _ => true) (fun _ => 16) (fun _ => 1) 1 [] [] ring subscriber_init ∅ = Some ((mkPoll false false false, ring, subscriber_init), ∅).
Proof.
  apply (subscriber_stops_at_once 0 0 (mkRound true true 0 true 0 0) [] (fun _ => true) (fun _ => 16) (fun _ => 1)
    0 [] [] (fun _ => 0)); reflexivity.
Defined.
