(* ===== verification/Sockets.v ===== *)
(** * Sockets: descriptor ownership of TcpSocket and UdpSocket
    (protocol/tcp_socket.hpp, protocol/udp_socket.hpp)

    The kernel's descriptor table maps open descriptors to their attributes; what
    each system call answers is an argument.  A call that returns a negative
    number failed.  [errno] is modelled where the code sets it itself. *)
From Stdlib Require Strings.String.
From S2P Require Import Prelude Bytes Memory Packet Fifo RingSlots PacketRing BatchIo IoStatus.

Record attrs := mkAttrs {
  file_flags : Z;
  reuse_addr : bool;
  no_delay : bool;
  local : option (Z * Z);
  backlog : option Z;
  peer : option (Z * Z);
  rcv_timeout : option (Z * Z);
}.

Abbreviation table := (gmap Z attrs).

Definition O_NONBLOCK : Z := 2048.
Definition EBADF : Z := 9.
Definition EINPROGRESS : Z := 115.
Definition INADDR_ANY : Z := 0.

(** A fresh socket, and updates of one descriptor's attributes. *)
Definition new_socket (flags : Z) : attrs := mkAttrs flags false false None None None None.
Definition set_file_flags (f : Z) (a : attrs) : attrs :=
  mkAttrs f a.(reuse_addr) a.(no_delay) a.(local) a.(backlog) a.(peer) a.(rcv_timeout).
Definition set_options (r d : bool) (a : attrs) : attrs :=
  mkAttrs a.(file_flags) r d a.(local) a.(backlog) a.(peer) a.(rcv_timeout).
Definition set_local (l : Z * Z) (a : attrs) : attrs :=
  mkAttrs a.(file_flags) a.(reuse_addr) a.(no_delay) (Some l) a.(backlog) a.(peer) a.(rcv_timeout).
Definition set_backlog (n : Z) (a : attrs) : attrs :=
  mkAttrs a.(file_flags) a.(reuse_addr) a.(no_delay) a.(local) (Some n) a.(peer) a.(rcv_timeout).
Definition set_peer (p : Z * Z) (a : attrs) : attrs :=
  mkAttrs a.(file_flags) a.(reuse_addr) a.(no_delay) a.(local) a.(backlog) (Some p) a.(rcv_timeout).
Definition set_rcv_timeout (tv : Z * Z) (a : attrs) : attrs :=
  mkAttrs a.(file_flags) a.(reuse_addr) a.(no_delay) a.(local) a.(backlog) a.(peer) (Some tv).

(** The kernel hands out descriptors that are not in use. *)
Definition fresh (fd : Z) (t : table) : Prop := fd < 0 \/ t !! fd = None.

(** ** TcpSocket *)
Module Tcp.
Record TcpSocket := mkTcpSocket { fd_ : Z }.
Definition TcpSocket_default : TcpSocket := mkTcpSocket (-1).

Definition is_open (s : TcpSocket) : bool := 0 <=? s.(fd_).
Definition fd (s : TcpSocket) : Z := s.(fd_).

(** [close], also the destructor. *)
Definition close (s : TcpSocket) (t : table) : TcpSocket * table :=
  if 0 <=? s.(fd_) then (mkTcpSocket (-1), delete s.(fd_) t) else (s, t).

(** The moves: the new value of this and of the other object. *)
Definition move_construct (other : TcpSocket) : TcpSocket * TcpSocket :=
  (mkTcpSocket other.(fd_), mkTcpSocket (-1)).
Definition move_assign (same_object : bool) (this other : TcpSocket) (t : table)
    : TcpSocket * TcpSocket * table :=
  if same_object then (this, other, t) else
  let '(_, t) := close this t in (mkTcpSocket other.(fd_), mkTcpSocket (-1), t).
Definition release (s : TcpSocket) : Z * TcpSocket := (s.(fd_), mkTcpSocket (-1)).

Record server_answers := mkServer {
  sv_socket : Z; sv_reuse : Z; sv_nodelay : Z; sv_bind : Z; sv_listen : Z }.

Definition create_server (port n : Z) (nonblock : bool) (a : server_answers) (t : table)
    : TcpSocket * table :=
  let fd := a.(sv_socket) in
  if fd <? 0 then (mkTcpSocket (-1), t) else
  let t := <[fd := new_socket (if nonblock then O_NONBLOCK else 0)]> t in
  let t := alter (set_options (0 <=? a.(sv_reuse)) (0 <=? a.(sv_nodelay))) fd t in
  if a.(sv_bind) <? 0 then (mkTcpSocket (-1), delete fd t) else
  let t := alter (set_local (htonl INADDR_ANY, htons port)) fd t in
  if a.(sv_listen) <? 0 then (mkTcpSocket (-1), delete fd t) else
  (mkTcpSocket fd, alter (set_backlog n) fd t).

(** [cn_pton]: the address [inet_pton] reads, [None] when it fails;
    [cn_getfl]: the file flags, or a negative number. *)
Record connect_answers := mkConnect {
  cn_socket : Z; cn_pton : option Z; cn_getfl : Z; cn_setfl : Z; cn_connect : Z; cn_errno : Z;
  cn_poll : Z; cn_getsockopt : Z; cn_so_error : Z; cn_restore : Z; cn_rcvtimeo : Z }.

Definition connect_to (port timeout_ms : Z) (a : connect_answers) (t : table) : TcpSocket * table :=
  let fd := a.(cn_socket) in
  if fd <? 0 then (mkTcpSocket (-1), t) else
  let t := <[fd := new_socket 0]> t in
  match a.(cn_pton) with
  | None => (mkTcpSocket (-1), delete fd t)
  | Some ip =>
      let flags := a.(cn_getfl) in
      if flags <? 0 then (mkTcpSocket (-1), delete fd t) else
      if a.(cn_setfl) <? 0 then (mkTcpSocket (-1), delete fd t) else
      let t := alter (set_file_flags (Z.lor flags O_NONBLOCK)) fd t in
      if (a.(cn_connect) <? 0) && negb (a.(cn_errno) =? EINPROGRESS) then
        (mkTcpSocket (-1), delete fd t)
      else if (a.(cn_connect) <? 0) && (a.(cn_poll) <=? 0) then (mkTcpSocket (-1), delete fd t)
      else if (a.(cn_connect) <? 0) &&
              ((a.(cn_getsockopt) <? 0) || negb (a.(cn_so_error) =? 0)) then
        (mkTcpSocket (-1), delete fd t)
      else
        let t := alter (set_peer (ip, htons port)) fd t in
        let t := if 0 <=? a.(cn_restore) then alter (set_file_flags flags) fd t else t in
        let tv := (Z.quot timeout_ms 1000, Z.rem timeout_ms 1000 * 1000) in
        let t := if 0 <=? a.(cn_rcvtimeo) then alter (set_rcv_timeout tv) fd t else t in
        (mkTcpSocket fd, t)
  end.

(** A call on a descriptor: its result and, when it fails by itself, the errno it
    sets. *)
Definition guarded (fd answer : Z) : Z * option Z :=
  if fd <? 0 then (-1, Some EBADF) else (answer, None).

(** [accept] and [accept_from]: [answer] is what [accept4] returns and the peer
    it reports; [out_addr] is the caller's address variable, if it gave one. *)
Definition accept_from (listen_fd : Z) (out_addr : option (Z * Z)) (nonblock : bool)
    (answer : Z * (Z * Z)) (t : table) : Z * option Z * option (Z * Z) * table :=
  if listen_fd <? 0 then (-1, Some EBADF, out_addr, t) else
  let '(conn_fd, addr) := answer in
  let t := if 0 <=? conn_fd
           then <[conn_fd := set_peer addr (new_socket (if nonblock then O_NONBLOCK else 0))]> t
           else t in
  (conn_fd, None,
   match out_addr with
   | Some _ => if 0 <=? conn_fd then Some addr else out_addr
   | None => None
   end, t).

Definition accept (s : TcpSocket) := accept_from s.(fd_).
Definition read_from (fd answer : Z) : Z * option Z := guarded fd answer.
Definition write_to (fd answer : Z) : Z * option Z := guarded fd answer.
Definition read (s : TcpSocket) (answer : Z) : Z * option Z := guarded s.(fd_) answer.
Definition write (s : TcpSocket) (answer : Z) : Z * option Z := guarded s.(fd_) answer.

(** ** Programs over socket objects

    Variables hold the live objects; [released] lists the descriptors the caller
    holds, from [release] and [accept]; [Adopt] is the constructor that takes one. *)
Record world := mkWorld { objs : gmap nat TcpSocket; open : table; released : list Z }.

Inductive op : Type :=
  | Server (i : nat) (port n : Z) (nonblock : bool) (a : server_answers)
  | Connect (i : nat) (port timeout_ms : Z) (a : connect_answers)
  | MoveConstruct (i j : nat) | MoveAssign (i j : nat) | Close (i : nat) | Release (i : nat)
  | Destroy (i : nat) | Accept (i : nat) (nonblock : bool) (answer : Z * (Z * Z))
  | Adopt (i : nat) (d : Z).

(** [None] for an operation on a variable that does not exist, or a construction
    of one that does. *)
Definition run_op (o : op) (w : world) : option world :=
  match o with
  | Server i port n nb a =>
      match w.(objs) !! i with
      | Some _ => None
      | None => let '(s, t) := create_server port n nb a w.(open) in
                Some (mkWorld (<[i := s]> w.(objs)) t w.(released))
      end
  | Connect i port ms a =>
      match w.(objs) !! i with
      | Some _ => None
      | None => let '(s, t) := connect_to port ms a w.(open) in
                Some (mkWorld (<[i := s]> w.(objs)) t w.(released))
      end
  | MoveConstruct i j =>
      match w.(objs) !! i, w.(objs) !! j with
      | None, Some x => let '(s, x) := move_construct x in
                        Some (mkWorld (<[i := s]> (<[j := x]> w.(objs))) w.(open) w.(released))
      | _, _ => None
      end
  | MoveAssign i j =>
      match w.(objs) !! i, w.(objs) !! j with
      | Some s, Some x =>
          let '(s, x, t) := move_assign (bool_decide (i = j)) s x w.(open) in
          Some (mkWorld (<[i := s]> (<[j := x]> w.(objs))) t w.(released))
      | _, _ => None
      end
  | Close i =>
      match w.(objs) !! i with
      | Some s => let '(s, t) := close s w.(open) in
                  Some (mkWorld (<[i := s]> w.(objs)) t w.(released))
      | None => None
      end
  | Release i =>
      match w.(objs) !! i with
      | Some s => let '(r, s) := release s in
                  Some (mkWorld (<[i := s]> w.(objs)) w.(open)
                          (if 0 <=? r then r :: w.(released) else w.(released)))
      | None => None
      end
  | Destroy i =>
      match w.(objs) !! i with
      | Some s => let '(_, t) := close s w.(open) in
                  Some (mkWorld (delete i w.(objs)) t w.(released))
      | None => None
      end
  | Accept i nonblock answer =>
      match w.(objs) !! i with
      | Some s => let '(conn_fd, _, _, t) := accept s None nonblock answer w.(open) in
                  Some (mkWorld w.(objs) t
                          (if 0 <=? conn_fd then conn_fd :: w.(released) else w.(released)))
      | None => None
      end
  | Adopt i d =>
      match w.(objs) !! i with
      | Some _ => None
      | None => if bool_decide (d ∈ w.(released))
                then Some (mkWorld (<[i := mkTcpSocket d]> w.(objs)) w.(open)
                             (filter (fun x => x <> d) w.(released)))
                else None
      end
  end.

Definition run_ops (os : list op) (w : world) : option world :=
  foldl (fun w o => w ≫= run_op o) (Some w) os.

(** ** Ownership *)

Definition op_ok (o : op) (w : world) : Prop :=
  match o with
  | Server _ _ _ _ a => fresh a.(sv_socket) w.(open)
  | Connect _ _ _ a => fresh a.(cn_socket) w.(open)
  | Accept _ _ a => fresh a.1 w.(open)
  | _ => True
  end.

Fixpoint run_ok (os : list op) (w : world) : Prop :=
  match os with
  | [] => True
  | o :: os => op_ok o w /\ match run_op o w with Some w' => run_ok os w' | None => True end
  end.

Record owned (w : world) : Prop := {
  ow_open : forall i s, w.(objs) !! i = Some s -> 0 <= s.(fd_) -> is_Some (w.(open) !! s.(fd_));
  ow_one : forall i j s x, w.(objs) !! i = Some s -> w.(objs) !! j = Some x ->
    0 <= s.(fd_) -> s.(fd_) = x.(fd_) -> i = j;
  ow_free : forall i s, w.(objs) !! i = Some s -> s.(fd_) ∉ w.(released);
  ow_all : forall d, is_Some (w.(open) !! d) -> 0 <= d /\
    (d ∈ w.(released) \/ exists i s, w.(objs) !! i = Some s /\ s.(fd_) = d);
  ow_released : forall d, d ∈ w.(released) -> is_Some (w.(open) !! d);
}.

Lemma delete_fresh (fd : Z) (a : attrs) (t : table) : t !! fd = None -> delete fd (<[fd := a]> t) = t.
Proof. intros H. by rewrite delete_insert_eq, delete_id. Qed.

(** What a constructor leaves: an open socket on the fresh descriptor, or a
    closed one and the table as it was. *)
Definition constructed (fd : Z) (t : table) (r : TcpSocket * table) : Prop :=
  (r.1.(fd_) = fd /\ 0 <= fd /\ forall d, is_Some (r.2 !! d) <-> d = fd \/ is_Some (t !! d)) \/
  (r.1 = mkTcpSocket (-1) /\ r.2 = t).

Lemma alter_dom (f : attrs -> attrs) (k d : Z) (t : table) : is_Some (alter f k t !! d) <-> is_Some (t !! d).
Proof. rewrite <- !elem_of_dom, dom_alter_L. done. Qed.

Lemma delete_alter_eq (f : attrs -> attrs) (k : Z) (t : table) : delete k (alter f k t) = delete k t.
Proof.
  apply map_eq. intros d. destruct (decide (d = k)) as [->|]; [by rewrite !lookup_delete_eq|].
  by rewrite !lookup_delete_ne, lookup_alter_ne.
Qed.

Lemma insert_dom (k d : Z) (a : attrs) (t : table) : is_Some (<[k := a]> t !! d) <-> d = k \/ is_Some (t !! d).
Proof. rewrite <- !elem_of_dom, dom_insert_L, elem_of_union, elem_of_singleton. done. Qed.

Lemma create_server_spec port n nb a t :
  fresh a.(sv_socket) t -> constructed a.(sv_socket) t (create_server port n nb a t).
Proof.
  intros Hf. unfold create_server, constructed. destruct (Z.ltb_spec (sv_socket a) 0); [by right|].
  destruct Hf as [|Hf]; [lia|]. destruct (sv_bind a <? 0); [|destruct (sv_listen a <? 0)].
  - right. by rewrite delete_alter_eq, delete_fresh.
  - right. by rewrite !delete_alter_eq, delete_fresh.
  - left. split; [done|]. split; [done|]. intros d. cbn [snd].
    by rewrite !alter_dom, insert_dom.
Qed.

Lemma connect_to_spec port ms a t :
  fresh a.(cn_socket) t -> constructed a.(cn_socket) t (connect_to port ms a t).
Proof.
  intros Hf. unfold connect_to, constructed. destruct (Z.ltb_spec (cn_socket a) 0); [by right|].
  destruct Hf as [|Hf]; [lia|].
  destruct (cn_pton a); [|right; by rewrite delete_fresh].
  destruct (cn_getfl a <? 0); [right; by rewrite delete_fresh|].
  destruct (cn_setfl a <? 0); [right; by rewrite delete_fresh|].
  do 3 (destruct (_ && _); [right; by rewrite delete_alter_eq, delete_fresh|]).
  left. split; [done|]. split; [done|]. intros d. cbn [snd].
  destruct (0 <=? cn_restore a), (0 <=? cn_rcvtimeo a); rewrite !alter_dom, insert_dom; done.
Qed.

Lemma add_owned w i fd r :
  owned w -> w.(objs) !! i = None -> fresh fd w.(open) -> constructed fd w.(open) r ->
  owned (mkWorld (<[i := r.1]> w.(objs)) r.2 w.(released)).
Proof.
  intros [H1 H2 H3 H4 H5] Hi Hf [(E & Hfd & Hd)|[E1 E2]].
  - destruct Hf as [|Hf]; [lia|]. assert (forall j s, objs w !! j = Some s -> s.(fd_) <> fd) as Hne.
    { intros j s Hj Es. destruct (H1 j s Hj) as [x Hx]; [lia|]. by rewrite Es, Hf in Hx. }
    split; cbn [objs open released].
    + intros j s [[<- <-]|[_ Hj]]%lookup_insert_Some Hs; apply Hd; [by left|right; eauto].
    + intros j k s x [[<- <-]|[_ Hj]]%lookup_insert_Some [[<- <-]|[_ Hk]]%lookup_insert_Some Hs Ex; try done.
      * exfalso. apply (Hne k x Hk). congruence.
      * exfalso. apply (Hne j s Hj). congruence.
      * eauto.
    + intros j s [[<- <-]|[_ Hj]]%lookup_insert_Some; [|eauto]. rewrite E. intros Hin.
      apply H5 in Hin as [x Hx]. by rewrite Hf in Hx.
    + intros d [->|Hd']%Hd; [split; [done|]; right; exists i, r.1; by rewrite lookup_insert_eq|].
      destruct (H4 d Hd') as [Hp [?|(j & s & Hj & Es)]]; (split; [done|]); [by left|]. right. exists j, s.
      split; [|done]. rewrite lookup_insert_ne; [done|]. intros ->. by rewrite Hi in Hj.
    + intros d Hin. apply Hd. right. auto.
  - rewrite E1, E2. split; cbn [objs open released]; try done.
    + intros j s [[<- <-]|[_ Hj]]%lookup_insert_Some Hs; [cbn in Hs; lia|eauto].
    + intros j k s x [[<- <-]|[_ Hj]]%lookup_insert_Some [[<- <-]|[_ Hk]]%lookup_insert_Some Hs Ex;
        cbn [fd_] in *; try lia; eauto.
    + intros j s [[<- <-]|[_ Hj]]%lookup_insert_Some; [|eauto]. cbn. intros Hin.
      apply H5, H4 in Hin as [? _]. lia.
    + intros d Hd. destruct (H4 d Hd) as [Hp [?|(j & s & Hj & Es)]]; (split; [done|]); [by left|].
      right. exists j, s. split; [|done]. rewrite lookup_insert_ne; [done|]. intros ->. by rewrite Hi in Hj.
Qed.

(** A variable whose object owns nothing may be set to, or replaced by, any such
    object, or go away. *)
Lemma blank_owned w i s o :
  owned w -> (forall x, w.(objs) !! i = Some x -> x.(fd_) < 0) ->
  o = delete i w.(objs) \/ (o = <[i := s]> w.(objs) /\ s.(fd_) < 0) ->
  owned (mkWorld o w.(open) w.(released)).
Proof.
  intros [H1 H2 H3 H4 H5] Hi Ho.
  assert (forall j x, o !! j = Some x -> w.(objs) !! j = Some x \/ x.(fd_) < 0) as Hin.
  { intros j x Hj. destruct Ho as [->|[-> Hs]].
    - apply lookup_delete_Some in Hj as [_ Hj]. by left.
    - apply lookup_insert_Some in Hj as [[_ <-]|[_ Hj]]; [by right|by left]. }
  split; cbn [objs open released]; try done.
  - intros j x Hj Hx. destruct (Hin j x Hj) as [?|?]; [eauto|lia].
  - intros j k x y Hj Hk Hx E. destruct (Hin j x Hj), (Hin k y Hk); try lia. eauto.
  - intros j x Hj. destruct (Hin j x Hj) as [?|Hneg]; [eauto|]. intros Hr%H5%H4. lia.
  - intros d Hd. destruct (H4 d Hd) as [Hp [?|(j & x & Hj & Ex)]]; (split; [done|]); [by left|].
    right. exists j, x. split; [|done].
    assert (j <> i) by (intros ->; specialize (Hi x Hj); lia).
    destruct Ho as [->|[-> _]]; [by rewrite lookup_delete_ne|by rewrite lookup_insert_ne].
Qed.

(** Taking a descriptor out of the table and of its owner. *)
Lemma close_owned w i s :
  owned w -> w.(objs) !! i = Some s ->
  owned (mkWorld (<[i := (close s w.(open)).1]> w.(objs)) (close s w.(open)).2 w.(released)) /\
  (close s w.(open)).1.(fd_) < 0.
Proof.
  intros Hw Hi. pose proof Hw as [H1 H2 H3 H4 H5]. unfold close. destruct (Z.leb_spec 0 (fd_ s)); cbn [fst snd].
  2: { split; [|done]. eapply (blank_owned w i s); [done|intros x Hx; congruence|by right]. }
  split; [|cbn; lia].
  assert (forall j x, objs w !! j = Some x -> j <> i -> x.(fd_) <> s.(fd_)) as Hne.
  { intros j x Hj Hji E. apply Hji. symmetry. by apply (H2 i j s x). }
  split; cbn [objs open released].
  - intros j x [[<- <-]|[Hji Hj]]%lookup_insert_Some Hx; [cbn in Hx; lia|].
    rewrite lookup_delete_ne by (intros E; by apply (Hne j x Hj)). eauto.
  - intros j k x y [[<- <-]|[_ Hj]]%lookup_insert_Some [[<- <-]|[_ Hk]]%lookup_insert_Some Hx E;
      cbn [fd_] in *; try lia; eauto.
  - intros j x [[<- <-]|[_ Hj]]%lookup_insert_Some; [|eauto]. cbn. intros Hr%H5%H4. lia.
  - intros d [x Hd]. apply lookup_delete_Some in Hd as [Hds Hd].
    destruct (H4 d) as [Hp [?|(j & y & Hj & Ey)]]; [by eexists| |]; (split; [done|]); [by left|].
    right. exists j, y. split; [|done]. rewrite lookup_insert_ne; [done|]. intros Eij. subst j.
    assert (y = s) by congruence. by subst y.
  - intros d Hr. rewrite lookup_delete_ne; [by apply H5|]. intros <-. by apply (H3 i s).
Qed.

Lemma move_owned w i j x :
  owned w -> i <> j -> w.(objs) !! j = Some x -> (forall s, w.(objs) !! i = Some s -> s.(fd_) < 0) ->
  owned (mkWorld (<[i := mkTcpSocket x.(fd_)]> (<[j := mkTcpSocket (-1)]> w.(objs))) w.(open) w.(released)).
Proof.
  intros [H1 H2 H3 H4 H5] Hij Hj Hi.
  assert (forall k y, (<[i := mkTcpSocket x.(fd_)]> (<[j := mkTcpSocket (-1)]> w.(objs))) !! k = Some y ->
    (k = i /\ y.(fd_) = x.(fd_)) \/ y.(fd_) < 0 \/ (k <> i /\ k <> j /\ w.(objs) !! k = Some y)) as Hin.
  { intros k y [[<- <-]|[Hki [[<- <-]|[Hkj Hk]]%lookup_insert_Some]]%lookup_insert_Some;
      [by left|right; left; cbn; lia|by right; right]. }
  split; cbn [objs open released]; try done.
  - intros k y Hk Hy. destruct (Hin k y Hk) as [[_ E]|[?|(_ & _ & Hk')]]; [|lia|eauto].
    rewrite E in *. eauto.
  - intros k l y z Hk Hl Hy E.
    destruct (Hin k y Hk) as [[-> Ey]|[?|(Hki & Hkj & Hk')]], (Hin l z Hl) as [[-> Ez]|[?|(Hli & Hlj & Hl')]];
      try lia; try done.
    + exfalso. apply Hlj. symmetry. apply (H2 j l x z); (done || lia || congruence).
    + exfalso. apply Hkj. apply (H2 k j y x); (done || lia || congruence).
    + eauto.
  - intros k y Hk. destruct (Hin k y Hk) as [[_ E]|[Hneg|(_ & _ & Hk')]]; [rewrite E; eauto| |eauto].
    intros Hr%H5%H4. lia.
  - intros d Hd. destruct (H4 d Hd) as [Hp [?|(k & y & Hk & Ey)]]; (split; [done|]); [by left|]. right.
    destruct (decide (k = j)) as [->|Hkj].
    + exists i, (mkTcpSocket x.(fd_)). rewrite lookup_insert_eq. split; [done|]. cbn. congruence.
    + exists k, y. split; [|done]. assert (k <> i) by (intros ->; specialize (Hi y Hk); lia).
      by rewrite !lookup_insert_ne.
Qed.

Lemma release_owned w i s :
  owned w -> w.(objs) !! i = Some s ->
  owned (mkWorld (<[i := mkTcpSocket (-1)]> w.(objs)) w.(open)
           (if 0 <=? s.(fd_) then s.(fd_) :: w.(released) else w.(released))).
Proof.
  intros Hw Hi. pose proof Hw as [H1 H2 H3 H4 H5]. destruct (Z.leb_spec 0 (fd_ s)).
  2: { apply (blank_owned w i (mkTcpSocket (-1))); [done|intros x Hx; congruence|]. right. cbn. split; [done|lia]. }
  split; cbn [objs open released].
  - intros j x [[<- <-]|[_ Hj]]%lookup_insert_Some Hx; [cbn in Hx; lia|eauto].
  - intros j k x y [[<- <-]|[_ Hj]]%lookup_insert_Some [[<- <-]|[_ Hk]]%lookup_insert_Some Hx E;
      cbn [fd_] in *; try lia; eauto.
  - intros j x [[<- <-]|[Hji Hj]]%lookup_insert_Some Hr; apply elem_of_cons in Hr as [E|Hr].
    + cbn in E. lia.
    + apply H5, H4 in Hr. cbn in Hr. lia.
    + apply Hji. by apply (H2 i j s x).
    + by apply (H3 j x).
  - intros d Hd. destruct (H4 d Hd) as [Hp [?|(j & y & Hj & Ey)]]; (split; [done|]); [left; by right|].
    destruct (decide (j = i)) as [Eji|]; [left; apply elem_of_cons; left; subst j; congruence|]. right. exists j, y.
    by rewrite lookup_insert_ne.
  - intros d [->|Hr]%elem_of_cons; eauto.
Qed.

Lemma accept_owned w i s nb a :
  owned w -> w.(objs) !! i = Some s -> fresh a.1 w.(open) ->
  exists w', run_op (Accept i nb a) w = Some w' /\ owned w'.
Proof.
  intros Hw Hi Hf. pose proof Hw as [H1 H2 H3 H4 H5]. destruct a as [c addr]. cbn [run_op fst] in *. rewrite Hi.
  unfold accept, accept_from. destruct (Z.ltb_spec (fd_ s) 0); cbn.
  { eexists. split; [done|]. by destruct w. }
  destruct (Z.leb_spec 0 c) as [Hc|Hc]; cbn; (eexists; split; [done|]); [|by destruct w].
  destruct Hf as [|Hf]; [lia|]. split; cbn [objs open released].
  - intros j x Hj Hx. apply insert_dom. right. eauto.
  - eauto.
  - intros j x Hj [E|Hr]%elem_of_cons; [|by apply (H3 j x)].
    destruct (H1 j x Hj) as [y Hy]; [lia|]. by rewrite E, Hf in Hy.
  - intros d [->|Hd]%insert_dom; [split; [done|]; left; by apply elem_of_cons; left|].
    destruct (H4 d Hd) as [Hp [Hr|?]]; (split; [done|]); [left; by apply elem_of_cons; right|by right].
  - intros d [->|Hr]%elem_of_cons; apply insert_dom; [by left|right; auto].
Qed.

Lemma adopt_owned w i d :
  owned w -> w.(objs) !! i = None -> d ∈ w.(released) ->
  owned (mkWorld (<[i := mkTcpSocket d]> w.(objs)) w.(open) (filter (fun x => x <> d) w.(released))).
Proof.
  intros [H1 H2 H3 H4 H5] Hi Hd. split; cbn [objs open released].
  - intros j x [[<- <-]|[_ Hj]]%lookup_insert_Some Hx; cbn in *; eauto.
  - intros j k x y [[<- <-]|[_ Hj]]%lookup_insert_Some [[<- <-]|[_ Hk]]%lookup_insert_Some Hx E;
      cbn [fd_] in *; try done; [| |eauto].
    + subst d. by destruct (H3 k y).
    + subst d. by destruct (H3 j x).
  - intros j x [[<- <-]|[_ Hj]]%lookup_insert_Some [Hne Hr]%list_elem_of_filter; [by apply Hne|].
    by apply (H3 j x).
  - intros e He. destruct (H4 e He) as [Hp [Hr|(j & y & Hj & Ey)]]; (split; [done|]).
    + destruct (decide (e = d)) as [->|Hne].
      * right. exists i, (mkTcpSocket d). by rewrite lookup_insert_eq.
      * left. by apply list_elem_of_filter.
    + right. exists j, y. split; [|done]. rewrite lookup_insert_ne; [done|]. intros ->. by rewrite Hi in Hj.
  - intros e [_ Hr]%list_elem_of_filter. auto.
Qed.

Lemma op_owned o w w' : owned w -> op_ok o w -> run_op o w = Some w' -> owned w'.
Proof.
  intros Hw Hok E. destruct o as [i port n nb a|i port ms a|i j|i j|i|i|i|i nb a|i d]; cbn [run_op] in E.
  - destruct (objs w !! i) eqn:Hi; [done|]. pose proof (create_server_spec port n nb a _ Hok) as Hc.
    pose proof (add_owned w i _ _ Hw Hi Hok Hc) as H. destruct (create_server _ _ _ _ _). by injection E as <-.
  - destruct (objs w !! i) eqn:Hi; [done|]. pose proof (connect_to_spec port ms a _ Hok) as Hc.
    pose proof (add_owned w i _ _ Hw Hi Hok Hc) as H. destruct (connect_to _ _ _ _). by injection E as <-.
  - destruct (objs w !! i) eqn:Hi; [done|]. destruct (objs w !! j) as [x|] eqn:Hj; [|done].
    injection E as <-. apply move_owned; try done; [congruence|]. intros s Hs. congruence.
  - destruct (objs w !! i) as [s|] eqn:Hi; [|done]. destruct (objs w !! j) as [x|] eqn:Hj; [|done].
    unfold move_assign in E. case_bool_decide as Hij.
    + subst j. assert (x = s) as -> by congruence. injection E as <-.
      rewrite !insert_id by (rewrite ?insert_id; done). by destruct w.
    + destruct (close_owned w i s Hw Hi) as [H Hneg]. destruct (close s (open w)) as [s' t]. injection E as <-.
      cbn [fst snd] in *.
      pose proof (move_owned _ i j x H Hij) as Hm. cbn [objs open released] in Hm.
      rewrite (insert_insert_ne _ j i), insert_insert_eq in Hm by done.
      apply Hm; [by rewrite lookup_insert_ne|]. intros y. rewrite lookup_insert_eq. by intros [= <-].
  - destruct (objs w !! i) as [s|] eqn:Hi; [|done]. destruct (close_owned w i s Hw Hi) as [H _].
    destruct (close s (open w)) as [s' t]. by injection E as <-.
  - destruct (objs w !! i) as [s|] eqn:Hi; [|done]. injection E as <-. by apply release_owned.
  - destruct (objs w !! i) as [s|] eqn:Hi; [|done]. destruct (close_owned w i s Hw Hi) as [H Hneg].
    destruct (close s (open w)) as [s' t]. injection E as <-. cbn [fst snd] in *.
    pose proof (blank_owned _ i s' (delete i (objs w)) H) as Hb. cbn [objs open released] in Hb. apply Hb.
    + intros x. rewrite lookup_insert_eq. by intros [= <-].
    + left. by rewrite delete_insert_eq.
  - destruct (objs w !! i) as [s|] eqn:Hi; [|done].
    destruct (accept_owned w i s nb a Hw Hi Hok) as (v & Ev & Hv). cbn [run_op] in Ev. rewrite Hi in Ev.
    congruence.
  - destruct (objs w !! i) eqn:Hi; [done|]. case_bool_decide as Hd; [|done]. injection E as <-.
    by apply adopt_owned.
Qed.

Lemma run_owned os w w' : owned w -> run_ok os w -> run_ops os w = Some w' -> owned w'.
Proof.
  revert w. induction os as [|o os IH]; intros w Hw Hok E; [by injection E as <-|].
  destruct Hok as [Ho Hok]. unfold run_ops in E. cbn in E. destruct (run_op o w) as [v|] eqn:Ev.
  - apply (IH v); [by eapply op_owned|done|done].
  - exfalso. clear -E. induction os; [done|auto].
Qed.

Definition start : world := mkWorld ∅ ∅ [].

Lemma start_owned : owned start.
Proof.
  split; cbn.
  - intros i s H. by rewrite lookup_empty in H.
  - intros i j s x H. by rewrite lookup_empty in H.
  - intros i s H. by rewrite lookup_empty in H.
  - intros d [x Hd]. by rewrite lookup_empty in Hd.
  - intros d Hd. by apply elem_of_nil in Hd.
Qed.

(** C16: Whatever sequence of constructions, moves, accepts, closes, releases,
    adoptions and destructions a program performs on its sockets, with the
    kernel failing any call it likes, the open descriptors are exactly those
    owned by one live object each and those the caller took out itself: no
    failed [create_server] or [connect_to], and no move, leaks a descriptor, two
    objects never own the same one, and none is closed while an object or the
    caller still holds it.  Once every object is gone, only the caller's remain. *)
Theorem sockets_own_descriptors os w :
  run_ok os start -> run_ops os start = Some w ->
  (forall d, is_Some (w.(open) !! d) <->
     d ∈ w.(released) \/ exists i s, w.(objs) !! i = Some s /\ is_open s = true /\ fd s = d) /\
  (forall i j s x, w.(objs) !! i = Some s -> w.(objs) !! j = Some x ->
     is_open s = true -> fd s = fd x -> i = j) /\
  (forall i s, w.(objs) !! i = Some s -> fd s ∉ w.(released)) /\
  (w.(objs) = ∅ -> forall d, is_Some (w.(open) !! d) <-> d ∈ w.(released)).
Proof.
  intros Hok E. destruct (run_owned _ _ _ start_owned Hok E) as [H1 H2 H3 H4 H5].
  assert (forall d, is_Some (w.(open) !! d) <->
     d ∈ w.(released) \/ exists i s, w.(objs) !! i = Some s /\ is_open s = true /\ fd s = d) as Hall.
  { intros d. unfold is_open, fd. split.
    - intros Hd. destruct (H4 d Hd) as [Hp [?|(i & s & Hi & Es)]]; [by left|]. right. exists i, s.
      rewrite Es. split; [done|]. split; [lia|done].
    - intros [Hr|(i & s & Hi & Ho & Es)]; [auto|]. subst d. apply (H1 i s Hi). lia. }
  split; [done|]. split.
  { intros i j s x Hi Hj Ho Ex. unfold is_open in Ho. apply (H2 i j s x); (done || lia). }
  split; [done|]. intros He d. rewrite Hall. split; [|by left].
  intros [?|(i & s & Hi & _)]; [done|]. by rewrite He, lookup_empty in Hi.
Qed.

(** A failed bind, a server that accepts, moves, and the destructors. *)
Definition demo_ops : list op :=
  [ Server 0%nat 8080 128 true (mkServer 3 0 0 (-1) 0);
    Server 1%nat 8080 128 true (mkServer 3 0 0 0 0);
    Accept 1%nat true (4, (16777343, 20480));
    Connect 2%nat 9090 3000 (mkConnect 5 (Some 16777343) 2 0 (-1) EINPROGRESS 1 0 111 0 0);
    Connect 3%nat 9090 3000 (mkConnect 5 (Some 16777343) 2 0 (-1) EINPROGRESS 1 0 0 0 0);
    MoveAssign 0%nat 3%nat; MoveAssign 1%nat 0%nat; Adopt 4%nat 4; Release 4%nat;
    Destroy 0%nat; Destroy 1%nat; Destroy 2%nat; Destroy 3%nat; Destroy 4%nat ].

Definition demo_end : world :=
  mkWorld ∅ {[4 := mkAttrs O_NONBLOCK false false None None (Some (16777343, 20480)) None]} [4].

Lemma sockets_own_descriptors_witness :
  run_ops demo_ops start = Some demo_end /\
  forall d, is_Some (demo_end.(open) !! d) <-> d ∈ demo_end.(released).
Proof.
  assert (run_ops demo_ops start = Some demo_end) as E by (vm_compute; reflexivity).
  split; [exact E|].
  assert (run_ok demo_ops start) as Hok by (vm_compute; split_and!; (exact I || (right; reflexivity))).
  exact (proj2 (proj2 (proj2 (sockets_own_descriptors demo_ops demo_end Hok E))) eq_refl).
Defined.
End Tcp.

(** ** UdpSocket *)
Module Udp.
Record UdpSocket := mkUdpSocket { fd_ : Z; bound_ : bool }.
Definition UdpSocket_default : UdpSocket := mkUdpSocket (-1) false.

Definition fd (s : UdpSocket) : Z := s.(fd_).
Definition is_bound (s : UdpSocket) : bool := s.(bound_).

(** What [socket], [F_GETFL] and [F_SETFL] answer. *)
Record create_answers := mkCreate { cr_socket : Z; cr_getfl : Z; cr_setfl : Z }.

(** [create] does not look at the descriptor the object already has. *)
Definition create (s : UdpSocket) (a : create_answers) (t : table) : bool * UdpSocket * table :=
  let s := mkUdpSocket a.(cr_socket) s.(bound_) in
  if s.(fd_) <? 0 then (false, s, t) else
  let t := <[s.(fd_) := new_socket 0]> t in
  let t := if 0 <=? a.(cr_setfl)
           then alter (set_file_flags (Z.lor a.(cr_getfl) O_NONBLOCK)) s.(fd_) t else t in
  (true, s, t).

(** [fd_ < 0 && !create()]: the descriptor a call works on. *)
Definition ensure (s : UdpSocket) (a : create_answers) (t : table) : bool * UdpSocket * table :=
  if s.(fd_) <? 0 then create s a t else (true, s, t).

(** [ip]: [None] for a null pointer, [Some None] for a text [inet_aton] refuses. *)
Definition bind (s : UdpSocket) (port : Z) (ip : option (option Z)) (a : create_answers)
    (answer : Z) (t : table) : bool * UdpSocket * table :=
  let '(ok, s, t) := ensure s a t in
  if negb ok then (false, s, t) else
  let sin_addr := match ip with Some r => r | None => Some INADDR_ANY end in
  match sin_addr with
  | None => (false, s, t)
  | Some addr =>
      if answer <? 0 then (false, s, t) else
      (true, mkUdpSocket s.(fd_) true, alter (set_local (addr, htons port)) s.(fd_) t)
  end.

(** The result of [sendto], and the address of the datagram it hands to the
    kernel, if it gets that far. *)
Definition sendto (s : UdpSocket) (ip : option Z) (port : Z) (a : create_answers) (answer : Z)
    (t : table) : Z * option (Z * Z) * UdpSocket * table :=
  let '(ok, s, t) := ensure s a t in
  if negb ok then (-1, None, s, t) else
  match ip with
  | None => (-1, None, s, t)
  | Some addr => (answer, Some (addr, htons port), s, t)
  end.

(** [ip_out] and [port_out] are the caller's variables, if it gave them; [ntoa]
    is [inet_ntoa]. *)
Definition recvfrom (ntoa : Z -> String.string) (s : UdpSocket) (answer : Z * (Z * Z))
    (ip_out : option String.string) (port_out : option Z) : Z * option String.string * option Z :=
  if s.(fd_) <? 0 then (-1, ip_out, port_out) else
  let '(len, (addr, port)) := answer in
  if len <? 0 then (len, ip_out, port_out) else
  (len, (fun _ => ntoa addr) <$> ip_out, (fun _ => ntohs port) <$> port_out).

(** The receive buffers of a [BatchRecv] that is a local variable: live while the
    call runs, gone when it returns. *)
Definition kDatagramBuffer : Z := 65536.

Definition alloc_buffers (buffers : list ptr) (m : mem) : mem :=
  foldr (fun b m => alloc m b (replicate (Z.to_nat kDatagramBuffer) 0)) m buffers.

Definition free_buffers (buffers : list ptr) (m : mem) : mem :=
  foldr (fun b m => free m b (Z.to_nat kDatagramBuffer)) m buffers.

Definition with_receiver {A} (buffers : list ptr) (body : M A) : M A := fun m =>
  '(x, m) ← body (alloc_buffers buffers m); Some (x, free_buffers buffers m).

Definition recv_batch (fuel : nat) (s : UdpSocket) (e : kernel) (buffers : list ptr) (lens : list Z)
    (max_packets : Z) (ring : PacketRing) : M (BatchIOResult * PacketRing) :=
  if s.(fd_) <? 0 then mret (mkResult 0 EBADF BatchIo.SysError, ring) else
  with_receiver buffers
    (lift (recv_batch_ring fuel BatchIOOptions_default e buffers lens max_packets ring)).

Definition recv_batch_unified (fuel : nat) (s : UdpSocket) (o : BatchIOOptions) (e : kernel)
    (buffers : list ptr) (lens : list Z) (max_packets : Z) (ring : PacketRing)
    : M (UnifiedIOResult * PacketRing) :=
  if s.(fd_) <? 0 then mret (mkUnified 0 EBADF IoStatus.SysError, ring) else
  with_receiver buffers
    (lift ('(r, ring) ← recv_batch_ring fuel o e buffers lens max_packets ring; Some (of_batch r, ring))).

Definition send_batch (fuel : nat) (s : UdpSocket) (e : kernel) (packets : list Packet)
    : option BatchIOResult :=
  if s.(fd_) <? 0 then Some (mkResult 0 EBADF BatchIo.SysError) else
  BatchIo.send_batch fuel BatchIOOptions_default e packets.

Definition send_batch_unified (fuel : nat) (s : UdpSocket) (o : BatchIOOptions) (e : kernel)
    (packets : list Packet) : option UnifiedIOResult :=
  if s.(fd_) <? 0 then Some (mkUnified 0 EBADF IoStatus.SysError) else
  of_batch <$> BatchIo.send_batch fuel o e packets.

Definition close (s : UdpSocket) (t : table) : UdpSocket * table :=
  if 0 <=? s.(fd_) then (mkUdpSocket (-1) false, delete s.(fd_) t) else (s, t).

(** ** Descriptors *)

(** [bind] and [sendto] open a descriptor only for a socket without one, and
    whether they then succeed or fail, [close] returns the descriptor table to
    what it was without the socket: nothing leaks.  [create], which is public,
    does not look: on a socket that is open it overwrites the descriptor, and
    the old one stays open after [close] and can no longer be reached. *)
Theorem udp_create_leaks s a t :
  fresh a.(cr_socket) t -> 0 <= s.(fd_) -> is_Some (t !! s.(fd_)) ->
  (forall port ip answer, let '(_, s', t') := bind s port ip a answer t in
     close s' t' = (UdpSocket_default, delete s.(fd_) t)) /\
  (forall port ip answer, let '(_, _, s', t') := sendto s ip port a answer t in
     close s' t' = (UdpSocket_default, delete s.(fd_) t)) /\
  (forall port ip answer, let '(_, s', t') := bind UdpSocket_default port ip a answer t in
     (close s' t').2 = t) /\
  let '(ok, s', t') := create s a t in
  (ok = true -> s'.(fd_) <> s.(fd_)) /\ is_Some ((close s' t').2 !! s.(fd_)).
Proof.
  intros Hf Hs Ht. assert ((s.(fd_) <? 0) = false) as Es by lia. assert ((0 <=? s.(fd_)) = true) as Ep by lia.
  split; [|split; [|split]].
  - intros port ip answer. unfold bind, ensure. rewrite Es. cbn [negb].
    destruct (match ip with Some r => r | None => _ end); [destruct (answer <? 0)|]; unfold close;
      cbn [fd_]; rewrite Ep; rewrite ?Tcp.delete_alter_eq; done.
  - intros port ip answer. unfold sendto, ensure. rewrite Es. cbn [negb].
    destruct ip; unfold close; by rewrite Ep.
  - intros port ip answer. unfold bind, ensure, UdpSocket_default. cbn [fd_ Z.ltb Z.compare]. unfold create.
    cbn [fd_ bound_]. destruct (Z.ltb_spec (cr_socket a) 0).
    { cbn [negb]. unfold close. cbn [fd_]. by destruct (Z.leb_spec 0 (cr_socket a)); [lia|]. }
    destruct Hf as [|Hf]; [lia|]. cbn [negb].
    destruct (0 <=? cr_setfl a), (match ip with Some r => r | None => _ end); [destruct (answer <? 0)| |destruct (answer <? 0)|];
      unfold close; cbn [fd_]; (destruct (Z.leb_spec 0 (cr_socket a)); [|lia]); cbn [snd];
      rewrite ?Tcp.delete_alter_eq; by rewrite delete_insert_eq, delete_id.
  - unfold create. cbn [fd_ bound_]. destruct (Z.ltb_spec (cr_socket a) 0) as [H|H].
    { split; [done|]. unfold close. cbn [fd_]. by destruct (Z.leb_spec 0 (cr_socket a)); [lia|]. }
    destruct Hf as [|Hf]; [lia|].
    assert (cr_socket a <> fd_ s) as Hne by (intros E; rewrite E, eq_None_not_Some in Hf; by apply Hf).
    split; [done|]. unfold close. cbn [fd_]. destruct (Z.leb_spec 0 (cr_socket a)); [|lia]. cbn [snd].
    rewrite lookup_delete_ne by done. destruct (0 <=? cr_setfl a); rewrite ?Tcp.alter_dom, Tcp.insert_dom; by right.
Qed.

(** ** The receive buffers *)
Definition in_buffer (buffers : list ptr) (a : Z) : Prop :=
  exists b, b ∈ buffers /\ b <= a < b + kDatagramBuffer.

Lemma free_buffers_in buffers m a : in_buffer buffers a -> free_buffers buffers m !! a = None.
Proof.
  intros (b & Hb & Ha). induction buffers as [|c buffers IH]; [by apply elem_of_nil in Hb|].
  cbn [free_buffers foldr]. rewrite free_lookup. case_bool_decide; [done|].
  apply elem_of_cons in Hb as [->|Hb]; [unfold kDatagramBuffer in *; lia|by apply IH].
Qed.

Lemma free_alloc_buffers buffers m :
  (forall a, in_buffer buffers a -> m !! a = None) -> free_buffers buffers (alloc_buffers buffers m) = m.
Proof.
  intros Hm. apply map_eq. intros a.
  destruct (decide (Exists (fun b => b <= a < b + kDatagramBuffer) buffers)) as [H|H].
  - apply Exists_exists in H as (b & Hb & Ha). assert (in_buffer buffers a) as Hin by (by exists b).
    rewrite free_buffers_in by done. by rewrite Hm.
  - rewrite <- Forall_Exists_neg in H. transitivity (alloc_buffers buffers m !! a).
    + generalize (alloc_buffers buffers m). clear Hm m. intros m.
      induction H as [|b bs Hb H IH]; [done|]. cbn [free_buffers foldr]. rewrite free_lookup.
      case_bool_decide; [unfold kDatagramBuffer in *; lia|done].
    + clear Hm. induction H as [|b bs Hb H IH]; [done|]. cbn [alloc_buffers foldr].
      rewrite alloc_lookup_ne; [done|]. rewrite length_replicate. unfold kDatagramBuffer in *. lia.
Qed.

Lemma received_in_buffers buffers lens n p :
  p ∈ received_packets buffers lens n -> in_buffer buffers p.(data).
Proof.
  intros Hp. unfold received_packets in Hp. apply elem_of_take in Hp as (i & Hp & _).
  apply lookup_zip_with_Some in Hp as (b & l & -> & Hb & _). exists b.
  split; [by eapply list_elem_of_lookup_2|]. cbn. unfold kDatagramBuffer. lia.
Qed.

(** [recv_batch] receives through a [BatchRecv] that is a local variable: it
    leaves memory as it found it, so every packet it adds to the ring points
    to storage that was freed when it returned, and the first read through it
    is undefined.  (A [BatchRecv] that outlives the packets has no such problem;
    the market data subscriber keeps one.) *)
Theorem udp_recv_batch_dangles fuel s e buffers lens n ring m r :
  ring_inv ring -> write_pos_ ring + Z.of_nat (length buffers) < 2 ^ 64 -> n <> 0 -> 0 <= s.(fd_) ->
  recvmmsg_with_policy fuel BatchIOOptions_default e = Some r ->
  (forall a, in_buffer buffers a -> m !! a = None) ->
  exists res ring' received,
    recv_batch fuel s e buffers lens n ring m = Some ((res, ring'), m) /\
    contents ring' = contents ring ++ received /\ Z.of_nat (length received) = BatchIo.count res /\
    forall p l, p ∈ received -> l <> 0%nat -> load p.(data) l m = None.
Proof.
  intros Hi Hw Hn Hs Er Hm.
  destruct (recv_batch_ring_run fuel BatchIOOptions_default e buffers lens n ring r Hi Hw Hn Er)
    as (res & ring' & E & _ & Hc & Hpos & Hneg).
  exists res, ring', (take (Z.to_nat (BatchIo.count res)) (received_packets buffers lens (ret r))).
  split_and!; [|done| |].
  - unfold recv_batch, with_receiver, lift. destruct (Z.ltb_spec (fd_ s) 0); [lia|]. rewrite E.
    cbn [mbind option_bind]. by rewrite free_alloc_buffers.
  - rewrite length_take. destruct (Z.le_gt_cases (ret r) 0) as [H|H].
    + destruct (Hneg H) as (-> & _). unfold classify. repeat case_match; cbn; lia.
    + destruct (Hpos ltac:(lia)) as [_ ->]. lia.
  - intros p [|l] Hp Hl; [done|]. apply elem_of_take in Hp as (i & Hp & _).
    apply list_elem_of_lookup_2, received_in_buffers in Hp. unfold load. cbn [read_bytes].
    by rewrite (Hm _ Hp).
Qed.
(** ** Witnesses *)
Definition demo_open : table := {[3 := new_socket O_NONBLOCK]}.

Lemma udp_create_leaks_witness :
  close (create (mkUdpSocket 3 true) (mkCreate 4 2 0) demo_open).1.2
    (create (mkUdpSocket 3 true) (mkCreate 4 2 0) demo_open).2 =
      (UdpSocket_default, {[3 := new_socket O_NONBLOCK]}) /\
  forall port ip answer, let '(_, s', t') := bind (mkUdpSocket 3 true) port ip (mkCreate 4 2 0) answer demo_open in
    close s' t' = (UdpSocket_default, delete 3 demo_open).
Proof.
  split; [vm_compute; reflexivity|].
  refine (proj1 (udp_create_leaks (mkUdpSocket 3 true) (mkCreate 4 2 0) demo_open _ _ _)).
  - right. reflexivity.
  - discriminate.
  - eexists. reflexivity.
Defined.

Lemma udp_recv_batch_dangles_witness :
  exists res ring' received,
    recv_batch 1 (mkUdpSocket 3 true) demo_now [4096; 131072] [60; 70] 2 (PacketRing_new 4) ∅ =
      Some ((res, ring'), ∅) /\
    contents ring' = received /\ Z.of_nat (length received) = BatchIo.count res /\
    forall p l, p ∈ received -> l <> 0%nat -> load p.(data) l ∅ = None.
Proof.
  destruct (udp_recv_batch_dangles 1 (mkUdpSocket 3 true) demo_now [4096; 131072] [60; 70] 2
    (PacketRing_new 4) ∅ (mkOutcome 2 0 1 0)) as (res & ring' & received & H1 & H2 & H3 & H4).
  - apply ring_new_inv; lia.
  - reflexivity.
  - discriminate.
  - discriminate.
  - reflexivity.
  - intros a _. reflexivity.
  - exists res, ring', received. split; [exact H1|]. split; [exact H2|]. split; [exact H3|exact H4].
Defined.
End Udp.
