(* ===== verification/Endpoints.v ===== *)
(** * Endpoints: how the programs open their sockets
    (apps/order_tcp/order_gateway.cpp, apps/order_tcp/order_client.cpp,
    apps/market_udp/feed_subscriber.cpp)

    Each returns a descriptor, or -1.  The kernel's answers are arguments, as in
    [Sockets]. *)
From S2P Require Import Prelude Bytes Memory OrderGateway OrderClient MarketFeed Sockets.

Definition kBacklog : Z := 128.

Definition create_listen_socket (a : Tcp.server_answers) (t : table) : Z * table :=
  let '(sock, t) := Tcp.create_server kListenPort kBacklog true a t in
  if negb (Tcp.is_open sock) then (-1, (Tcp.close sock t).2) else
  let '(fd, sock) := Tcp.release sock in (fd, (Tcp.close sock t).2).

Definition connect_to_gateway (timeout_ms : Z) (a : Tcp.connect_answers) (t : table) : Z * table :=
  let '(sock, t) := Tcp.connect_to kGatewayPort timeout_ms a t in
  if negb (Tcp.is_open sock) then (-1, (Tcp.close sock t).2) else
  let '(fd, sock) := Tcp.release sock in (fd, (Tcp.close sock t).2).

(** [SO_REUSEADDR], [bind], the group membership, and the file flags. *)
Record multicast_answers := mkMulticast {
  mc_socket : Z; mc_reuse : Z; mc_bind : Z; mc_join : Z; mc_getfl : Z; mc_setfl : Z }.

Definition create_and_join_multicast (a : multicast_answers) (t : table) : Z * table :=
  let fd := a.(mc_socket) in
  if fd <? 0 then (-1, t) else
  let t := <[fd := new_socket 0]> t in
  let t := alter (set_options (0 <=? a.(mc_reuse)) false) fd t in
  if a.(mc_bind) <? 0 then (-1, delete fd t) else
  let t := alter (set_local (htonl INADDR_ANY, htons kMulticastPort)) fd t in
  if a.(mc_join) <? 0 then (-1, delete fd t) else
  let t := if 0 <=? a.(mc_setfl)
           then alter (set_file_flags (Z.lor a.(mc_getfl) O_NONBLOCK)) fd t else t in
  (fd, t).

(** A set-up gives its caller the one new descriptor, or changes nothing. *)
Definition opens (fd : Z) (t : table) (r : Z * table) : Prop :=
  (r.1 = fd /\ 0 <= fd /\ forall d, is_Some (r.2 !! d) <-> d = fd \/ is_Some (t !! d)) \/
  (r.1 = -1 /\ r.2 = t).

Lemma constructed_opens fd t r :
  Tcp.constructed fd t r ->
  opens fd t
    (let '(sock, t) := r in
     if negb (Tcp.is_open sock) then (-1, (Tcp.close sock t).2) else
     let '(fd, sock) := Tcp.release sock in (fd, (Tcp.close sock t).2)).
Proof.
  destruct r as [[d] t']. unfold Tcp.constructed, opens. cbn. intros [(E & Hp & Ht)|[E ->]].
  - subst d. left. unfold Tcp.is_open. cbn. by destruct (Z.leb_spec 0 fd); [|lia].
  - injection E as ->. by right.
Qed.

Lemma connect_opens ms a t : fresh a.(Tcp.cn_socket) t -> opens a.(Tcp.cn_socket) t (connect_to_gateway ms a t).
Proof. intros Hf. apply (constructed_opens _ _ _ (Tcp.connect_to_spec kGatewayPort ms a t Hf)). Qed.

Lemma multicast_opens a t : fresh a.(mc_socket) t -> opens a.(mc_socket) t (create_and_join_multicast a t).
Proof.
  intros Hf. unfold create_and_join_multicast, opens. destruct (Z.ltb_spec (mc_socket a) 0); [by right|].
  destruct Hf as [|Hf]; [lia|]. destruct (mc_bind a <? 0); [|destruct (mc_join a <? 0)].
  + right. by rewrite Tcp.delete_alter_eq, Tcp.delete_fresh.
  + right. by rewrite !Tcp.delete_alter_eq, Tcp.delete_fresh.
  + left. split; [done|]. split; [done|]. intros d. cbn [snd].
    destruct (0 <=? mc_setfl a); by rewrite !Tcp.alter_dom, Tcp.insert_dom.
Qed.

(** Whatever the kernel answers, each set-up either hands its caller the socket it
    was given, all other descriptors being as they were, or returns -1 and has
    closed what it opened. *)
Theorem endpoints_open_or_restore t :
  (forall a, fresh a.(Tcp.sv_socket) t -> opens a.(Tcp.sv_socket) t (create_listen_socket a t)) /\
  (forall ms a, fresh a.(Tcp.cn_socket) t -> opens a.(Tcp.cn_socket) t (connect_to_gateway ms a t)) /\
  (forall a, fresh a.(mc_socket) t -> opens a.(mc_socket) t (create_and_join_multicast a t)).
Proof.
  split; [|split].
  - intros a Hf. apply (constructed_opens _ _ _ (Tcp.create_server_spec kListenPort kBacklog true a t Hf)).
  - intros ms a. apply connect_opens.
  - intros a. apply multicast_opens.
Qed.

Lemma endpoints_open_or_restore_witness :
  create_listen_socket (Tcp.mkServer 3 0 0 (-1) 0) ∅ = (-1, ∅) /\
  opens 3 ∅ (create_listen_socket (Tcp.mkServer 3 0 0 (-1) 0) ∅).
Proof.
  split; [vm_compute; reflexivity|]. apply (proj1 (endpoints_open_or_restore ∅)). right. reflexivity.
Defined.
