(* ===== verification/Options.v ===== *)
(** * Options: the command lines of the programs
    (apps/order_tcp, apps/market_udp, apps/run_sim_market.cpp, apps/run_sim_order.cpp)

    Every program scans its arguments in pairs of a key and a value, converts
    the values with [atoi], and clamps them; the two simulation drivers print
    their values again with [std::to_string] to build the command lines of the
    programs they start.  A text is the list of its characters.  [atoi] is
    undefined on a number that is not an [int].  The rates are doubles: an option
    keeps the text, which Rates converts. *)
From Stdlib Require Import Strings.Ascii.
From Stdlib Require Strings.String.
From S2P Require Import Prelude.

Import String.StringSyntax.

Abbreviation text := (list ascii).

Definition str (s : String.string) : text := String.list_ascii_of_string s.
Arguments str _%_string_scope.

(** ** Numbers as text *)
Definition INT_MIN : Z := - 2 ^ 31.
Definition INT_MAX : Z := 2 ^ 31 - 1.
Definition ULLONG_MAX : Z := 2 ^ 64 - 1.

Definition int_range (z : Z) : Prop := INT_MIN <= z <= INT_MAX.

Definition digit_char (d : Z) : ascii := ascii_of_N (Z.to_N (48 + d)).
Definition char_code (c : ascii) : Z := Z.of_N (N_of_ascii c).
Definition is_digit (c : ascii) : bool := (48 <=? char_code c) && (char_code c <=? 57).
Definition is_space (c : ascii) : bool :=
  (char_code c =? 32) || ((9 <=? char_code c) && (char_code c <=? 13)).

(** Decimal digits, most significant first; 20 of them hold any 64-bit number. *)
Fixpoint digits (fuel : nat) (n : Z) : text :=
  match fuel with
  | O => []
  | S fuel => if n <? 10 then [digit_char n] else digits fuel (n / 10) ++ [digit_char (n mod 10)]
  end.

Definition to_string (n : Z) : text :=
  if n <? 0 then ascii_of_N 45 :: digits 20 (- n) else digits 20 n.

(** The scanner of [strtol] and [strtoull] in base 10: spaces, a sign, digits. *)
Fixpoint skip_spaces (t : text) : text :=
  match t with
  | c :: t' => if is_space c then skip_spaces t' else t
  | [] => []
  end.

Fixpoint scan_digits (acc : Z) (t : text) : Z :=
  match t with
  | c :: t => if is_digit c then scan_digits (10 * acc + (char_code c - 48)) t else acc
  | [] => acc
  end.

Definition scan_number (t : text) : bool * Z :=
  match skip_spaces t with
  | c :: t' =>
      if char_code c =? 45 then (true, scan_digits 0 t')
      else if char_code c =? 43 then (false, scan_digits 0 t')
      else (false, scan_digits 0 (c :: t'))
  | [] => (false, 0)
  end.

Definition atoi (t : text) : option Z :=
  let '(negative, n) := scan_number t in
  let v := if negative then - n else n in
  if bool_decide (int_range v) then Some v else None.

Definition strtoull (t : text) : Z :=
  let '(negative, n) := scan_number t in
  if ULLONG_MAX <? n then ULLONG_MAX else if negative then wrap 64 (- n) else n.

#[export] Instance int_range_dec z : Decision (int_range z).
Proof. unfold int_range. apply _. Defined.

Lemma char_code_digit d : 0 <= d <= 9 -> char_code (digit_char d) = 48 + d.
Proof.
  intros H. unfold char_code, digit_char. rewrite N_ascii_embedding by lia. lia.
Qed.

Lemma scan_digits_app acc t c : Forall (fun c => is_digit c = true) t -> is_digit c = true ->
  scan_digits acc (t ++ [c]) = 10 * scan_digits acc t + (char_code c - 48).
Proof.
  intros Ht Hc. revert acc. induction Ht as [|x t Hx _ IH]; intros acc; cbn [app scan_digits].
  - by rewrite Hc.
  - by rewrite Hx, IH.
Qed.

Lemma digit_char_is_digit d : 0 <= d <= 9 -> is_digit (digit_char d) = true.
Proof. intros H. unfold is_digit. rewrite char_code_digit by done. lia. Qed.

Lemma digits_are_digits fuel n : 0 <= n -> Forall (fun c => is_digit c = true) (digits fuel n).
Proof.
  revert n. induction fuel as [|fuel IH]; intros n Hn; cbn [digits]; [constructor|].
  destruct (Z.ltb_spec n 10).
  - constructor; [apply digit_char_is_digit; lia|constructor].
  - apply Forall_app_2; [apply IH; apply Z.div_pos; lia|].
    constructor; [|constructor]. apply digit_char_is_digit.
    pose proof (Z.mod_pos_bound n 10). lia.
Qed.

(** Scanning the printed digits gives the number back. *)
Lemma scan_digits_digits fuel n : 0 <= n < 10 ^ Z.of_nat fuel -> scan_digits 0 (digits fuel n) = n.
Proof.
  revert n. induction fuel as [|fuel IH]; intros n Hn; [cbn in *; lia|]. cbn [digits].
  destruct (Z.ltb_spec n 10).
  - cbn [scan_digits]. rewrite digit_char_is_digit, char_code_digit by lia. lia.
  - pose proof (Z.mod_pos_bound n 10). rewrite scan_digits_app, IH, char_code_digit;
      [pose proof (Z.div_mod n 10); lia|lia| |apply digits_are_digits, Z.div_pos; lia|apply digit_char_is_digit; lia].
    rewrite Nat2Z.inj_succ, Z.pow_succ_r in Hn by lia. split; [apply Z.div_pos; lia|].
    apply Z.div_lt_upper_bound; lia.
Qed.

Lemma scan_number_digits n : 0 <= n < 10 ^ 20 -> scan_number (digits 20 n) = (false, n).
Proof.
  intros Hn. pose proof (scan_digits_digits 20 n Hn) as Hs.
  pose proof (digits_are_digits 20 n ltac:(lia)) as Hd.
  destruct (digits 20 n) as [|c t] eqn:E.
  - exfalso. assert (digits 20 n <> []) as Hne; [|done]. cbn [digits].
    destruct (n <? 10); [done|]. by intros [_ [=]]%app_nil.
  - apply Forall_cons in Hd as [Hc _]. unfold scan_number. cbn [skip_spaces].
    unfold is_digit in Hc. unfold is_space.
    destruct (Z.eqb_spec (char_code c) 32), (Z.leb_spec 9 (char_code c)), (Z.leb_spec (char_code c) 13);
      cbn [orb andb]; try lia.
    destruct (Z.eqb_spec (char_code c) 45); [lia|]. destruct (Z.eqb_spec (char_code c) 43); [lia|].
    by rewrite Hs.
Qed.

Lemma atoi_to_string n : int_range n -> atoi (to_string n) = Some n.
Proof.
  intros Hn. unfold int_range, INT_MIN, INT_MAX in *. unfold atoi, to_string. destruct (Z.ltb_spec n 0).
  - assert (scan_number (ascii_of_N 45 :: digits 20 (- n)) = (true, - n)) as ->.
    { pose proof (scan_digits_digits 20 (- n) ltac:(lia)) as Hs. unfold scan_number. cbn [skip_spaces].
      change (is_space (ascii_of_N 45)) with false. cbv iota.
      change (char_code (ascii_of_N 45) =? 45) with true. cbv iota. by rewrite Hs. }
    rewrite Z.opp_involutive. by rewrite bool_decide_eq_true_2.
  - rewrite scan_number_digits by lia. by rewrite bool_decide_eq_true_2.
Qed.

Lemma strtoull_to_string n : 0 <= n < 2 ^ 64 -> strtoull (to_string n) = n.
Proof.
  intros Hn. unfold strtoull, to_string. destruct (Z.ltb_spec n 0); [lia|].
  rewrite scan_number_digits by lia. unfold ULLONG_MAX. destruct (Z.ltb_spec (2 ^ 64 - 1) n); [lia|done].
Qed.

(** ** Scanning the arguments *)

(** [Unknown]: the program reports the key and exits; [Undefined]: [atoi] is. *)
Inductive parsed (A : Type) : Type := Parsed (c : A) | Unknown (key : text) | Undefined.

Arguments Parsed {A} _.
Arguments Unknown {A} _.
Arguments Undefined {A}.

(** [for (i = 1; i + 1 < argc; i += 2)]: [argv] without the program name. *)
Fixpoint scan_args {A} (step : text -> text -> A -> parsed A) (argv : list text) (c : A) : parsed A :=
  match argv with
  | key :: value :: argv =>
      match step key value c with
      | Parsed c => scan_args step argv c
      | r => r
      end
  | _ => Parsed c
  end.

(** What a step preserves, the scan preserves. *)
Lemma scan_args_preserves {A} (P : A -> Prop) step argv c c' :
  (forall k v c c', P c -> step k v c = Parsed c' -> P c') ->
  P c -> scan_args step argv c = Parsed c' -> P c'.
Proof.
  intros Hs. assert (forall n argv c, (length argv <= n)%nat -> P c ->
    scan_args step argv c = Parsed c' -> P c') as H; [|eauto].
  clear argv c. induction n as [|n IH]; intros argv c Hl Hc; destruct argv as [|k [|v argv]]; cbn in *;
    try lia; try (by intros [= <-]).
  destruct (step k v c) eqn:E; try done. apply IH; [lia|]. by apply (Hs k v c).
Qed.

#[export] Instance ascii_eq_dec : EqDecision ascii := ascii_dec.

Definition clamp (v lo hi : Z) : Z := if v <? lo then lo else if hi <? v then hi else v.

Definition is_key (key : text) (s : String.string) : bool := bool_decide (key = str s).
Arguments is_key _ _%_string_scope.

(** The scan for [--help] that comes first in the drivers. *)
Definition wants_help (argv : list text) : bool := existsb (fun a => is_key a "--help") argv.

(** A step whose value is converted first. *)
Definition with_int {A} (value : text) (f : Z -> parsed A) : parsed A :=
  match atoi value with Some v => f v | None => Undefined end.

(** ** The order client *)
Record client_options := mkClientOptions {
  cl_qps : Z; cl_burst : Z; cl_disconnect_interval_s : Z; cl_timeout_ms : Z;
  cl_cancel_ratio : Z; cl_replace_ratio : Z; cl_trace_every : Z; cl_gateway_ip : text }.

Definition client_defaults : client_options := mkClientOptions 2 1 0 1000 0 0 0 (str "127.0.0.1").

Definition client_step (key value : text) (c : client_options) : parsed client_options :=
  with_int value (fun val =>
  let '(mkClientOptions q b d t cr rr tr ip) := c in
  Parsed (
  if is_key key "--qps" then mkClientOptions (Z.max 1 val) b d t cr rr tr ip
  else if is_key key "--burst" then mkClientOptions q (Z.max 1 val) d t cr rr tr ip
  else if is_key key "--disconnect-interval-s" then mkClientOptions q b (Z.max 0 val) t cr rr tr ip
  else if is_key key "--timeout-ms" then mkClientOptions q b d (Z.max 1 val) cr rr tr ip
  else if is_key key "--cancel-ratio" then mkClientOptions q b d t (clamp val 0 100) rr tr ip
  else if is_key key "--replace-ratio" then mkClientOptions q b d t cr (clamp val 0 100) tr ip
  else if is_key key "--trace-every" then mkClientOptions q b d t cr rr (Z.max 0 val) ip
  else if is_key key "--gateway-ip" then mkClientOptions q b d t cr rr tr value
  else c)).

Definition client_parse (argv : list text) : parsed client_options :=
  scan_args client_step argv client_defaults.

(** [burst_interval] in microseconds; the product is computed in [int]. *)
Definition burst_interval (c : client_options) : option Z :=
  if bool_decide (int_range (1000000 * c.(cl_burst)))
  then Some (Z.quot (1000000 * c.(cl_burst)) (Z.max 1 c.(cl_qps))) else None.

(** ** The order gateway *)
Record gateway_options := mkGatewayOptions {
  gw_server_drop_at_s : Z; gw_backpressure_threshold : Z; gw_trace_every : Z }.

Definition gateway_defaults : gateway_options := mkGatewayOptions 0 0 0.

Definition gateway_step (key value : text) (c : gateway_options) : parsed gateway_options :=
  with_int value (fun val =>
  let '(mkGatewayOptions d b t) := c in
  Parsed (
  if is_key key "--server-drop-at-s" then mkGatewayOptions (Z.max 0 val) b t
  else if is_key key "--backpressure-threshold" then mkGatewayOptions d (Z.max 0 val) t
  else if is_key key "--trace-every" then mkGatewayOptions d b (Z.max 0 val)
  else c)).

Definition gateway_parse (argv : list text) : parsed gateway_options :=
  scan_args gateway_step argv gateway_defaults.

(** ** The market data publisher; a rate is [None] (0.0) or the text of the last
    argument, clamped between 0 and 1 *)
Record publisher_options := mkPublisherOptions {
  pub_rate : Z; pub_payload_size : Z; pub_streams : Z; pub_jitter_ms : Z;
  pub_drop_rate : option text; pub_reorder_rate : option text; pub_seed : Z }.

Definition publisher_defaults : publisher_options := mkPublisherOptions 2 64 1 0 None None 42.

Definition publisher_step (key value : text) (c : publisher_options) : parsed publisher_options :=
  let '(mkPublisherOptions r p s j d o e) := c in
  if is_key key "--rate" then
    with_int value (fun val => Parsed (mkPublisherOptions (Z.max 1 val) p s j d o e))
  else if is_key key "--payload-size" then
    with_int value (fun val => Parsed (mkPublisherOptions r (Z.max 40 val) s j d o e))
  else if is_key key "--streams" then
    with_int value (fun val => Parsed (mkPublisherOptions r p (Z.max 1 val) j d o e))
  else if is_key key "--jitter-ms" then
    with_int value (fun val => Parsed (mkPublisherOptions r p s (Z.max 0 val) d o e))
  else if is_key key "--drop-rate" then Parsed (mkPublisherOptions r p s j (Some value) o e)
  else if is_key key "--reorder-rate" then Parsed (mkPublisherOptions r p s j d (Some value) e)
  else if is_key key "--seed" then
    with_int value (fun val => Parsed (mkPublisherOptions r p s j d o (wrap 32 (Z.max 1 val))))
  else Parsed c.

Definition publisher_parse (argv : list text) : parsed publisher_options :=
  scan_args publisher_step argv publisher_defaults.

(** [payload_bytes] and the block size of the pool. *)
Definition payload_bytes (c : publisher_options) : Z := Z.max c.(pub_payload_size) 40.
Definition kPacketBufSize (c : publisher_options) : Z := 8 + payload_bytes c + 16.
(** [send_interval] in microseconds. *)
Definition send_interval (c : publisher_options) : Z := Z.quot 1000000 (Z.max 1 c.(pub_rate)).

(** ** The market data subscriber *)
Record subscriber_options := mkSubscriberOptions {
  sub_id : Z; sub_artificial_delay_ms : Z; sub_summary_file : text; sub_trace_every : Z }.

Definition subscriber_defaults : subscriber_options := mkSubscriberOptions 0 0 [] 0.

Definition subscriber_step (key value : text) (c : subscriber_options) : parsed subscriber_options :=
  let '(mkSubscriberOptions i d f t) := c in
  if is_key key "--subscriber-id" then
    with_int value (fun val => Parsed (mkSubscriberOptions (Z.max 0 val) d f t))
  else if is_key key "--artificial-delay-ms" then
    with_int value (fun val => Parsed (mkSubscriberOptions i (Z.max 0 val) f t))
  else if is_key key "--summary-file" then Parsed (mkSubscriberOptions i d value t)
  else if is_key key "--trace-every" then
    with_int value (fun val => Parsed (mkSubscriberOptions i d f (Z.max 0 val)))
  else Parsed c.

Definition subscriber_parse (argv : list text) : parsed subscriber_options :=
  scan_args subscriber_step argv subscriber_defaults.

(** ** The simulation drivers *)
Record sim_order_options := mkSimOrderOptions {
  so_run_seconds : Z; so_qps : Z; so_burst : Z; so_disconnect_interval_s : Z; so_server_drop_at_s : Z;
  so_timeout_ms : Z; so_cancel_ratio : Z; so_replace_ratio : Z; so_backpressure_threshold : Z }.

Definition sim_order_defaults : sim_order_options := mkSimOrderOptions 10 2 1 0 0 1000 0 0 0.

Definition sim_order_step (key value : text) (c : sim_order_options) : parsed sim_order_options :=
  with_int value (fun val =>
  let '(mkSimOrderOptions n q b d s t cr rr bp) := c in
  if is_key key "--duration" then Parsed (mkSimOrderOptions (Z.max 1 val) q b d s t cr rr bp)
  else if is_key key "--qps" then Parsed (mkSimOrderOptions n (Z.max 1 val) b d s t cr rr bp)
  else if is_key key "--burst" then Parsed (mkSimOrderOptions n q (Z.max 1 val) d s t cr rr bp)
  else if is_key key "--disconnect-interval-s" then
    Parsed (mkSimOrderOptions n q b (Z.max 0 val) s t cr rr bp)
  else if is_key key "--server-drop-at-s" then
    Parsed (mkSimOrderOptions n q b d (Z.max 0 val) t cr rr bp)
  else if is_key key "--timeout-ms" then Parsed (mkSimOrderOptions n q b d s (Z.max 1 val) cr rr bp)
  else if is_key key "--cancel-ratio" then
    Parsed (mkSimOrderOptions n q b d s t (clamp val 0 100) rr bp)
  else if is_key key "--replace-ratio" then
    Parsed (mkSimOrderOptions n q b d s t cr (clamp val 0 100) bp)
  else if is_key key "--gateway-backpressure-threshold" then
    Parsed (mkSimOrderOptions n q b d s t cr rr (Z.max 0 val))
  else Unknown key).

Definition sim_order_parse (argv : list text) : parsed sim_order_options :=
  scan_args sim_order_step argv sim_order_defaults.

(** The command lines of the gateway and of the client. *)
Definition gateway_args (c : sim_order_options) : list text :=
  [ str "--server-drop-at-s"; to_string c.(so_server_drop_at_s);
    str "--backpressure-threshold"; to_string c.(so_backpressure_threshold) ].

Definition client_args (c : sim_order_options) : list text :=
  [ str "--qps"; to_string c.(so_qps); str "--burst"; to_string c.(so_burst);
    str "--disconnect-interval-s"; to_string c.(so_disconnect_interval_s);
    str "--timeout-ms"; to_string c.(so_timeout_ms);
    str "--cancel-ratio"; to_string c.(so_cancel_ratio);
    str "--replace-ratio"; to_string c.(so_replace_ratio) ].

Record sim_market_options := mkSimMarketOptions {
  sm_run_seconds : Z; sm_rate : Z; sm_payload_size : Z; sm_subscribers : Z; sm_streams : Z;
  sm_jitter_ms : Z; sm_slow_subscriber_ratio : Z; sm_drop_rate : option text;
  sm_reorder_rate : option text }.

Definition sim_market_defaults : sim_market_options :=
  mkSimMarketOptions 10 2 (8 * 2 + 4 * 5) 1 1 0 0 None None.

Definition sim_market_step (key value : text) (c : sim_market_options) : parsed sim_market_options :=
  with_int value (fun val =>
  let '(mkSimMarketOptions n r p u s j w d o) := c in
  if is_key key "--duration" then Parsed (mkSimMarketOptions (Z.max 1 val) r p u s j w d o)
  else if is_key key "--rate" then Parsed (mkSimMarketOptions n (Z.max 1 val) p u s j w d o)
  else if is_key key "--payload-size" then Parsed (mkSimMarketOptions n r (Z.max 64 val) u s j w d o)
  else if is_key key "--subscribers" then Parsed (mkSimMarketOptions n r p (Z.max 1 val) s j w d o)
  else if is_key key "--streams" then Parsed (mkSimMarketOptions n r p u (Z.max 1 val) j w d o)
  else if is_key key "--jitter-ms" then Parsed (mkSimMarketOptions n r p u s (Z.max 0 val) w d o)
  else if is_key key "--slow-subscriber-ratio" then
    Parsed (mkSimMarketOptions n r p u s j (clamp val 0 100) d o)
  else if is_key key "--drop-rate" then Parsed (mkSimMarketOptions n r p u s j w (Some value) o)
  else if is_key key "--reorder-rate" then Parsed (mkSimMarketOptions n r p u s j w d (Some value))
  else Unknown key).

Definition sim_market_parse (argv : list text) : parsed sim_market_options :=
  scan_args sim_market_step argv sim_market_defaults.

(** The command lines of a subscriber and of the publisher; [rate_text] is
    [std::to_string] of a rate. *)
Definition subscriber_args (i : Z) (is_slow : bool) (summary_file : text) : list text :=
  [ str "--subscriber-id"; to_string i;
    str "--artificial-delay-ms"; (if is_slow then str "2" else str "0");
    str "--summary-file"; summary_file ].

Definition publisher_args (rate_text : option text -> text) (c : sim_market_options) : list text :=
  [ str "--rate"; to_string c.(sm_rate); str "--payload-size"; to_string c.(sm_payload_size);
    str "--streams"; to_string c.(sm_streams); str "--jitter-ms"; to_string c.(sm_jitter_ms);
    str "--drop-rate"; rate_text c.(sm_drop_rate);
    str "--reorder-rate"; rate_text c.(sm_reorder_rate) ].

(** ** What the programs can be started with *)
Definition sim_order_ok (c : sim_order_options) : Prop :=
  1 <= c.(so_run_seconds) <= INT_MAX /\ 1 <= c.(so_qps) <= INT_MAX /\ 1 <= c.(so_burst) <= INT_MAX /\
  0 <= c.(so_disconnect_interval_s) <= INT_MAX /\ 0 <= c.(so_server_drop_at_s) <= INT_MAX /\
  1 <= c.(so_timeout_ms) <= INT_MAX /\ 0 <= c.(so_cancel_ratio) <= 100 /\
  0 <= c.(so_replace_ratio) <= 100 /\ 0 <= c.(so_backpressure_threshold) <= INT_MAX.

Definition sim_market_ok (c : sim_market_options) : Prop :=
  1 <= c.(sm_run_seconds) <= INT_MAX /\ 1 <= c.(sm_rate) <= INT_MAX /\
  (c.(sm_payload_size) = 36 \/ 64 <= c.(sm_payload_size) <= INT_MAX) /\
  1 <= c.(sm_subscribers) <= INT_MAX /\ 1 <= c.(sm_streams) <= INT_MAX /\
  0 <= c.(sm_jitter_ms) <= INT_MAX /\ 0 <= c.(sm_slow_subscriber_ratio) <= 100.

Lemma atoi_range t v : atoi t = Some v -> int_range v.
Proof. unfold atoi. destruct (scan_number t) as [b n]. case_bool_decide; [|done]. by intros [= <-]. Qed.

Lemma clamp_range v : 0 <= clamp v 0 100 <= 100.
Proof. unfold clamp. destruct (Z.ltb_spec v 0), (Z.ltb_spec 100 v); lia. Qed.

Ltac step_ok :=
  repeat (match goal with |- context [if is_key ?k ?s then _ else _] => destruct (is_key k s) end;
    [intros [= <-]; cbn; pose proof clamp_range; unfold INT_MIN, INT_MAX in *; split_and?; try done; lia|]).

Lemma sim_order_step_ok k v c c' : sim_order_ok c -> sim_order_step k v c = Parsed c' -> sim_order_ok c'.
Proof.
  destruct c as [n q b d s t cr rr bp]. unfold sim_order_ok, sim_order_step, with_int. cbn.
  intros (H1 & H2 & H3 & H4 & H5 & H6 & H7 & H8 & H9).
  destruct (atoi v) as [val|] eqn:E; [|done]. apply atoi_range in E as Hv. unfold int_range in Hv.
  pose proof (clamp_range val). step_ok. done.
Qed.

Lemma sim_market_step_ok k v c c' : sim_market_ok c -> sim_market_step k v c = Parsed c' -> sim_market_ok c'.
Proof.
  destruct c as [n r p u s j w d o]. unfold sim_market_ok, sim_market_step, with_int. cbn.
  intros (H1 & H2 & H3 & H4 & H5 & H6 & H7).
  destruct (atoi v) as [val|] eqn:E; [|done]. apply atoi_range in E as Hv. unfold int_range in Hv.
  pose proof (clamp_range val). step_ok. done.
Qed.

Lemma sim_order_parse_ok argv c : sim_order_parse argv = Parsed c -> sim_order_ok c.
Proof.
  apply (scan_args_preserves sim_order_ok); [apply sim_order_step_ok|].
  unfold sim_order_ok, INT_MAX. cbn. lia.
Qed.

Lemma sim_market_parse_ok argv c : sim_market_parse argv = Parsed c -> sim_market_ok c.
Proof.
  apply (scan_args_preserves sim_market_ok); [apply sim_market_step_ok|].
  unfold sim_market_ok, INT_MAX. cbn. lia.
Qed.

(** ** Printed options parse back *)
Lemma with_int_to_string {A} n (f : Z -> parsed A) : int_range n -> with_int (to_string n) f = f n.
Proof. intros H. unfold with_int. by rewrite atoi_to_string. Qed.

Ltac eval_keys :=
  repeat match goal with
  | |- context [is_key (str ?a) ?b] =>
      let v := eval vm_compute in (is_key (str a) b) in change (is_key (str a) b) with v
  end; cbv beta iota zeta.

Ltac next_arg step :=
  cbn [scan_args]; unfold step at 1; eval_keys;
  rewrite ?with_int_to_string by (unfold int_range, INT_MIN, INT_MAX in *; lia); eval_keys.

Lemma clamp_id v : 0 <= v <= 100 -> clamp v 0 100 = v.
Proof. intros H. unfold clamp. destruct (Z.ltb_spec v 0), (Z.ltb_spec 100 v); lia. Qed.

Lemma gateway_parse_args c : sim_order_ok c ->
  gateway_parse (gateway_args c) =
    Parsed (mkGatewayOptions c.(so_server_drop_at_s) c.(so_backpressure_threshold) 0).
Proof.
  intros (_ & _ & _ & _ & H & _ & _ & _ & H'). unfold gateway_parse, gateway_args, gateway_defaults.
  do 2 next_arg gateway_step. cbn [scan_args]. by rewrite !Z.max_r by lia.
Qed.

Lemma client_parse_args c : sim_order_ok c ->
  client_parse (client_args c) =
    Parsed (mkClientOptions c.(so_qps) c.(so_burst) c.(so_disconnect_interval_s) c.(so_timeout_ms)
              c.(so_cancel_ratio) c.(so_replace_ratio) 0 (str "127.0.0.1")).
Proof.
  intros (_ & H1 & H2 & H3 & _ & H4 & H5 & H6 & _). unfold client_parse, client_args, client_defaults.
  do 6 next_arg client_step. cbn [scan_args]. by rewrite !Z.max_r, !clamp_id by lia.
Qed.

Lemma publisher_parse_args rate_text c : sim_market_ok c ->
  publisher_parse (publisher_args rate_text c) =
    Parsed (mkPublisherOptions c.(sm_rate) (Z.max 40 c.(sm_payload_size)) c.(sm_streams) c.(sm_jitter_ms)
              (Some (rate_text c.(sm_drop_rate))) (Some (rate_text c.(sm_reorder_rate))) 42).
Proof.
  intros (_ & H1 & H2 & H3 & H4 & H5 & _). unfold publisher_parse, publisher_args, publisher_defaults.
  do 4 next_arg publisher_step. do 2 (cbn [scan_args]; unfold publisher_step at 1; eval_keys).
  rewrite (Z.max_r 1 (sm_rate c)), (Z.max_r 1 (sm_streams c)), (Z.max_r 0) by lia. done.
Qed.

Lemma subscriber_parse_args i is_slow file : 0 <= i <= INT_MAX ->
  subscriber_parse (subscriber_args i is_slow file) =
    Parsed (mkSubscriberOptions i (if is_slow then 2 else 0) file 0).
Proof.
  intros H. unfold subscriber_parse, subscriber_args, subscriber_defaults.
  next_arg subscriber_step. cbn [scan_args]. unfold subscriber_step at 1. eval_keys.
  assert (with_int (if is_slow then str "2" else str "0")
    (fun val => Parsed (mkSubscriberOptions (Z.max 0 i) (Z.max 0 val) [] 0)) =
    Parsed (mkSubscriberOptions i (if is_slow then 2 else 0) [] 0)) as ->.
  { rewrite (Z.max_r 0 i) by lia. by destruct is_slow. }
  cbn [scan_args]. unfold subscriber_step at 1. by eval_keys.
Qed.

(** C34: The options of a simulation arrive in the programs it starts.  Whatever
    arguments a driver accepts, its values are within their ranges, and the
    texts it prints on the command lines of the gateway, the client, the
    publisher and the subscribers are read back by those programs' own scanners
    as the same values (the publisher raising a payload below the 40 bytes of
    an increment to 40), every other option keeping its default. *)
Theorem simulation_options_arrive :
  (forall argv c, sim_order_parse argv = Parsed c ->
     sim_order_ok c /\
     gateway_parse (gateway_args c) =
       Parsed (mkGatewayOptions c.(so_server_drop_at_s) c.(so_backpressure_threshold) 0) /\
     client_parse (client_args c) =
       Parsed (mkClientOptions c.(so_qps) c.(so_burst) c.(so_disconnect_interval_s) c.(so_timeout_ms)
                 c.(so_cancel_ratio) c.(so_replace_ratio) 0 (str "127.0.0.1"))) /\
  (forall argv c rate_text, sim_market_parse argv = Parsed c ->
     sim_market_ok c /\
     publisher_parse (publisher_args rate_text c) =
       Parsed (mkPublisherOptions c.(sm_rate) (Z.max 40 c.(sm_payload_size)) c.(sm_streams)
                 c.(sm_jitter_ms) (Some (rate_text c.(sm_drop_rate)))
                 (Some (rate_text c.(sm_reorder_rate))) 42) /\
     forall i is_slow file, 0 <= i < c.(sm_subscribers) ->
       subscriber_parse (subscriber_args i is_slow file) =
         Parsed (mkSubscriberOptions i (if is_slow then 2 else 0) file 0)).
Proof.
  split.
  - intros argv c Hc%sim_order_parse_ok. split; [done|].
    split; [by apply gateway_parse_args|by apply client_parse_args].
  - intros argv c rate_text Hc%sim_market_parse_ok. split; [done|].
    split; [by apply publisher_parse_args|]. intros i is_slow file Hi. apply subscriber_parse_args.
    destruct Hc as (_ & _ & _ & ? & _). lia.
Qed.

(** C37: The pacing interval of the client is computed in [int]: it is defined
    exactly for bursts up to 2147, and then lies between 0 and the time of the
    whole burst; the driver accepts and passes on bursts beyond that. *)
Theorem burst_interval_defined argv c :
  sim_order_parse argv = Parsed c ->
  exists o, client_parse (client_args c) = Parsed o /\
    (is_Some (burst_interval o) <-> c.(so_burst) <= 2147) /\
    forall us, burst_interval o = Some us -> 0 <= us <= 1000000 * c.(so_burst) /\
      us * c.(so_qps) <= 1000000 * c.(so_burst) < (us + 1) * c.(so_qps).
Proof.
  intros Hc%sim_order_parse_ok. eexists. split; [by apply client_parse_args|].
  destruct Hc as (_ & Hq & Hb & _). unfold burst_interval, int_range, INT_MIN, INT_MAX in *.
  cbn [cl_burst cl_qps]. rewrite Z.max_r by lia. case_bool_decide as H; split.
  - split; [lia|by eexists].
  - intros us [= <-]. rewrite Z.quot_div_nonneg by lia.
    pose proof (Z.div_mod (1000000 * so_burst c) (so_qps c) ltac:(lia)).
    pose proof (Z.mod_pos_bound (1000000 * so_burst c) (so_qps c) ltac:(lia)).
    set (d := 1000000 * so_burst c / so_qps c) in *. nia.
  - split; [by intros [? ?]|lia].
  - done.
Qed.

(** ** Witnesses *)
Definition demo_order_argv : list text :=
  [str "--qps"; str "20"; str "--burst"; str "3000"; str "--cancel-ratio"; str "250"; str "--duration"].
Definition demo_market_argv : list text :=
  [str "--subscribers"; str "4"; str "--drop-rate"; str "0.01"].
Definition demo_order_options : sim_order_options := mkSimOrderOptions 10 20 3000 0 0 1000 100 0 0.
Definition demo_market_options : sim_market_options :=
  mkSimMarketOptions 10 2 36 4 1 0 0 (Some (str "0.01")) None.

Lemma simulation_options_arrive_witness :
  sim_order_parse demo_order_argv = Parsed demo_order_options /\
  sim_market_parse demo_market_argv = Parsed demo_market_options /\
  client_parse (client_args demo_order_options) =
    Parsed (mkClientOptions 20 3000 0 1000 100 0 0 (str "127.0.0.1")) /\
  subscriber_parse (subscriber_args 3 true (str "/tmp/s")) = Parsed (mkSubscriberOptions 3 2 (str "/tmp/s") 0).
Proof.
  assert (sim_order_parse demo_order_argv = Parsed demo_order_options) as E1 by (vm_compute; reflexivity).
  assert (sim_market_parse demo_market_argv = Parsed demo_market_options) as E2 by (vm_compute; reflexivity).
  split; [exact E1|]. split; [exact E2|]. split.
  - exact (proj2 (proj2 (proj1 simulation_options_arrive _ _ E1))).
  - apply (proj2 (proj2 (proj2 simulation_options_arrive _ _ (fun _ => []) E2))). cbn. lia.
Defined.

Lemma burst_interval_defined_witness :
  exists o, client_parse (client_args demo_order_options) = Parsed o /\
    (is_Some (burst_interval o) <-> 3000 <= 2147).
Proof.
  destruct (burst_interval_defined demo_order_argv demo_order_options) as (o & E & H & _).
  - vm_compute. reflexivity.
  - exists o. split; [exact E|exact H].
Defined.
