(* ===== verification/Rates.v ===== *)
(** * Rates: the drop and reorder rates, from the command line to the draws
    (apps/market_udp/feed_publisher.cpp, apps/run_sim_market.cpp), and the
    doubles the programs print

    A rate is read by [atof] and clamped between 0 and 1; the market driver
    prints it again with [std::to_string] for the publisher it starts, which
    compares it with draws between 1 and 10000 divided by 10000. *)
From Stdlib Require Import Floats.SpecFloat Strings.Ascii.
From Stdlib Require Strings.String.
From S2P Require Import Prelude Doubles Options.

Import String.StringSyntax.

(** ** Reading: [atof] *)
Definition lower (c : ascii) : Z :=
  let n := char_code c in if (65 <=? n) && (n <=? 90) then n + 32 else n.

(** [t] begins with [p], whatever the case. *)
Fixpoint begins_ci (p t : text) : bool :=
  match p, t with
  | [], _ => true
  | a :: p, c :: t => (lower a =? lower c) && begins_ci p t
  | _, [] => false
  end.

Definition digit_value (base : Z) (c : ascii) : option Z :=
  let n := lower c in
  let d := if is_digit c then n - 48 else if (97 <=? n) && (n <=? 122) then n - 87 else base in
  if d <? base then Some d else None.

(** Digits with at most one point: the integer they form, how many follow the
    point, whether there are any, and the rest. *)
Fixpoint scan_mantissa (base : Z) (point : bool) (acc frac : Z) (any : bool) (t : text)
    : Z * Z * bool * text :=
  match t with
  | [] => (acc, frac, any, [])
  | c :: t' =>
      match digit_value base c with
      | Some d => scan_mantissa base point (base * acc + d) (if point then frac + 1 else frac) true t'
      | None =>
          if (char_code c =? 46) && negb point then scan_mantissa base true acc frac any t'
          else (acc, frac, any, t)
      end
  end.

Definition scan_sign (t : text) : bool * text :=
  match t with
  | c :: t' => if char_code c =? 45 then (true, t') else if char_code c =? 43 then (false, t') else (false, t)
  | [] => (false, [])
  end.

(** An exponent after [mark], if one is there. *)
Definition scan_exponent (mark : Z) (t : text) : Z :=
  match t with
  | c :: t' =>
      if lower c =? mark then
        let '(negative, t'') := scan_sign t' in
        let n := scan_digits 0 t'' in if negative then - n else n
      else 0
  | [] => 0
  end.

(** [n * base ^ e], rounded. *)
Definition scaled_by (base n e : Z) : double :=
  if 0 <=? e then quotient (n * base ^ e) 1 else quotient n (base ^ (- e)).

Definition unsigned_value (t : text) : double :=
  if begins_ci (str "inf") t then S754_infinity false
  else if begins_ci (str "nan") t then S754_nan
  else
    let '(h, hfrac, hex, hrest) := scan_mantissa 16 false 0 0 false (drop 2 t) in
    if begins_ci (str "0x") t && hex then scaled_by 2 h (scan_exponent 112 hrest - 4 * hfrac)
    else
      let '(n, frac, any, rest) := scan_mantissa 10 false 0 0 false t in
      if any then scaled_by 10 n (scan_exponent 101 rest - frac) else S754_zero false.

Definition atof (t : text) : double :=
  let '(negative, t) := scan_sign (skip_spaces t) in
  if negative then SFopp (unsigned_value t) else unsigned_value t.

(** [std::clamp(x, 0.0, 1.0)]: a NaN stays. *)
Definition one : double := quotient 1 1.
Definition clamp01 (x : double) : double :=
  if SFltb x (S754_zero false) then S754_zero false else if SFltb one x then one else x.

(** The value of an option of Options. *)
Definition rate_of (o : option text) : double :=
  match o with None => S754_zero false | Some t => clamp01 (atof t) end.

(** ** Printing *)

(** [m * 2 ^ e * 10 ^ p] to the nearest integer. *)
Definition decimal (m e p : Z) : Z :=
  rne (m * 2 ^ Z.max e 0 * 10 ^ Z.max p 0) (2 ^ Z.max (- e) 0 * 10 ^ Z.max (- p) 0).

Fixpoint padded (k : nat) (n : Z) : text :=
  match k with
  | O => []
  | S k => padded k (n / 10) ++ [digit_char (n mod 10)]
  end.

Definition minus (s : bool) : text := if s then str "-" else [].

(** [n / 10 ^ k] with [k] decimals. *)
Definition fixed (k : nat) (n : Z) : text :=
  digits 400 (n / 10 ^ Z.of_nat k) ++ str "." ++ padded k (n mod 10 ^ Z.of_nat k).

(** [std::to_string]. *)
Definition to_string_double (x : double) : text :=
  match x with
  | S754_zero s => minus s ++ fixed 6 0
  | S754_finite s m e => minus s ++ fixed 6 (decimal (Zpos m) e 6)
  | S754_infinity s => minus s ++ str "inf"
  | S754_nan => str "nan"
  end.

Definition rate_text (o : option text) : text := to_string_double (rate_of o).

(** *** [operator<<] with its default precision of 6 *)

(** The exponent of the leading decimal digit of [n / d]. *)
Fixpoint leading (fuel : nat) (n d : Z) : Z :=
  match fuel with
  | O => 0
  | S fuel =>
      if n <? d then leading fuel (10 * n) d - 1
      else if 10 * d <=? n then leading fuel n (10 * d) + 1 else 0
  end.

Fixpoint strip_zeros (t : text) : text :=
  match t with
  | [] => []
  | c :: t => match strip_zeros t with [] => if char_code c =? 48 then [] else [c] | r => c :: r end
  end.

Definition with_fraction (whole frac : text) : text :=
  match strip_zeros frac with [] => whole | f => whole ++ str "." ++ f end.

Definition show_finite (m e : Z) : text :=
  let x := leading 400 (m * 2 ^ Z.max e 0) (2 ^ Z.max (- e) 0) in
  let n := decimal m e (5 - x) in
  let '(n, x) := if n =? 10 ^ 6 then (10 ^ 5, x + 1) else (n, x) in
  if (-4 <=? x) && (x <? 6) then
    let k := Z.to_nat (5 - x) in
    with_fraction (digits 20 (n / 10 ^ (5 - x))) (padded k (n mod 10 ^ (5 - x)))
  else
    with_fraction (digits 20 (n / 10 ^ 5)) (padded 5 (n mod 10 ^ 5)) ++
    str "e" ++ (if x <? 0 then str "-" else str "+") ++
    (if Z.abs x <? 10 then str "0" else []) ++ digits 20 (Z.abs x).

Definition show_double (x : double) : text :=
  match x with
  | S754_zero s => minus s ++ str "0"
  | S754_finite s m e => minus s ++ show_finite (Zpos m) e
  | S754_infinity s => minus s ++ str "inf"
  | S754_nan => str "nan"
  end.

(** ** The draws *)

(** [static_cast<double>(bp_dist(rng)) / 10000.0 <= rate]. *)
Definition draw_below (bp : Z) (rate : double) : bool := SFleb (divide (double_of bp) (double_of 10000)) rate.

(** ** Scanning what was printed *)
Lemma rne_unique n d N : 2 * Z.abs (n - N * d) < d -> rne n d = N.
Proof. intros H. destruct (rne_near n d ltac:(lia)) as [Hn _]. nia. Qed.

Lemma scan_mantissa_digits point acc frac any l r : Forall (fun c => is_digit c = true) l ->
  scan_mantissa 10 point acc frac any (l ++ r) =
  scan_mantissa 10 point (scan_digits acc l) (if point then frac + Z.of_nat (length l) else frac)
    (any || negb (length l =? 0)%nat) r.
Proof.
  intros H. revert acc frac any. induction H as [|c l Hc _ IH]; intros acc frac any; cbn [app length].
  { rewrite orb_false_r. by destruct point; rewrite ?Z.add_0_r. }
  cbn [scan_mantissa scan_digits]. rewrite Hc.
  assert (digit_value 10 c = Some (char_code c - 48)) as ->.
  { unfold digit_value, lower. rewrite Hc. unfold is_digit in Hc.
    destruct (Z.leb_spec 65 (char_code c)); [lia|]. cbn [andb]. by destruct (Z.ltb_spec (char_code c - 48) 10); [|lia]. }
  rewrite IH. cbn [orb Nat.eqb negb]. rewrite orb_true_r. destruct point; [|done].
  by replace (frac + 1 + Z.of_nat (length l)) with (frac + Z.of_nat (S (length l))) by lia.
Qed.

Lemma padded_digits k n : 0 <= n -> Forall (fun c => is_digit c = true) (padded k n) /\ length (padded k n) = k.
Proof.
  revert n. induction k as [|k IH]; intros n Hn; cbn [padded]; [done|].
  destruct (IH (n / 10)) as [H1 H2]; [apply Z.div_pos; lia|]. rewrite length_app, H2. split; [|cbn; lia].
  apply Forall_app_2; [done|]. constructor; [|constructor]. apply digit_char_is_digit. pose proof (Z.mod_pos_bound n 10). lia.
Qed.

Lemma scan_padded k acc n : 0 <= n < 10 ^ Z.of_nat k -> scan_digits acc (padded k n) = acc * 10 ^ Z.of_nat k + n.
Proof.
  revert n. induction k as [|k IH]; intros n Hn; cbn [padded]; [cbn in *; lia|].
  rewrite Nat2Z.inj_succ, Z.pow_succ_r in * by lia. pose proof (Z.mod_pos_bound n 10).
  rewrite scan_digits_app, IH, char_code_digit; [|lia| | |apply digit_char_is_digit; lia].
  - pose proof (Z.div_mod n 10). lia.
  - split; [apply Z.div_pos; lia|apply Z.div_lt_upper_bound; lia].
  - apply padded_digits. apply Z.div_pos; lia.
Qed.

Lemma digits_not_nil fuel n : digits (S fuel) n <> [].
Proof. cbn [digits]. destruct (n <? 10); [done|]. by intros [_ [=]]%app_nil. Qed.

(** No text of digits and a point begins with letters. *)
Lemma begins_ci_in p t c : begins_ci p t = true -> c ∈ p -> exists d, d ∈ t /\ lower c = lower d.
Proof.
  revert t. induction p as [|a p IH]; intros [|d t]; cbn [begins_ci]; rewrite ?elem_of_nil, ?elem_of_cons; try done.
  rewrite andb_true_iff. intros [E H] [->|Hc].
  - exists d. split; [by left|lia].
  - destruct (IH t H Hc) as (x & Hx & Ex). exists x. split; [by right|done].
Qed.

Definition numeral (c : ascii) : Prop := lower c < 97.

Lemma numeral_begins p t c : c ∈ p -> 97 <= lower c -> Forall numeral t -> begins_ci p t = false.
Proof.
  intros Hc Hl Ht. destruct (begins_ci p t) eqn:E; [|done]. destruct (begins_ci_in p t c E Hc) as (d & Hd & Ed).
  rewrite Forall_forall in Ht. specialize (Ht d Hd). unfold numeral in Ht. lia.
Qed.

Lemma digit_numeral c : is_digit c = true -> numeral c.
Proof. unfold is_digit, numeral, lower. destruct (Z.leb_spec 65 (char_code c)); cbn [andb]; lia. Qed.

Lemma unsigned_value_fixed k n : 0 <= n -> n / 10 ^ Z.of_nat k < 10 ^ 400 ->
  unsigned_value (fixed k n) = scaled_by 10 n (- Z.of_nat k).
Proof.
  intros Hn Hk. unfold fixed. set (q := n / 10 ^ Z.of_nat k) in *. set (r := n mod 10 ^ Z.of_nat k).
  assert (0 < 10 ^ Z.of_nat k) as Hp by lia. pose proof (Z.mod_pos_bound n _ Hp) as Hr. fold r in Hr.
  assert (0 <= q) as Hq by (apply Z.div_pos; lia).
  pose proof (digits_are_digits 400 q Hq) as Hd. destruct (padded_digits k r ltac:(lia)) as [Hf Hl].
  assert (Forall numeral (digits 400 q ++ str "." ++ padded k r)) as Hnum.
  { apply Forall_app_2; [eapply Forall_impl; [exact Hd|apply digit_numeral]|].
    apply Forall_app_2; [by repeat constructor|]. eapply Forall_impl; [exact Hf|apply digit_numeral]. }
  unfold unsigned_value. rewrite (numeral_begins (str "inf") _ (ascii_of_N 105)); [|by left|by vm_compute|done].
  rewrite (numeral_begins (str "nan") _ (ascii_of_N 110)); [|by left|by vm_compute|done].
  destruct (scan_mantissa 16 _ _ _ _ _) as [[[h hfrac] hex] hrest].
  rewrite (numeral_begins (str "0x") _ (ascii_of_N 120)); [|right; by left|by vm_compute|done]. cbn [andb].
  rewrite scan_mantissa_digits by done. rewrite scan_digits_digits by lia. cbn [app str String.list_ascii_of_string].

  assert (negb (length (digits 400 q) =? 0)%nat = true) as ->.
  { destruct (digits 400 q) eqn:E; [|done]. exfalso. exact (digits_not_nil 399 _ E). }
  change (scan_mantissa 10 false q 0 (false || true) ("."%char :: padded k r)) with
    (scan_mantissa 10 true q 0 true (padded k r)).
  rewrite <- (app_nil_r (padded k r)), scan_mantissa_digits by done. cbn [orb scan_mantissa scan_exponent].
  rewrite scan_padded, Hl by lia. pose proof (Z.div_mod n (10 ^ Z.of_nat k) ltac:(lia)) as E. fold q r in E.
  by replace (q * 10 ^ Z.of_nat k + r) with n by lia.
Qed.

Lemma atof_fixed k n : (0 < k)%nat -> 0 <= n <= 10 ^ Z.of_nat k -> atof (fixed k n) = quotient n (10 ^ Z.of_nat k).
Proof.
  intros Hk Hn. assert (0 < 10 ^ Z.of_nat k) as Hp by lia.
  assert (n / 10 ^ Z.of_nat k < 10 ^ 400) as Hq.
  { assert (n / 10 ^ Z.of_nat k <= 1) by (apply Z.div_le_upper_bound; lia). lia. }
  assert (skip_spaces (fixed k n) = fixed k n /\ scan_sign (fixed k n) = (false, fixed k n)) as [E1 E2].
  { unfold fixed. assert (0 <= n / 10 ^ Z.of_nat k) as Hq0 by (apply Z.div_pos; lia).
    pose proof (digits_are_digits 400 _ Hq0) as Hd. destruct (digits 400 (n / 10 ^ Z.of_nat k)) as [|c t] eqn:E.
    { exfalso. exact (digits_not_nil 399 _ E). }
    apply Forall_cons in Hd as [Hc _]. unfold is_digit in Hc. cbn [app skip_spaces scan_sign]. unfold is_space.
    destruct (Z.eqb_spec (char_code c) 45), (Z.eqb_spec (char_code c) 43); try lia.
    by replace (_ || _) with false by lia. }
  unfold atof. rewrite E1, E2, unsigned_value_fixed by (done || lia). unfold scaled_by.
  destruct (Z.leb_spec 0 (- Z.of_nat k)); [lia|]. by rewrite Z.opp_involutive.
Qed.

(** ** Rates between 0 and 1 *)
Lemma clamp01_quotient a b : 0 <= a <= b -> 0 < b < 2 ^ 52 -> clamp01 (quotient a b) = quotient a b.
Proof.
  intros Ha Hb. unfold clamp01, one, SFltb.
  change (S754_zero false) with (quotient 0 1). rewrite !quotient_compare by lia.
  destruct (Z.compare_spec (a * 1) (0 * b)); try lia; destruct (Z.compare_spec (1 * b) (a * 1)); (done || lia).
Qed.

Lemma draw_below_quotient bp a b : 1 <= bp <= 10000 -> 0 <= a <= b -> 0 < b -> b * 10000 < 2 ^ 52 ->
  draw_below bp (quotient a b) = (bp * b <=? a * 10000).
Proof.
  intros Hbp Ha Hb Hb'. unfold draw_below. rewrite divide_quotient by lia. unfold SFleb.
  rewrite quotient_compare by lia. unfold Z.leb. by destruct (bp * b ?= a * 10000).
Qed.

(** The millionths of a rate that is a number of them. *)
Lemma decimal_quotient a k : (k <= 6)%nat -> 0 < a <= 10 ^ Z.of_nat k ->
  exists m e, quotient a (10 ^ Z.of_nat k) = S754_finite false m e /\
    decimal (Zpos m) e 6 = a * 10 ^ (6 - Z.of_nat k).
Proof.
  intros Hk Ha. set (b := 10 ^ Z.of_nat k) in *.
  assert (b * 10 ^ (6 - Z.of_nat k) = 10 ^ 6) as Eb by (unfold b; rewrite <- Z.pow_add_r by lia; f_equal; lia).
  assert (0 < 10 ^ (6 - Z.of_nat k)) as Hq by lia. set (q := 10 ^ (6 - Z.of_nat k)) in *.
  assert (b <= 10 ^ 6) as Hb by nia.
  destruct (quotient_value a b Ha ltac:(lia)) as [(m & e & E & Hm & He) HV]. exists m, e. split; [done|].
  rewrite E in HV. cbn [scaled_value] in HV. unfold decimal. rewrite (Z.max_l 6 0), (Z.max_r (- (6)) 0), Z.mul_1_r by lia.
  rewrite <- (rne_scale _ _ (2 ^ (1000 - Z.max (- e) 0))) by (apply Z.pow_pos_nonneg; lia). apply rne_unique.
  rewrite <- Z.pow_add_r by lia. replace (Z.max (- e) 0 + _) with 1000 by lia.
  replace (Zpos m * 2 ^ Z.max e 0 * 10 ^ 6 * 2 ^ (1000 - Z.max (- e) 0)) with (Zpos m * 2 ^ (1000 + e) * 10 ^ 6).
  2: { replace (1000 + e) with (Z.max e 0 + (1000 - Z.max (- e) 0)) by lia. rewrite Z.pow_add_r by lia. ring. }
  set (V := Zpos m * 2 ^ (1000 + e)) in *. clearbody V. change (2 ^ 1000) with (2 ^ 52 * 2 ^ 948) in *.
  set (U := 2 ^ 948) in *. assert (0 < U) as HU by (unfold U; lia). clearbody U. clearbody b q. rewrite <- Eb.
  assert (2 * (V * b) * q <= (2 * (a * (2 ^ 52 * U)) + b * U) * q) by (apply Z.mul_le_mono_nonneg_r; lia).
  assert ((2 * (a * (2 ^ 52 * U)) - b * U) * q <= 2 * (V * b) * q) by (apply Z.mul_le_mono_nonneg_r; lia).
  assert (b * q * U = 10 ^ 6 * U) by by rewrite Eb.
  lia.
Qed.

(** A rate with up to six decimals, and what the driver makes of it. *)
Lemma rate_of_fixed k p : (0 < k <= 6)%nat -> 0 <= p <= 10 ^ Z.of_nat k ->
  rate_of (Some (fixed k p)) = quotient p (10 ^ Z.of_nat k).
Proof.
  intros Hk Hp. unfold rate_of. rewrite atof_fixed by lia. apply clamp01_quotient; [done|].
  assert (10 ^ Z.of_nat k <= 10 ^ 6) by (apply Z.pow_le_mono_r; lia). lia.
Qed.

Lemma rate_text_fixed k p : (0 < k <= 6)%nat -> 0 <= p <= 10 ^ Z.of_nat k ->
  rate_text (Some (fixed k p)) = fixed 6 (p * 10 ^ (6 - Z.of_nat k)).
Proof.
  intros Hk Hp. unfold rate_text. rewrite rate_of_fixed by done. destruct (decide (p = 0)) as [->|Hne].
  - reflexivity.
  - destruct (decimal_quotient p k) as (m & e & -> & E); [lia|lia|]. cbn [to_string_double minus app]. by rewrite E.
Qed.

Lemma rate_passed_on k p : (0 < k <= 6)%nat -> 0 <= p <= 10 ^ Z.of_nat k ->
  rate_of (Some (rate_text (Some (fixed k p)))) = quotient p (10 ^ Z.of_nat k).
Proof.
  intros Hk Hp. rewrite rate_text_fixed by done.
  assert (10 ^ Z.of_nat k * 10 ^ (6 - Z.of_nat k) = 10 ^ Z.of_nat 6) as E
    by (rewrite <- Z.pow_add_r by lia; f_equal; lia).
  assert (0 < 10 ^ (6 - Z.of_nat k)) by lia. rewrite rate_of_fixed by nia.
  rewrite <- E. apply quotient_scale; [done|lia|lia|]. rewrite E. lia.
Qed.

(** C33: A drop rate reaches the draws exactly.  A rate [p / 10 ^ k] of up to six
    decimals, given to the market driver as text, is read into a double, printed
    with six decimals for the publisher, read again and clamped, and compared
    with a draw divided by 10000, every step in binary floating point; still,
    the publisher drops an increment exactly when the draw, between 1 and 10000,
    is at most [p / 10 ^ k * 10000].  The same holds of the reorder rate. *)
Theorem rates_reach_draws argv c k p bp :
  sim_market_parse argv = Parsed c -> (0 < k <= 6)%nat -> 0 <= p <= 10 ^ Z.of_nat k -> 1 <= bp <= 10000 ->
  exists o, publisher_parse (publisher_args rate_text c) = Parsed o /\
    (c.(sm_drop_rate) = Some (fixed k p) ->
       draw_below bp (rate_of o.(pub_drop_rate)) = (bp * 10 ^ Z.of_nat k <=? p * 10000)) /\
    (c.(sm_reorder_rate) = Some (fixed k p) ->
       draw_below bp (rate_of o.(pub_reorder_rate)) = (bp * 10 ^ Z.of_nat k <=? p * 10000)).
Proof.
  intros Hc%sim_market_parse_ok Hk Hp Hbp. eexists. split; [by apply publisher_parse_args|].
  cbn [pub_drop_rate pub_reorder_rate].
  assert (10 ^ Z.of_nat k <= 10 ^ 6) by (apply Z.pow_le_mono_r; lia).
  assert (draw_below bp (quotient p (10 ^ Z.of_nat k)) = (bp * 10 ^ Z.of_nat k <=? p * 10000)) as E
    by (apply draw_below_quotient; lia).
  split; intros ->; by rewrite rate_passed_on.
Qed.

Lemma rates_reach_draws_witness :
  fixed 2 1 = str "0.01" /\ rate_text (Some (str "0.01")) = str "0.010000" /\
  exists o, publisher_parse (publisher_args rate_text demo_market_options) = Parsed o /\
    draw_below 100 (rate_of o.(pub_drop_rate)) = true.
Proof.
  split; [vm_compute; reflexivity|]. split; [vm_compute; reflexivity|].
  destruct (rates_reach_draws demo_market_argv demo_market_options 2 1 100) as (o & E & H & _).
  - vm_compute. reflexivity.
  - lia.
  - cbn. lia.
  - lia.
  - exists o. split; [exact E|]. apply H. vm_compute. reflexivity.
Defined.
