(* ===== verification/Reports.v ===== *)
(** * Reports: the lines of [key=value] words the programs print
    (core/tracing.hpp; the metrics, final and summary lines of apps/, and the
    scanner of apps/run_sim_market.cpp that reads such a line)

    A line is a tag followed by fields; a reader splits it into words and each
    word at its first equals sign. *)
From Stdlib Require Import Strings.Ascii.
From Stdlib Require Strings.String.
From S2P Require Import Prelude Tracer Options.

Import String.StringSyntax.

(** ** Words *)
Definition newline : ascii := ascii_of_N 10.

Definition word (key : text) (n : Z) : text := key ++ ascii_of_N 61 :: to_string n.

(** [std::getline], [iss >> token] and [token.find('=')]. *)
Fixpoint getline (t : text) : text :=
  match t with
  | c :: t => if char_code c =? 10 then [] else c :: getline t
  | [] => []
  end.

Fixpoint words (token : text) (t : text) : list text :=
  match t with
  | [] => match token with [] => [] | _ => [token] end
  | c :: t =>
      if is_space c then match token with [] => words [] t | _ => token :: words [] t end
      else words (token ++ [c]) t
  end.

Fixpoint split_eq (t : text) : option (text * text) :=
  match t with
  | [] => None
  | c :: t => if char_code c =? 61 then Some ([], t) else prod_map (cons c) id <$> split_eq t
  end.

(** ** Printing and scanning *)
Definition visible (c : ascii) : Prop := is_space c = false.

Lemma words_visible w token t : Forall visible w -> words token (w ++ t) = words (token ++ w) t.
Proof.
  intros H. revert token. induction H as [|c w Hc _ IH]; intros token; cbn [app words].
  - by rewrite app_nil_r.
  - rewrite Hc, IH, <- app_assoc. done.
Qed.

Lemma words_cons w t : Forall visible w -> w <> [] -> words [] (w ++ str " " ++ t) = w :: words [] t.
Proof. intros H Hne. rewrite words_visible by done. cbn. by destruct w. Qed.

Lemma digit_visible c : is_digit c = true -> visible c.
Proof. unfold visible, is_digit, is_space. lia. Qed.

Lemma to_string_digits n : 0 <= n -> to_string n = digits 20 n.
Proof. intros H. unfold to_string. by destruct (Z.ltb_spec n 0); [lia|]. Qed.

Lemma word_visible key n : Forall visible key -> 0 <= n -> Forall visible (word key n).
Proof.
  intros Hk Hn. unfold word. apply Forall_app_2; [done|]. constructor; [done|].
  rewrite to_string_digits by done. eapply Forall_impl; [by apply digits_are_digits|apply digit_visible].
Qed.

Lemma getline_visible t rest :
  Forall (fun c => char_code c <> 10) t -> getline (t ++ newline :: rest) = t.
Proof.
  induction 1 as [|c t Hc _ IH]; cbn [app getline]; [done|].
  destruct (Z.eqb_spec (char_code c) 10); [done|]. by rewrite IH.
Qed.

Lemma split_eq_word key n : Forall (fun c => char_code c <> 61) key ->
  split_eq (word key n) = Some (key, to_string n).
Proof.
  intros H. unfold word. induction H as [|c key Hc _ IH]; cbn [app split_eq]; [done|].
  destruct (Z.eqb_spec (char_code c) 61); [done|]. by rewrite IH.
Qed.

Lemma words_last w : Forall visible w -> w <> [] -> words [] w = [w].
Proof.
  intros H Hne. rewrite <- (app_nil_r w) at 1. rewrite words_visible by done. cbn. by destruct w.
Qed.

Lemma word_not_nil key n : word key n <> [].
Proof. unfold word. by destruct key. Qed.

Ltac each_char := repeat (constructor; [by vm_compute|]); constructor.


(** ** Lines *)

(** A field is a key and the text of its value. *)
Abbreviation field := (text * text)%type.

Definition num (key : text) (n : Z) : field := (key, to_string n).

Definition field_text (f : field) : text := f.1 ++ ascii_of_N 61 :: f.2.

Definition fields_text (fs : list field) : text := concat (map (fun f => str " " ++ field_text f) fs).

Definition line (tag : text) (fs : list field) : text := tag ++ fields_text fs ++ [newline].

(** The line [Tracer::emit] writes. *)
Definition trace_fields (l : trace_line) : list field :=
  [ (str "component", str l.(component)); (str "event", str l.(event));
    num (str "packet_id") l.(packet_id); num (str "ts_ns") l.(ts_ns);
    num (str "queue_depth") l.(queue_depth); num (str "latency_us") l.(latency_us) ].

Definition trace_text (l : trace_line) : text := line (str "[trace]") (trace_fields l).

(** The fields of a line, and the first value of a key. *)
Definition scan_line (t : text) : list field := omap split_eq (words [] (getline t)).

Definition value_of (key : text) (fs : list field) : option text :=
  snd <$> List.find (fun f => bool_decide (f.1 = key)) fs.

Definition read_field (key : text) (t : text) : option text := value_of key (scan_line t).

(** *** Reading a line back *)
Definition no_eq (c : ascii) : Prop := char_code c <> 61.

Record field_ok (f : field) : Prop := {
  fo_key : Forall visible f.1 /\ Forall no_eq f.1;
  fo_value : Forall visible f.2;
}.

#[export] Instance visible_dec c : Decision (visible c).
Proof. unfold visible. apply _. Defined.
#[export] Instance no_eq_dec c : Decision (no_eq c).
Proof. unfold no_eq. apply _. Defined.

Lemma visible_not_newline c : visible c -> char_code c <> 10.
Proof. unfold visible, is_space. lia. Qed.

Lemma to_string_visible n : Forall visible (to_string n).
Proof.
  assert (forall m, 0 <= m -> Forall visible (digits 20 m)) as Hd.
  { intros m Hm. eapply Forall_impl; [by apply digits_are_digits|apply digit_visible]. }
  unfold to_string. destruct (Z.ltb_spec n 0); [|by apply Hd]. constructor; [done|]. apply Hd. lia.
Qed.

Lemma field_visible f : field_ok f -> Forall visible (field_text f).
Proof. intros [[H1 _] H2]. unfold field_text. apply Forall_app_2; [done|]. by constructor. Qed.

Lemma split_eq_none t : Forall no_eq t -> split_eq t = None.
Proof.
  induction 1 as [|c t Hc _ IH]; [done|]. cbn [split_eq]. destruct (Z.eqb_spec (char_code c) 61); [done|].
  by rewrite IH.
Qed.

Lemma split_eq_field f : field_ok f -> split_eq (field_text f) = Some f.
Proof.
  destruct f as [k v]. intros [[_ H] _]. unfold field_text. cbn [fst snd] in *.
  induction H as [|c k Hc _ IH]; [done|]. cbn [app split_eq].
  destruct (Z.eqb_spec (char_code c) 61); [done|]. by rewrite IH.
Qed.

Lemma field_not_nil f : field_text f <> [].
Proof. unfold field_text. by destruct f.1. Qed.

Lemma words_line w fs : Forall visible w -> w <> [] -> Forall field_ok fs ->
  words [] (w ++ fields_text fs) = w :: map field_text fs.
Proof.
  intros Hw Hne H. revert w Hw Hne. unfold fields_text.
  induction H as [|f fs Hf _ IH]; intros w Hw Hne; cbn [map concat].
  - rewrite app_nil_r. by rewrite words_last.
  - rewrite <- app_assoc, words_cons by done. f_equal. apply IH; [by apply field_visible|apply field_not_nil].
Qed.

Lemma fields_one_line fs : Forall field_ok fs -> Forall (fun c => char_code c <> 10) (fields_text fs).
Proof.
  unfold fields_text. induction 1 as [|f fs Hf _ IH]; cbn [map concat]; [constructor|].
  apply Forall_app_2; [|done]. apply Forall_app_2; [each_char|].
  eapply Forall_impl; [by apply field_visible|apply visible_not_newline].
Qed.

(** A tag holds no equals sign and no space. *)
Record tag_ok (tag : text) : Prop := {
  to_visible : Forall visible tag;
  to_no_eq : Forall no_eq tag;
  to_not_nil : tag <> [];
}.

Lemma scan_line_fields tag fs : tag_ok tag -> Forall field_ok fs -> scan_line (line tag fs) = fs.
Proof.
  intros [Hv He Hn] H. unfold scan_line, line. rewrite app_assoc.
  rewrite getline_visible.
  2: { apply Forall_app_2; [|by apply fields_one_line]. eapply Forall_impl; [exact Hv|apply visible_not_newline]. }
  rewrite words_line by done. cbn [omap list_omap]. rewrite split_eq_none by done.
  clear Hv He Hn. induction H as [|f fs Hf _ IH]; [done|]. cbn [map omap list_omap].
  rewrite split_eq_field by done. by f_equal.
Qed.

Lemma value_of_field fs k v : NoDup fs.*1 -> (k, v) ∈ fs -> value_of k fs = Some v.
Proof.
  unfold value_of. induction fs as [|[k' v'] fs IH]; intros Hnd Hin; [by apply elem_of_nil in Hin|].
  cbn [fmap list_fmap fst] in Hnd. apply NoDup_cons in Hnd as [Hn Hnd]. cbn [List.find fst].
  apply elem_of_cons in Hin as [[= -> ->]|Hin].
  - by rewrite bool_decide_eq_true_2.
  - rewrite bool_decide_eq_false_2; [by apply IH|]. intros ->. apply Hn, list_elem_of_fmap.
    by exists (k, v).
Qed.

(** A report's tag and keys can be checked by computation. *)
Definition tag_check (tag : text) : bool :=
  bool_decide (Forall visible tag) && bool_decide (Forall no_eq tag) && bool_decide (tag <> []).

Definition keys_check (keys : list text) : bool :=
  bool_decide (NoDup keys) && forallb (fun k => bool_decide (Forall visible k) && bool_decide (Forall no_eq k)) keys.

Lemma tag_check_ok tag : tag_check tag = true -> tag_ok tag.
Proof. unfold tag_check. rewrite !andb_true_iff, !bool_decide_eq_true. by intros [[? ?] ?]. Qed.

Lemma keys_check_ok keys : keys_check keys = true ->
  NoDup keys /\ Forall (fun k => Forall visible k /\ Forall no_eq k) keys.
Proof.
  unfold keys_check. rewrite andb_true_iff, bool_decide_eq_true, forallb_forall. intros [Hn H]. split; [done|].
  apply Forall_forall. intros k Hk. apply list_elem_of_In in Hk. specialize (H k Hk).
  by rewrite andb_true_iff, !bool_decide_eq_true in H.
Qed.

Definition visible_values (fs : list field) : Prop := Forall (fun f => Forall visible f.2) fs.

Lemma num_visible key n : Forall visible (num key n).2.
Proof. apply to_string_visible. Qed.

(** Every field of a line can be read back, when its keys are distinct. *)
Lemma read_field_line tag fs f :
  tag_check tag = true -> keys_check fs.*1 = true -> visible_values fs -> f ∈ fs ->
  read_field f.1 (line tag fs) = Some f.2.
Proof.
  intros Ht%tag_check_ok [Hn Hk]%keys_check_ok Hv Hin. unfold read_field. rewrite scan_line_fields; [| done|].
  - apply value_of_field; [done|]. by destruct f.
  - apply Forall_forall. intros g Hg. rewrite Forall_forall in Hk. unfold visible_values in Hv.
    rewrite Forall_forall in Hv. split; [|by apply Hv]. apply Hk, list_elem_of_fmap. by exists g.
Qed.
