(* ===== verification/Simulation.v ===== *)
(** * Simulation: the drivers that start the programs and collect the results
    (apps/run_sim_market.cpp, apps/run_sim_order.cpp; the summary line of
    apps/market_udp/feed_subscriber.cpp)

    A run is the list of processes started and stopped and the exit code; [fork k]
    is what the k-th [fork] answers in the parent, [getpid] the driver's own
    number.  The summary a subscriber writes is a line of [key=value] words. *)
From Stdlib Require Import Strings.Ascii.
From Stdlib Require Strings.String.
From S2P Require Import Prelude Options Reports.

Import String.StringSyntax.

(** ** Processes *)
Inductive program : Type := Subscriber (i : Z) (is_slow : bool) (summary_file : text)
  | Publisher (c : sim_market_options) | Gateway (c : sim_order_options) | Client (c : sim_order_options).

Inductive event : Type := Spawn (pid : Z) (p : program) | Stop (pid : Z).

Definition spawned (log : list event) : list Z :=
  omap (fun e => match e with Spawn pid _ => Some pid | Stop _ => None end) log.
Definition stopped (log : list event) : list Z :=
  omap (fun e => match e with Spawn _ _ => None | Stop pid => Some pid end) log.

Section Drivers.
Variable fork : nat -> Z.

(** The pid, -1 when [fork] fails, and what happened. *)
Definition spawn_process (k : nat) (p : program) : Z * list event :=
  let pid := fork k in if pid <? 0 then (-1, []) else (pid, if pid =? 0 then [] else [Spawn pid p]).

Definition stop_process (pid : Z) : list event := if pid <=? 0 then [] else [Stop pid].

Definition stop_all (pids : list Z) : list event := concat (map stop_process pids).

(** [i * 100 / subscribers < slow_ratio] in [int]; [None] when the product overflows. *)
Definition is_slow (subscribers slow_ratio i : Z) : option bool :=
  if i * 100 <=? INT_MAX then Some (Z.quot (i * 100) subscribers <? slow_ratio) else None.

Definition summary_file (getpid i : Z) : text :=
  str "/tmp/usn_run_market_sub_" ++ to_string getpid ++ str "_" ++ to_string i ++ str ".txt".

(** The loop that starts the subscribers from the [i]-th on, undefined when
    [is_slow] is: [None] inside when one could not be started. *)
Fixpoint start_subscribers (c : sim_market_options) (getpid : Z) (n : nat) (i : nat)
    (pids : list Z) (log : list event) : option (option (list Z) * list event) :=
  match n with
  | O => Some (Some pids, log)
  | S n =>
      let z := Z.of_nat i in
      slow ← is_slow c.(sm_subscribers) c.(sm_slow_subscriber_ratio) z;
      let '(subscriber, e) := spawn_process i (Subscriber z slow (summary_file getpid z)) in
      if subscriber <=? 0 then Some (None, log ++ e ++ stop_all pids)
      else start_subscribers c getpid n (S i) (pids ++ [subscriber]) (log ++ e)
  end.

Definition run_market (c : sim_market_options) (getpid : Z) : option (Z * list event) :=
  let n := Z.to_nat c.(sm_subscribers) in
  r ← start_subscribers c getpid n 0 [] [];
  match r with
  | (None, log) => Some (1, log)
  | (Some subscriber_pids, log) =>
      let '(publisher, e) := spawn_process n (Publisher c) in
      if publisher <=? 0 then Some (1, log ++ e ++ stop_all subscriber_pids)
      else Some (0, log ++ e ++ stop_process publisher ++ stop_all subscriber_pids)
  end.

Definition run_order (c : sim_order_options) : Z * list event :=
  let '(gateway, e1) := spawn_process 0 (Gateway c) in
  if gateway <=? 0 then (1, e1) else
  let '(client, e2) := spawn_process 1 (Client c) in
  if client <=? 0 then (1, e1 ++ e2 ++ stop_process gateway)
  else (0, e1 ++ e2 ++ stop_process client ++ stop_process gateway).

(** The whole programs; [None] when the arithmetic of [atoi] or [is_slow] is undefined. *)
Definition main_market (argv : list text) (getpid : Z) : option (Z * list event) :=
  if wants_help argv then Some (0, []) else
  match sim_market_parse argv with
  | Parsed c => run_market c getpid
  | Unknown _ => Some (1, [])
  | Undefined => None
  end.

Definition main_order (argv : list text) : option (Z * list event) :=
  if wants_help argv then Some (0, []) else
  match sim_order_parse argv with
  | Parsed c => Some (run_order c)
  | Unknown _ => Some (1, [])
  | Undefined => None
  end.

(** *** Every child is stopped *)
Lemma spawned_app a b : spawned (a ++ b) = spawned a ++ spawned b.
Proof. apply omap_app. Qed.
Lemma stopped_app a b : stopped (a ++ b) = stopped a ++ stopped b.
Proof. apply omap_app. Qed.

Lemma spawn_process_log k p :
  let '(pid, e) := spawn_process k p in
  stopped e = [] /\ spawned e = if pid <=? 0 then [] else [pid].
Proof.
  unfold spawn_process. destruct (Z.ltb_spec (fork k) 0); [done|].
  destruct (Z.eqb_spec (fork k) 0), (Z.leb_spec (fork k) 0); (done || lia).
Qed.

Lemma stop_process_log pid : 0 < pid -> spawned (stop_process pid) = [] /\ stopped (stop_process pid) = [pid].
Proof. intros H. unfold stop_process. by destruct (Z.leb_spec pid 0); [lia|]. Qed.

Lemma stop_all_log pids : Forall (Z.lt 0) pids ->
  spawned (stop_all pids) = [] /\ stopped (stop_all pids) = pids.
Proof.
  induction 1 as [|pid pids Hp _ [IH1 IH2]]; [done|]. unfold stop_all. cbn [map concat].
  rewrite spawned_app, stopped_app. destruct (stop_process_log pid Hp) as [-> ->].
  unfold stop_all in *. by rewrite IH1, IH2.
Qed.

(** First the starts, then one stop of each. *)
Definition balanced (log : list event) : Prop :=
  exists starts stops, log = starts ++ stops /\ stopped starts = [] /\ spawned stops = [] /\
    spawned starts ≡ₚ stopped stops.

Lemma balanced_stop_all log pids :
  stopped log = [] -> spawned log = pids -> Forall (Z.lt 0) pids -> balanced (log ++ stop_all pids).
Proof.
  intros Ht Hs Hp. destruct (stop_all_log pids Hp) as [E1 E2]. exists log, (stop_all pids).
  split_and!; try done. by rewrite E2, Hs.
Qed.

Lemma start_subscribers_log c getpid n i pids log r log' :
  start_subscribers c getpid n i pids log = Some (r, log') ->
  spawned log = pids -> stopped log = [] -> Forall (Z.lt 0) pids ->
  match r with
  | Some pids' => spawned log' = pids' /\ stopped log' = [] /\ Forall (Z.lt 0) pids' /\
                  length pids' = (length pids + n)%nat /\ forall k, (i <= k < i + n)%nat -> 0 < fork k
  | None => balanced log' /\ exists k, (i <= k < i + n)%nat /\ fork k <= 0
  end.
Proof.
  revert i pids log. induction n as [|n IH]; intros i pids log E Hs Ht Hp; cbn [start_subscribers] in E.
  { injection E as <- <-. split_and!; try done; lia. }
  apply bind_Some in E as (slow & _ & E). set (p := Subscriber _ _ _) in E.
  pose proof (spawn_process_log i p) as He.
  assert ((spawn_process i p).1 <= 0 <-> fork i <= 0) as Hf.
  { unfold spawn_process. destruct (Z.ltb_spec (fork i) 0); cbn; lia. }
  assert ((spawn_process i p).1 = fork i \/ fork i < 0) as Hf'.
  { unfold spawn_process. destruct (Z.ltb_spec (fork i) 0); cbn; lia. }
  destruct (spawn_process i _) as [pid e]. cbn [fst] in *. destruct He as [Ee1 Ee2].
  destruct (Z.leb_spec pid 0).
  - injection E as <- <-. split; [|exists i; split; [lia|by apply Hf]]. rewrite app_assoc. apply balanced_stop_all; [..|done].
    + by rewrite stopped_app, Ht, Ee1.
    + by rewrite spawned_app, Hs, Ee2, app_nil_r.
  - specialize (IH (S i) (pids ++ [pid]) (log ++ e) E).
    rewrite spawned_app, stopped_app, Ee1, Ee2, Hs, Ht in IH.
    specialize (IH eq_refl eq_refl ltac:(apply Forall_app_2; [done|by constructor])).
    destruct r as [pids'|].
    + destruct IH as (I1 & I2 & I3 & I4 & I5). split_and!; try done.
      * rewrite I4, length_app. cbn. lia.
      * intros k Hk. destruct (decide (k = i)) as [->|]; [lia|]. apply I5. lia.
    + destruct IH as (I1 & k & Hk & Hfk). split; [done|]. exists k. split; [lia|done].
Qed.

Lemma spawn_process_spec k p :
  let '(pid, e) := spawn_process k p in
  stopped e = [] /\ (0 < pid -> pid = fork k /\ spawned e = [pid]) /\
  (pid <= 0 -> fork k <= 0 /\ spawned e = []).
Proof.
  pose proof (spawn_process_log k p) as H. unfold spawn_process in *.
  destruct (Z.ltb_spec (fork k) 0); cbn in *; destruct H as [Ht H]; split_and!; try done; try lia.
  - intros _. split; [lia|done].
  - intros Hp. split; [done|]. rewrite H. by destruct (Z.leb_spec (fork k) 0); [lia|].
  - intros Hp. split; [done|]. rewrite H. by destruct (Z.leb_spec (fork k) 0); [|lia].
Qed.

Lemma market_children c getpid code log :
  0 <= c.(sm_subscribers) -> run_market c getpid = Some (code, log) ->
  balanced log /\
  (code = 0 <-> forall k, (k <= Z.to_nat c.(sm_subscribers))%nat -> 0 < fork k) /\
  (code = 0 -> Z.of_nat (length (spawned log)) = c.(sm_subscribers) + 1).
Proof.
  unfold run_market. intros Hn ([r log'] & E & Er)%bind_Some.
  pose proof (start_subscribers_log _ _ _ _ _ _ _ _ E eq_refl eq_refl ltac:(constructor)) as H.
  destruct r as [pids|].
  2: { injection Er as <- <-. destruct H as (Hb & k & Hk & Hf). split; [done|]. split; [|done]. split; [done|].
       intros Hall. specialize (Hall k ltac:(lia)). lia. }
  destruct H as (Hs & Ht & Hp & Hl & Hf). cbn [length] in Hl.
  pose proof (spawn_process_spec (Z.to_nat (sm_subscribers c)) (Publisher c)) as He.
  destruct (spawn_process _ (Publisher c)) as [pid e]. destruct He as (E1 & Ep & En).
  destruct (Z.leb_spec pid 0) as [H|H].
  + injection Er as <- <-. destruct (En H) as [Hk E2]. split.
    { rewrite app_assoc. apply balanced_stop_all; [by rewrite stopped_app, Ht, E1|by rewrite spawned_app, Hs, E2, app_nil_r|done]. }
    split; [|done]. split; [done|]. intros Hall. specialize (Hall _ ltac:(reflexivity)). lia.
  + injection Er as <- <-. destruct (Ep H) as [-> E2]. destruct (stop_all_log pids Hp) as [S1 S2].
    destruct (stop_process_log _ H) as [S3 S4]. split; [|split].
    * exists (log' ++ e), (stop_process (fork (Z.to_nat (sm_subscribers c))) ++ stop_all pids).
      rewrite !stopped_app, !spawned_app, <- !app_assoc, Ht, Hs, E1, E2, S1, S2, S3, S4.
      split_and!; try done. cbn [app]. by rewrite Permutation_app_comm.
    * split; [|done]. intros _ k Hk. destruct (decide (k = Z.to_nat (sm_subscribers c))) as [->|]; [done|].
      apply Hf. lia.
    * intros _. rewrite !spawned_app, Hs, E2, S1, S3. cbn [app]. rewrite length_app, Hl. cbn. lia.
Qed.

(** The driver is undefined exactly when it comes to its 21474838th subscriber. *)
Lemma start_subscribers_undefined c getpid n i pids log :
  Z.of_nat i <= 21474837 ->
  start_subscribers c getpid n i pids log = None <->
    21474837 < Z.of_nat i + Z.of_nat n /\ forall k, (i <= k)%nat -> Z.of_nat k < 21474837 -> 0 < fork k.
Proof.
  revert i pids log. induction n as [|n IH]; intros i pids log Hi; cbn [start_subscribers]; [split; [done|lia]|].
  unfold is_slow. destruct (Z.leb_spec (Z.of_nat i * 100) INT_MAX) as [H|H]; unfold INT_MAX in H.
  2: { cbn [mbind option_bind]. split; [|done]. intros _. split; [lia|]. intros k ??. lia. }
  cbn [mbind option_bind]. set (p := Subscriber _ _ _).
  pose proof (spawn_process_spec i p) as He. destruct (spawn_process i p) as [pid e].
  destruct He as (_ & Ep & En). destruct (Z.leb_spec pid 0) as [Hp|Hp].
  - destruct (En Hp) as [Hf _]. split; [done|]. intros [_ Hall]. specialize (Hall i ltac:(lia) ltac:(lia)). lia.
  - destruct (Ep Hp) as [-> _]. rewrite IH by lia. split; intros [H1 H2]; (split; [lia|]); intros k Hk Hlt.
    + destruct (decide (k = i)) as [->|]; [done|]. apply H2; lia.
    + apply H2; lia.
Qed.

(** The driver's arithmetic overflows exactly when there are more than 21474837
    subscribers and that many could be started. *)
Theorem market_overflow c getpid :
  run_market c getpid = None <->
    21474837 < c.(sm_subscribers) /\ forall k, Z.of_nat k < 21474837 -> 0 < fork k.
Proof.
  assert (run_market c getpid = None <->
    start_subscribers c getpid (Z.to_nat c.(sm_subscribers)) 0 [] [] = None) as ->.
  { unfold run_market. destruct (start_subscribers _ _ _ _ _ _) as [[[pids|] log]|]; cbn [mbind option_bind]; try done.
    destruct (spawn_process _ _) as [pid e]. by destruct (pid <=? 0). }
  rewrite start_subscribers_undefined by lia. split; intros [H1 H2]; (split; [lia|]); intros k; [|intros _];
    apply H2; lia.
Qed.

Lemma order_children o :
  let '(code, log) := run_order o in
  balanced log /\ (code = 0 <-> 0 < fork 0 /\ 0 < fork 1) /\
  (code = 0 -> spawned log = [fork 0; fork 1]).
Proof.
  unfold run_order. pose proof (spawn_process_spec 0 (Gateway o)) as H1.
  destruct (spawn_process 0 _) as [g e1]. destruct H1 as (A1 & A2 & A3).
  destruct (Z.leb_spec g 0) as [Hg|Hg].
  { destruct (A3 Hg) as [Hf E]. split; [|split; [|done]]; [|split; [done|lia]].
    exists e1, []. by rewrite app_nil_r, E. }
  destruct (A2 Hg) as [-> Eg]. pose proof (spawn_process_spec 1 (Client o)) as H2.
  destruct (spawn_process 1 _) as [cl e2]. destruct H2 as (B1 & B2 & B3).
  destruct (stop_process_log _ Hg) as [S1 S2]. destruct (Z.leb_spec cl 0) as [Hc|Hc].
  + destruct (B3 Hc) as [Hf E]. split; [|split; [|done]]; [|split; [done|lia]].
    exists (e1 ++ e2), (stop_process (fork 0)).
    rewrite stopped_app, spawned_app, <- app_assoc, A1, B1, Eg, E, S1, S2. by split_and!.
  + destruct (B2 Hc) as [-> Ec]. destruct (stop_process_log _ Hc) as [S3 S4].
    split; [|split; [done|]].
    * exists (e1 ++ e2), (stop_process (fork 1) ++ stop_process (fork 0)).
      rewrite !stopped_app, !spawned_app, <- app_assoc, A1, B1, Eg, Ec, S1, S2, S3, S4.
      split_and!; try done. cbn [app]. apply perm_swap.
    * intros _. by rewrite !spawned_app, Eg, Ec, S1, S3.
Qed.

Lemma balanced_nil : balanced [].
Proof. by exists [], []. Qed.

(** C35: Whatever its arguments and whatever [fork] answers, a driver whose
    arithmetic does not overflow leaves no child behind: it starts its processes and then stops each of them exactly
    once, on the failure paths as on success.  The exit code is 0 exactly when
    help was asked for or the arguments were accepted and every [fork] worked,
    and then the market driver has started one process per subscriber and the
    publisher, the order driver the gateway and the client. *)
Theorem children_all_stopped argv getpid code log :
  (main_market argv getpid = Some (code, log) ->
   balanced log /\
   (code = 0 <-> wants_help argv = true \/ exists c, sim_market_parse argv = Parsed c /\
      forall k, (k <= Z.to_nat c.(sm_subscribers))%nat -> 0 < fork k) /\
   (forall c, wants_help argv = false -> sim_market_parse argv = Parsed c -> code = 0 ->
      Z.of_nat (length (spawned log)) = c.(sm_subscribers) + 1)) /\
  (main_order argv = Some (code, log) ->
   balanced log /\
   (code = 0 <-> wants_help argv = true \/
      (exists c, sim_order_parse argv = Parsed c) /\ 0 < fork 0 /\ 0 < fork 1) /\
   (wants_help argv = false -> code = 0 -> spawned log = [fork 0; fork 1])).
Proof.
  split; [unfold main_market|unfold main_order]; (destruct (wants_help argv);
    [intros [= <- <-]; split; [apply balanced_nil|]; split; [split; [by left|done]|done]|]).
  - destruct (sim_market_parse argv) as [c|key|] eqn:E; [| |done].
    + apply sim_market_parse_ok in E as (_ & _ & _ & Hn & _). intros E2.
      destruct (market_children c getpid code log ltac:(lia) E2) as (H1 & H2 & H3).
      split; [done|]. split; [|by intros ? _ [= <-]]. rewrite H2. split; [right; by exists c|].
      intros [?|(? & [= <-] & ?)]; done.
    + intros [= <- <-]. split; [apply balanced_nil|]. split; [|done]. split; [done|].
      intros [?|(? & ? & _)]; done.
  - destruct (sim_order_parse argv) as [c|key|] eqn:E; [| |done].
    + intros [= E2]. pose proof (order_children c) as H. rewrite E2 in H. destruct H as (H1 & H2 & H3).
      split; [done|]. split; [|auto]. rewrite H2. split; [right; split; [by exists c|done]|].
      intros [?|[_ ?]]; done.
    + intros [= <- <-]. split; [apply balanced_nil|]. split; [|done]. split; [done|].
      intros [?|[[? ?] _]]; done.
Qed.
End Drivers.

(** ** Slow subscribers *)

(** The slow subscribers are the first ones, the given share of them rounded up,
    as long as the test does not overflow. *)
Theorem slow_subscribers_first n ratio i :
  1 <= n -> 0 <= i <= 21474836 -> is_slow n ratio i = Some (bool_decide (i < (ratio * n + 99) / 100)).
Proof.
  intros Hn Hi. unfold is_slow. destruct (Z.leb_spec (i * 100) INT_MAX); [|unfold INT_MAX in *; lia].
  f_equal. rewrite Z.quot_div_nonneg by lia.
  pose proof (Z.div_mod (i * 100) n ltac:(lia)). pose proof (Z.mod_pos_bound (i * 100) n ltac:(lia)).
  pose proof (Z.div_mod (ratio * n + 99) 100 ltac:(lia)).
  pose proof (Z.mod_pos_bound (ratio * n + 99) 100 ltac:(lia)).
  destruct (Z.ltb_spec (i * 100 / n) ratio); symmetry;
    [apply bool_decide_eq_true_2|apply bool_decide_eq_false_2]; nia.
Qed.

(** ** The summary line *)
Record summary := mkSummary {
  s_id : Z; s_recv_total : Z; s_gaps : Z; s_reorder_events : Z; s_max_reorder_depth : Z;
  s_latency_p50 : Z; s_latency_p99 : Z; s_latency_p999 : Z; s_latency_max : Z }.

(** What the subscriber writes to its summary file. *)
Definition summary_line (s : summary) : text :=
  word (str "id") s.(s_id) ++ str " " ++
  word (str "recv_total") s.(s_recv_total) ++ str " " ++
  word (str "gaps") s.(s_gaps) ++ str " " ++
  word (str "reorder_events") s.(s_reorder_events) ++ str " " ++
  word (str "max_reorder_depth") s.(s_max_reorder_depth) ++ str " " ++
  word (str "latency_p50_us") s.(s_latency_p50) ++ str " " ++
  word (str "latency_p99_us") s.(s_latency_p99) ++ str " " ++
  word (str "latency_p999_us") s.(s_latency_p999) ++ str " " ++
  word (str "latency_max_us") s.(s_latency_max).

Definition summary_text (s : summary) : text := summary_line s ++ [newline].

(** The variables of the driver's loop over one file. *)
Record report := mkReport {
  sub_id : Z; recv_total : Z; gaps : Z; reorder_events : Z; latency_max : Z }.

Definition read_token (token : text) (r : report) : option report :=
  match split_eq token with
  | None => Some r
  | Some (k, v) =>
      let '(mkReport i n g o l) := r in
      if is_key k "id" then val ← atoi v; Some (mkReport val n g o l)
      else if is_key k "recv_total" then Some (mkReport i (strtoull v) g o l)
      else if is_key k "gaps" then Some (mkReport i n (strtoull v) o l)
      else if is_key k "reorder_events" then Some (mkReport i n g (strtoull v) l)
      else if is_key k "latency_max_us" then Some (mkReport i n g o (strtoull v))
      else Some r
  end.

Fixpoint read_tokens (tokens : list text) (r : report) : option report :=
  match tokens with
  | [] => Some r
  | t :: tokens => r ← read_token t r; read_tokens tokens r
  end.

Definition read_summary (file : text) : option report :=
  read_tokens (words [] (getline file)) (mkReport (-1) 0 0 0 0).

(** The driver's totals over the files it could open. *)
Record totals := mkTotals {
  sum_recv_total : Z; sum_gaps : Z; sum_reorder_events : Z; worst_latency_max : Z; worst_sub_id : Z }.

Fixpoint collect (files : list (option text)) (t : totals) : option totals :=
  match files with
  | [] => Some t
  | None :: files => collect files t
  | Some file :: files =>
      r ← read_summary file;
      let '(worst, id) :=
        if t.(worst_latency_max) <=? r.(latency_max) then (r.(latency_max), r.(sub_id))
        else (t.(worst_latency_max), t.(worst_sub_id)) in
      collect files (mkTotals (wrap 64 (t.(sum_recv_total) + r.(recv_total)))
        (wrap 64 (t.(sum_gaps) + r.(gaps))) (wrap 64 (t.(sum_reorder_events) + r.(reorder_events))) worst id)
  end.

Definition collect_all (files : list (option text)) : option totals :=
  collect files (mkTotals 0 0 0 0 (-1)).

(** *** Reading the line back *)
Definition summary_ok (s : summary) : Prop :=
  0 <= s.(s_id) <= INT_MAX /\ Forall (fun n => 0 <= n < 2 ^ 64)
    [s.(s_recv_total); s.(s_gaps); s.(s_reorder_events); s.(s_max_reorder_depth); s.(s_latency_p50);
     s.(s_latency_p99); s.(s_latency_p999); s.(s_latency_max)].

Definition summary_words (s : summary) : list text :=
  [ word (str "id") s.(s_id); word (str "recv_total") s.(s_recv_total); word (str "gaps") s.(s_gaps);
    word (str "reorder_events") s.(s_reorder_events);
    word (str "max_reorder_depth") s.(s_max_reorder_depth);
    word (str "latency_p50_us") s.(s_latency_p50); word (str "latency_p99_us") s.(s_latency_p99);
    word (str "latency_p999_us") s.(s_latency_p999); word (str "latency_max_us") s.(s_latency_max) ].

Lemma summary_words_visible s : summary_ok s -> Forall (Forall visible) (summary_words s).
Proof.
  intros [Hi Hf]. rewrite !Forall_cons in Hf.
  repeat (constructor; [apply word_visible; [each_char|lia]|]). constructor.
Qed.

Lemma words_summary s : summary_ok s -> words [] (summary_line s) = summary_words s.
Proof.
  intros H%summary_words_visible. unfold summary_words in H. rewrite !Forall_cons in H.
  destruct H as (H1 & H2 & H3 & H4 & H5 & H6 & H7 & H8 & H9 & _). unfold summary_line.
  rewrite !words_cons, words_last by (done || apply word_not_nil). done.
Qed.

Lemma getline_summary s : summary_ok s -> getline (summary_text s) = summary_line s.
Proof.
  intros H%summary_words_visible. apply getline_visible.
  assert (forall w, Forall visible w -> Forall (fun c => char_code c <> 10) w) as Hv.
  { intros w Hw. eapply Forall_impl; [exact Hw|]. intros c. unfold visible, is_space. lia. }
  assert (Forall (fun c => char_code c <> 10) (str " ")) as Hs by each_char.
  unfold summary_words in H. rewrite !Forall_cons in H.
  destruct H as (H1 & H2 & H3 & H4 & H5 & H6 & H7 & H8 & H9 & _). unfold summary_line.
  repeat (apply Forall_app_2; [by auto|]). by auto.
Qed.

Lemma read_word key n r : Forall (fun c => char_code c <> 61) key ->
  read_token (word key n) r =
    (let '(mkReport i rt g o l) := r in
     if is_key key "id" then val ← atoi (to_string n); Some (mkReport val rt g o l)
     else if is_key key "recv_total" then Some (mkReport i (strtoull (to_string n)) g o l)
     else if is_key key "gaps" then Some (mkReport i rt (strtoull (to_string n)) o l)
     else if is_key key "reorder_events" then Some (mkReport i rt g (strtoull (to_string n)) l)
     else if is_key key "latency_max_us" then Some (mkReport i rt g o (strtoull (to_string n)))
     else Some r).
Proof. intros H. unfold read_token. by rewrite split_eq_word. Qed.

Ltac next_token := rewrite read_word by each_char; eval_keys; cbn [mbind option_bind].

(** Reading a summary file gives the values the subscriber printed. *)
Lemma read_summary_text s : summary_ok s ->
  read_summary (summary_text s) =
    Some (mkReport s.(s_id) s.(s_recv_total) s.(s_gaps) s.(s_reorder_events) s.(s_latency_max)).
Proof.
  intros H. unfold read_summary. rewrite getline_summary, words_summary by done.
  destruct H as [Hi Hf]. rewrite !Forall_cons in Hf. unfold summary_words.
  cbn [read_tokens]. next_token. rewrite atoi_to_string by (unfold int_range, INT_MIN in *; lia).
  cbn [mbind option_bind]. do 8 next_token. by rewrite !strtoull_to_string by lia.
Qed.

(** The specification of the totals: sums, and the last of the summaries with the
    greatest latency. *)
Definition worst (ss : list summary) : Z * Z :=
  foldl (fun w s => if w.1 <=? s.(s_latency_max) then (s.(s_latency_max), s.(s_id)) else w) (0, -1) ss.

Definition sum_of (f : summary -> Z) (ss : list summary) : Z := foldr Z.add 0 (map f ss).

Lemma collect_summaries ss t : Forall summary_ok ss ->
  collect (map (fun s => Some (summary_text s)) ss) t =
    let w := foldl (fun w s => if w.1 <=? s.(s_latency_max) then (s.(s_latency_max), s.(s_id)) else w)
               (t.(worst_latency_max), t.(worst_sub_id)) ss in
    Some (foldl (fun t s => mkTotals (wrap 64 (t.(sum_recv_total) + s.(s_recv_total)))
                   (wrap 64 (t.(sum_gaps) + s.(s_gaps)))
                   (wrap 64 (t.(sum_reorder_events) + s.(s_reorder_events))) w.1 w.2)
            (mkTotals t.(sum_recv_total) t.(sum_gaps) t.(sum_reorder_events) w.1 w.2) ss).
Proof.
  intros H. revert t. induction H as [|s ss Hs _ IH]; intros t; cbn [map collect foldl]; [by destruct t|].
  rewrite read_summary_text by done. cbn [mbind option_bind latency_max Simulation.sub_id].
  destruct (worst_latency_max t <=? s_latency_max s) eqn:E; rewrite IH; cbn [worst_latency_max worst_sub_id fst];
    rewrite E; done.
Qed.

Lemma wrap_sum (f : summary -> Z) ss a :
  foldl (fun a s => wrap 64 (a + f s)) (wrap 64 a) ss = wrap 64 (a + sum_of f ss).
Proof.
  revert a. induction ss as [|s ss IH]; intros a; cbn [foldl].
  - unfold sum_of. cbn. by rewrite Z.add_0_r.
  - rewrite wrap_add_l, IH by lia. unfold sum_of. cbn [map foldr]. f_equal. lia.
Qed.

Lemma totals_fold ss a b c w i :
  foldl (fun t s => mkTotals (wrap 64 (t.(sum_recv_total) + s.(s_recv_total)))
           (wrap 64 (t.(sum_gaps) + s.(s_gaps)))
           (wrap 64 (t.(sum_reorder_events) + s.(s_reorder_events))) w i)
    (mkTotals (wrap 64 a) (wrap 64 b) (wrap 64 c) w i) ss =
  mkTotals (wrap 64 (a + sum_of s_recv_total ss)) (wrap 64 (b + sum_of s_gaps ss))
    (wrap 64 (c + sum_of s_reorder_events ss)) w i.
Proof.
  rewrite <- !wrap_sum. generalize (wrap 64 a) (wrap 64 b) (wrap 64 c). clear a b c.
  induction ss as [|s ss IH]; intros a b c; cbn [foldl]; [done|]. apply IH.
Qed.

Lemma worst_snoc ss s :
  worst (ss ++ [s]) = if (worst ss).1 <=? s.(s_latency_max) then (s.(s_latency_max), s.(s_id)) else worst ss.
Proof. unfold worst. by rewrite foldl_app. Qed.

Lemma worst_is_last_greatest ss : Forall summary_ok ss ->
  (forall s, s ∈ ss -> s.(s_latency_max) <= (worst ss).1) /\
  (ss = [] /\ worst ss = (0, -1) \/
   exists pre s post, ss = pre ++ s :: post /\ worst ss = (s.(s_latency_max), s.(s_id)) /\
     forall x, x ∈ post -> x.(s_latency_max) < s.(s_latency_max)).
Proof.
  induction ss as [|s ss IH] using rev_ind; intros Hok.
  { split; [by intros s Hs%elem_of_nil|by left]. }
  apply Forall_app in Hok as [Hok Hs]. apply Forall_cons in Hs as [Hs _].
  destruct (IH Hok) as [Hle Hw]. rewrite worst_snoc. destruct (Z.leb_spec (worst ss).1 s.(s_latency_max)).
  - split.
    + intros x [Hx| ->%list_elem_of_singleton]%elem_of_app; cbn [fst]; [|lia]. specialize (Hle x Hx). lia.
    + right. exists ss, s, []. split; [done|]. split; [done|]. by intros x Hx%elem_of_nil.
  - split.
    + intros x [Hx| ->%list_elem_of_singleton]%elem_of_app; [auto|lia].
    + right. destruct Hw as [[-> E]|(pre & y & post & -> & E & Hp)].
      * exfalso. rewrite E in H. destruct Hs as [_ Hf]. rewrite !Forall_cons in Hf. cbn in H. lia.
      * exists pre, y, (post ++ [s]). rewrite <- app_assoc. split; [done|]. split; [done|].
        intros x [Hx| ->%list_elem_of_singleton]%elem_of_app; [auto|]. by rewrite E in H.
Qed.

(** C31: The market driver's report is the one its subscribers wrote.  Every
    summary line, scanned by the driver, gives back the number, totals and
    greatest latency that were printed; the totals over all files are the sums
    of the printed ones, modulo 2^64, and the worst subscriber is the last one
    with the greatest latency. *)
Theorem market_report_exact ss : Forall summary_ok ss ->
  Forall (fun s => read_summary (summary_text s) =
    Some (mkReport s.(s_id) s.(s_recv_total) s.(s_gaps) s.(s_reorder_events) s.(s_latency_max))) ss /\
  collect_all (map (fun s => Some (summary_text s)) ss) =
    Some (mkTotals (wrap 64 (sum_of s_recv_total ss)) (wrap 64 (sum_of s_gaps ss))
            (wrap 64 (sum_of s_reorder_events ss)) (worst ss).1 (worst ss).2) /\
  (forall s, s ∈ ss -> s.(s_latency_max) <= (worst ss).1) /\
  (ss <> [] -> exists pre s post, ss = pre ++ s :: post /\
     worst ss = (s.(s_latency_max), s.(s_id)) /\
     forall x, x ∈ post -> x.(s_latency_max) < s.(s_latency_max)).
Proof.
  intros Hok. destruct (worst_is_last_greatest ss Hok) as [Hle Hw]. split_and!; [| |done|].
  - eapply Forall_impl; [exact Hok|]. apply read_summary_text.
  - unfold collect_all. rewrite collect_summaries by done. cbv zeta. cbn [worst_latency_max worst_sub_id].
    fold (worst ss). f_equal. apply (totals_fold ss 0 0 0).
  - intros Hne. by destruct Hw as [[? _]|?].
Qed.

(** ** Witnesses *)
Definition demo_fork (k : nat) : Z := if (k =? 2)%nat then -1 else 100 + Z.of_nat k.

Definition demo_log : list event :=
  [Spawn 100 (Subscriber 0 false (summary_file 9 0)); Spawn 101 (Subscriber 1 false (summary_file 9 1));
   Stop 100; Stop 101].

Lemma children_all_stopped_witness :
  main_market demo_fork demo_market_argv 9 = Some (1, demo_log) /\ balanced demo_log.
Proof.
  assert (main_market demo_fork demo_market_argv 9 = Some (1, demo_log)) as E by (vm_compute; reflexivity).
  split; [exact E|]. exact (proj1 (proj1 (children_all_stopped demo_fork demo_market_argv 9 1 demo_log) E)).
Defined.

Definition demo_summaries : list summary :=
  [mkSummary 0 18446744073709551615 3 1 2 10 20 30 40; mkSummary 1 5 0 0 0 1 2 3 40;
   mkSummary 2 7 1 0 0 1 2 3 39].

Lemma market_report_exact_witness :
  collect_all (map (fun s => Some (summary_text s)) demo_summaries) = Some (mkTotals 11 4 1 40 1) /\
  exists pre s post, demo_summaries = pre ++ s :: post /\ s.(s_id) = 1 /\ length pre = 1%nat.
Proof.
  assert (Forall summary_ok demo_summaries) as Hok.
  { unfold demo_summaries. rewrite !Forall_cons. unfold summary_ok, INT_MAX. rewrite !Forall_cons, !Forall_nil.
    cbn. lia. }
  split; [exact (proj1 (proj2 (market_report_exact demo_summaries Hok)))|].
  exists [mkSummary 0 18446744073709551615 3 1 2 10 20 30 40], (mkSummary 1 5 0 0 0 1 2 3 40),
    [mkSummary 2 7 1 0 0 1 2 3 39]. split; [reflexivity|]. split; reflexivity.
Defined.
