(* ===== verification/GatewayProgram.v ===== *)
(** * GatewayProgram: the order gateway's program
    (apps/order_tcp/order_gateway.cpp, [main])

    The whole program around GatewayLoop and OrderGateway: the options, the
    listening socket, the epoll registrations, the wait, what the handlers print
    and trace, the metrics line and the exits.  An event comes with the kernel's
    answers to the calls it leads to, a packet with the clock readings of its
    processing. *)
From S2P Require Import Prelude Bytes Memory Packet TcpProtocol TcpStateMachine Fifo RingSlots PacketRing.
From S2P Require Import Allocator MemoryPool TcpReassembly Messages Epoll Handles IoStatus Tracer OrderReceiver OrderGateway GatewayLoop.
From S2P Require Import Sockets Endpoints Doubles Options Rates Reports.
From Stdlib Require Strings.String.

Import String.StringSyntax.

Record gateway_program := mkProgram {
  lp : gateway_loop;
  interest : Epoll.interest;
  fds : table;
  tracer : Tracer;
  last_report : Z;
  out : list text;
}.

Definition with_loop (s : gateway_loop) (p : gateway_program) : gateway_program :=
  mkProgram s p.(interest) p.(fds) p.(tracer) p.(last_report) p.(out).
Definition print (t : text) (p : gateway_program) : gateway_program :=
  mkProgram p.(lp) p.(interest) p.(fds) p.(tracer) p.(last_report) (p.(out) ++ [t]).

(** A ready descriptor: what [accept4] answers and the peer's address, whether
    [epoll_ctl] accepts the new descriptor, or what [read] answers. *)
Record gw_event := mkEvent {
  ev_fd : Z; accepted_fd : Z; cli_addr : Z * Z; ctl_ok : bool; reading : read_result }.

(** The clock readings of one packet: for the drop deadline, the trace lines and
    the report. *)
Record packet_env := mkPacketEnv { drop_clock : Z; trace_clock : nat -> Z; report_clock : Z }.

(** ** Output *)
Definition listening_line : text :=
  str "[order_gateway] listening on TCP port 9000 (single-thread loop)" ++ [newline].
Definition cancelled_line : text := str "[order_gateway] epoll loop cancelled" ++ [newline].

(** [inet_ntop] of an IPv4 address as it lies in memory. *)
Definition ntop (addr : Z) : text :=
  let octet i := to_string (Z.land (Z.shiftr addr (8 * i)) 255) in
  octet 0 ++ str "." ++ octet 1 ++ str "." ++ octet 2 ++ str "." ++ octet 3.

Definition new_connection_line (addr : Z * Z) (fd : Z) : text :=
  str "[order_gateway] new connection from " ++ ntop addr.1 ++ str ":" ++ to_string (ntohs addr.2) ++
  str " (fd=" ++ to_string fd ++ str ")" ++ [newline].
Definition closed_line (fd : Z) : text :=
  str "[order_gateway] connection closed, fd=" ++ to_string fd ++ [newline].

Definition trailing_line (payload_len : Z) : text :=
  line (str "[order_gateway] payload has trailing bytes,")
    [num (str "payload_len") payload_len; num (str "expected") (Z.of_nat sizeof_OrderRequest)].

Definition reject_rate (o : order_state) : double :=
  if o.(req_recv_total) =? 0 then double_of 0
  else divide (double_of o.(reject_total)) (double_of o.(req_recv_total)).

Definition metrics_fields (s : gateway_loop) : list field :=
  let g := s.(gw) in let o := g.(orders) in let r := g.(reorder) in
  [ num (str "req_recv_total") o.(req_recv_total); num (str "ack_sent_total") o.(ack_sent_total);
    num (str "active_conn") (Z.of_nat (base.size g.(conn_ctx)));
    num (str "active_conn_peak") s.(active_conn_peak); num (str "accept_failures") s.(accept_failures);
    num (str "unexpected_disconnects") o.(unexpected_disconnects); num (str "reject_total") o.(reject_total);
    (str "reject_rate", show_double (reject_rate o));
    num (str "backpressure_hits") o.(backpressure_hits);
    num (str "reorder_buffered_total") r.(reorder_buffered_total);
    num (str "reorder_replayed_bytes") r.(reorder_replayed_total);
    num (str "reorder_hole_events") r.(reorder_hole_events); num (str "reorder_hole_peak") r.(reorder_hole_peak);
    num (str "reorder_hole_bytes_peak") r.(reorder_hole_bytes_peak);
    num (str "keepalive_recv_total") g.(keepalive_recv_total) ].

Definition metrics_line (s : gateway_loop) : text := line (str "[order_gateway][metrics]") (metrics_fields s).

(** The metrics, at most once a second. *)
Definition report (now : Z) (p : gateway_program) : gateway_program :=
  if 1000000000 <=? now - p.(last_report) then
    mkProgram p.(lp) p.(interest) p.(fds) p.(tracer) now (p.(out) ++ [metrics_line p.(lp)])
  else p.

(** The i-th note of a packet. *)
Definition emit_note (clock : nat -> Z) (i : nat) (n : note) (p : gateway_program) : gateway_program :=
  match n with
  | TrailingBytes len => print (trailing_line len) p
  | AckTraced id queue_depth =>
      let '(lines, t) := emit (mkLine "order_gateway" "tcp_tx_ack" id (clock i) queue_depth 0) p.(tracer) in
      mkProgram p.(lp) p.(interest) p.(fds) t p.(last_report) (p.(out) ++ map trace_text lines)
  end.

Fixpoint emit_notes (clock : nat -> Z) (i : nat) (ns : list note) (p : gateway_program) : gateway_program :=
  match ns with
  | [] => p
  | n :: ns => emit_notes clock (S i) ns (emit_note clock i n p)
  end.

Section Program.
Variable write_to : list (Z * list Z) -> Z -> list Z -> Z.
Variable ack_obj : ptr.
Variable ack_pad : list Z.
Variable opts : gateway_options.
Variable epoll : EpollWrapper.
Variable listen_fd start_time : Z.

(** [epoll.remove(fd); close(fd)]. *)
Definition drop_descriptor (fd : Z) (p : gateway_program) : gateway_program :=
  mkProgram p.(lp) (epoll_remove epoll fd p.(interest)).2 (delete fd p.(fds)) p.(tracer) p.(last_report) p.(out).

(** ** The I/O stage *)
Definition accept_event (buf : ptr) (e : gw_event) (p : gateway_program) : M gateway_program :=
  let '(conn_fd, _, addr, t) := Tcp.accept_from listen_fd (Some (0, 0)) true (e.(accepted_fd), e.(cli_addr)) p.(fds) in
  let addr := default (0, 0) addr in
  let '(added, i) :=
    if (conn_fd <? 0) || negb e.(ctl_ok) then (false, p.(interest))
    else epoll_add epoll conn_fd EPOLLIN nullptr p.(interest) in
  s ← io_step buf (NewConnection conn_fd addr.2 added) p.(lp);
  let p := mkProgram s i t p.(tracer) p.(last_report) p.(out) in
  mret (if conn_fd <? 0 then p
        else if negb added then mkProgram s i (delete conn_fd t) p.(tracer) p.(last_report) p.(out)
        else print (new_connection_line addr conn_fd) p).

(** A read that ends the connection: end of stream, or an error other than
    EAGAIN. *)
Definition ends (r : read_result) : bool :=
  match r with ReadBytes [] | ReadError => true | _ => false end.

Definition read_event (buf : ptr) (e : gw_event) (p : gateway_program) : M gateway_program :=
  s ← io_step buf (Readable e.(ev_fd) e.(reading)) p.(lp);
  let p := with_loop s p in
  mret (if ends e.(reading) then drop_descriptor e.(ev_fd) (print (closed_line e.(ev_fd)) p) else p).

Definition gw_event_step (buf : ptr) (e : gw_event) (p : gateway_program) : M gateway_program :=
  if e.(ev_fd) =? listen_fd then accept_event buf e p else read_event buf e p.

Fixpoint gw_events (buf : ptr) (es : list gw_event) (p : gateway_program) : M gateway_program :=
  match es with
  | [] => mret p
  | e :: es => p ← gw_event_step buf e p; gw_events buf es p
  end.

(** ** The processing stage *)
Definition past_deadline (e : packet_env) : bool :=
  (0 <? opts.(gw_server_drop_at_s)) && (opts.(gw_server_drop_at_s) * 1000000000 <=? e.(drop_clock) - start_time).

(** The connection is gone: its descriptor is removed and closed with it. *)
Definition gone (fd : Z) (g g' : gateway) : bool :=
  bool_decide (is_Some (g.(conn_ctx) !! fd)) && bool_decide (g'.(conn_ctx) !! fd = None).

(** One packet, popped from the ring of which [ring] is left. *)
Definition gw_packet (e : packet_env) (pkt : Packet) (ring : PacketRing) (p : gateway_program) : M gateway_program :=
  let s := p.(lp) in
  let fd := pkt.(port) in
  r ← handle_packet write_to ack_obj ack_pad opts.(gw_backpressure_threshold) (PacketRing.size ring)
        (past_deadline e) fd pkt s.(gw);
  let '(finished, g) := r in
  let notes := drop (length s.(gw).(orders).(notes)) g.(orders).(notes) in
  let p := with_loop (mkLoop g ring s.(accept_failures) s.(active_conn_peak)) p in
  let p := emit_notes e.(trace_clock) 0 notes p in
  let p := if past_deadline e || gone fd s.(gw) g then drop_descriptor fd p else p in
  mret (if (finished : bool) then report e.(report_clock) p else p).

(** The k-th packet meets [env k]; undefined when the fuel runs out. *)
Fixpoint gw_packets (fuel k : nat) (env : nat -> packet_env) (p : gateway_program) : M gateway_program :=
  match fuel with
  | O => lift None
  | S fuel =>
      r ← lift (try_pop p.(lp).(req_ring));
      let '(pkt, ring) := r in
      match pkt with
      | None => mret (with_loop (mkLoop p.(lp).(gw) ring p.(lp).(accept_failures) p.(lp).(active_conn_peak)) p)
      | Some pkt => p ← gw_packet (env k) pkt ring p; gw_packets fuel (S k) env p
      end
  end.

(** ** The loop *)

(** A round: the answers of [epoll_wait], and how many the wait may use, then the
    events, the packets' clocks, and the read buffer. *)
Record round_env := mkRound {
  wait_kernel : Epoll.kernel; wait_fuel : nat; ready_events : list gw_event;
  packets : nat -> packet_env; read_buffer : ptr }.

Definition wait_opts : EpollWaitOptions := mkOptions (-1) false 5.

Inductive round_end : Type := Again | Leave | StillWaiting.

Definition gw_round (fuel : nat) (e : round_env) (p : gateway_program) : M (round_end * gateway_program) :=
  match wait_with_options e.(wait_fuel) wait_opts e.(wait_kernel) with
  | None => mret (StillWaiting, p)
  | Some (wait_result, _, _) =>
      let io_result := of_epoll wait_result in
      if bool_decide (io_result.(IoStatus.status) = IoStatus.SysError) then mret (Leave, p) else
      if bool_decide (io_result.(IoStatus.status) = IoStatus.Cancelled) then mret (Leave, print cancelled_line p) else
      if negb (bool_decide (classify_loop_control io_result = ContinueWork)) then mret (Again, p) else
      p ← gw_events e.(read_buffer) e.(ready_events) p;
      p ← gw_packets fuel 0 e.(packets) p;
      mret (Again, p)
  end.

(** The loop: whether it was left, and the program's state. *)
Fixpoint gw_rounds (fuel : nat) (es : list round_env) (p : gateway_program) : M (bool * gateway_program) :=
  match es with
  | [] => mret (false, p)
  | e :: es =>
      r ← gw_round fuel e p;
      let '(o, p) := r in
      match o with
      | Again => gw_rounds fuel es p
      | Leave => mret (true, p)
      | StillWaiting => mret (false, p)
      end
  end.
End Program.

(** ** Starting and leaving *)

(** What the kernel answers while the program starts: to the calls for the
    listening socket, [epoll_create1], the registration, and [mmap]. *)
Record start_answers := mkStart {
  server : Tcp.server_answers; epoll_answer : Z; listen_ok : bool; pool_mmap : ZeroCopy.mmap_fn }.

(** [main] returned, with its output and the descriptors it leaves; or the pool's
    constructor threw; or the loop is reached. *)
Inductive gw_start : Type :=
  | Exited (code : Z) (stdout : list text) (t : table)
  | Terminated
  | Started (epoll : EpollWrapper) (listen_fd : Z) (p : gateway_program).

Definition kMaxEvents : Z := 64.
Definition kAckBufSize : Z := 20 + 16.
Definition kAckBlocks : Z := 128.

(** The first page is touched; the block of the first call is not given back. *)
Definition prefault (pool : ZeroCopy.ZeroCopyMemoryPool) : option ZeroCopy.ZeroCopyMemoryPool :=
  '(_, pool) ← ZeroCopy.allocate pool;
  '(b, pool) ← ZeroCopy.allocate pool;
  ZeroCopy.deallocate b pool.

(** The destructor of the wrapper at the end of its scope. *)
Definition release (ev : Handles.event) (t : table) : table :=
  match ev with Release (Descriptor fd) => delete fd t | _ => t end.
Definition leave_scope (epoll : EpollWrapper) (t : table) : table :=
  foldr release t (EpollWrapper_destroy epoll).

Definition gateway_init (opts : gateway_options) (pool : ZeroCopy.ZeroCopyMemoryPool) (i : Epoll.interest)
    (t : table) (start_time : Z) : gateway_program :=
  mkProgram
    (mkLoop (mkGateway ∅ (mkOrders ∅ pool 0 0 0 0 0 [] []) (mkReorder 0 0 0 0 0) 0) (PacketRing_new 64) 0 0)
    i t (Tracer_new (mkTraceConfig (0 <? opts.(gw_trace_every)) (u32 (Z.max 1 opts.(gw_trace_every)))))
    start_time [listening_line].

Definition gateway_start (opts : gateway_options) (a : start_answers) (start_time : Z) (t : table) : option gw_start :=
  let '(listen_fd, t) := create_listen_socket a.(server) t in
  if listen_fd <? 0 then Some (Exited 1 [] t) else
  let epoll := EpollWrapper_new a.(epoll_answer) kMaxEvents in
  let t := if 0 <=? epoll_fd epoll then <[epoll_fd epoll := new_socket 0]> t else t in
  if epoll_fd epoll <? 0 then Some (Exited 1 [listening_line] (leave_scope epoll (delete listen_fd t))) else
  let '(added, i) := if a.(listen_ok) then epoll_add epoll listen_fd EPOLLIN nullptr ∅ else (false, ∅) in
  if negb added then Some (Exited 1 [listening_line] (leave_scope epoll (delete listen_fd t))) else
  match ZeroCopy.ZeroCopyMemoryPool_new a.(pool_mmap) kAckBufSize kAckBlocks false with
  | ZeroCopy.Constructed pool =>
      pool ← prefault pool; Some (Started epoll listen_fd (gateway_init opts pool i t start_time))
  | ZeroCopy.Thrown => Some Terminated
  | ZeroCopy.Undefined => None
  end.

(** The end of [main]: the listening socket is closed, the accepted ones are not. *)
Definition gateway_leave (epoll : EpollWrapper) (listen_fd : Z) (p : gateway_program) : table :=
  leave_scope epoll (delete listen_fd p.(fds)).

Definition gateway_main write_to ack_obj ack_pad (argv : list text) (a : start_answers) (start_time : Z)
    (fuel : nat) (es : list round_env) (t : table) : M (gw_start + gateway_program) :=
  match gateway_parse argv with
  | Parsed opts =>
      s ← lift (gateway_start opts a start_time t);
      match s with
      | Started epoll listen_fd p =>
          r ← gw_rounds write_to ack_obj ack_pad opts epoll listen_fd start_time fuel es p;
          let '(left_loop, p) := r in
          mret (if (left_loop : bool) then inl (Exited 0 p.(out) (gateway_leave epoll listen_fd p)) else inr p)
      | s => mret (inl s)
      end
  | _ => lift None
  end.

(** ** The descriptors the program holds *)
Section Descriptors.
Variable write_to : list (Z * list Z) -> Z -> list Z -> Z.
Variable ack_obj : ptr.
Variable ack_pad : list Z.
Variable opts : gateway_options.
Variable epoll : EpollWrapper.
Variable listen_fd start_time : Z.
(** The descriptors that were open before the program, and the limit of its
    process (RLIMIT_NOFILE): the kernel hands out descriptors below it. *)
Variable base : table.
Variable nofile : Z.

Abbreviation event_step := (gw_event_step epoll listen_fd).
Abbreviation packet := (gw_packet write_to ack_obj ack_pad opts epoll start_time).

(** A round of the loop over whatever memory: each event and each packet finds its
    own, so that a packet's storage may be live when it is processed.  The kernel
    reports registered descriptors, and hands out descriptors that are not in use
    and below the limit. *)
Inductive event_steps (buf : ptr) : list gw_event -> gateway_program -> gateway_program -> Prop :=
  | es_nil p : event_steps buf [] p p
  | es_cons e es p p1 p2 m m1 :
      is_Some (p.(interest) !! e.(ev_fd)) -> fresh e.(accepted_fd) p.(fds) -> e.(accepted_fd) < nofile ->
      event_step buf e p m = Some (p1, m1) -> event_steps buf es p1 p2 -> event_steps buf (e :: es) p p2.

Inductive packet_steps (env : nat -> packet_env) : nat -> gateway_program -> gateway_program -> Prop :=
  | ps_empty k p ring : try_pop p.(lp).(req_ring) = Some (None, ring) ->
      packet_steps env k p (with_loop (mkLoop p.(lp).(gw) ring p.(lp).(accept_failures) p.(lp).(active_conn_peak)) p)
  | ps_packet k p p1 p2 pkt ring m m1 : try_pop p.(lp).(req_ring) = Some (Some pkt, ring) ->
      packet (env k) pkt ring p m = Some (p1, m1) -> packet_steps env (S k) p1 p2 -> packet_steps env k p p2.

(** Rounds, each with the descriptors epoll reports, all different. *)
Inductive rounds : list (list gw_event) -> gateway_program -> gateway_program -> Prop :=
  | rounds_nil p : rounds [] p p
  | rounds_cons buf env es ess p p1 p2 p3 :
      NoDup (map ev_fd es) -> event_steps buf es p p1 -> packet_steps env 0 p1 p2 -> rounds ess p2 p3 ->
      rounds (es :: ess) p p3.

(** What is open, and what is registered. *)
Record tracked (p : gateway_program) : Prop := {
  tr_open : forall d, is_Some (p.(fds) !! d) <->
    is_Some (base !! d) \/ d = listen_fd \/ d = epoll.(epoll_fd_) \/ is_Some (p.(lp).(gw).(conn_ctx) !! d);
  tr_registered : forall d, is_Some (p.(interest) !! d) <-> d = listen_fd \/ is_Some (p.(lp).(gw).(conn_ctx) !! d);
  tr_own : forall d, is_Some (p.(lp).(gw).(conn_ctx) !! d) ->
    base !! d = None /\ d <> listen_fd /\ d <> epoll.(epoll_fd_) /\ 0 <= d < nofile;
}.

(** In the middle of a round: unless a descriptor may not fit into the port of a
    packet, the packets in the ring come from different open connections, none of
    which is among the descriptors still to be handled; [n] more events are to
    come in all. *)
Record queued (rest : list Z) (n : Z) (p : gateway_program) : Prop := {
  qu_ring : ring_inv p.(lp).(req_ring);
  qu_room : write_pos_ p.(lp).(req_ring) + n < 2 ^ 64;
  qu_ports : nofile <= 2 ^ 16 -> NoDup (map port (contents p.(lp).(req_ring)));
  qu_open : nofile <= 2 ^ 16 -> Forall (fun d => is_Some (p.(lp).(gw).(conn_ctx) !! d) /\ d ∉ rest) (map port (contents p.(lp).(req_ring)));
}.

Hypothesis own : 0 <= epoll.(epoll_fd_) /\ 0 <= listen_fd.

(** There is no drop deadline, or every descriptor fits into a port. *)
Hypothesis no_misread : opts.(gw_server_drop_at_s) <= 0 \/ nofile <= 2 ^ 16.

Lemma tracked_ext p p' : p'.(fds) = p.(fds) -> p'.(interest) = p.(interest) ->
  p'.(lp).(gw).(conn_ctx) = p.(lp).(gw).(conn_ctx) -> tracked p -> tracked p'.
Proof. intros E1 E2 E3 [H1 H2 H3]. split; rewrite ?E1, ?E2, ?E3; done. Qed.

Lemma lookup_insert_some {A} (m : gmap Z A) k x d : is_Some (<[k := x]> m !! d) <-> d = k \/ is_Some (m !! d).
Proof.
  destruct (decide (d = k)) as [->|Hne].
  - rewrite lookup_insert_eq. split; [by left|by eexists].
  - rewrite lookup_insert_ne by done. split; [by right|by intros [|]].
Qed.

Lemma lookup_delete_some {A} (m : gmap Z A) k d : is_Some (delete k m !! d) <-> d <> k /\ is_Some (m !! d).
Proof.
  destruct (decide (d = k)) as [->|Hne].
  - rewrite lookup_delete_eq. split; [by intros [? [=]]|by intros [? _]].
  - rewrite lookup_delete_ne by done. by split; [split|intros [_ ?]].
Qed.

Lemma lookup_remove_some i k d : is_Some ((epoll_remove epoll k i).2 !! d) <-> d <> k /\ is_Some (i !! d).
Proof.
  unfold epoll_remove, Epoll.remove. destruct (Z.ltb_spec (epoll_fd_ epoll) 0); [lia|].
  destruct (i !! k) eqn:E; cbn [snd]; [apply lookup_delete_some|].
  split; [|by intros [_ ?]]. intros Hd. split; [|done]. intros ->. rewrite E in Hd. by destruct Hd.
Qed.

(** Dropping a connection drops its descriptor. *)
Lemma tracked_drop fd p p' :
  tracked p -> is_Some (p.(lp).(gw).(conn_ctx) !! fd) ->
  p'.(fds) = delete fd p.(fds) -> p'.(interest) = (epoll_remove epoll fd p.(interest)).2 ->
  (forall d, is_Some (p'.(lp).(gw).(conn_ctx) !! d) <-> d <> fd /\ is_Some (p.(lp).(gw).(conn_ctx) !! d)) -> tracked p'.
Proof.
  intros [H1 H2 H3] Hfd E1 E2 E3. destruct (H3 fd Hfd) as (Hb & Hl & He & _).
  apply not_eq_sym in Hl, He. split; intros d; rewrite ?E3, ?E1, ?E2.
  - rewrite lookup_delete_some, H1. split; [tauto|]. intros [Hd|[->|[->|[Hne Hd]]]]; [|tauto..].
    split; [|by left]. intros ->. rewrite Hb in Hd. by destruct Hd.
  - rewrite lookup_remove_some, H2. split; [tauto|]. intros [->|[Hne Hd]]; tauto.
  - intros [_ Hd]. by apply H3.
Qed.

(** A descriptor that was not open is opened, registered and held. *)
Lemma tracked_insert {x y z} c p p' :
  tracked p -> p.(fds) !! c = None -> 0 <= c < nofile -> p'.(fds) = <[c := x]> p.(fds) ->
  p'.(interest) = <[c := y]> p.(interest) -> p'.(lp).(gw).(conn_ctx) = <[c := z]> p.(lp).(gw).(conn_ctx) -> tracked p'.
Proof.
  intros [T1 T2 T3] Hf Hc E1 E2 E3. assert (~ is_Some (p.(fds) !! c)) as Hn by (rewrite Hf; by intros [? [=]]).
  rewrite T1 in Hn. split; intros d; rewrite ?E1, ?E2, ?E3, !lookup_insert_some.
  - rewrite T1. tauto.
  - rewrite T2. tauto.
  - intros [->|Hd]; [|by apply T3]. split; [apply eq_None_not_Some; tauto|]. split; [tauto|]. by split; [tauto|].
Qed.

(** What a packet does to the connections. *)
Lemma handle_packet_conns dropping fd size pkt g m f g' m' :
  handle_packet write_to ack_obj ack_pad opts.(gw_backpressure_threshold) size dropping fd pkt g m = Some ((f, g'), m') ->
  (forall d, d <> fd -> g'.(conn_ctx) !! d = g.(conn_ctx) !! d) /\
  (g.(conn_ctx) !! fd = None -> g'.(conn_ctx) !! fd = None) /\ (dropping = true -> g'.(conn_ctx) !! fd = None).
Proof.
  unfold handle_packet. destruct dropping.
  { intros [= <- <- _]. cbn [conn_ctx]. rewrite lookup_delete_eq. split; [|done]. intros d Hd. by rewrite lookup_delete_ne. }
  destruct (conn_ctx g !! fd) as [ctx|] eqn:Hfd; [|intros [= <- <- _]; by rewrite Hfd].
  assert (forall g1 c, g1.(conn_ctx) = delete fd g.(conn_ctx) \/ g1.(conn_ctx) = <[fd := c]> g.(conn_ctx) ->
    forall d, d <> fd -> g1.(conn_ctx) !! d = g.(conn_ctx) !! d) as Hne.
  { intros g1 c [-> | ->] d Hd; [by rewrite lookup_delete_ne|by rewrite lookup_insert_ne]. }
  intros H. split; [|done]. apply bind_inv in H as ([ok o] & m1 & _ & H).
  destruct (negb ok || _); [by injection H as _ <- _|]. destruct (_ && (_ || _)).
  - apply bind_inv in H as (g1 & m2 & E & H). injection H as _ <- _. unfold handle_control in E.
    apply bind_inv in E as ([o1 conn] & m3 & _ & E). injection E as <- _. cbn [conn_ctx].
    destruct (bool_decide _); intros d Hd; [by rewrite lookup_delete_ne|by rewrite lookup_insert_ne].
  - apply bind_inv in H as (bs & m2 & _ & H). destruct (out_of_order _ _ _ _).
    + injection H as _ <- _. unfold handle_out_of_order. destruct (insert_bytes _ _ _) as [i b].
      intros d Hd. cbn [conn_ctx]. by rewrite lookup_insert_ne.
    + apply bind_inv in H as (g1 & m3 & E & H). injection H as _ <- _. unfold handle_in_order in E.
      apply bind_inv in E as ([[n [o1 conn]] b] & m4 & _ & E). injection E as <- _.
      intros d Hd. cbn [conn_ctx]. by rewrite lookup_insert_ne.
Qed.

Lemma emit_notes_keep clock i ns p :
  let p' := emit_notes clock i ns p in p'.(lp) = p.(lp) /\ p'.(interest) = p.(interest) /\ p'.(fds) = p.(fds).
Proof.
  revert i p. induction ns as [|n ns IH]; intros i p; cbn [emit_notes]; [done|].
  destruct (IH (S i) (emit_note clock i n p)) as (-> & -> & ->). destruct n; cbn [emit_note]; [done|].
  by destruct (emit _ _).
Qed.

Lemma report_keep now p : let p' := report now p in p'.(lp) = p.(lp) /\ p'.(interest) = p.(interest) /\ p'.(fds) = p.(fds).
Proof. unfold report. by destruct (_ <=? _). Qed.

(** A packet of an open connection, or any packet before the drop deadline. *)
Lemma packet_tracked e pkt ring p p' m m' :
  packet e pkt ring p m = Some (p', m') -> tracked p ->
  is_Some (p.(lp).(gw).(conn_ctx) !! pkt.(port)) \/ past_deadline opts start_time e = false ->
  tracked p' /\ p'.(lp).(req_ring) = ring /\
  (forall d, d <> pkt.(port) -> p'.(lp).(gw).(conn_ctx) !! d = p.(lp).(gw).(conn_ctx) !! d).
Proof.
  intros H Ht Hp. unfold gw_packet in H. apply bind_inv in H as ([f g] & m1 & E & H).
  apply handle_packet_conns in E as (Hne & Hnone & Hdrop).
  match type of H with context [emit_notes ?c ?i ?ns ?q] =>
    destruct (emit_notes_keep c i ns q) as (L & I & F); set (p1 := emit_notes c i ns q) in * end.
  cbn [with_loop lp interest fds] in L, I, F. clearbody p1.
  set (b := past_deadline _ _ _ || _) in *.
  set (p2 := if b then drop_descriptor epoll pkt.(port) p1 else p1) in *.
  assert (p'.(lp) = p2.(lp) /\ p'.(interest) = p2.(interest) /\ p'.(fds) = p2.(fds)) as (L' & I' & F').
  { destruct f; injection H as <- _; [apply report_keep|done]. }
  clear H. assert (p2.(lp) = p1.(lp)) as L2 by (unfold p2; by destruct b). rewrite L2, L in L'.
  split; [|by rewrite L']. destruct b eqn:Eb; cbn [drop_descriptor interest fds] in I', F'; unfold p2 in I', F';
    cbn [drop_descriptor interest fds] in I', F'; rewrite I in I'; rewrite F in F'.
  - assert (is_Some (p.(lp).(gw).(conn_ctx) !! pkt.(port))) as Hs.
    { destruct Hp as [|Hp]; [done|]. unfold b in Eb. rewrite Hp in Eb. cbn [orb] in Eb. unfold gone in Eb.
      apply andb_true_iff in Eb as [Eb _]. by apply bool_decide_eq_true in Eb. }
    eapply (tracked_drop pkt.(port) p); try done. rewrite L'. cbn [gw]. intros d.
    assert (g.(conn_ctx) !! pkt.(port) = None) as Hg.
    { unfold b in Eb. apply orb_true_iff in Eb as [Eb|Eb]; [by apply Hdrop|].
      unfold gone in Eb. apply andb_true_iff in Eb as [_ Eb]. by apply bool_decide_eq_true in Eb. }
    destruct (decide (d = pkt.(port))) as [->|Hd]; [rewrite Hg; split; [by intros [? [=]]|by intros [? _]]|].
    rewrite Hne by done. by split; [|intros [_ ?]].
  - assert (forall d, is_Some (g.(conn_ctx) !! d) <-> is_Some (p.(lp).(gw).(conn_ctx) !! d)) as Hd.
    { intros d. destruct (decide (d = pkt.(port))) as [->|Hd]; [|by rewrite Hne].
      destruct (p.(lp).(gw).(conn_ctx) !! pkt.(port)) as [c|] eqn:Ec; [|by rewrite Hnone].
      split; [by eexists|]. intros _.
      unfold b in Eb. apply orb_false_iff in Eb as [_ Eb]. unfold gone in Eb. rewrite Ec in Eb.
      rewrite bool_decide_eq_true_2 in Eb by by eexists. cbn [andb] in Eb. apply bool_decide_eq_false in Eb.
      by apply not_eq_None_Some. }
    destruct Ht as [H1 H2 H3]. split; rewrite ?L', ?I', ?F'; cbn [gw]; intros d; rewrite ?Hd; auto.
Qed.

(** A new connection. *)
Lemma accept_tracked buf e p p' m m' :
  accept_event epoll listen_fd buf e p m = Some (p', m') -> tracked p -> fresh e.(accepted_fd) p.(fds) ->
  e.(accepted_fd) < nofile ->
  tracked p' /\ p'.(lp).(req_ring) = p.(lp).(req_ring) /\
  forall d, is_Some (p.(lp).(gw).(conn_ctx) !! d) -> is_Some (p'.(lp).(gw).(conn_ctx) !! d).
Proof.
  intros H Ht Hf Hlim. unfold accept_event, Tcp.accept_from in H. destruct (Z.ltb_spec listen_fd 0); [lia|].
  set (c := accepted_fd e) in *. destruct (Z.ltb_spec c 0) as [Hc|Hc]; cbn [orb] in H.
  { destruct (Z.leb_spec 0 c); [lia|]. apply bind_inv in H as (s & m1 & E & H). injection H as <- _.
    unfold io_step in E. destruct (Z.ltb_spec c 0); [|lia]. injection E as <- _. cbn. split; [|done].
    by apply (tracked_ext p). }
  destruct (Z.leb_spec 0 c); [|lia]. destruct Hf as [|Hf]; [lia|].
  assert (~ is_Some (p.(fds) !! c)) as Hn by (rewrite Hf; by intros [? [=]]).
  rewrite (tr_open p Ht) in Hn. assert (p.(lp).(gw).(conn_ctx) !! c = None) as Hg by (apply eq_None_not_Some; tauto).
  match type of H with context [<[c := ?a]> p.(fds)] => set (at_ := a) in * end.
  cbn [default snd] in H. set (added := if negb (ctl_ok e) then _ else _) in H.
  destruct added as [ok i] eqn:Ea. apply bind_inv in H as (s & m1 & E & H). injection H as <- _.
  unfold io_step in E. destruct (Z.ltb_spec c 0); [lia|]. destruct ok; cbn [negb] in E |- *; injection E as <- _.
  - cbn [lp gw req_ring]. assert ((accept_connection c (ntohs (cli_addr e).2) p.(lp).(gw)).(conn_ctx) =
      <[c := mkContext (mkTcpConnection (htonl INADDR_LOOPBACK) (htonl INADDR_LOOPBACK) kListenPort (ntohs (cli_addr e).2)
        1 1 TcpConnection_default.(send_ack) TcpConnection_default.(recv_ack) TcpConnection_default.(state)
        TcpConnection_default.(window_size) TcpConnection_default.(recv_window) TcpConnection_default.(peer_window))
        TcpReassemblyBuffer_new]> p.(lp).(gw).(conn_ctx)) as Ec.
    { unfold accept_connection. cbn [conn_ctx]. by rewrite Hg. }
    assert (i = <[c := (EPOLLIN, event_data nullptr c)]> p.(interest)) as ->.
    { unfold added in Ea. destruct (ctl_ok e); [|done]. cbn [negb] in Ea. unfold epoll_add, Epoll.add in Ea.
      destruct (Z.ltb_spec (epoll_fd_ epoll) 0); [lia|]. destruct (interest p !! c); [done|]. by injection Ea as <-. }
    split; [|split; [done|]].
    + eapply (tracked_insert c p); [done|by rewrite Hf|lia|reflexivity..|exact Ec].
    + intros d Hd. cbn [print lp gw]. rewrite Ec, lookup_insert_some. by right.
  - assert (i = p.(interest)) as ->.
    { unfold added in Ea. destruct (ctl_ok e); [|by injection Ea as <-]. cbn [negb] in Ea. unfold epoll_add, Epoll.add in Ea.
      destruct (epoll_fd_ epoll <? 0); [by injection Ea as <-|]. destruct (interest p !! c); [by injection Ea as <-|done]. }
    split; [|done]. apply (tracked_ext p); cbn [fds interest lp]; try done. by rewrite delete_insert_id.
Qed.

(** The packets a read leaves in the ring. *)
Lemma push_room r pkt ok r' n :
  ring_inv r -> write_pos_ r + Z.succ n < 2 ^ 64 -> 0 <= n -> try_push r pkt = Some (ok, r') ->
  ring_inv r' /\ write_pos_ r' + n < 2 ^ 64 /\ contents r' = contents r ++ (if ok then [pkt] else []).
Proof.
  intros Hi Hw Hn H. rewrite try_push_run in H by (done || lia).
  destruct (Z.leb_spec (capacity_ r) (write_pos_ r - read_pos_ r)) as [Hc|Hc]; injection H as <- <-.
  - rewrite app_nil_r. split_and!; [done|lia|done].
  - split_and!; [apply pushed_inv; (done || lia)|cbn; lia|apply pushed_contents; (done || lia)].
Qed.

(** A read from a connection. *)
Lemma read_tracked buf e rest n p p' m m' :
  read_event epoll buf e p m = Some (p', m') -> tracked p -> is_Some (p.(lp).(gw).(conn_ctx) !! e.(ev_fd)) ->
  queued (e.(ev_fd) :: rest) (Z.succ n) p -> 0 <= n -> e.(ev_fd) ∉ rest ->
  tracked p' /\ queued rest n p'.
Proof.
  intros H Ht Hfd [Q1 Q2 Q3 Q4] Hn Hrest. unfold read_event in H. apply bind_inv in H as (s & m1 & E & H). injection H as <- _.
  assert (nofile <= 2 ^ 16 -> Forall (fun d => d <> ev_fd e /\ is_Some (p.(lp).(gw).(conn_ctx) !! d) /\ d ∉ rest)
    (map port (contents p.(lp).(req_ring)))) as Q.
  { intros Hfit. eapply Forall_impl; [exact (Q4 Hfit)|]. intros d [? Hd]. rewrite not_elem_of_cons in Hd. tauto. }
  clear Q4. destruct (ends (reading e)) eqn:Er.
  - assert (s = mkLoop (disconnect (ev_fd e) p.(lp).(gw)) p.(lp).(req_ring) p.(lp).(accept_failures) p.(lp).(active_conn_peak)) as ->.
    { destruct (reading e) as [[|b bs]| |]; try done; cbn [io_step] in E; by injection E as <- _. }
    split.
    + eapply (tracked_drop (ev_fd e) p); try done. intros d. cbn. apply lookup_delete_some.
    + split; cbn [drop_descriptor print with_loop lp req_ring gw disconnect conn_ctx]; [done|lia|done|].
      intros Hfit. eapply Forall_impl; [exact (Q Hfit)|]. intros d (Hd & Hs & Hr). split; [|done]. by apply lookup_delete_some.
  - assert (s.(gw) = p.(lp).(gw) /\ ring_inv s.(req_ring) /\ write_pos_ s.(req_ring) + n < 2 ^ 64 /\
      exists new, contents s.(req_ring) = contents p.(lp).(req_ring) ++ new /\
        (new = [] \/ exists pkt, new = [pkt] /\ (nofile <= 2 ^ 16 -> pkt.(port) = ev_fd e))) as (Eg & R1 & R2 & new & Ec & Hnew).
    { destruct (tr_own p Ht _ Hfd) as (_ & _ & _ & Hlim).
      destruct (reading e) as [[|b bs]| |]; [discriminate Er| | |discriminate Er]; cbn [io_step] in E.
      - apply with_local_inv in E as (m2 & E2).
        apply bind_inv in E2 as (u & m3 & _ & E2). apply bind_inv in E2 as ([ok ring] & m4 & Ep & E2).
        injection E2 as <- _. cbn [gw req_ring]. split; [done|]. unfold lift in Ep.
        destruct (try_push _ _) as [[ok' ring']|] eqn:Epush; [|done]. injection Ep as -> -> _.
        destruct (push_room _ _ _ _ n Q1 Q2 Hn Epush) as (R1 & R2 & R3). split; [done|]. split; [done|].
        eexists. split; [exact R3|]. destruct ok; [right|by left]. eexists. split; [done|]. cbn [read_packet port].
        intros Hfit. apply wrap_small. unfold in_width. lia.
      - injection E as <- _. split; [done|]. split; [done|]. split; [lia|]. exists []. rewrite app_nil_r. split; [done|by left]. }
    split; [apply (tracked_ext p); [done|done|cbn; by rewrite Eg|done]|].
    split; cbn [with_loop lp]; rewrite ?Ec, ?Eg, ?map_app; [done|done|..].
    + intros Hfit. specialize (Q Hfit). apply NoDup_app. split; [by apply Q3|]. destruct Hnew as [->|(pkt & -> & Ep)]; [split; [by intros ? _ ?%elem_of_nil|constructor]|].
      cbn [map]. rewrite (Ep Hfit). split; [|apply NoDup_singleton]. intros d Hd ->%list_elem_of_singleton.
      rewrite Forall_forall in Q. by apply Q in Hd as [? _].
    + intros Hfit. apply Forall_app_2; [eapply Forall_impl; [exact (Q Hfit)|tauto]|].
      destruct Hnew as [->|(pkt & -> & Ep)]; [constructor|]. cbn [map]. rewrite (Ep Hfit). by repeat constructor.
Qed.

Lemma event_steps_tracked buf es p p' n :
  event_steps buf es p p' -> NoDup (map ev_fd es) -> tracked p ->
  queued (map ev_fd es) (Z.of_nat (length es) + n) p -> 0 <= n -> tracked p' /\ queued [] n p'.
Proof.
  intros H. revert n. induction H as [p|e es p p1 p2 m m1 Hreg Hf Hlim E _ IH]; intros n Hnd Ht Hq Hn; [done|].
  cbn [map length] in *. apply NoDup_cons in Hnd as [He Hnd].
  assert (tracked p1 /\ queued (map ev_fd es) (Z.of_nat (length es) + n) p1) as [Ht1 Hq1]; [|by apply IH].
  replace (Z.of_nat (S (length es)) + n) with (Z.succ (Z.of_nat (length es) + n)) in Hq by lia.
  unfold gw_event_step in E. destruct (Z.eqb_spec (ev_fd e) listen_fd) as [El|El].
  - apply accept_tracked in E as (Ht1 & Er & Hc); [|done..]. split; [done|]. destruct Hq as [Q1 Q2 Q3 Q4].
    split; rewrite ?Er; [done|lia|done|]. intros Hfit. eapply Forall_impl; [exact (Q4 Hfit)|]. intros d [Hs Hd]. split; [by apply Hc|].
    rewrite not_elem_of_cons in Hd. tauto.
  - eapply read_tracked; [exact E|done| |exact Hq|lia|done].
    apply (tr_registered p Ht) in Hreg as [?|?]; done.
Qed.

Lemma packet_steps_tracked env k p p' n :
  packet_steps env k p p' -> tracked p -> queued [] n p ->
  tracked p' /\ ring_inv p'.(lp).(req_ring) /\ contents p'.(lp).(req_ring) = [] /\ write_pos_ p'.(lp).(req_ring) + n < 2 ^ 64.
Proof.
  induction 1 as [k p ring E|k p p1 p2 pkt ring m m1 E Ep _ IH]; intros Ht [Q1 Q2 Q3 Q4]; rewrite try_pop_run in E by done;
    destruct (Z.leb_spec (write_pos_ p.(lp).(req_ring)) (read_pos_ p.(lp).(req_ring))) as [Hw|Hw]; try done.
  - injection E as <-. split; [by apply (tracked_ext p)|]. cbn [with_loop lp req_ring]. split; [done|]. split; [|done].
    unfold contents, used. by replace (Z.to_nat _) with O by lia.
  - injection E as Epkt <-. rewrite (popped_contents _ Q1 Hw), Epkt in Q3, Q4. cbn [map] in Q3, Q4.
    apply packet_tracked in Ep as (Ht1 & Er & Hc); [|done|].
    2: { destruct no_misread as [Hno|Hfit].
         - right. unfold past_deadline. by destruct (Z.ltb_spec 0 (gw_server_drop_at_s opts)); [lia|].
         - left. specialize (Q4 Hfit). by apply Forall_cons in Q4 as [[Hs _] _]. }
    apply IH; [done|]. split; rewrite ?Er; [by apply popped_inv|done|..]; intros Hfit; specialize (Q3 Hfit); specialize (Q4 Hfit);
      apply NoDup_cons in Q3 as [Hp Hnd]; apply Forall_cons in Q4 as [_ Ho]; [done|].
    apply Forall_forall. intros d Hd. split; [|by apply not_elem_of_nil].
    rewrite Forall_forall in Ho. rewrite Hc by (intros ->; by apply Hp). by apply Ho.
Qed.

Definition event_count (ess : list (list gw_event)) : Z := foldr (fun es n => Z.of_nat (length es) + n) 0 ess.

Lemma event_count_nonneg ess : 0 <= event_count ess.
Proof. induction ess as [|es ess IH]; [done|]. cbn [event_count foldr]. fold (event_count ess). lia. Qed.

Lemma rounds_tracked ess p p' :
  rounds ess p p' -> tracked p -> ring_inv p.(lp).(req_ring) -> contents p.(lp).(req_ring) = [] ->
  write_pos_ p.(lp).(req_ring) + event_count ess < 2 ^ 64 -> tracked p'.
Proof.
  induction 1 as [p|buf env es ess p p1 p2 p3 Hnd He Hp _ IH]; intros Ht Hi Hc Hw; [done|]. cbn [event_count foldr] in Hw.
  fold (event_count ess) in Hw. pose proof (event_count_nonneg ess).
  apply (event_steps_tracked _ _ _ _ (event_count ess)) in He as [Ht1 Hq1]; [|done|done| |done].
  - apply (packet_steps_tracked _ _ _ _ (event_count ess)) in Hp as (Ht2 & Hi2 & Hc2 & Hw2); [|done..]. by apply IH.
  - split; rewrite ?Hc; [done|lia|intros _; constructor..].
Qed.

(** What the kernel promises along a run of the events. *)
Fixpoint kernel_ok (buf : ptr) (es : list gw_event) (p : gateway_program) (m : mem) : Prop :=
  match es with
  | [] => True
  | e :: es =>
      is_Some (p.(interest) !! e.(ev_fd)) /\ fresh e.(accepted_fd) p.(fds) /\ e.(accepted_fd) < nofile /\
      forall p1 m1, event_step buf e p m = Some (p1, m1) -> kernel_ok buf es p1 m1
  end.

(** A round of the program is a round in this sense. *)
Lemma gw_events_steps buf es p m p' m' :
  gw_events epoll listen_fd buf es p m = Some (p', m') -> kernel_ok buf es p m -> event_steps buf es p p'.
Proof.
  revert p m. induction es as [|e es IH]; intros p m H Hk; cbn [gw_events kernel_ok] in *.
  - injection H as <- _. constructor.
  - apply bind_inv in H as (p1 & m1 & E & H). destruct Hk as (H1 & H2 & H3 & H4).
    econstructor; [done..|exact E|]. by eapply IH; [|apply H4].
Qed.

Lemma gw_packets_steps fuel k env p m p' m' :
  gw_packets write_to ack_obj ack_pad opts epoll start_time fuel k env p m = Some (p', m') -> packet_steps env k p p'.
Proof.
  revert k p m. induction fuel as [|fuel IH]; intros k p m H; cbn [gw_packets] in H; [done|].
  apply bind_inv in H as ([pkt ring] & m1 & E & H). unfold lift in E.
  destruct (try_pop (req_ring (lp p))) as [[pkt' ring']|] eqn:Ep; [|done]. injection E as -> -> _.
  destruct pkt as [pkt|].
  - apply bind_inv in H as (p1 & m2 & E & H). econstructor; [exact Ep|exact E|]. by eapply IH.
  - injection H as <- _. by constructor.
Qed.
End Descriptors.

(** ** Start, rounds and exit *)
Lemma started_tracked opts epoll listen_fd pool i t start_time base nofile :
  (forall d, is_Some (i !! d) <-> d = listen_fd) ->
  (forall d, is_Some (t !! d) <-> is_Some (base !! d) \/ d = listen_fd \/ d = epoll.(epoll_fd_)) ->
  tracked epoll listen_fd base nofile (gateway_init opts pool i t start_time).
Proof.
  intros Hi Ht. split; cbn [gateway_init interest fds lp gw conn_ctx]; intros d.
  - rewrite Ht, lookup_empty. split; [tauto|]. intros [?|[?|[?|[? [=]]]]]; tauto.
  - rewrite Hi, lookup_empty. split; [tauto|]. intros [?|[? [=]]]. tauto.
  - rewrite lookup_empty. by intros [? [=]].
Qed.

Lemma leave_some epoll listen_fd p d : 0 <= epoll.(epoll_fd_) ->
  is_Some (gateway_leave epoll listen_fd p !! d) <->
  d <> epoll.(epoll_fd_) /\ d <> listen_fd /\ is_Some (p.(fds) !! d).
Proof.
  intros H. unfold gateway_leave, leave_scope, EpollWrapper_destroy. destruct (Z.leb_spec 0 (epoll_fd_ epoll)); [|lia].
  cbn [foldr release]. by rewrite !lookup_delete_some.
Qed.

Lemma not_open (t : table) d : t !! d = None -> ~ is_Some (t !! d).
Proof. intros ->. by intros [? [=]]. Qed.

(** Where the start ends. *)
Lemma start_cases opts a start_time t nofile st :
  fresh a.(server).(Tcp.sv_socket) t -> fresh a.(epoll_answer) t ->
  (0 <= a.(epoll_answer) -> a.(epoll_answer) <> a.(server).(Tcp.sv_socket)) ->
  gateway_start opts a start_time t = Some st ->
  match st with
  | Exited code _ t' => code = 1 /\ forall d, is_Some (t' !! d) <-> is_Some (t !! d)
  | Terminated => True
  | Started epoll listen_fd p =>
      0 <= epoll.(epoll_fd_) /\ 0 <= listen_fd /\ t !! listen_fd = None /\ t !! epoll.(epoll_fd_) = None /\
      tracked epoll listen_fd t nofile p /\ p.(lp).(req_ring) = PacketRing_new 64
  end.
Proof.
  intros Hs He Hne H. unfold gateway_start in H.
  pose proof (constructed_opens _ _ _ (Tcp.create_server_spec kListenPort kBacklog true a.(server) t Hs)) as Ho.
  fold (create_listen_socket a.(server) t) in Ho. destruct (create_listen_socket a.(server) t) as [lfd t1].
  destruct Ho as [(El & Hl & Ht)|[El Et]]; cbn [fst snd] in *; [|subst; by injection H as <-]. subst lfd.
  set (lfd := Tcp.sv_socket (server a)) in *. destruct (Z.ltb_spec lfd 0); [lia|].
  destruct Hs as [|Hs]; [lia|]. apply not_open in Hs as Hs'. unfold epoll_fd, EpollWrapper_new in H. cbn [epoll_fd_] in H.
  set (ep := epoll_answer a) in *. destruct (Z.ltb_spec ep 0) as [Hep|Hep].
  { injection H as <-. split; [done|]. intros d. unfold leave_scope, EpollWrapper_destroy. cbn [epoll_fd_].
    destruct (Z.leb_spec 0 ep); [lia|]. cbn [foldr]. rewrite lookup_delete_some, Ht. split; [tauto|].
    intros Hd. split; [by intros ->|tauto]. }
  destruct He as [|He]; [lia|]. apply not_open in He as He'. specialize (Hne Hep).
  destruct (Z.leb_spec 0 ep); [|lia]. set (t2 := <[ep := new_socket 0]> t1) in *.
  assert (forall d, is_Some (t2 !! d) <-> is_Some (t !! d) \/ d = lfd \/ d = ep) as Ht2.
  { intros d. unfold t2. rewrite lookup_insert_some, Ht. tauto. }
  clearbody t2. set (epoll := mkEpollWrapper ep kMaxEvents) in *.
  destruct (if listen_ok a then epoll_add epoll lfd EPOLLIN nullptr ∅ else (false, ∅)) as [added i] eqn:Ei.
  destruct added; cbn [negb] in H.
  - destruct (ZeroCopy.ZeroCopyMemoryPool_new _ _ _ _) as [pool| |]; [|by injection H as <-|done].
    apply bind_Some in H as (pool' & _ & [= <-]). split_and!; [done..| |done]. apply started_tracked; [|done].
    destruct (listen_ok a); [|done]. unfold epoll_add, Epoll.add in Ei. cbn [epoll epoll_fd_] in Ei.
    destruct (Z.ltb_spec ep 0); [lia|]. rewrite lookup_empty in Ei. injection Ei as <-. intros d.
    rewrite lookup_insert_some, lookup_empty. split; [|tauto]. by intros [?|[? [=]]].
  - injection H as <-. split; [done|]. intros d. unfold leave_scope, EpollWrapper_destroy. cbn [epoll epoll_fd_].
    destruct (Z.leb_spec 0 ep); [|lia]. cbn [foldr release]. rewrite !lookup_delete_some, Ht2. split; [tauto|].
    intros Hd. split; [by intros ->|]. split; [by intros ->|tauto].
Qed.

(** C6: The gateway's bookkeeping of its descriptors is exact, unless it drops its
    connections after a deadline and the limit of its process allows descriptors
    of 2^16 and more, which do not fit into the port of a packet.  Whatever the kernel
    answers while it starts, [main] either returns 1 with the descriptors it was
    started with, or reaches its loop (or the pool's constructor throws).  After
    any rounds of the loop, with whatever connections, reads, errors and frames,
    the open descriptors are those from before, the listening socket,
    the epoll instance and one per entry of [conn_ctx], all different; exactly
    the listening socket and the entries are registered with epoll; so no entry
    is ever reused by a new connection, and none is left behind.  Leaving the
    loop closes everything but the accepted connections. *)
Theorem gateway_tracks_descriptors write_to ack_obj ack_pad opts a start_time t nofile st :
  opts.(gw_server_drop_at_s) <= 0 \/ nofile <= 2 ^ 16 ->
  fresh a.(server).(Tcp.sv_socket) t -> fresh a.(epoll_answer) t ->
  (0 <= a.(epoll_answer) -> a.(epoll_answer) <> a.(server).(Tcp.sv_socket)) ->
  gateway_start opts a start_time t = Some st ->
  match st with
  | Exited code _ t' => code = 1 /\ forall d, is_Some (t' !! d) <-> is_Some (t !! d)
  | Terminated => True
  | Started epoll listen_fd p =>
      forall ess p', rounds write_to ack_obj ack_pad opts epoll listen_fd start_time nofile ess p p' ->
        event_count ess < 2 ^ 64 ->
        tracked epoll listen_fd t nofile p' /\
        forall d, is_Some (gateway_leave epoll listen_fd p' !! d) <->
          is_Some (t !! d) \/ is_Some (p'.(lp).(gw).(conn_ctx) !! d)
  end.
Proof.
  intros Hno Hs He Hne H. apply (start_cases _ _ _ _ nofile) in H; [|done..]. destruct st as [code o t'| |epoll lfd p]; [done..|].
  destruct H as (Hep & Hl & Fl & Fe & Ht & Er). intros ess p' Hr Hn.
  assert (tracked epoll lfd t nofile p') as Ht'.
  { eapply rounds_tracked; [done|exact Hno|exact Hr|done|rewrite Er; apply ring_new_inv; lia|by rewrite Er|by rewrite Er]. }
  split; [done|]. intros d. rewrite leave_some, (tr_open _ _ _ _ _ Ht') by done.
  apply not_open in Fl, Fe. split; [tauto|]. intros [Hd|Hd].
  - split; [by intros ->|]. split; [by intros ->|tauto].
  - destruct (tr_own _ _ _ _ _ Ht' d Hd) as (_ & ? & ? & _). tauto.
Qed.

(** A packet carries its descriptor in the 16-bit port: the data of a connection
    whose descriptor is 2^16 or more is taken for that of another descriptor, which
    the drop deadline then closes in its place. *)
Theorem wide_descriptor_misread write_to ack_obj ack_pad opts epoll start_time e buf fd bs ring p m :
  0 <= fd < 2 ^ 16 -> past_deadline opts start_time e = true ->
  let pkt := read_packet buf (2 ^ 16 + fd) bs in
  pkt.(port) = fd /\
  exists p', gw_packet write_to ack_obj ack_pad opts epoll start_time e pkt ring p m = Some (p', m) /\
    p'.(fds) = delete fd p.(fds) /\ p'.(lp).(gw).(conn_ctx) = delete fd p.(lp).(gw).(conn_ctx).
Proof.
  intros Hfd Hd pkt. assert (pkt.(port) = fd) as Ep.
  { cbn [pkt read_packet port]. unfold wrap. change (2 ^ 16 + fd) with (1 * 2 ^ 16 + fd).
    by rewrite Z.add_comm, Z.mod_add, Z.mod_small by lia. }
  split; [done|]. unfold gw_packet, handle_packet. rewrite Hd, Ep. eexists. split; [reflexivity|].
  match goal with |- context [emit_notes ?c ?i ?ns ?q] => destruct (emit_notes_keep c i ns q) as (L & I & F) end.
  cbn [orb drop_descriptor fds lp]. by rewrite L, F.
Qed.

(** ** Witnesses: the gateway starts and a client connects *)
Definition demo_gateway_start : start_answers :=
  mkStart (Tcp.mkServer 3 0 0 0 0) 4 true (fun _ _ => Some 8192).
Definition demo_accept : gw_event := mkEvent 3 5 (16777343, 20480) true ReadAgain.

Definition demo_epoll : EpollWrapper := EpollWrapper_new 4 64.
Definition demo_started : option gw_start := gateway_start gateway_defaults demo_gateway_start 0 ∅.
Definition demo_p0 : gateway_program :=
  match demo_started with
  | Some (Started _ _ p) => p
  | _ => gateway_init gateway_defaults (ZeroCopy.mkZeroCopyMemoryPool 0 0 false (ZeroCopy.mkZeroCopyBuffer 0 0 false) [] 0) ∅ ∅ 0
  end.
Definition demo_p1 : gateway_program :=
  match gw_event_step demo_epoll 3 7000 demo_accept demo_p0 ∅ with Some (p, _) => p | None => demo_p0 end.

Lemma gateway_tracks_descriptors_witness :
  exists p', rounds (fun _ _ _ => 0) 0 [] gateway_defaults demo_epoll 3 0 1024 [[demo_accept]] demo_p0 p' /\
    is_Some (p'.(lp).(gw).(conn_ctx) !! 5) /\ is_Some (p'.(fds) !! 5) /\ is_Some (gateway_leave demo_epoll 3 p' !! 5).
Proof.
  assert (demo_started = Some (Started demo_epoll 3 demo_p0)) as E by (vm_compute; reflexivity).
  pose proof (gateway_tracks_descriptors (fun _ _ _ => 0) 0 [] gateway_defaults demo_gateway_start 0 ∅ 1024 _
    ltac:(right; discriminate) ltac:(right; reflexivity) ltac:(right; reflexivity) ltac:(discriminate) E) as H.
  set (p' := with_loop (mkLoop demo_p1.(lp).(gw) demo_p1.(lp).(req_ring) demo_p1.(lp).(accept_failures)
    demo_p1.(lp).(active_conn_peak)) demo_p1).
  assert (rounds (fun _ _ _ => 0) 0 [] gateway_defaults demo_epoll 3 0 1024 [[demo_accept]] demo_p0 p') as Hr.
  { apply (rounds_cons _ _ _ _ _ _ _ _ 7000 (fun _ => mkPacketEnv 0 (fun _ => 0) 0) _ _ _ demo_p1 p' _).
    - repeat constructor. apply not_elem_of_nil.
    - apply (es_cons _ _ _ _ _ _ _ demo_p1 _ ∅ ∅); [vm_compute; eexists; reflexivity|right; reflexivity|reflexivity| |constructor].
      vm_compute. reflexivity.
    - apply ps_empty. vm_compute. reflexivity.
    - constructor. }
  destruct (H _ _ Hr ltac:(vm_compute; reflexivity)) as [Ht Hl].
  assert (is_Some (p'.(lp).(gw).(conn_ctx) !! 5)) as Hc by (vm_compute; eexists; reflexivity).
  exists p'. split; [exact Hr|]. split; [exact Hc|]. split.
  - apply (tr_open _ _ _ _ _ Ht). right. right. right. exact Hc.
  - apply Hl. right. exact Hc.
Defined.
