(* ===== verification/PublisherProgram.v ===== *)
(** * PublisherProgram: the market-data publisher's program
    (apps/market_udp/feed_publisher.cpp, [main])

    The whole program around the loop body of MarketFeed: the options, the socket,
    the draws that decide what is dropped and swapped, the metrics line and the
    exit.  An iteration meets the two draws and the two clock readings of a
    [pub_env]; the second draw is taken only when the first drops nothing. *)
From S2P Require Import Prelude Bytes Memory Packet UdpProtocol MemoryPool Messages MarketFeed.
From S2P Require Import Sockets Doubles Options Rates Reports.
From Stdlib Require Strings.String.

Import String.StringSyntax.

Record pub_env := mkPubEnv { drop_draw : Z; reorder_draw : Z; ts_ns : Z; report_ns : Z }.

Record pub_program := mkPubProgram { pub : publisher; last_report : Z; out : list text }.

Definition sending_line : text := str "[feed_publisher] sending multicast to 239.0.0.1:9100" ++ [newline].

Section Program.
Variable sendto : list (list Z) -> list Z -> Z.
Variable payload_obj : ptr.
Variable opts : publisher_options.

(** ** Output *)
Definition metrics_fields (p : publisher) : list field :=
  [ num (str "sent_total") p.(sent_total); num (str "rate") opts.(pub_rate);
    num (str "payload_size") (payload_bytes opts); num (str "streams") opts.(pub_streams);
    num (str "dropped_total") p.(dropped_total); num (str "reordered_total") p.(reordered_total);
    (str "drop_rate", show_double (rate_of opts.(pub_drop_rate)));
    (str "reorder_rate", show_double (rate_of opts.(pub_reorder_rate))) ].

Definition metrics_line (p : publisher) : text := line (str "[feed_publisher][metrics]") (metrics_fields p).

(** The metrics, at most once a second. *)
Definition report (now : Z) (p : pub_program) : pub_program :=
  if 1000000000 <=? now - p.(last_report) then mkPubProgram p.(pub) now (p.(out) ++ [metrics_line p.(pub)]) else p.

(** ** The loop *)
Definition tick_of (e : pub_env) : tick :=
  mkTick (draw_below e.(drop_draw) (rate_of opts.(pub_drop_rate)))
    (draw_below e.(reorder_draw) (rate_of opts.(pub_reorder_rate))) e.(ts_ns).

(** Whether the program goes on. *)
Definition pub_iteration (e : pub_env) (p : pub_program) : M (bool * pub_program) :=
  let t := tick_of e in
  r ← publish sendto payload_obj (Z.to_nat (payload_bytes opts)) opts.(pub_streams) t.(MarketFeed.dropped)
        t.(swapped) t.(clock_ns) p.(pub);
  let '(ok, q) := r in
  let p := mkPubProgram q p.(last_report) p.(out) in
  if (ok : bool) then mret (true, report e.(report_ns) p) else mret (false, p).

Fixpoint pub_loop (es : list pub_env) (p : pub_program) : M (bool * pub_program) :=
  match es with
  | [] => mret (true, p)
  | e :: es =>
      r ← pub_iteration e p;
      let '(ok, p) := r in
      if (ok : bool) then pub_loop es p else mret (false, p)
  end.

(** ** The program: running, or its exit code, its state and the descriptors *)
Inductive pub_result : Type :=
  | Running (p : pub_program)
  | Exited (code : Z) (p : option pub_program) (t : table).

Definition pub_init (pool : Pool.MemoryPool) (start : Z) : pub_program :=
  mkPubProgram (publisher_init pool) start [sending_line].

(** The multicast TTL is set without looking at the answer; the pool's blocks lie
    at [pool_data]. *)
Definition publisher_run (a : Udp.create_answers) (pool_data : ptr) (start : Z) (es : list pub_env)
    (t : table) : M pub_result :=
  let '(ok, socket, t) := Udp.create Udp.UdpSocket_default a t in
  if negb ok then mret (Exited 1 None (Udp.close socket t).2) else
  pool ← lift (Pool.MemoryPool_new pool_data (kPacketBufSize opts) 64);
  r ← pub_loop es (pub_init pool start);
  let '(ok, p) := r in
  if (ok : bool) then mret (Running p)
  else let '(socket, t) := Udp.close socket t in mret (Exited 1 (Some p) (Udp.close socket t).2).
End Program.

Definition publisher_main sendto payload_obj (argv : list text) (a : Udp.create_answers) (pool_data : ptr)
    (start : Z) (es : list pub_env) (t : table) : M pub_result :=
  match publisher_parse argv with
  | Parsed o => publisher_run sendto payload_obj o a pool_data start es t
  | _ => lift None
  end.

(** ** The counters *)
Section Counts.
Variable sendto : list (list Z) -> list Z -> Z.
Variable payload_obj : ptr.
Variable payload_size : nat.
Variable streams : Z.

(** The parts of a publisher other than its pool and queue. *)
Definition counters (p : publisher) : Z * Z * Z * Z := (p.(next_seq), p.(sent_total), p.(dropped_total), p.(reordered_total)).

(** The last datagram was not taken whole. *)
Definition refused (p : publisher) : Prop :=
  exists before bs n, p.(datagrams) = before ++ [bs] /\ sendto before bs <> n /\ length bs = Z.to_nat n.

Lemma send_increment_counts d p m ok p' m' :
  send_increment sendto payload_obj payload_size d p m = Some ((ok, p'), m') ->
  p'.(reorder_q) = p.(reorder_q) /\
  counters p' = (p.(next_seq), (if ok then u64 (p.(sent_total) + 1) else p.(sent_total)), p.(dropped_total), p.(reordered_total)) /\
  (ok = false -> refused p').
Proof.
  unfold send_increment. intros H. apply bind_inv in H as (u & m1 & _ & H).
  apply bind_inv in H as ([buf pool] & m2 & _ & H). apply bind_inv in H as (packet & m3 & _ & H).
  apply bind_inv in H as (bs & m4 & El & H). apply bind_inv in H as (pool' & m5 & _ & H).
  injection H as <- <- _. split; [done|]. split; [done|]. intros Hn%Z.eqb_neq.
  exists p.(datagrams), bs, packet.(len). split; [done|]. split; [done|].
  unfold load in El. destruct (read_bytes m3 _ _) as [x|] eqn:E; [|done]. injection El as -> ->.
  by apply read_bytes_length in E.
Qed.

Lemma drain_queue_counts q p m ok p' m' :
  drain_queue sendto payload_obj payload_size q p m = Some ((ok, p'), m') ->
  0 <= p.(sent_total) -> p.(sent_total) + Z.of_nat (length q) < 2 ^ 64 ->
  (ok = true -> (length p'.(reorder_q) <= 1)%nat /\
     counters p' = (p.(next_seq), p.(sent_total) + Z.of_nat (length q) - Z.of_nat (length p'.(reorder_q)),
                    p.(dropped_total), p.(reordered_total))) /\
  (ok = false -> refused p').
Proof.
  revert p m. induction q as [|d q IH]; intros p m H Hs Hl; cbn [drain_queue] in H.
  { injection H as <- <- _. split; [|done]. intros _. split; [cbn; lia|]. unfold counters. cbn. do 3 f_equal. lia. }
  destruct q as [|d' q].
  { injection H as <- <- _. split; [|done]. intros _. split; [cbn; lia|]. unfold counters. cbn. do 3 f_equal. lia. }
  apply bind_inv in H as ([ok1 p1] & m1 & E & H). apply send_increment_counts in E as (Eq & Ec & Er).
  unfold counters in Ec. injection Ec as E1 E2 E3 E4. cbn [length] in *. destruct ok1; cbn in E1, E2, E3, E4.
  - rewrite wrap_small in E2 by (unfold in_width; lia).
    destruct (IH p1 m1 H) as [H1 H2]; [lia|lia|]. split; [|done]. intros ->. destruct (H1 eq_refl) as [L C].
    split; [done|]. rewrite C, E1, E2, E3, E4. do 3 f_equal. lia.
  - injection H as <- <- _. split; [done|]. intros _. by apply Er.
Qed.

(** [n] iterations done, of which [drops] dropped their increment. *)
Record tallied (n drops : Z) (p : publisher) : Prop := {
  ta_seq : p.(next_seq) = n + 1;
  ta_queue : (length p.(reorder_q) <= 1)%nat;
  ta_sent : p.(sent_total) + drops + Z.of_nat (length p.(reorder_q)) = n;
  ta_drops : p.(dropped_total) = drops;
  ta_range : 0 <= n /\ 0 <= drops /\ 0 <= p.(sent_total) /\ 0 <= p.(reordered_total) <= n;
}.

Lemma length_swap_last {A} (l : list A) : length (swap_last l) = length l.
Proof.
  unfold swap_last. rewrite <- (length_rev l). destruct (rev l) as [|x [|y r]] eqn:E.
  1, 2: rewrite <- (length_rev l), E; done. by rewrite length_rev.
Qed.

Lemma publish_tallied n drops dr sw ts p m ok p' m' :
  publish sendto payload_obj payload_size streams dr sw ts p m = Some ((ok, p'), m') ->
  tallied n drops p -> n < 2 ^ 64 - 2 ->
  (ok = true -> tallied (n + 1) (if dr then drops + 1 else drops) p') /\ (ok = false -> refused p').
Proof.
  intros H [T1 T2 T3 T4 T5] Hn. unfold publish in H. rewrite T1, (wrap_small 64) in H by (unfold in_width; lia).
  cbn [next_seq reorder_q sent_total dropped_total reordered_total pub_pool datagrams] in H. destruct dr.
  { injection H as <- <- _. split; [|done]. intros _. split; cbn; rewrite ?T4, ?wrap_small by (unfold in_width; lia); lia. }
  set (q := reorder_q p ++ [next_increment streams ts p]) in *.
  assert (length q = S (length (reorder_q p))) as Hq by (unfold q; rewrite length_app; cbn; lia). clearbody q.
  destruct (sw && _).
  - apply drain_queue_counts in H as [H1 H2]; cbn [sent_total]; [|lia|rewrite length_swap_last; lia].
    split; [|done]. intros ->. destruct (H1 eq_refl) as [L C]. rewrite length_swap_last in C. unfold counters in C.
    injection C as C1 C2 C3 C4. cbn in C1, C2, C3, C4. rewrite wrap_small in C4 by (unfold in_width; lia). split; lia.
  - apply drain_queue_counts in H as [H1 H2]; cbn [sent_total with_queue]; [|lia|lia].
    split; [|done]. intros ->. destruct (H1 eq_refl) as [L C]. unfold counters in C.
    injection C as C1 C2 C3 C4. cbn in C1, C2, C3, C4. split; lia.
Qed.
End Counts.

(** ** Runs of the program *)
Section Runs.
Variable sendto : list (list Z) -> list Z -> Z.
Variable payload_obj : ptr.
Variable opts : publisher_options.

Definition drops (es : list pub_env) : list bool := map (fun e => (tick_of opts e).(MarketFeed.dropped)) es.
Definition count_true (l : list bool) : Z := Z.of_nat (length (List.filter (fun b => b) l)).

Lemma count_true_cons b l : count_true (b :: l) = (if b then 1 else 0) + count_true l.
Proof. unfold count_true. destruct b; cbn [List.filter length]; lia. Qed.

Lemma pub_loop_tallied es n d p m ok p' m' :
  pub_loop sendto payload_obj opts es p m = Some ((ok, p'), m') ->
  tallied n d p.(pub) -> n + Z.of_nat (length es) < 2 ^ 64 - 1 ->
  (ok = true -> tallied (n + Z.of_nat (length es)) (d + count_true (drops es)) p'.(pub)) /\
  (ok = false -> refused sendto p'.(pub)).
Proof.
  revert n d p m. induction es as [|e es IH]; intros n d p m H Ht Hn; cbn [pub_loop length drops map] in *.
  { injection H as <- <- _. split; [|done]. intros _. unfold count_true. cbn. by rewrite !Z.add_0_r. }
  apply bind_inv in H as ([ok1 p1] & m1 & E & H). unfold pub_iteration in E.
  apply bind_inv in E as ([ok2 q] & m2 & Ep & E). apply (publish_tallied sendto payload_obj _ _ n d) in Ep as [H1 H2]; [|done|lia].
  destruct ok2.
  - injection E as <- <- _. rewrite count_true_cons.
    assert ((report opts (report_ns e) (mkPubProgram q (last_report p) (out p))).(pub) = q) as Eq
      by (unfold report; by destruct (_ <=? _)).
    apply (IH (n + 1) (if (tick_of opts e).(MarketFeed.dropped) then d + 1 else d)) in H as [H3 H4]; [|rewrite Eq; by apply H1|lia].
    split; [|done]. intros Hok. specialize (H3 Hok).
    replace (n + Z.of_nat (S (length es))) with (n + 1 + Z.of_nat (length es)) by lia.
    destruct (MarketFeed.dropped _); [by rewrite Z.add_assoc|exact H3].
  - injection E as <- <- _. injection H as <- <- _. split; [done|]. intros _. by apply H2.
Qed.
End Runs.

(** C10: The publisher drops exactly the share of increments it was asked to.  Run
    with the command line the market driver gives it for a drop rate of
    [r / 10 ^ k], of up to six decimals, the publisher that is still running
    after any number of iterations has dropped the increments whose draw was at
    most [r / 10 ^ k * 10000] and no others; each of the others was sent, except
    at most one that waits in the reorder queue; and every number was used once.
    The program ends in no other way than with code 1, its descriptors as they
    were when it started, because its socket could not be created or a datagram
    was not taken whole. *)
Theorem publisher_drops_exactly sendto payload_obj argv c k r a pool_data start es t m res m' :
  sim_market_parse argv = Parsed c -> c.(sm_drop_rate) = Some (fixed k r) ->
  (0 < k <= 6)%nat -> 0 <= r <= 10 ^ Z.of_nat k -> Forall (fun e => 1 <= e.(drop_draw) <= 10000) es ->
  Z.of_nat (length es) < 2 ^ 64 - 1 -> fresh a.(Udp.cr_socket) t ->
  publisher_main sendto payload_obj (publisher_args rate_text c) a pool_data start es t m = Some (res, m') ->
  match res with
  | Running p =>
      p.(pub).(dropped_total) =
        count_true (map (fun e => e.(drop_draw) * 10 ^ Z.of_nat k <=? r * 10000) es) /\
      p.(pub).(sent_total) + p.(pub).(dropped_total) + Z.of_nat (length p.(pub).(reorder_q)) = Z.of_nat (length es) /\
      (length p.(pub).(reorder_q) <= 1)%nat /\ p.(pub).(next_seq) = Z.of_nat (length es) + 1
  | Exited code p t' => code = 1 /\ t' = t /\ forall p', p = Some p' -> refused sendto p'.(pub)
  end.
Proof.
  intros Hc%sim_market_parse_ok Hd Hk Hr Hes Hn Hf H. unfold publisher_main in H.
  rewrite publisher_parse_args in H by done. unfold publisher_run in H.
  match type of H with context [pub_loop _ _ ?o] => set (opts := o) in * end.
  unfold Udp.create in H. cbn [Udp.UdpSocket_default Udp.bound_ Udp.fd_] in H.
  destruct (Z.ltb_spec (Udp.cr_socket a) 0) as [Hs|Hs].
  { injection H as <- _. unfold Udp.close. cbn [Udp.fd_]. by destruct (Z.leb_spec 0 (Udp.cr_socket a)); [lia|]. }
  cbn [negb] in H. apply bind_inv in H as (pool & m0 & _ & H). apply bind_inv in H as ([ok p] & m1 & E & H).
  apply (pub_loop_tallied _ _ _ _ 0 0) in E as [H1 H2]; [|split; cbn; lia|lia]. destruct ok.
  - injection H as <- _. destruct (H1 eq_refl) as [T1 T2 T3 T4 T5]. rewrite Z.add_0_l in *.
    rewrite T4. split_and!; [|lia|done|lia]. f_equal. apply map_ext_Forall. eapply Forall_impl; [exact Hes|].
    intros e He. cbn [tick_of MarketFeed.dropped opts pub_drop_rate]. rewrite Hd, rate_passed_on by done.
    assert (10 ^ Z.of_nat k <= 10 ^ 6) by (apply Z.pow_le_mono_r; lia). by apply draw_below_quotient; [| |lia|lia].
  - unfold Udp.close in H. cbn [Udp.fd_] in H. destruct (Z.leb_spec 0 (Udp.cr_socket a)); [|lia]. cbn in H.
    injection H as <- _. split; [done|]. split; [|by intros p' [= <-]; apply H2].
    destruct Hf as [Hf|Hf]; [lia|]. destruct (0 <=? _); by rewrite ?Tcp.delete_alter_eq, Tcp.delete_fresh.
Qed.

(** ** Witness: of three increments the second is dropped and the first sent *)
Definition demo_envs : list pub_env :=
  [mkPubEnv 200 9000 1 1; mkPubEnv 100 9000 2 2; mkPubEnv 101 9000 3 3].
Definition demo_program_mem : mem := alloc (alloc ∅ 1000 (replicate 40 0)) 4096 (replicate 64 0).

Definition demo_sends : list (list Z) -> list Z -> Z := fun _ bs => Z.of_nat (length bs).
Definition demo_publisher : option (pub_result * mem) :=
  publisher_main demo_sends 1000 (publisher_args rate_text demo_market_options) (Udp.mkCreate 3 2 0) 4096 0
    demo_envs ∅ demo_program_mem.

Lemma publisher_drops_exactly_witness :
  exists p m', demo_publisher = Some (Running p, m') /\
    p.(pub).(dropped_total) = 1 /\ p.(pub).(sent_total) = 1 /\ p.(pub).(next_seq) = 4.
Proof.
  assert (option_map (fun r => match r.1 with Running p => p.(pub).(sent_total) | _ => 0 end) demo_publisher =
    Some 1) as Hv by (vm_compute; reflexivity).
  destruct demo_publisher as [[res m']|] eqn:E; [|discriminate Hv]. destruct res as [p|]; [|discriminate Hv].
  destruct (publisher_drops_exactly demo_sends 1000 demo_market_argv demo_market_options
    2 1 (Udp.mkCreate 3 2 0) 4096 0 demo_envs ∅ demo_program_mem (Running p) m') as (H1 & H2 & H3 & H4).
  - vm_compute. reflexivity.
  - vm_compute. reflexivity.
  - lia.
  - cbn. lia.
  - repeat (constructor; [cbn; lia|]). constructor.
  - cbn. lia.
  - right. reflexivity.
  - exact E.
  - exists p, m'. split; [reflexivity|]. split; [exact H1|]. split; [|exact H4]. injection Hv as Hv. exact Hv.
Defined.
