(* ===== verification/FeedProgram.v ===== *)
(** * FeedProgram: the market-data subscriber's program
    (apps/market_udp/feed_subscriber.cpp, [main])

    The whole program: its options, its socket, the busy-poll loop around the
    batch receive, the trace and metrics lines, the final report and the summary
    file.  A round of the loop meets the signals, kernel answers and clock
    readings collected in a [round_env]; the program runs over the list of its
    rounds, [None] while it has not ended. *)
From S2P Require Import Prelude Memory Packet UdpFeedback Messages Fifo RingSlots PacketRing.
From S2P Require Import BatchIo BusyPoll IoStatus Tracer Percentile OrderGateway MarketFeed Sockets.
From S2P Require Import Endpoints Options Reports Simulation.
From Stdlib Require Strings.String.

Import String.StringSyntax.

(** ** The packet handler *)

(** What the handler changes: the statistics, the tracer, the time of the last
    report and the lines written to standard output. *)
Record feed := mkFeed { sub : subscriber; tracer : Tracer; last_report : Z; out : list text }.

(** The numbers reported of the statistics; undefined when a percentile is. *)
Definition subscriber_summary (id : Z) (s : subscriber) : option summary :=
  l50 ← percentile_us s.(latency_us_samples) p50;
  l99 ← percentile_us s.(latency_us_samples) p99;
  l999 ← percentile_us s.(latency_us_samples) p999;
  lmax ← percentile_us s.(latency_us_samples) p100;
  let f := s.(feedback) in
  Some (mkSummary id f.(UdpFeedback.total) f.(UdpFeedback.gaps) f.(UdpFeedback.reorder_events)
          f.(max_reorder_depth) l50 l99 l999 lmax).

Definition summary_fields (s : summary) : list field :=
  [ num (str "id") s.(s_id); num (str "recv_total") s.(s_recv_total); num (str "gaps") s.(s_gaps);
    num (str "reorder_events") s.(s_reorder_events);
    num (str "max_reorder_depth") s.(s_max_reorder_depth);
    num (str "latency_p50_us") s.(s_latency_p50); num (str "latency_p99_us") s.(s_latency_p99);
    num (str "latency_p999_us") s.(s_latency_p999); num (str "latency_max_us") s.(s_latency_max) ].

Definition metrics_line (s : summary) : text := line (str "[feed_subscriber][metrics]") (summary_fields s).
Definition final_line (s : summary) : text := line (str "[feed_subscriber][final]") (summary_fields s).

Definition print (t : text) (s : feed) : feed := mkFeed s.(sub) s.(tracer) s.(last_report) (s.(out) ++ [t]).

(** The trace of a received increment; [queue_depth] is the ring's size. *)
Definition trace_rx (m : MarketDataIncrement) (now_ns queue_depth latency : Z) (s : feed) : feed :=
  let '(lines, t) := emit (mkLine "feed_subscriber" "udp_rx" m.(Messages.seq) now_ns queue_depth latency) s.(tracer) in
  mkFeed s.(sub) t s.(last_report) (s.(out) ++ map trace_text lines).

(** [clock] gives the two readings: the one the latency is measured with, taken
    after the artificial delay, and the one that may print the metrics. *)
Definition on_packet (id : Z) (clock : nat -> Z * Z) (ring : PacketRing) (pkt : Packet) (k : nat) (s : feed)
    : M feed :=
  m ← decode_increment pkt;
  match m with
  | None => mret s
  | Some m =>
      let '(now_ns, now) := clock k in
      let s := mkFeed (record_increment m now_ns s.(sub)) s.(tracer) s.(last_report) s.(out) in
      let s := match latency_of m now_ns with
               | Some us => trace_rx m now_ns (PacketRing.size ring) us s
               | None => s
               end in
      if 1000000000 <=? now - s.(last_report) then
        r ← lift (subscriber_summary id s.(sub));
        mret (mkFeed s.(sub) s.(tracer) now (s.(out) ++ [metrics_line r]))
      else mret s
  end.

(** ** The polling loop *)
Record feed_program := mkProgram {
  feed_st : feed;
  ring : PacketRing;
  g_running : bool;
  poller_running : bool;
  poller : loop_state;
  config : BusyPollConfig;
}.

(** [signals i]: a signal arrives before the i-th load of [g_running] in the
    round: the loop's cancel test, the poll function's test, and the receive's tests
    before [recvmmsg], after an empty answer and of the result.  [answer] is what [recvmmsg] returns, [lens]
    the lengths of the messages. *)
Record round_env := mkEnv {
  signals : nat -> bool;
  answer : Z;
  lens : list Z;
  packet_clock : nat -> Z * Z;
  idle_clock : Z;
  reset_clock : Z;
}.

(** [g_running] at its i-th load. *)
Definition running_at (g : bool) (e : round_env) (i : nat) : bool :=
  g && negb (existsb e.(signals) (List.seq 0 (S i))).

Section Program.
(** The receiver's buffers, and more steps than a round can take packets. *)
Variable buffers : list ptr.
Variable fuel : nat.
Variable id : Z.

Definition loop_round (e : round_env) (p : feed_program) (has_data : bool) : round :=
  mkRound p.(poller_running) (running_at p.(g_running) e 0) 0 has_data e.(idle_clock) e.(reset_clock).

(** The idle callback ran: the interval is adjusted. *)
Definition after_idle (old new : loop_state) (c : BusyPollConfig) : BusyPollConfig :=
  if new.(idle_calls) =? old.(idle_calls) then c else adaptive_adjust new.(idle_count_) c.

(** A round that the loop does not end in: the poll function is called, then the
    poller accounts for its answer; its loads of [g_running] follow the loop's. *)
Definition poll_round (e : round_env) (p : feed_program) : M feed_program :=
  let g := p.(g_running) in
  r ← poll_function (on_packet id e.(packet_clock)) (fun i => running_at g e (S i)) (fun _ => e.(answer))
        (fun _ => 0) fuel buffers e.(lens) p.(ring) p.(feed_st);
  let '(o, ring, st) := r in
  let '(lp, _) := step p.(config) poll_control (loop_round e p o.(MarketFeed.has_data)) p.(poller) in
  mret (mkProgram st ring (running_at g e 4 && negb o.(MarketFeed.cleared))
          (p.(poller_running) && negb o.(MarketFeed.stopped)) lp (after_idle p.(poller) lp p.(config))).

(** The loop: the poller's state when it has ended. *)
Fixpoint poll_rounds (es : list round_env) (p : feed_program) : M (option feed_program) :=
  match es with
  | [] => mret None
  | e :: es =>
      let '(lp, go) := step p.(config) poll_control (loop_round e p false) p.(poller) in
      if negb go then
        mret (Some (mkProgram p.(feed_st) p.(ring) (running_at p.(g_running) e 0) false lp p.(config)))
      else p ← poll_round e p; poll_rounds es p
  end.
End Program.

(** [static_cast<int>] of a status. *)
Definition status_code (s : UnifiedIOStatus) : Z :=
  match s with
  | IoStatus.Ok => 0 | IoStatus.Timeout => 1 | IoStatus.Cancelled => 2 | IoStatus.WouldBlock => 3
  | IoStatus.NotInitialized => 4 | IoStatus.Stopped => 5 | IoStatus.SysError => 6
  end.

Definition stopped_line (r : BusyPollResult) : text :=
  str "[feed_subscriber] busy poll stopped with" ++
  fields_text [ num (str "status") (status_code (of_busy r).(IoStatus.status));
                num (str "iterations") r.(iterations); num (str "data_hits") r.(data_hits) ] ++ [newline].

(** What a run leaves: its exit code, its output, the contents of the summary file
    if it wrote one, and the open descriptors. *)
Record feed_exit := mkExit { code : Z; stdout : list text; summary_out : option text; fds : table }.

Definition listening_line : text := str "[feed_subscriber] listening on multicast 239.0.0.1:9100" ++ [newline].

Definition tracer_of (trace_every : Z) : Tracer :=
  Tracer_new (mkTraceConfig (0 <? trace_every) (u32 (Z.max 1 trace_every))).

Definition feed_init (o : subscriber_options) (start : Z) : feed_program :=
  mkProgram (mkFeed subscriber_init (tracer_of o.(sub_trace_every)) start [listening_line]) (PacketRing_new 64)
    true true (initial start 0) poll_cfg.

(** The report at the end; [good]: the summary file could be opened. *)
Definition final_report (o : subscriber_options) (good : bool) (p : feed_program) (t : table) : option feed_exit :=
  r ← subscriber_summary o.(Options.sub_id) p.(feed_st).(sub);
  Some (mkExit 0 (p.(feed_st).(out) ++ [stopped_line p.(poller).(result); final_line r])
          (if negb (bool_decide (o.(sub_summary_file) = [])) && good then Some (summary_text r) else None) t).

(** [main]: [None] inside while the loop runs on. *)
Definition subscriber_main (argv : list text) (a : multicast_answers) (start : Z) (buffers : list ptr)
    (fuel : nat) (es : list round_env) (good : bool) (t : table) : M (option feed_exit) :=
  match subscriber_parse argv with
  | Parsed o =>
      let '(fd, t) := create_and_join_multicast a t in
      if fd <? 0 then mret (Some (mkExit 1 [] None t)) else
      p ← poll_rounds buffers fuel o.(Options.sub_id) es (feed_init o start);
      match p with
      | None => mret None
      | Some p => r ← lift (final_report o good p (delete fd t)); mret (Some r)
      end
  | _ => lift None
  end.

(** ** The handler only adds output *)
Lemma on_packet_run id clock ring pkt k s m r m' :
  on_packet id clock ring pkt k s m = Some (r, m') ->
  process_packet pkt (clock k).1 s.(sub) m = Some (r.(sub), m').
Proof.
  unfold on_packet, process_packet. intros H. apply bind_inv in H as (d & m1 & Ed & H).
  eapply bind_run; [exact Ed|]. destruct d as [d|]; [|by injection H as <- <-].
  destruct (clock k) as [now_ns now]. cbn [fst].
  assert (exists s', match latency_of d now_ns with
    | Some us => trace_rx d now_ns (PacketRing.size ring) us (mkFeed (record_increment d now_ns (sub s)) (tracer s) (last_report s) (out s))
    | None => mkFeed (record_increment d now_ns (sub s)) (tracer s) (last_report s) (out s) end = s' /\
    s'.(sub) = record_increment d now_ns (sub s)) as (s' & Es & Hs).
  { eexists. split; [reflexivity|]. destruct (latency_of d now_ns); [|done]. unfold trace_rx.
    by destruct (emit _ _). }
  rewrite Es in H. rewrite <- Hs. destruct (1000000000 <=? _); [|by injection H as <- <-].
  apply bind_inv in H as (x & m2 & Ex & H). unfold lift in Ex.
  destruct (subscriber_summary id (sub s')); [|done]. injection Ex as -> ->. by injection H as <- <-.
Qed.

(** ** Every run reports nothing *)

Definition empty_summary (id : Z) : summary := mkSummary id 0 0 0 0 0 0 0 0.

(** A signal seen by one load is seen by the later ones. *)
Lemma running_at_mono g e i j : (i <= j)%nat -> running_at g e j = true -> running_at g e i = true.
Proof.
  intros Hij. unfold running_at. destruct g; [|done]. cbn [andb]. rewrite !negb_true_iff.
  intros Hj. destruct (existsb _ (List.seq 0 (S i))) eqn:E; [|done].
  apply existsb_exists in E as (k & Hk & Ek). apply in_seq in Hk.
  assert (existsb (signals e) (List.seq 0 (S j)) = true) as H; [|by rewrite H in Hj].
  apply existsb_exists. exists k. split; [apply in_seq; lia|done].
Qed.

(** A round goes on when it is neither stopped nor cancelled: the poller's control
    has no timeout. *)
Lemma step_goes cfg r lp :
  running r = true -> cancel r = false ->
  exists lp', step cfg poll_control r lp = (lp', true) /\
    iterations (result lp') = u64 (iterations (result lp) + 1) /\
    data_hits (result lp') = (if BusyPoll.has_data r then u64 (data_hits (result lp) + 1) else data_hits (result lp)).
Proof.
  intros Hr Hc. pose proof (step_continues cfg poll_control r lp) as H.
  destruct (step cfg poll_control r lp) as [lp' go] eqn:E. exists lp'.
  assert (go = true) as ->. { apply H. split; [done|]. split; [done|]. cbn. lia. }
  split; [done|]. by apply (step_counts cfg poll_control).
Qed.

Lemma step_ends cfg r lp :
  running r = false \/ cancel r = true ->
  exists lp', step cfg poll_control r lp = (lp', false) /\
    result lp' = BusyPoll.mkResult (iterations (result lp)) (data_hits (result lp))
                   (if running r then BusyPoll.Cancelled else BusyPoll.Stopped).
Proof.
  intros H. unfold step. destruct (running r); cbn [negb].
  - destruct H as [|Hc]; [done|]. cbn [poll_control BusyPoll.has_flag andb]. rewrite Hc. eexists. by split.
  - eexists. by split.
Qed.

(** The loop ends in its first or second round, with nothing received. *)
Lemma poll_rounds_end buffers fuel id e1 e2 es o start m :
  exists p, poll_rounds buffers fuel id (e1 :: e2 :: es) (feed_init o start) m = Some (Some p, m) /\
    p.(feed_st) = (feed_init o start).(feed_st) /\
    (p.(poller).(result) = BusyPoll.mkResult 0 0 BusyPoll.Cancelled \/
     p.(poller).(result) = BusyPoll.mkResult 1 0 BusyPoll.Stopped).
Proof.
  set (p0 := feed_init o start). cbn [poll_rounds]. destruct (running_at true e1 0) eqn:E0.
  { destruct (step_ends p0.(config) (loop_round e1 p0 false) p0.(poller)) as (lp & -> & Er); [by right|].
    eexists. split; [reflexivity|]. split; [done|]. left. exact Er. }
  assert (running_at true e1 1 = false) as E1.
  { destruct (running_at true e1 1) eqn:E; [|done]. apply (running_at_mono _ _ 0) in E; [congruence|lia]. }
  destruct (step_goes p0.(config) (loop_round e1 p0 false) p0.(poller)) as (lp & Es & Ei & Ed); [done|exact E0|].
  rewrite Es. cbn [negb]. set (p1 := mkProgram p0.(feed_st) p0.(ring) (running_at true e1 4 && true) false lp
    (after_idle p0.(poller) lp p0.(config))).
  assert (poll_round buffers fuel id e1 p0 m = Some (p1, m)) as Ep.
  { unfold poll_round, poll_function. cbn [g_running p0 feed_init]. rewrite E1. cbn [negb].
    eapply bind_run; [reflexivity|]. cbv beta iota. cbn [MarketFeed.has_data]. fold p0. by rewrite Es. }
  destruct (step_ends p1.(config) (loop_round e2 p1 false) p1.(poller)) as (lp' & Es' & Er'); [by left|].
  eexists. split; [eapply bind_run; [exact Ep|]; cbn [poll_rounds]; rewrite Es'; reflexivity|].
  split; [done|]. right. cbn [poller]. rewrite Er'. cbn [running loop_round p1 poller_running poller].
  cbn [loop_round BusyPoll.has_data] in Ed. rewrite Ei, Ed. reflexivity.
Qed.

Lemma subscriber_run_zero argv o a start buffers fuel e1 e2 es good t m :
  subscriber_parse argv = Parsed o -> fresh a.(mc_socket) t -> 0 <= (create_and_join_multicast a t).1 ->
  exists x r, subscriber_main argv a start buffers fuel (e1 :: e2 :: es) good t m = Some (Some x, m) /\
    x.(code) = 0 /\
    x.(stdout) = [listening_line; stopped_line r; final_line (empty_summary o.(Options.sub_id))] /\
    (r = BusyPoll.mkResult 0 0 BusyPoll.Cancelled \/ r = BusyPoll.mkResult 1 0 BusyPoll.Stopped) /\
    x.(summary_out) = (if negb (bool_decide (o.(sub_summary_file) = [])) && good
                       then Some (summary_text (empty_summary o.(Options.sub_id))) else None) /\
    forall d, is_Some (x.(fds) !! d) <-> is_Some (t !! d).
Proof.
  intros Ho Hf Hfd.
  destruct (multicast_opens a t Hf) as [(Ea & H0 & Ht)|[Ea _]]; [|lia].
  destruct (create_and_join_multicast a t) as [fd t'] eqn:Em. cbn [fst snd] in *. subst fd.
  destruct (poll_rounds_end buffers fuel o.(Options.sub_id) e1 e2 es o start m) as (p & Ep & Est & Er).
  set (x := mkExit 0 [listening_line; stopped_line p.(poller).(result); final_line (empty_summary o.(Options.sub_id))]
    (if negb (bool_decide (o.(sub_summary_file) = [])) && good
     then Some (summary_text (empty_summary o.(Options.sub_id))) else None) (delete (mc_socket a) t')).
  assert (final_report o good p (delete (mc_socket a) t') = Some x) as Ex.
  { unfold final_report. rewrite Est. reflexivity. }
  exists x, p.(poller).(result). split.
  { unfold subscriber_main. rewrite Ho, Em. destruct (Z.ltb_spec (mc_socket a) 0); [lia|].
    eapply bind_run; [exact Ep|]. cbv beta iota. eapply bind_run; [unfold lift; by rewrite Ex|]. reflexivity. }
  split_and!; [done..|exact Er|done|]. cbn [fds x].
  intros d. destruct Hf as [Hf|Hf]; [lia|]. destruct (decide (d = mc_socket a)) as [->|Hne].
  - rewrite lookup_delete_eq, Hf. done.
  - rewrite lookup_delete_ne, Ht by done. by split; [intros [|]|right].
Qed.

(** C19: The subscriber never reports anything.  The poll loop is given [g_running],
    true while the program runs, as its cancel flag, so whatever datagrams
    arrive and whenever a signal does, the loop ends before the first packet is
    handled: with its socket open the program exits with code 0 after at most
    one iteration, all its totals and latencies are 0 in the final line and in
    the summary file, and the descriptors are those it was started with. *)
Theorem subscriber_reports_zero argv o a start buffers fuel e1 e2 es good t m :
  subscriber_parse argv = Parsed o -> fresh a.(mc_socket) t -> 0 <= (create_and_join_multicast a t).1 ->
  exists x r, subscriber_main argv a start buffers fuel (e1 :: e2 :: es) good t m = Some (Some x, m) /\
    x.(code) = 0 /\
    x.(stdout) = [listening_line; stopped_line r; final_line (empty_summary o.(Options.sub_id))] /\
    (r = BusyPoll.mkResult 0 0 BusyPoll.Cancelled \/ r = BusyPoll.mkResult 1 0 BusyPoll.Stopped) /\
    x.(summary_out) = (if negb (bool_decide (o.(sub_summary_file) = [])) && good
                       then Some (summary_text (empty_summary o.(Options.sub_id))) else None) /\
    forall d, is_Some (x.(fds) !! d) <-> is_Some (t !! d).
Proof. apply subscriber_run_zero. Qed.

(** *** The whole simulation *)

(** A run of the subscriber with these arguments, to its end, left [file] as its
    summary. *)
Definition leaves_summary (argv : list text) (file : text) : Prop :=
  exists a start buffers fuel e1 e2 es good t m x m',
    fresh a.(mc_socket) t /\
    subscriber_main argv a start buffers fuel (e1 :: e2 :: es) good t m = Some (Some x, m') /\
    x.(summary_out) = Some file.

Lemma leaves_empty argv o file : subscriber_parse argv = Parsed o -> leaves_summary argv file ->
  file = summary_text (empty_summary o.(Options.sub_id)).
Proof.
  intros Ho (a & start & buffers & fuel & e1 & e2 & es & good & t & m & x & m' & Hf & E & Ex).
  destruct (Z.lt_ge_cases (create_and_join_multicast a t).1 0) as [Hfd|Hfd].
  - unfold subscriber_main in E. rewrite Ho in E. destruct (create_and_join_multicast a t) as [fd t'].
    cbn [fst] in Hfd. destruct (Z.ltb_spec fd 0); [|lia]. injection E as <- <-. done.
  - destruct (subscriber_run_zero argv o a start buffers fuel e1 e2 es good t m Ho Hf Hfd)
      as (x' & r & E' & _ & _ & _ & Es & _). rewrite E in E'. injection E' as <- <-. rewrite Ex in Es.
    destruct (_ && good); [|done]. by injection Es as ->.
Qed.

Lemma read_empty id : 0 <= id <= INT_MAX -> read_summary (summary_text (empty_summary id)) = Some (mkReport id 0 0 0 0).
Proof. intros H. apply read_summary_text. split; [done|]. repeat (constructor; [cbn; lia|]). constructor. Qed.

(** Collecting empty summaries: the id of the last one read is kept. *)
Lemma collect_empty runs i w :
  0 <= i -> i + Z.of_nat (length runs) <= INT_MAX + 1 ->
  (forall k f, runs !! k = Some (Some f) -> f = summary_text (empty_summary (i + Z.of_nat k))) ->
  exists w', collect runs (mkTotals 0 0 0 0 w) = Some (mkTotals 0 0 0 0 w') /\
    (forall k f, runs !! k = Some (Some f) -> i + Z.of_nat k <= w') /\
    ((w' = w /\ forall k f, runs !! k <> Some (Some f)) \/
     exists k f, w' = i + Z.of_nat k /\ runs !! k = Some (Some f)).
Proof.
  revert i w. induction runs as [|r runs IH]; intros i w Hi Hl Hr.
  { exists w. split; [done|]. split; [intros k f Hk; by rewrite lookup_nil in Hk|].
    left. split; [done|]. intros k f. by rewrite lookup_nil. }
  cbn [length] in Hl. assert (forall w0, exists w', collect runs (mkTotals 0 0 0 0 w0) = Some (mkTotals 0 0 0 0 w') /\
    (forall k f, runs !! k = Some (Some f) -> i + Z.of_nat (S k) <= w') /\
    ((w' = w0 /\ forall k f, runs !! k <> Some (Some f)) \/
     exists k f, w' = i + Z.of_nat (S k) /\ runs !! k = Some (Some f))) as IHr.
  { intros w0. destruct (IH (i + 1) w0 ltac:(lia) ltac:(lia)) as (w' & E & H1 & H2).
    - intros k f Hk. rewrite (Hr (S k) f Hk). do 2 f_equal. lia.
    - exists w'. split; [done|]. split; [intros k f Hk; specialize (H1 k f Hk); lia|].
      destruct H2 as [H2|(k & f & E2 & Hk)]; [by left|right]. exists k, f. split; [lia|done]. }
  destruct r as [f0|]; cbn [collect].
  - assert (read_summary f0 = Some (mkReport i 0 0 0 0)) as ->.
    { rewrite (Hr O f0 eq_refl), Z.add_0_r. apply read_empty. lia. }
    destruct (IHr i) as (w' & E & H1 & H2). exists w'. split; [exact E|]. split.
    + intros [|k] f Hk; [|by apply (H1 k f)]. destruct H2 as [[-> _]|(k & g & -> & _)]; lia.
    + right. destruct H2 as [[-> _]|(k & g & -> & Hk)]; [exists O, f0; split; [lia|done]|by exists (S k), g].
  - destruct (IHr w) as (w' & E & H1 & H2). exists w'. split; [exact E|]. split.
    + intros [|k] f Hk; [discriminate Hk|]. by apply (H1 k f).
    + destruct H2 as [[-> Hn]|(k & g & -> & Hk)]; [left; split; [done|]|right; by exists (S k), g].
      intros [|k] f; [discriminate|]. apply Hn.
Qed.

(** C18: The market simulation always reports nothing.  Each subscriber the driver
    starts runs with the arguments the driver gives it, to its end, in any
    environment, and the driver can open some of the summary files they leave:
    then all its totals and its worst latency are 0, and the worst subscriber is
    the last one whose file could be opened. *)
Theorem market_run_reports_zero argv c getpid files :
  sim_market_parse argv = Parsed c -> length files = Z.to_nat c.(sm_subscribers) ->
  (forall i f, files !! i = Some (Some f) ->
     exists slow, is_slow c.(sm_subscribers) c.(sm_slow_subscriber_ratio) (Z.of_nat i) = Some slow /\
       leaves_summary (subscriber_args (Z.of_nat i) slow (summary_file getpid (Z.of_nat i))) f) ->
  exists worst_id, collect_all files = Some (mkTotals 0 0 0 0 worst_id) /\
    (forall i f, files !! i = Some (Some f) -> Z.of_nat i <= worst_id) /\
    ((worst_id = -1 /\ forall i f, files !! i <> Some (Some f)) \/
     exists i f, worst_id = Z.of_nat i /\ files !! i = Some (Some f)).
Proof.
  intros Hc Hl Hf. apply sim_market_parse_ok in Hc as (_ & _ & _ & Hn & _).
  apply (collect_empty files 0 (-1)); [lia|lia|]. intros k f Hk. rewrite Z.add_0_l.
  apply lookup_lt_Some in Hk as Hlt. assert (0 <= Z.of_nat k <= INT_MAX) as Hr by lia.
  destruct (Hf k f Hk) as (slow & _ & Hs). exact (leaves_empty _ _ _ (subscriber_parse_args _ _ _ Hr) Hs).
Qed.

(** ** Witnesses *)
Definition demo_answers : multicast_answers := mkMulticast 3 0 0 0 2 0.
Definition demo_env : round_env := mkEnv (fun _ => false) 16 (replicate 16 48) (fun _ => (5, 5)) 0 0.
Definition late_env : round_env := mkEnv (fun i => (i =? 0)%nat) 16 (replicate 16 48) (fun _ => (5, 5)) 0 0.
Definition demo_sub_args : list text := subscriber_args 0 false (str "/tmp/s").

Lemma subscriber_reports_zero_witness :
  exists x, subscriber_main demo_sub_args demo_answers 0 [4096] 1 [late_env; demo_env] true ∅ ∅ = Some (Some x, ∅) /\
    x.(summary_out) = Some (summary_text (empty_summary 0)) /\ x.(fds) !! 3 = None.
Proof.
  destruct (subscriber_reports_zero demo_sub_args (mkSubscriberOptions 0 0 (str "/tmp/s") 0) demo_answers 0
    [4096] 0 late_env demo_env [] true ∅ ∅) as (x & r & E & _ & _ & _ & Es & Ht).
  - vm_compute. reflexivity.
  - right. reflexivity.
  - vm_compute. discriminate.
  - assert (subscriber_main demo_sub_args demo_answers 0 [4096] 1 [late_env; demo_env] true ∅ ∅ = Some (Some x, ∅)) as E'.
    { rewrite <- E. vm_compute. reflexivity. }
    exists x. split; [exact E'|]. split; [exact Es|].
    destruct (fds x !! 3) eqn:Hx; [|reflexivity]. exfalso.
    assert (is_Some (fds x !! 3)) as Hs by (exists a; exact Hx). apply Ht in Hs as [y Hy]. discriminate Hy.
Defined.

(** Two subscribers of which the second's file cannot be opened. *)
Lemma market_run_reports_zero_witness :
  leaves_summary (subscriber_args 0 false (summary_file 9 0)) (summary_text (empty_summary 0)) /\
  exists w, collect_all [Some (summary_text (empty_summary 0)); None] = Some (mkTotals 0 0 0 0 w) /\ 0 <= w.
Proof.
  assert (leaves_summary (subscriber_args 0 false (summary_file 9 0)) (summary_text (empty_summary 0))) as Hs.
  { exists demo_answers, 0, [], 1%nat, demo_env, demo_env, [], true, ∅, ∅. do 2 eexists.
    split; [right; reflexivity|]. split; [vm_compute; reflexivity|vm_compute; reflexivity]. }
  split; [exact Hs|].
  destruct (market_run_reports_zero [str "--subscribers"; str "2"] (mkSimMarketOptions 10 2 36 2 1 0 0 None None) 9
    [Some (summary_text (empty_summary 0)); None]) as (w & E & H & _).
  - vm_compute. reflexivity.
  - reflexivity.
  - intros [|[|i]] f Hf; [|discriminate Hf|discriminate Hf]. injection Hf as <-. exists false. split; [reflexivity|exact Hs].
  - exists w. split; [exact E|]. exact (H 0%nat _ eq_refl).
Defined.
