(* ===== verification/ClientProgram.v ===== *)
(** * ClientProgram: the order client's program
    (apps/order_tcp/order_client.cpp, [main])

    The whole program around the request loop of OrderClient: the options, the
    connection and its periodic renewal, the keepalive, the bursts, the trace and
    metrics lines, the final report and the exit.  A pass of the outer loop and a
    request of a burst meet the signals, kernel answers and clock readings (in
    nanoseconds) of a [pass_env] and a [request_env]; the program runs over the
    list of its passes. *)
From S2P Require Import Prelude Memory TcpProtocol TcpStateMachine MemoryPool.
From S2P Require Import TcpRetransmission TcpCongestion Messages Tracer Doubles Percentile OrderGateway OrderClient.
From S2P Require Import Sockets Endpoints Options Reports.
From Stdlib Require Strings.String.

Import String.StringSyntax.

(** The client, its descriptor and state, the round-trip samples, the clocks the
    program keeps, and its output; [fds] is the kernel's descriptor table. *)
Record program := mkProgram {
  cl : client;
  fd : Z;
  cstate : ClientState;
  fds : table;
  rtt_us_samples : list Z;
  rtt_new : list Z;
  rtt_cancel : list Z;
  rtt_replace : list Z;
  last_activity : Z;
  last_disconnect : Z;
  last_report : Z;
  tracer : Tracer;
  out : list text;
}.

Definition with_client (c : client) (p : program) : program :=
  mkProgram c p.(fd) p.(cstate) p.(fds) p.(rtt_us_samples) p.(rtt_new) p.(rtt_cancel) p.(rtt_replace)
    p.(last_activity) p.(last_disconnect) p.(last_report) p.(tracer) p.(out).
Definition with_socket (d : Z) (s : ClientState) (t : table) (p : program) : program :=
  mkProgram p.(cl) d s t p.(rtt_us_samples) p.(rtt_new) p.(rtt_cancel) p.(rtt_replace)
    p.(last_activity) p.(last_disconnect) p.(last_report) p.(tracer) p.(out).
Definition with_clocks (activity disconnect report : Z) (p : program) : program :=
  mkProgram p.(cl) p.(fd) p.(cstate) p.(fds) p.(rtt_us_samples) p.(rtt_new) p.(rtt_cancel) p.(rtt_replace)
    activity disconnect report p.(tracer) p.(out).
Definition with_output (tr : Tracer) (lines : list text) (p : program) : program :=
  mkProgram p.(cl) p.(fd) p.(cstate) p.(fds) p.(rtt_us_samples) p.(rtt_new) p.(rtt_cancel) p.(rtt_replace)
    p.(last_activity) p.(last_disconnect) p.(last_report) tr (p.(out) ++ lines).

Definition active_now (now : Z) (p : program) : program :=
  with_clocks now p.(last_disconnect) p.(last_report) p.
Definition print (t : text) (p : program) : program := with_output p.(tracer) [t] p.

(** A signal clears [g_running]. *)
Definition on_signal (b : bool) (p : program) : program :=
  if b then with_client (stop p.(cl)) p else p.

Definition running (p : program) : bool := p.(cl).(g_running).

(** ** Output *)
Definition state_name (s : ClientState) : text :=
  match s with
  | CONNECTING => str "CONNECTING" | ACTIVE => str "ACTIVE" | RETRYING => str "RETRYING"
  | STOPPED => str "STOPPED"
  end.

Definition state_line (s : ClientState) : text :=
  str "[order_client][state] " ++ state_name s ++ [newline].

(** The fields the metrics and the final line share. *)
Definition totals_fields (c : client) : list field :=
  [ num (str "req_sent_total") (c.(totals) req_sent_total);
    num (str "ack_recv_total") (c.(totals) ack_recv_total);
    num (str "ack_timeout_total") (c.(totals) ack_timeout_total);
    num (str "reconnect_total") (c.(totals) reconnect_total);
    num (str "send_blocked_total") (c.(totals) send_blocked_total);
    num (str "retransmit_total") (c.(totals) retransmit_total);
    num (str "retransmit_failed_total") (c.(totals) retransmit_failed_total);
    num (str "retransmit_drop_total") (c.(totals) retransmit_drop_total);
    num (str "cwnd_blocked_total") (c.(totals) cwnd_blocked_total);
    num (str "congestion_loss_total") (c.(totals) congestion_loss_total);
    num (str "cwnd_bytes") (cwnd_bytes_ c.(cc));
    num (str "ssthresh_bytes") (ssthresh_bytes_ c.(cc));
    num (str "rto_ms") c.(rto_estimator).(rto_ms_);
    num (str "keepalive_sent_total") (c.(totals) keepalive_sent_total) ].

(** A percentile of the samples as a field; undefined when the percentile is. *)
Definition percentile_field (key : text) (samples : list Z) (q : double) : option field :=
  num key <$> percentile_us samples q.

Definition rtt_fields (p : program) : option (list field) :=
  mapM (fun x => x)
    [ percentile_field (str "rtt_p50_us") p.(rtt_us_samples) p50;
      percentile_field (str "rtt_p99_us") p.(rtt_us_samples) p99;
      percentile_field (str "rtt_p999_us") p.(rtt_us_samples) p999 ].

Definition action_fields (p : program) : option (list field) :=
  mapM (fun x => x)
    [ percentile_field (str "rtt_new_p99_us") p.(rtt_new) p99;
      percentile_field (str "rtt_cancel_p99_us") p.(rtt_cancel) p99;
      percentile_field (str "rtt_replace_p99_us") p.(rtt_replace) p99 ].

Definition metrics_line (p : program) : option text :=
  rtt ← rtt_fields p;
  act ← action_fields p;
  Some (line (str "[order_client][metrics]")
    (totals_fields p.(cl) ++
     [ num (str "new_total") (p.(cl).(totals) new_total);
       num (str "cancel_total") (p.(cl).(totals) cancel_total);
       num (str "replace_total") (p.(cl).(totals) replace_total) ] ++ rtt ++ act)).

Definition final_line (p : program) : option text :=
  rtt ← rtt_fields p;
  Some (line (str "[order_client][final]") (totals_fields p.(cl) ++ rtt)).

(** One call of [Tracer::emit]. *)
Definition trace (l : trace_line) (p : program) : program :=
  let '(lines, t) := emit l p.(tracer) in with_output t (map trace_text lines) p.

(** ** A request of a burst *)

(** [pct] is the random percentage, [ts] the timestamp of the request, [track_ms]
    the clock its segment is tracked with; [interrupted]: a signal arrives between
    the read of the answer and the next test of [g_running]. *)
Record request_env := mkRequest {
  pct : Z; ts : Z; track_ms : Z; sent_clock : Z; events : list read_event; interrupted : bool;
  rtt_us : Z; ack_ns : Z; ack_clock : Z; report_clock : Z }.

Inductive flow : Type := Next | Break | Waiting.

Section Program.
Variable write_to : list (Z * list Z) -> Z -> list Z -> Z.
Variable req_obj ack_buf : ptr.
Variable req_pad : list Z.
Variable begin_key : gmap Z OrderRequest -> Z.
Variable opts : client_options.

Definition segments (c : client) : Z := Z.of_nat (base.size c.(outstanding_segments)).

(** The samples of an answered request. *)
Definition record_rtt (req : OrderRequest) (us : Z) (p : program) : program :=
  let acts a := req.(action) =? a in
  mkProgram p.(cl) p.(fd) p.(cstate) p.(fds) (p.(rtt_us_samples) ++ [us])
    (if acts New then p.(rtt_new) ++ [us] else p.(rtt_new))
    (if acts New then p.(rtt_cancel) else if acts Cancel then p.(rtt_cancel) ++ [us] else p.(rtt_cancel))
    (if acts New then p.(rtt_replace) else if acts Cancel then p.(rtt_replace) else p.(rtt_replace) ++ [us])
    p.(last_activity) p.(last_disconnect) p.(last_report) p.(tracer) p.(out).

(** The metrics, at most once a second. *)
Definition report (now : Z) (p : program) : option program :=
  if 1000000000 <=? now - p.(last_report) then
    t ← metrics_line p;
    Some (with_clocks p.(last_activity) p.(last_disconnect) now (print t p))
  else Some p.

Definition answered (req : OrderRequest) (e : request_env) (p : program) : option program :=
  let p := record_rtt req e.(rtt_us) p in
  let p := trace (mkLine "order_client" "tcp_rx_ack" req.(client_order_id) e.(ack_ns) (segments p.(cl)) e.(rtt_us)) p in
  report e.(report_clock) (active_now e.(ack_clock) p).

(** The wait for the answer and what follows it. *)
Definition await_answer (req : OrderRequest) (e : request_env) (c : client) (p : program) : M (flow * program) :=
  match wait_ack write_to p.(fd) e.(events) c with
  | (StillWaiting, c) => mret (Waiting, with_client c p)
  | (Ended, c) => mret (Break, with_client c p)
  | (Received bs, c) =>
      if e.(interrupted) then mret (Break, with_client (stop c) p) else
      c ← process_ack ack_buf req bs e.(rtt_us) c;
      let p := with_client c p in
      if negb c.(g_running) then mret (Break, p) else
      p ← lift (answered req e p);
      mret (Next, p)
  end.

(** One iteration of the burst loop, between its tests of [g_running]. *)
Definition request (e : request_env) (p : program) : M (flow * program) :=
  let '(req, c) := build_request begin_key e.(pct) opts.(cl_cancel_ratio) opts.(cl_replace_ratio) e.(ts) p.(cl) in
  match blocked_by c with
  | Some k => mret (Next, with_client (bump k c) p)
  | None =>
      c ← transmit write_to req_obj req_pad p.(fd) req e.(track_ms) c;
      if negb c.(g_running) then mret (Break, with_client c p) else
      let p := trace (mkLine "order_client" "tcp_tx_order" req.(client_order_id) e.(ts) (segments p.(cl)) 0) p in
      let p := active_now e.(sent_clock) p in
      await_answer req e c p
  end.

(** The burst: [n] requests unless [g_running] is cleared; each environment comes
    with whether a signal arrives before the loop's test.  The loop is over
    ([Next]) or still waiting. *)
Fixpoint burst (n : nat) (es : list (bool * request_env)) (p : program) : M (flow * program) :=
  match n with
  | O => mret (Next, p)
  | S n =>
      match es with
      | [] => mret (Waiting, p)
      | (signal, e) :: es =>
          let p := on_signal signal p in
          if negb (running p) then mret (Next, p) else
          r ← request e p;
          let '(f, p) := r in
          match f with
          | Next => burst n es p
          | Break => mret (Next, p)
          | Waiting => mret (Waiting, p)
          end
      end
  end.

(** ** A pass of the outer loop *)
Record pass_env := mkPass {
  signal : bool; disconnect_clock : Z; answers : Tcp.connect_answers; reconnected_clock : Z;
  keepalive_clock : Z; keepalive_sent_clock : Z; requests : list (bool * request_env) }.

(** The periodic reconnect: whether the pass goes on. *)
Definition renew (e : pass_env) (p : program) : bool * program :=
  if (0 <? opts.(cl_disconnect_interval_s)) &&
     (opts.(cl_disconnect_interval_s) * 1000000000 <=? e.(disconnect_clock) - p.(last_disconnect)) then
    let t := delete p.(fd) p.(fds) in
    let p := print (state_line RETRYING) p in
    let '(new_fd, t) := connect_to_gateway opts.(cl_timeout_ms) e.(answers) t in
    let '(s, c) := reconnect new_fd p.(cl) in
    let p := with_socket new_fd s t (with_client c p) in
    if new_fd <? 0 then (false, p)
    else (true, with_clocks p.(last_activity) e.(reconnected_clock) p.(last_report) (print (state_line ACTIVE) p))
  else (true, p).

Definition to_ms (ns : Z) : Z := u64 (Z.quot ns 1000000).

Definition send_keepalive (e : pass_env) (p : program) : M program :=
  r ← keepalive write_to p.(fd) (to_ms e.(keepalive_clock)) (to_ms p.(last_activity)) p.(cl);
  let '(full, c) := r in
  let p := with_client c p in
  mret (if (full : bool) then active_now e.(keepalive_sent_clock) p else p).

Definition pass (e : pass_env) (p : program) : M (flow * program) :=
  let '(go, p) := renew e p in
  if negb go then mret (Next, p) else
  p ← send_keepalive e p;
  burst (Z.to_nat opts.(cl_burst)) e.(requests) p.

(** The outer loop; [None] while it runs on. *)
Fixpoint passes (es : list pass_env) (p : program) : M (option program) :=
  match es with
  | [] => mret None
  | e :: es =>
      let p := on_signal e.(signal) p in
      if negb (running p) then mret (Some p) else
      r ← pass e p;
      let '(f, p) := r in
      match f with
      | Waiting => mret None
      | _ => passes es p
      end
  end.

(** ** The program *)
Record client_exit := mkExit { code : Z; stdout : list text; written : list (Z * list Z); open_fds : table }.

(** The final report, the teardown and the exit. *)
Definition finish (reads : list (list Z)) (p : program) : M client_exit :=
  t ← lift (final_line p);
  let p := print t p in
  c ← teardown write_to ack_buf p.(fd) p.(cstate) reads p.(cl);
  mret (mkExit 0 (p.(out) ++ [state_line STOPPED]) c.(sent) (delete p.(fd) p.(fds))).

Definition connected_line : text :=
  str "[order_client] connected to " ++ opts.(cl_gateway_ip) ++ str ":9000" ++ [newline].

Definition program_init (pool : Pool.MemoryPool) (d : Z) (t : table) (now : Z) : program :=
  mkProgram (client_init pool) d ACTIVE t [] [] [] [] now now now
    (Tracer_new (mkTraceConfig (0 <? opts.(cl_trace_every)) (u32 (Z.max 1 opts.(cl_trace_every)))))
    [state_line CONNECTING; state_line ACTIVE; connected_line].

(** [main] after its options; the inner [None]: it runs on. *)
Definition client_run (a : Tcp.connect_answers) (pool : Pool.MemoryPool) (now : Z) (es : list pass_env)
    (reads : list (list Z)) (t : table) : M (option client_exit) :=
  let '(d, t) := connect_to_gateway opts.(cl_timeout_ms) a t in
  if d <? 0 then mret (Some (mkExit 1 [state_line CONNECTING; state_line STOPPED] [] t)) else
  _ ← lift (burst_interval opts);
  p ← passes es (program_init pool d t now);
  match p with
  | None => mret None
  | Some p => x ← finish reads p; mret (Some x)
  end.
End Program.

Definition client_main write_to req_obj ack_buf req_pad begin_key (argv : list text)
    (a : Tcp.connect_answers) (pool : Pool.MemoryPool) (now : Z) (es : list pass_env)
    (reads : list (list Z)) (t : table) : M (option client_exit) :=
  match client_parse argv with
  | Parsed o => client_run write_to req_obj ack_buf req_pad begin_key o a pool now es reads t
  | _ => lift None
  end.

(** ** The books of the requests *)

(** The counters of what becomes of a request. *)
Definition request_counters : list counter :=
  [req_sent_total; ack_recv_total; send_blocked_total; cwnd_blocked_total; new_total; cancel_total; replace_total].

Definition books (c : client) : Z * list Z := (c.(order_id), map c.(totals) request_counters).

Lemma books_add k n c : k ∉ request_counters -> books (add_total k n c) = books c.
Proof. intros H. unfold books. destruct k; try reflexivity; exfalso; apply H; set_solver. Qed.

Ltac other_counter := apply (bool_decide_unpack _); by vm_compute.

(** Requests numbered so far, those that failed to be sent, and those sent but not
    answered. *)
Record accounts (n failed open : Z) (p : program) : Prop := {
  ac_requests : p.(cl).(order_id) = 1 + n;
  ac_nonneg : forall k, k ∈ request_counters -> 0 <= p.(cl).(totals) k;
  ac_sent : n = p.(cl).(totals) send_blocked_total + p.(cl).(totals) cwnd_blocked_total +
                p.(cl).(totals) req_sent_total + failed;
  ac_answered : p.(cl).(totals) req_sent_total = p.(cl).(totals) ack_recv_total + open;
  ac_actions : p.(cl).(totals) ack_recv_total =
                 p.(cl).(totals) new_total + p.(cl).(totals) cancel_total + p.(cl).(totals) replace_total;
  ac_samples : Z.of_nat (length p.(rtt_us_samples)) = p.(cl).(totals) ack_recv_total /\
               Z.of_nat (length p.(rtt_new)) = p.(cl).(totals) new_total /\
               Z.of_nat (length p.(rtt_cancel)) = p.(cl).(totals) cancel_total /\
               Z.of_nat (length p.(rtt_replace)) = p.(cl).(totals) replace_total;
  ac_range : 0 <= n /\ 0 <= failed /\ 0 <= open /\ failed + open <= 1;
}.

(** The parts of a program that the accounts read. *)
Definition ledger (p : program) :=
  (books p.(cl), length p.(rtt_us_samples), length p.(rtt_new), length p.(rtt_cancel), length p.(rtt_replace)).

Lemma ledger_eq p q : books q.(cl) = books p.(cl) ->
  (q.(rtt_us_samples), q.(rtt_new), q.(rtt_cancel), q.(rtt_replace)) =
  (p.(rtt_us_samples), p.(rtt_new), p.(rtt_cancel), p.(rtt_replace)) -> ledger q = ledger p.
Proof. unfold ledger. intros -> [= -> -> -> ->]. done. Qed.

Lemma accounts_ledger n f o p p' : ledger p' = ledger p -> accounts n f o p -> accounts n f o p'.
Proof.
  unfold ledger, books. cbn [map request_counters]. intros E [H1 H2 H3 H4 H5 H6 H7].
  injection E as E1 E2 E3 E4 E5 E6 E7 E8 L1 L2 L3 L4.
  split; rewrite ?E1, ?E2, ?E3, ?E4, ?E5, ?E6, ?E7, ?E8, ?L1, ?L2, ?L3, ?L4; try done.
  intros k Hk. assert (totals (cl p') k = totals (cl p) k) as ->; [|by apply H2].
  unfold request_counters in Hk. rewrite !elem_of_cons, elem_of_nil in Hk.
  by destruct Hk as [->|[->|[->|[->|[->|[->|[->|[]]]]]]]].
Qed.

Lemma ac_bound n f o p k : accounts n f o p -> k ∈ request_counters -> 0 <= p.(cl).(totals) k <= n.
Proof.
  intros [_ Hn Hs Ha Hx _ Hr] Hk. split; [by apply Hn|].
  assert (Forall (fun k => 0 <= p.(cl).(totals) k) request_counters) as Hf by (by apply Forall_forall).
  unfold request_counters in Hk, Hf. rewrite !Forall_cons in Hf. rewrite !elem_of_cons, elem_of_nil in Hk.
  destruct Hk as [->|[->|[->|[->|[->|[->|[->|[]]]]]]]]; lia.
Qed.

(** One more in each of the given counters. *)
Definition count (ks : list counter) (k : counter) : Z := if bool_decide (k ∈ ks) then 1 else 0.

Definition bumps (ks : list counter) (c : client) : client := foldr (fun k c => bump k c) c ks.

Lemma books_bumps ks c : NoDup ks -> (forall k, k ∈ request_counters -> 0 <= c.(totals) k < 2 ^ 64 - 1) ->
  forall k, k ∈ request_counters -> (bumps ks c).(totals) k = c.(totals) k + count ks k.
Proof.
  intros Hn Hb k Hk. unfold count. induction Hn as [|k0 ks Hk0 _ IH].
  { cbn [bumps foldr]. rewrite bool_decide_eq_false_2 by (by intros ?%elem_of_nil). lia. }
  change (totals (bumps (k0 :: ks) c) k) with
    (if decide (k = k0) then u64 (totals (bumps ks c) k + 1) else totals (bumps ks c) k).
  rewrite IH. specialize (Hb k Hk). destruct (decide (k = k0)) as [->|Hne].
  - rewrite bool_decide_eq_false_2 by done. rewrite bool_decide_eq_true_2 by (by left).
    rewrite wrap_small by (unfold in_width; lia). lia.
  - rewrite (bool_decide_ext (k ∈ k0 :: ks) (k ∈ ks)); [done|].
    rewrite elem_of_cons. by split; [intros [?|?]|right].
Qed.

(** What one request adds to the accounts: the counters [ks] gain one each. *)
Lemma accounts_request n p p' ks f o :
  accounts n 0 0 p -> n < 2 ^ 64 - 2 -> NoDup ks ->
  books p'.(cl) = (2 + n, map (bumps ks p.(cl)).(totals) request_counters) ->
  0 <= f -> 0 <= o -> f + o <= 1 ->
  1 = count ks send_blocked_total + count ks cwnd_blocked_total + count ks req_sent_total + f ->
  count ks req_sent_total = count ks ack_recv_total + o ->
  count ks ack_recv_total = count ks new_total + count ks cancel_total + count ks replace_total ->
  Z.of_nat (length p'.(rtt_us_samples)) = Z.of_nat (length p.(rtt_us_samples)) + count ks ack_recv_total ->
  Z.of_nat (length p'.(rtt_new)) = Z.of_nat (length p.(rtt_new)) + count ks new_total ->
  Z.of_nat (length p'.(rtt_cancel)) = Z.of_nat (length p.(rtt_cancel)) + count ks cancel_total ->
  Z.of_nat (length p'.(rtt_replace)) = Z.of_nat (length p.(rtt_replace)) + count ks replace_total ->
  accounts (n + 1) f o p'.
Proof.
  intros Ha Hn Hks E Hf Ho Hfo H1 H2 H3 L1 L2 L3 L4.
  assert (forall k, k ∈ request_counters -> 0 <= p.(cl).(totals) k < 2 ^ 64 - 1) as Hb.
  { intros k Hk. pose proof (ac_bound _ _ _ _ k Ha Hk). lia. }
  assert (forall k, k ∈ request_counters -> p'.(cl).(totals) k = p.(cl).(totals) k + count ks k) as Hk.
  { intros k Hk. rewrite <- books_bumps by done. unfold books, request_counters in E, Hk. cbn [map] in E.
    injection E as E0 E1 E2 E3 E4 E5 E6 E7. rewrite !elem_of_cons, elem_of_nil in Hk.
    by destruct Hk as [->|[->|[->|[->|[->|[->|[->|[]]]]]]]]. }
  assert (forall k, 0 <= count ks k) as Hc by (intros k; unfold count; by destruct (bool_decide _)).
  destruct Ha as [A1 A2 A3 A4 A5 (A6 & A7 & A8 & A9) A10].
  split; try (rewrite !Hk by set_solver); try lia.
  - unfold books in E. injection E as E _. lia.
  - intros k Hin. rewrite Hk by done. specialize (A2 k Hin). specialize (Hc k). lia.
Qed.

Lemma books_bump_ext k c c' : books c = books c' -> books (bump k c) = books (bump k c').
Proof.
  unfold books. cbn [map request_counters]. intros E. injection E as E0 E1 E2 E3 E4 E5 E6 E7.
  cbn [order_id totals add_total]. by rewrite E0, E1, E2, E3, E4, E5, E6, E7.
Qed.

Lemma books_bumps_ext ks c c' : books c = books c' -> books (bumps ks c) = books (bumps ks c').
Proof. intros E. induction ks as [|k ks IH]; [done|]. exact (books_bump_ext k _ _ IH). Qed.

Lemma totals_bumps ks c c' : c.(totals) = c'.(totals) -> (bumps ks c).(totals) = (bumps ks c').(totals).
Proof.
  intros E. induction ks as [|k ks IH]; [done|].
  change (bumps (k :: ks) c) with (bump k (bumps ks c)). change (bumps (k :: ks) c') with (bump k (bumps ks c')).
  unfold add_total. cbn [totals]. by rewrite IH.
Qed.

Lemma order_id_bumps ks c : (bumps ks c).(order_id) = c.(order_id).
Proof. by induction ks. Qed.

Lemma books_of_bumps ks c c' n : c.(order_id) = n -> c.(totals) = c'.(totals) ->
  books (bumps ks c) = (n, map (bumps ks c').(totals) request_counters).
Proof. intros E1 E2. unfold books. by rewrite order_id_bumps, E1, (totals_bumps ks c c'). Qed.

(** ** The books along the pieces of a request *)
Section Books.
Variable write_to : list (Z * list Z) -> Z -> list Z -> Z.
Variable req_obj ack_buf : ptr.
Variable req_pad : list Z.
Variable begin_key : gmap Z OrderRequest -> Z.

Lemma retransmit_books fd due c : books (retransmit write_to fd due c) = books c.
Proof.
  revert c. induction due as [|e due IH]; intros c; cbn [retransmit]; [done|].
  destruct (outstanding_segments c !! _); [|apply IH]. rewrite IH.
  destruct (_ =? _); (rewrite books_add; [done|other_counter]).
Qed.

Lemma tick_books fd t c : books (on_tick write_to fd t c) = books c.
Proof.
  unfold on_tick. destruct (collect_due _ _ _ _) as [[|e due] q]; cbv zeta.
  - apply (books_add retransmit_drop_total). other_counter.
  - rewrite retransmit_books, books_add by other_counter. apply (books_add retransmit_drop_total). other_counter.
Qed.

Lemma tick_running fd t c : (on_tick write_to fd t c).(g_running) = c.(g_running).
Proof. destruct (on_tick_spec write_to fd t c) as [H _]. by injection H. Qed.

Lemma wait_books fd events c r c' : wait_ack write_to fd events c = (r, c') ->
  books c' = books c /\ c'.(g_running) = match r with Ended => false | _ => c.(g_running) end.
Proof.
  revert c. induction events as [|[bs| | |t|] events IH]; intros c; cbn [wait_ack].
  - by intros [= <- <-].
  - by intros [= <- <-].
  - by intros [= <- <-].
  - intros [= <- <-]. split; [|done]. apply (books_add ack_timeout_total). other_counter.
  - intros [H1 H2]%IH. rewrite tick_books in H1. rewrite tick_running in H2. done.
  - by intros [= <- <-].
Qed.

Lemma transmit_books fd req now c m c' m' : transmit write_to req_obj req_pad fd req now c m = Some (c', m') ->
  (books c' = books c /\ c'.(g_running) = false) \/
  (books c' = books (bump req_sent_total c) /\ c'.(g_running) = c.(g_running)).
Proof. intros (p & w & [->| ->])%transmit_client; [by left|by right]. Qed.

Lemma process_ack_cases req bs rtt c m c' m' : process_ack ack_buf req bs rtt c m = Some (c', m') ->
  c' = stop c \/ exists h, accept_ack req h rtt c = Some c'.
Proof.
  unfold process_ack. intros (u & m1 & _ & H)%bind_inv. apply bind_inv in H as ([ok o] & m2 & _ & H).
  destruct (_ || _); [injection H as <- _; by left|]. destruct (negb _); [injection H as <- _; by left|].
  unfold lift in H. destruct (accept_ack _ _ _ _) as [c1|] eqn:E; [|done].
  injection H as <- _. right. by eexists.
Qed.

Lemma accept_books req h rtt c c' : accept_ack req h rtt c = Some c' ->
  books c' = books (bumps [answered_total req; ack_recv_total] c) /\ c'.(g_running) = c.(g_running).
Proof.
  unfold accept_ack. destruct (ack_up_to _ _) as [n q]. destruct (on_ack _ _) as [w|]; [|done].
  cbn [mbind option_bind]. by intros [= <-].
Qed.

Lemma request_books p a b ts c : let c' := snd (build_request begin_key p a b ts c) in
  c'.(order_id) = u64 (c.(order_id) + 1) /\ c'.(totals) = c.(totals) /\ c'.(g_running) = c.(g_running).
Proof. unfold build_request. by destruct (if _ && _ then _ else _) as [[? ?] ?]. Qed.

Lemma answered_total_cases req :
  (answered_total req = new_total /\ (req.(action) =? New) = true) \/
  (answered_total req = cancel_total /\ (req.(action) =? New) = false /\ (req.(action) =? Cancel) = true) \/
  (answered_total req = replace_total /\ (req.(action) =? New) = false /\ (req.(action) =? Cancel) = false).
Proof.
  unfold answered_total. destruct (req.(action) =? New); [by left|]. right.
  destruct (req.(action) =? Cancel); [by left|by right].
Qed.

Lemma trace_ledger l p : ledger (trace l p) = ledger p /\ (trace l p).(cl) = p.(cl).
Proof. unfold trace. by destruct (emit _ _). Qed.

Lemma report_ledger now p p' : report now p = Some p' -> ledger p' = ledger p /\ p'.(cl) = p.(cl).
Proof.
  unfold report. destruct (_ <=? _); [|by intros [= <-]].
  destruct (metrics_line p); [|done]. by intros [= <-].
Qed.

(** Nothing in a request touches the socket. *)
Definition socket_of (p : program) := (p.(fd), p.(cstate), p.(fds)).

Lemma trace_socket l p : socket_of (trace l p) = socket_of p.
Proof. unfold trace. by destruct (emit _ _). Qed.

Lemma report_socket now p p' : report now p = Some p' -> socket_of p' = socket_of p.
Proof.
  unfold report. destruct (_ <=? _); [|by intros [= <-]].
  destruct (metrics_line p); [|done]. by intros [= <-].
Qed.

(** An answered request: three counters and the samples of its action. *)
Lemma answered_accounts n p q p' req e c1 :
  accounts n 0 0 p -> n < 2 ^ 64 - 2 ->
  ledger q = (books q.(cl), length p.(rtt_us_samples), length p.(rtt_new), length p.(rtt_cancel), length p.(rtt_replace)) ->
  c1.(order_id) = 2 + n -> c1.(totals) = p.(cl).(totals) ->
  books q.(cl) = books (bumps [answered_total req; ack_recv_total; req_sent_total] c1) ->
  answered req e q = Some p' -> accounts (n + 1) 0 0 p' /\ socket_of p' = socket_of q.
Proof.
  intros Ha Hn Hl Ho Ht Hb Hans. unfold answered in Hans.
  set (q1 := record_rtt req e.(rtt_us) q) in *.
  match type of Hans with report _ (active_now _ (trace ?l _)) = _ =>
    pose proof (trace_ledger l q1) as [L1 C1]; pose proof (trace_socket l q1) as S1; set (q2 := trace l q1) in * end.
  pose proof (report_socket _ _ _ Hans) as S2. apply report_ledger in Hans as [L2 _].
  split; [|by rewrite S2; transitivity (socket_of q2)].
  apply (accounts_ledger _ _ _ q1); [by rewrite L2|].
  unfold ledger in Hl. injection Hl as Hl1 Hl2 Hl3 Hl4.
  destruct (answered_total_cases req) as [[Ek E1]|[(Ek & E1 & E2)|(Ek & E1 & E2)]]; rewrite Ek in Hb;
    (eapply (accounts_request n p q1 [_; ack_recv_total; req_sent_total] 0 0 Ha Hn);
     [|etransitivity; [exact Hb|by apply books_of_bumps]|..]; try lia; try reflexivity;
     [apply (bool_decide_unpack _); by vm_compute|..]);
    unfold q1, record_rtt; cbn [rtt_us_samples rtt_new rtt_cancel rtt_replace]; rewrite ?E1, ?E2, ?length_app;
    cbn [length]; match goal with |- _ = _ + ?x => let v := eval vm_compute in x in change x with v end; lia.
Qed.

(** Requests that end without an answer: one counter or none, no sample. *)
Lemma unanswered_accounts n p p' ks f o c1 :
  accounts n 0 0 p -> n < 2 ^ 64 - 2 ->
  ledger p' = (books p'.(cl), length p.(rtt_us_samples), length p.(rtt_new), length p.(rtt_cancel), length p.(rtt_replace)) ->
  c1.(order_id) = 2 + n -> c1.(totals) = p.(cl).(totals) -> books p'.(cl) = books (bumps ks c1) ->
  (ks, f, o) ∈ [([send_blocked_total], 0, 0); ([cwnd_blocked_total], 0, 0); ([], 1, 0); ([req_sent_total], 0, 1)] ->
  accounts (n + 1) f o p'.
Proof.
  intros Ha Hn Hl Ho Ht Hb Hin. unfold ledger in Hl. injection Hl as Hl1 Hl2 Hl3 Hl4.
  rewrite !elem_of_cons, elem_of_nil in Hin.
  destruct Hin as [[= -> -> ->]|[[= -> -> ->]|[[= -> -> ->]|[[= -> -> ->]|[]]]]];
    (eapply (accounts_request n p p' _ _ _ Ha Hn);
     [|etransitivity; [exact Hb|by apply books_of_bumps]|..]; try lia; try reflexivity;
     [apply (bool_decide_unpack _); by vm_compute|..]);
    rewrite ?Hl1, ?Hl2, ?Hl3, ?Hl4;
    match goal with |- _ = _ + ?x => let v := eval vm_compute in x in change x with v end; lia.
Qed.

Variable opts : client_options.
Abbreviation request := (request write_to req_obj ack_buf req_pad begin_key opts).

(** A sent request that is not answered, and one that may be: [q] is the program
    [p] after its trace line. *)
Lemma open_accounts n p q c1 c :
  accounts n 0 0 p -> n < 2 ^ 64 - 2 -> c1.(order_id) = 2 + n -> c1.(totals) = p.(cl).(totals) ->
  ledger (with_client c q) =
    (books c, length p.(rtt_us_samples), length p.(rtt_new), length p.(rtt_cancel), length p.(rtt_replace)) ->
  books c = books (bump req_sent_total c1) ->
  exists failed open, accounts (n + 1) failed open (with_client c q).
Proof.
  intros Ha Hn Ho Ht Hl Hb. exists 0, 1. apply (unanswered_accounts n p _ [req_sent_total] 0 1 c1); try done.
  do 3 right. by left.
Qed.

Lemma answer_accounts n p q req e c1 c2 f p' m m' :
  accounts n 0 0 p -> n < 2 ^ 64 - 2 -> c1.(order_id) = 2 + n -> c1.(totals) = p.(cl).(totals) ->
  (forall c, ledger (with_client c q) =
    (books c, length p.(rtt_us_samples), length p.(rtt_new), length p.(rtt_cancel), length p.(rtt_replace))) ->
  books c2 = books (bump req_sent_total c1) -> c2.(g_running) = true ->
  await_answer write_to ack_buf req e c2 q m = Some ((f, p'), m') ->
  socket_of p' = socket_of q /\
  exists failed open, accounts (n + 1) failed open p' /\
    (f = Next -> failed = 0 /\ open = 0) /\ (f = Break -> running p' = false).
Proof.
  intros Ha Hn Ho Ht Lc B2 G2 H. unfold await_answer in H.
  destruct (wait_ack _ _ _ c2) as [r c3] eqn:Ew. apply wait_books in Ew as [B3 R3]. rewrite B2 in B3.
  assert (forall c, books c = books c3 -> exists x y, accounts (n + 1) x y (with_client c q)) as Hopen.
  { intros c Hc. apply (open_accounts n p q c1 c); try done. by rewrite Hc. }
  destruct r as [bs| |].
  2, 3: injection H as <- <- _; destruct (Hopen c3 eq_refl) as (x & y & Hxy); split; [done|by exists x, y].
  destruct (Hopen (stop c3) eq_refl) as (x & y & Hxy). destruct (interrupted e).
  { injection H as <- <- _. split; [done|]. by exists x, y. }
  apply bind_inv in H as (c4 & m4 & E4 & H). apply process_ack_cases in E4 as [->|[h E4]].
  { injection H as <- <- _. split; [done|]. by exists x, y. }
  apply accept_books in E4 as [B4 R4]. rewrite R4, R3, G2 in H. cbn [negb] in H.
  apply bind_inv in H as (p1 & m5 & E5 & H). injection H as <- <- _.
  unfold lift in E5. destruct (answered req e _) as [p2|] eqn:Ea; [|done]. injection E5 as <- <-.
  destruct (answered_accounts n p (with_client c4 q) p2 req e c1) as [A1 A2]; try done.
  { cbn [with_client cl]. rewrite B4.
    change (bumps [_; _; req_sent_total] c1) with (bumps [answered_total req; ack_recv_total] (bump req_sent_total c1)).
    by apply books_bumps_ext. }
  split; [by rewrite A2|]. by exists 0, 0.
Qed.

(** One request: exactly one new number, which was blocked, failed, is open or was
    answered; the loop goes on only when it is settled. *)
Lemma request_accounts n e p f p' m m' :
  request e p m = Some ((f, p'), m') -> accounts n 0 0 p -> n < 2 ^ 64 - 2 ->
  socket_of p' = socket_of p /\
  exists failed open, accounts (n + 1) failed open p' /\
    (f = Next -> failed = 0 /\ open = 0) /\ (f = Break -> running p' = false).
Proof.
  intros H Ha Hn. unfold ClientProgram.request in H.
  pose proof (request_books e.(pct) opts.(cl_cancel_ratio) opts.(cl_replace_ratio) e.(ts) p.(cl)) as Hreq.
  destruct (build_request _ _ _ _ _ _) as [req c1]. cbn [snd] in Hreq. destruct Hreq as (Ho & Ht & Hg).
  rewrite (ac_requests _ _ _ _ Ha), wrap_small in Ho by (destruct Ha; unfold in_width; lia).
  replace (1 + n + 1) with (2 + n) in Ho by lia.
  destruct (blocked_by c1) as [k|] eqn:Eb.
  { injection H as <- <- _. split; [done|]. exists 0, 0. split; [|done].
    apply (unanswered_accounts n p _ [k] 0 0 c1); try done.
    unfold blocked_by in Eb. destruct (negb _); [injection Eb as <-; by left|].
    destruct (negb _); [injection Eb as <-; right; by left|done]. }
  apply bind_inv in H as (c2 & m2 & E2 & H).
  destruct (transmit_books _ _ _ _ _ _ _ E2) as [[B2 R2]|[B2 R2]].
  { rewrite R2 in H. injection H as <- <- _. split; [done|]. exists 1, 0. split; [|done].
    apply (unanswered_accounts n p _ [] 1 0 c1); try done. do 2 right. by left. }
  destruct (g_running c2) eqn:G2; cbn [negb] in H.
  2: { injection H as <- <- _. split; [done|].
       destruct (open_accounts n p p c1 c2) as (x & y & Hxy); try done. by exists x, y. }
  match type of H with context [active_now ?t (trace ?l p)] => set (q := active_now t (trace l p)) in *;
    assert ((q.(rtt_us_samples), q.(rtt_new), q.(rtt_cancel), q.(rtt_replace)) =
      (p.(rtt_us_samples), p.(rtt_new), p.(rtt_cancel), p.(rtt_replace)) /\ socket_of q = socket_of p) as [Lq Sq] end.
  { unfold q, trace. by destruct (emit _ _). }
  clearbody q. rewrite <- Sq. eapply answer_accounts; [exact Ha|exact Hn|exact Ho|exact Ht| |exact B2|exact G2|exact H].
  intros c. injection Lq as L1 L2 L3 L4. unfold ledger, with_client.
  cbn [cl rtt_us_samples rtt_new rtt_cancel rtt_replace]. by rewrite L1, L2, L3, L4.
Qed.

(** ** Runs of the program *)

(** The books balance, and nothing is open while the program runs. *)
Definition balanced (n : Z) (p : program) : Prop :=
  exists failed open, accounts n failed open p /\ (running p = true -> failed = 0 /\ open = 0).

Lemma balanced_running n p : balanced n p -> running p = true -> accounts n 0 0 p.
Proof. intros (f & o & Ha & H) Hr. by destruct (H Hr) as [-> ->]. Qed.

Lemma balanced_keeps n p p' : ledger p' = ledger p -> (running p' = true -> running p = true) ->
  balanced n p -> balanced n p'.
Proof. intros E Hr (f & o & Ha & H). exists f, o. split; [by eapply accounts_ledger|auto]. Qed.

Lemma balanced_signal n b p : balanced n p -> balanced n (on_signal b p).
Proof. apply balanced_keeps; by destruct b. Qed.

Lemma burst_balanced k es n p f p' m m' :
  burst write_to req_obj ack_buf req_pad begin_key opts k es p m = Some ((f, p'), m') -> balanced n p -> n + Z.of_nat (length es) < 2 ^ 64 - 2 ->
  socket_of p' = socket_of p /\ f <> Break /\
  (f = Next -> exists n', n <= n' <= n + Z.of_nat (length es) /\ balanced n' p').
Proof.
  revert es n p m. induction k as [|k IH]; intros es n p m H Hb Hn; cbn [burst] in H.
  { injection H as <- <- _. split; [done|]. split; [done|]. exists n. split; [lia|done]. }
  destruct es as [|[sig e] es]; [by injection H as <- <- _|]. cbn [length] in *.
  apply (balanced_signal n sig) in Hb. set (q := on_signal sig p) in *.
  assert (socket_of q = socket_of p) as Sq by (unfold q; by destruct sig).
  destruct (running q) eqn:Rq; cbn [negb] in H.
  2: { injection H as <- <- _. split; [done|]. split; [done|]. exists n. split; [lia|done]. }
  apply bind_inv in H as ([g p1] & m1 & E & H).
  destruct (request_accounts n _ _ _ _ _ _ E) as (S1 & fl & op & A1 & HN & HB); [by apply balanced_running|lia|].
  destruct g.
  - destruct (HN eq_refl) as [-> ->]. apply (IH es (n + 1)) in H as (S2 & Hf & H2); [|by exists 0, 0|lia].
    split; [by rewrite S2, S1|]. split; [done|]. intros Ef. destruct (H2 Ef) as (n' & ? & ?). exists n'. split; [lia|done].
  - injection H as <- <- _. split; [by rewrite S1|]. split; [done|]. intros _. exists (n + 1). split; [lia|].
    exists fl, op. split; [done|]. by rewrite (HB eq_refl).
  - injection H as <- <- _. split; [by rewrite S1|]. by split.
Qed.

(** The program's descriptor: open while it is active, none while it retries; all
    others are as they were. *)
Definition owns (t0 : table) (p : program) : Prop :=
  (p.(cstate) = ACTIVE /\ 0 <= p.(fd) /\ t0 !! p.(fd) = None /\
     forall d, is_Some (p.(fds) !! d) <-> d = p.(fd) \/ is_Some (t0 !! d)) \/
  (p.(cstate) = RETRYING /\ p.(fd) < 0 /\ forall d, is_Some (p.(fds) !! d) <-> is_Some (t0 !! d)).

Definition table_ok (t : table) : Prop := forall d, is_Some (t !! d) -> 0 <= d.

Lemma owns_socket t0 p p' : socket_of p' = socket_of p -> owns t0 p -> owns t0 p'.
Proof. unfold socket_of, owns. intros E. injection E as -> -> ->. done. Qed.

(** Closing the program's descriptor restores the table. *)
Lemma owns_close t0 p : table_ok t0 -> owns t0 p -> forall d, is_Some (delete p.(fd) p.(fds) !! d) <-> is_Some (t0 !! d).
Proof.
  intros Hok H d. destruct (decide (d = p.(fd))) as [->|Hne].
  - rewrite lookup_delete_eq. split; [by intros []|]. intros Hs. exfalso.
    destruct H as [(_ & _ & E & _)|(_ & Hlt & _)]; [rewrite E in Hs; by destruct Hs|]. specialize (Hok _ Hs). lia.
  - rewrite lookup_delete_ne by done. destruct H as [(_ & _ & _ & H)|(_ & _ & H)]; rewrite H; [|done].
    split; [by intros [?|?]|by right].
Qed.

Lemma renew_keeps t0 n e p go p' :
  renew opts e p = (go, p') -> table_ok t0 -> fresh e.(answers).(Tcp.cn_socket) t0 ->
  owns t0 p -> balanced n p -> owns t0 p' /\ balanced n p' /\ running p' = running p.
Proof.
  intros H Hok Hf Ho Hb. unfold renew in H. destruct (_ && _); [|by injection H as _ <-].
  pose proof (owns_close t0 p Hok Ho) as Hd. set (t := delete _ _) in *.
  assert (fresh e.(answers).(Tcp.cn_socket) t) as Hf'.
  { destruct Hf as [Hf|Hf]; [by left|right]. apply eq_None_not_Some. rewrite Hd. by rewrite <- eq_None_not_Some. }
  pose proof (connect_opens opts.(cl_timeout_ms) e.(answers) t Hf') as Hop.
  destruct (connect_to_gateway _ _ t) as [nfd t'].
  assert (books (snd (reconnect nfd p.(cl))) = books p.(cl) /\ (snd (reconnect nfd p.(cl))).(g_running) = p.(cl).(g_running) /\
    fst (reconnect nfd p.(cl)) = if nfd <? 0 then RETRYING else ACTIVE) as (B & G & Es).
  { unfold reconnect. destruct (nfd <? 0); [done|]. cbn [fst snd]. split; [|done].
    apply (books_add reconnect_total). other_counter. }
  cbn [print with_output cl] in H.
  destruct (reconnect nfd (cl p)) as [st c]. cbn [fst snd] in *. subst st.
  assert (forall q, ledger q = ledger p -> running q = running p -> balanced n q) as Hbal.
  { intros q El Er. eapply balanced_keeps; [exact El|by rewrite Er|done]. }
  destruct Hop as [(En & Hn & Ht)|[En Et]]; cbn [fst snd] in *.
  - subst nfd. destruct (Z.ltb_spec (Tcp.cn_socket (answers e)) 0); [lia|]. injection H as _ <-.
    split; [|split; [apply Hbal; [by apply ledger_eq|done]|done]].
    left. cbn. split; [done|]. split; [done|]. split; [destruct Hf; [lia|done]|].
    intros d. by rewrite Ht, Hd.
  - subst nfd t'. cbn in H. injection H as _ <-.
    split; [|split; [apply Hbal; [by apply ledger_eq|done]|done]].
    right. cbn. split; [done|]. split; [lia|]. exact Hd.
Qed.

Lemma keepalive_keeps e p p' m m' : send_keepalive write_to e p m = Some (p', m') ->
  ledger p' = ledger p /\ socket_of p' = socket_of p /\ running p' = running p.
Proof.
  unfold send_keepalive. intros ([full c] & m1 & E & H)%bind_inv.
  assert (books c = books p.(cl) /\ c.(g_running) = p.(cl).(g_running)) as [B G].
  { unfold keepalive in E. destruct (should_send_keepalive _ _ _); [|by injection E as _ <- _].
    apply bind_inv in E as ([[n w] c1] & m2 & E & H'). apply send_frame_client in E as [x ->].
    destruct (_ =? _); injection H' as _ <- _; [|done]. split; [|done].
    transitivity (books (with_sent x p.(fd) w p.(cl))); [apply books_add; other_counter|done]. }
  injection H as <- _. split; [apply ledger_eq; by destruct full|]. split; by destruct full.
Qed.

(** All the requests the environments of a run provide for. *)
Definition request_count (es : list pass_env) : Z :=
  foldr (fun e n => Z.of_nat (length e.(requests)) + n) 0 es.

Lemma request_count_nonneg es : 0 <= request_count es.
Proof. induction es as [|e es IH]; [done|]. unfold request_count in *. cbn [foldr]. lia. Qed.

(** The kernel never hands out a descriptor that was open before the run. *)
Definition fresh_answers (t0 : table) (es : list pass_env) : Prop :=
  Forall (fun e => fresh e.(answers).(Tcp.cn_socket) t0) es.

Lemma passes_keep t0 es n p p' m m' :
  passes write_to req_obj ack_buf req_pad begin_key opts es p m = Some (Some p', m') ->
  table_ok t0 -> fresh_answers t0 es -> owns t0 p -> balanced n p -> n + request_count es < 2 ^ 64 - 2 ->
  owns t0 p' /\ running p' = false /\ exists n', n <= n' <= n + request_count es /\ balanced n' p'.
Proof.
  intros H Hok Hf. revert n p m H. induction Hf as [|e es Hfe _ IH]; intros n p m H Ho Hb Hn; cbn [passes] in H; [done|].
  cbn [request_count foldr] in Hn. fold (request_count es) in Hn. pose proof (request_count_nonneg es).
  cbn [request_count foldr]. fold (request_count es).
  apply (balanced_signal n (signal e)) in Hb.
  assert (owns t0 (on_signal (signal e) p)) as Ho' by (by destruct (signal e)).
  set (q := on_signal (signal e) p) in *.
  destruct (running q) eqn:Rq; cbn [negb] in H.
  2: { injection H as <- _. split; [done|]. split; [done|]. exists n. split; [lia|done]. }
  apply bind_inv in H as ([f p1] & m1 & E & H). unfold pass in E.
  destruct (renew opts e q) as [go q1] eqn:En. destruct (renew_keeps t0 n e q go q1 En Hok Hfe Ho' Hb) as (O1 & B1 & R1).
  destruct go; cbn [negb] in E.
  2: { injection E as <- <- <-. destruct (IH n q1 m H O1 B1 ltac:(lia)) as (? & ? & n' & ? & ?).
       split; [done|]. split; [done|]. exists n'. split; [lia|done]. }
  apply bind_inv in E as (q2 & m2 & Ek & E). apply keepalive_keeps in Ek as (L2 & S2 & R2).
  assert (balanced n q2) as B2 by (eapply balanced_keeps; [exact L2|by rewrite R2|done]).
  assert (owns t0 q2) as O2 by (by eapply owns_socket).
  apply (burst_balanced _ _ n) in E as (S3 & Hbr & H3); [|done|lia].
  destruct f; [|done|done]. destruct (H3 eq_refl) as (n1 & Hn1 & B3).
  destruct (IH n1 p1 m1 H) as (? & ? & n' & ? & ?); [by eapply owns_socket|done|lia|].
  split; [done|]. split; [done|]. exists n'. split; [lia|done].
Qed.

(** *** The final line *)
Lemma rtt_fields_keys p fs : rtt_fields p = Some fs ->
  fs.*1 = [str "rtt_p50_us"; str "rtt_p99_us"; str "rtt_p999_us"] /\ visible_values fs.
Proof.
  unfold rtt_fields, percentile_field. cbn [mapM]. destruct (percentile_us _ p50); [|done].
  destruct (percentile_us _ p99); [|done]. destruct (percentile_us _ p999); [|done]. intros [= <-].
  split; [done|]. repeat (constructor; [apply num_visible|]). constructor.
Qed.

Lemma final_line_reads p l f : final_line p = Some l -> f ∈ totals_fields p.(cl) -> read_field f.1 l = Some f.2.
Proof.
  unfold final_line. destruct (rtt_fields p) as [fs|] eqn:E; [|done]. intros [= <-] Hf.
  apply rtt_fields_keys in E as [Ek Ev].
  apply (read_field_line _ (totals_fields p.(cl) ++ fs)).
  - by vm_compute.
  - assert ((totals_fields p.(cl) ++ fs).*1 = (totals_fields p.(cl)).*1 ++ fs.*1) as -> by apply fmap_app.
    rewrite Ek. by vm_compute.
  - apply Forall_app_2; [|done]. repeat (constructor; [apply num_visible|]). constructor.
  - apply elem_of_app. by left.
Qed.
End Books.

(** ** The program follows the request loop *)
Section Refinement.
Variable write_to : list (Z * list Z) -> Z -> list Z -> Z.
Variable req_obj ack_buf : ptr.
Variable req_pad : list Z.
Variable begin_key : gmap Z OrderRequest -> Z.
Variable opts : client_options.

(** A step of the loop of OrderClient, or a signal. *)
Definition loop_step (c c' : client) : Prop :=
  OrderClient.client_step write_to req_obj ack_buf req_pad begin_key c c' \/ c' = stop c.

Lemma signal_step b p : rtc loop_step p.(cl) (on_signal b p).(cl).
Proof. destruct b; [apply rtc_once; by right|apply rtc_refl]. Qed.

(** What the wait had done before the answer was read, without reading it. *)
Lemma wait_prefix d events c bs c' : wait_ack write_to d events c = (Received bs, c') ->
  exists events', wait_ack write_to d events' c = (StillWaiting, c').
Proof.
  revert c. induction events as [|[b| | |t|] events IH]; intros c; cbn [wait_ack]; try done.
  - intros [= _ <-]. by exists [].
  - intros (events' & E)%IH. by exists (ReadAgain t :: events').
Qed.

Lemma answered_client req e p p' : answered req e p = Some p' -> p'.(cl) = p.(cl).
Proof.
  unfold answered. intros H. apply report_ledger in H as [_ H]. rewrite H.
  unfold active_now. cbn [with_clocks cl]. by rewrite (proj2 (trace_ledger _ _)).
Qed.

Lemma request_steps e p f p' m m' :
  request write_to req_obj ack_buf req_pad begin_key opts e p m = Some ((f, p'), m') -> rtc loop_step p.(cl) p'.(cl).
Proof.
  assert (forall events c' m', iteration write_to req_obj ack_buf req_pad begin_key p.(fd) e.(pct) opts.(cl_cancel_ratio)
    opts.(cl_replace_ratio) e.(ts) e.(track_ms) events e.(rtt_us) p.(cl) m = Some (c', m') ->
    rtc loop_step p.(cl) c') as Hit.
  { intros events c' m1 H. apply rtc_once. left. by eapply cs_iteration. }
  intros H. unfold request, await_answer in H. unfold iteration in Hit. destruct (build_request _ _ _ _ _ _) as [req c1].
  destruct (blocked_by c1) as [k|]; [injection H as _ <- _; by eapply (Hit [])|].
  apply bind_inv in H as (c2 & m2 & E2 & H). unfold mbind, M_bind in Hit. rewrite E2 in Hit.
  destruct (negb (g_running c2)); [injection H as _ <- _; by eapply (Hit [])|].
  specialize (Hit e.(events)) as Hev.
  match type of H with context [active_now ?t (trace ?l p)] => set (q := active_now t (trace l p)) in * end.
  assert (q.(fd) = p.(fd)) as Hfd by (unfold q, trace; by destruct (emit _ _)). rewrite Hfd in H. clearbody q.
  destruct (wait_ack _ _ _ c2) as [r c3] eqn:Ew. destruct r as [bs| |].
  - destruct (interrupted e).
    + injection H as _ <- _. apply wait_prefix in Ew as (events' & Ew). specialize (Hit events').
      rewrite Ew in Hit. eapply rtc_r; [by eapply Hit|by right].
    + apply bind_inv in H as (c4 & m4 & E4 & H).
      destruct (negb (g_running c4)); [injection H as _ <- _; by eapply Hev|].
      apply bind_inv in H as (p1 & m5 & E5 & H). injection H as _ <- _. unfold lift in E5.
      destruct (answered req e _) as [p2|] eqn:Ea; [|done]. injection E5 as <- _.
      rewrite (answered_client _ _ _ _ Ea). by eapply Hev.
  - injection H as _ <- _. by eapply Hev.
  - injection H as _ <- _. by eapply Hev.
Qed.

Lemma burst_steps k es p f p' m m' :
  burst write_to req_obj ack_buf req_pad begin_key opts k es p m = Some ((f, p'), m') -> rtc loop_step p.(cl) p'.(cl).
Proof.
  revert es p m. induction k as [|k IH]; intros es p m H; cbn [burst] in H; [by injection H as _ <- _|].
  destruct es as [|[sig e] es]; [by injection H as _ <- _|].
  etransitivity; [apply (signal_step sig)|]. destruct (negb _); [by injection H as _ <- _|].
  apply bind_inv in H as ([g p1] & m1 & E & H). etransitivity; [by eapply request_steps|].
  destruct g; [by eapply IH|by injection H as _ <- _..].
Qed.

Lemma pass_steps e p f p' m m' :
  pass write_to req_obj ack_buf req_pad begin_key opts e p m = Some ((f, p'), m') -> rtc loop_step p.(cl) p'.(cl).
Proof.
  unfold pass. destruct (renew opts e p) as [go q] eqn:En. intros H.
  assert (rtc loop_step p.(cl) q.(cl)) as Hq.
  { unfold renew in En. destruct (_ && _); [|by injection En as _ <-].
    destruct (connect_to_gateway _ _ _) as [d t]. cbn [print with_output cl] in En.
    destruct (reconnect d (cl p)) as [st c] eqn:Er. apply rtc_once. left.
    assert (c = snd (reconnect d (cl p))) as -> by by rewrite Er.
    destruct (d <? 0); injection En as _ <-; apply cs_reconnect. }
  etransitivity; [exact Hq|]. destruct (negb go); [by injection H as _ <- _|].
  apply bind_inv in H as (q1 & m1 & E & H). etransitivity; [|by eapply burst_steps].
  unfold send_keepalive in E. apply bind_inv in E as ([full c] & m2 & E & H1). apply rtc_once. left.
  injection H1 as <- _. destruct full; by eapply cs_keepalive.
Qed.

Lemma passes_steps es p p' m m' :
  passes write_to req_obj ack_buf req_pad begin_key opts es p m = Some (Some p', m') -> rtc loop_step p.(cl) p'.(cl).
Proof.
  revert p m. induction es as [|e es IH]; intros p m H; cbn [passes] in H; [done|].
  etransitivity; [apply (signal_step e.(signal))|]. destruct (negb _); [by injection H as <- _|].
  apply bind_inv in H as ([f q] & m1 & E & H). etransitivity; [by eapply pass_steps|].
  destruct f; [by eapply IH|by eapply IH|done].
Qed.

Lemma passes_stopped es p p' m m' :
  passes write_to req_obj ack_buf req_pad begin_key opts es p m = Some (Some p', m') -> running p' = false.
Proof.
  revert p m. induction es as [|e es IH]; intros p m H; cbn [passes] in H; [done|].
  destruct (running (on_signal _ p)) eqn:E; cbn [negb] in H; [|by injection H as <- _].
  apply bind_inv in H as ([[] q] & m1 & _ & H); [by eapply IH|by eapply IH|done].
Qed.

Lemma loop_closed c c' : rtc loop_step c c' -> c.(conn).(state) = CLOSED -> c'.(conn).(state) = CLOSED.
Proof.
  induction 1 as [|x y z [Hs| ->] _ IH]; [done| |exact IH]. intros Hx. apply IH. by eapply step_closed.
Qed.
End Refinement.

(** C5: The program refines the request loop.  In every run that ends with code 0
    the client went from its initial state through steps of the loop of
    OrderClient and signals alone, its connection was never opened as a state
    machine, and what it wrote to its sockets is what the loop wrote: the FIN
    teardown at the end adds nothing. *)
Theorem program_follows_loop write_to req_obj ack_buf req_pad begin_key opts a pool now es reads t m x m' :
  client_run write_to req_obj ack_buf req_pad begin_key opts a pool now es reads t m = Some (Some x, m') ->
  x.(code) = 0 ->
  exists c, rtc (loop_step write_to req_obj ack_buf req_pad begin_key) (client_init pool) c /\
    c.(g_running) = false /\ c.(conn).(state) = CLOSED /\ x.(written) = c.(sent).
Proof.
  intros H Hc. unfold client_run in H. destruct (connect_to_gateway _ a t) as [d t1].
  destruct (d <? 0); [injection H as <- _; done|].
  apply bind_inv in H as (u & m1 & _ & H). apply bind_inv in H as ([p|] & m2 & E & H); [|done].
  exists p.(cl). pose proof (passes_steps _ _ _ _ _ _ _ _ _ _ _ E) as Hs. split; [exact Hs|].
  split; [by eapply passes_stopped|]. cbn [program_init cl] in Hs.
  assert (p.(cl).(conn).(state) = CLOSED) as Hcl by (eapply loop_closed; [exact Hs|done]). split; [done|].
  apply bind_inv in H as (y & m3 & H & Hx). injection Hx as <- _. unfold finish in H.
  apply bind_inv in H as (l & m4 & _ & H). apply bind_inv in H as (c & m5 & Et & H). injection H as <- _.
  cbn [print with_output cl fd cstate] in Et. rewrite teardown_closed in Et by done. by injection Et as <- _.
Qed.

(** C17: The client's final report balances.  In every run of the program that ends
    with code 0, of fewer than 2^64 - 2 requests, take the state [p] its passes
    end in.  Each request begun took one number, and was blocked by one of the two
    flow-control checks, sent, or is the one whose write failed; every sent
    request was answered, except at most the last; the answers are split over the
    three actions, with one round-trip sample each; what is printed is what the
    passes printed, the final report of [p], and the stop line, and every total
    of [p] can be read back from the report.  The descriptors open at the end are
    those open at the start, whatever the reconnects did. *)
Theorem client_report_balances write_to req_obj ack_buf req_pad begin_key opts a pool now es reads t m x m' :
  client_run write_to req_obj ack_buf req_pad begin_key opts a pool now es reads t m = Some (Some x, m') ->
  table_ok t -> fresh a.(Tcp.cn_socket) t -> fresh_answers t es -> request_count es < 2 ^ 64 - 2 ->
  (forall d, is_Some (x.(open_fds) !! d) <-> is_Some (t !! d)) /\
  (x.(code) = 0 -> exists p m1 failed open final,
     let connected := connect_to_gateway opts.(cl_timeout_ms) a t in
     passes write_to req_obj ack_buf req_pad begin_key opts es
       (program_init opts pool connected.1 connected.2 now) m = Some (Some p, m1) /\
     p.(cl).(order_id) - 1 <= request_count es /\ accounts (p.(cl).(order_id) - 1) failed open p /\
     final_line p = Some final /\ x.(stdout) = p.(out) ++ [final; state_line STOPPED] /\
     forall f, f ∈ totals_fields p.(cl) -> read_field f.1 final = Some f.2).
Proof.
  intros H Hok Hf Hfs Hn. unfold client_run in H.
  pose proof (connect_opens opts.(cl_timeout_ms) a t Hf) as Hop.
  destruct (connect_to_gateway _ a t) as [d t1]. destruct Hop as [(Ed & Hd & Ht)|[Ed Et]]; cbn [fst snd] in *.
  2: { subst d t1. injection H as <- _. done. }
  subst d. destruct (Z.ltb_spec (Tcp.cn_socket a) 0); [lia|].
  apply bind_inv in H as (u & m1 & Hi & H). unfold lift in Hi. destruct (burst_interval opts); [|done].
  injection Hi as _ <-. apply bind_inv in H as ([p|] & m2 & E & H); [|done]. pose proof E as Ep.
  apply (passes_keep _ _ _ _ _ _ t es 0) in Ep as (Ho & _ & n & Hn' & (failed & open & Ha & _));
    [|done|done| | |lia].
  2: { left. cbn. split; [done|]. split; [done|]. split; [by destruct Hf; [lia|]|]. exact Ht. }
  2: { exists 0, 0. split; [|done]. by split. }
  assert (p.(cl).(order_id) - 1 = n) as En by (rewrite (ac_requests _ _ _ _ Ha); lia).
  apply bind_inv in H as (y & m3 & H & Hx). injection Hx as <- _. unfold finish in H.
  apply bind_inv in H as (l & m4 & El & H). unfold lift in El. destruct (final_line p) as [l'|] eqn:Ef; [|done].
  injection El as -> ->. apply bind_inv in H as (c & m5 & _ & H). injection H as <- _. cbn [open_fds stdout code].
  split; [by apply owns_close|]. intros _. exists p, m4, failed, open, l. cbv zeta. rewrite En.
  split; [exact E|]. split; [lia|]. split; [done|]. split; [exact Ef|].
  split; [cbn; by rewrite <- app_assoc|]. intros f Hin. by apply (final_line_reads p).
Qed.

(** ** Witness: one answered order, then a signal *)
Definition demo_opts : client_options := mkClientOptions 2 1 0 1000 0 0 1 (str "127.0.0.1").
Definition demo_connect : Tcp.connect_answers := Tcp.mkConnect 3 (Some 1) 2 0 0 0 1 0 0 0 0.
Definition demo_ack : list Z := [35; 40; 35; 141; 0; 0; 0; 1; 0; 0; 0; 41; 80; 16; 255; 255; 0; 0; 0; 0].
Definition demo_request : request_env := mkRequest 50 0 20 0 [ReadBytes demo_ack] false 1500 0 0 0.
Definition demo_passes : list pass_env :=
  [mkPass false 0 demo_connect 0 0 0 [(false, demo_request)]; mkPass true 0 demo_connect 0 0 0 []].
Definition demo_client_mem : mem :=
  alloc (alloc (alloc ∅ 4000 (replicate 152 0)) 5000 (replicate 40 0)) 6000 (replicate 256 0).

Definition demo_client_run : option (option client_exit * mem) :=
  client_run demo_send 5000 6000 [0; 0] (fun _ => 0) demo_opts demo_connect demo_pool 0 demo_passes [] ∅ demo_client_mem.

Lemma client_report_balances_witness :
  exists x m', demo_client_run = Some (Some x, m') /\ x.(code) = 0 /\ length x.(stdout) = 7%nat /\
    (forall d, is_Some (x.(open_fds) !! d) <-> is_Some ((∅ : table) !! d)) /\
    exists failed open p final, accounts (p.(cl).(order_id) - 1) failed open p /\ p.(cl).(order_id) <= 2 /\
      read_field (str "req_sent_total") final = Some (to_string (p.(cl).(totals) req_sent_total)).
Proof.
  assert (option_map (fun r => option_map (fun x => (x.(code), length x.(stdout))) r.1) demo_client_run =
    Some (Some (0, 7%nat))) as Hv by (vm_compute; reflexivity).
  destruct demo_client_run as [[[x|] m']|] eqn:E; [|discriminate Hv|discriminate Hv].
  injection Hv as Hc Hl.
  destruct (client_report_balances _ _ _ _ _ _ _ _ _ _ _ _ _ _ _ E) as [Ht Hr].
  - intros d [y Hy]. discriminate Hy.
  - right. reflexivity.
  - constructor; [right; reflexivity|]. constructor; [right; reflexivity|]. constructor.
  - vm_compute. reflexivity.
  - exists x, m'. split; [reflexivity|]. split; [exact Hc|]. split; [exact Hl|]. split; [exact Ht|].
    destruct (Hr Hc) as (p & m1 & failed & open & final & _ & Hn & Ha & _ & _ & Hread).
    exists failed, open, p, final. split; [exact Ha|]. split; [cbn in Hn; lia|].
    apply (Hread (num (str "req_sent_total") (p.(cl).(totals) req_sent_total))). by left.
Defined.

Lemma program_follows_loop_witness :
  exists x m' c, demo_client_run = Some (Some x, m') /\ length x.(written) = 1%nat /\
    rtc (loop_step demo_send 5000 6000 [0; 0] (fun _ => 0)) (client_init demo_pool) c /\ x.(written) = c.(sent).
Proof.
  assert (option_map (fun r => option_map (fun x => (x.(code), length x.(written))) r.1) demo_client_run =
    Some (Some (0, 1%nat))) as Hv by (vm_compute; reflexivity).
  destruct demo_client_run as [[[x|] m']|] eqn:E; [|discriminate Hv|discriminate Hv].
  injection Hv as Hc Hl.
  destruct (program_follows_loop _ _ _ _ _ _ _ _ _ _ _ _ _ _ _ E Hc) as (c & Hs & _ & _ & Hw).
  exists x, m', c. split; [reflexivity|]. split; [exact Hl|]. split; [exact Hs|exact Hw].
Defined.
