(* ===== verification/Numa.v ===== *)
(** * Numa: NUMA topology and CPU affinity (optimization/numa_utils.hpp)

    What libnuma and the kernel answer are the record [machine]: a node's CPU
    mask is [None] when [numa_node_to_cpus] fails.  A field the source leaves
    uninitialised is [None].  A [cpu_set_t] is the set of its CPUs: [CPU_SET]
    ignores a number outside its 1024 bits. *)
From stdpp Require Import sorting.
From S2P Require Import Prelude.

Record NumaNode := mkNumaNode {
  node_id : Z;
  num_cpus : option Z;
  cpu_ids : list Z;
  free_memory : Z;
}.

Record NumaTopology := mkNumaTopology {
  numa_available_ : bool;
  num_nodes_ : Z;
  max_node_ : Z;
  nodes_ : list NumaNode;
}.

Record machine := mkMachine {
  numa_available : Z;
  numa_max_node : Z;
  numa_node_to_cpus : Z -> option (gset Z);
  numa_num_possible_cpus : Z;
  numa_node_size : Z -> Z;
  sched_getcpu : Z;
  numa_node_of_cpu : Z -> Z;
  (** [pthread_self] and [pthread_setaffinity_np], by the handle of the thread *)
  pthread_self : Z;
  setaffinity : Z -> gset Z -> Z;
}.

(** ** NumaTopology *)
Definition topology_fields : NumaTopology := mkNumaTopology false 1 0 [].

(** One round of the loop over the nodes. *)
Definition node_info (e : machine) (node : Z) : NumaNode :=
  let free := e.(numa_node_size) node in
  let free_memory := if 0 <? free then free / 1024 else 0 in
  match e.(numa_node_to_cpus) node with
  | Some cpus =>
      mkNumaNode node (Some (Z.of_nat (base.size cpus)))
        (filter (fun cpu => cpu ∈ cpus) (seqZ 0 e.(numa_num_possible_cpus))) free_memory
  | None => mkNumaNode node None [] free_memory
  end.

Definition detect (e : machine) (t : NumaTopology) : bool * NumaTopology :=
  if e.(numa_available) <? 0 then (false, mkNumaTopology false t.(num_nodes_) t.(max_node_) t.(nodes_)) else
  let max_node := e.(numa_max_node) in
  (true, mkNumaTopology true (max_node + 1) max_node (map (node_info e) (seqZ 0 (max_node + 1)))).

(** [instance]: the constructor runs [detect] once. *)
Definition instance (e : machine) : NumaTopology := (detect e topology_fields).2.

Definition is_available (t : NumaTopology) : bool := t.(numa_available_).
Definition num_nodes (t : NumaTopology) : Z := t.(num_nodes_).
Definition nodes (t : NumaTopology) : list NumaNode := t.(nodes_).

Definition get_current_node (e : machine) (t : NumaTopology) : Z :=
  if negb t.(numa_available_) then 0 else e.(numa_node_of_cpu) e.(sched_getcpu).

(** Which allocator a block comes from and goes back to. *)
Inductive allocator : Type := Malloc | OnNode (node : Z).
Inductive deallocator : Type := Free | NumaFree (size : Z).

Definition allocate_on_node (t : NumaTopology) (size node : Z) : allocator :=
  if negb t.(numa_available_) then Malloc else OnNode node.
Definition free_on_node (t : NumaTopology) (size : Z) : deallocator :=
  if negb t.(numa_available_) then Free else NumaFree size.

(** ** CpuAffinity *)
Definition CPU_SETSIZE : Z := 1024.

Definition CPU_SET (cpu : Z) (s : gset Z) : gset Z :=
  if (0 <=? cpu) && (cpu <? CPU_SETSIZE) then {[ cpu ]} ∪ s else s.

Definition bind_to_cpu (e : machine) (cpu_id : Z) : bool :=
  e.(setaffinity) e.(pthread_self) (CPU_SET cpu_id ∅) =? 0.

(** [thread] is the native handle of the thread. *)
Definition bind_thread_to_cpu (e : machine) (thread cpu_id : Z) : bool :=
  e.(setaffinity) thread (CPU_SET cpu_id ∅) =? 0.

Definition set_affinity_mask (e : machine) (cpus : list Z) : bool :=
  e.(setaffinity) e.(pthread_self) (foldl (fun s cpu => CPU_SET cpu s) ∅ cpus) =? 0.

(** [None] where the source indexes the vector with a negative number. *)
Definition bind_to_numa_node (e : machine) (t : NumaTopology) (id : Z) : option bool :=
  if negb (is_available t) || (num_nodes t <=? id) then Some false else
  if id <? Z.of_nat (length (nodes t)) then
    if id <? 0 then None else
    match nodes t !! Z.to_nat id with
    | None => None
    | Some n =>
        match n.(cpu_ids) with
        | [] => Some false
        | cpu :: _ => Some (bind_to_cpu e cpu)
        end
    end
  else Some false.

Definition get_current_cpu (e : machine) : Z := e.(sched_getcpu).

(** A machine with NUMA whose nodes have only possible CPUs. *)
Definition machine_ok (e : machine) : Prop :=
  0 <= e.(numa_available) /\ 0 <= e.(numa_max_node) /\ 0 <= e.(numa_num_possible_cpus) <= CPU_SETSIZE /\
  forall n cpus c, e.(numa_node_to_cpus) n = Some cpus -> c ∈ cpus -> 0 <= c < e.(numa_num_possible_cpus).

Lemma node_cpus e n cpus : machine_ok e -> e.(numa_node_to_cpus) n = Some cpus ->
  (forall c, c ∈ (node_info e n).(cpu_ids) <-> c ∈ cpus) /\ NoDup (node_info e n).(cpu_ids) /\
  (node_info e n).(num_cpus) = Some (Z.of_nat (length (node_info e n).(cpu_ids))).
Proof.
  intros (_ & _ & _ & Hc) E. unfold node_info. rewrite E. cbn [cpu_ids num_cpus].
  assert (forall c, c ∈ filter (fun cpu => cpu ∈ cpus) (seqZ 0 (numa_num_possible_cpus e)) <-> c ∈ cpus) as Hin.
  { intros c. rewrite list_elem_of_filter, elem_of_seqZ. split; [by intros [? _]|].
    intros H. split; [done|]. apply (Hc n cpus c) in H; [lia|done]. }
  assert (NoDup (filter (fun cpu => cpu ∈ cpus) (seqZ 0 (numa_num_possible_cpus e)))) as Hd.
  { apply NoDup_filter, NoDup_seqZ. }
  split; [done|]. split; [done|]. f_equal. f_equal.
  rewrite <- (size_list_to_set _ Hd : base.size (list_to_set _ : gset Z) = _). f_equal. apply set_eq.
  intros c. by rewrite elem_of_list_to_set, Hin.
Qed.

Lemma seqZ_sorted m n : StronglySorted Z.lt (seqZ m n).
Proof.
  unfold seqZ. generalize 0%nat (Z.to_nat n). intros a k. revert a.
  induction k as [|k IH]; intros a; cbn; [constructor|]. constructor; [apply IH|].
  apply Forall_fmap, Forall_seq. intros j Hj. cbn. lia.
Qed.

Lemma StronglySorted_filter (P : Z -> Prop) `{!forall x, Decision (P x)} l :
  StronglySorted Z.lt l -> StronglySorted Z.lt (filter P l).
Proof.
  induction 1 as [|x l _ IH Hx]; [constructor|]. rewrite filter_cons. case_decide; [|done].
  constructor; [done|]. rewrite Forall_forall in *. intros y [_ Hy]%list_elem_of_filter. auto.
Qed.

(** The CPUs of a node are listed in increasing order, so the first is the
    smallest, and it is inside the CPU set. *)
Lemma first_cpu e (cpus : gset Z) l c :
  machine_ok e -> (forall x, x ∈ l <-> x ∈ cpus) ->
  l = filter (fun cpu => cpu ∈ cpus) (seqZ 0 e.(numa_num_possible_cpus)) ->
  c ∈ cpus -> (forall c', c' ∈ cpus -> c <= c') ->
  match l with [] => Some false | cpu :: _ => Some (bind_to_cpu e cpu) end =
    Some (e.(setaffinity) e.(pthread_self) {[ c ]} =? 0).
Proof.
  intros (_ & _ & Hp & _) Hin El Hc Hmin.
  assert (StronglySorted Z.lt l) as Hs.
  { rewrite El. apply StronglySorted_filter, seqZ_sorted. }
  destruct l as [|x l]; [by apply Hin, elem_of_nil in Hc|].
  assert (x = c) as ->.
  { assert (x ∈ cpus) as Hx by (apply Hin; by left). specialize (Hmin x Hx).
    apply Hin in Hc. apply elem_of_cons in Hc as [->|Hc]; [done|].
    apply StronglySorted_inv in Hs as [_ Hs]. rewrite Forall_forall in Hs. specialize (Hs c Hc). lia. }
  assert (0 <= c < numa_num_possible_cpus e) as Hr.
  { assert (c ∈ c :: l) as H by by left. rewrite El in H. apply list_elem_of_filter in H as [_ H].
    apply elem_of_seqZ in H. lia. }
  unfold bind_to_cpu, CPU_SET. destruct (Z.leb_spec 0 c); [|lia].
  destruct (Z.ltb_spec c CPU_SETSIZE); [|lia]. cbn [andb]. by rewrite union_empty_r_L.
Qed.

Lemma instance_eq e : machine_ok e ->
  instance e = mkNumaTopology true (e.(numa_max_node) + 1) e.(numa_max_node)
                 (map (node_info e) (seqZ 0 (e.(numa_max_node) + 1))).
Proof.
  intros (Ha & _). unfold instance, detect. by destruct (Z.ltb_spec (numa_available e) 0); [lia|].
Qed.

Lemma node_id_info e n : (node_info e n).(node_id) = n.
Proof. unfold node_info. by destruct (numa_node_to_cpus e n). Qed.

(** The entry of a valid node, and what binding to it does. *)
Lemma bind_valid e n : machine_ok e -> 0 <= n < e.(numa_max_node) + 1 ->
  nodes (instance e) !! Z.to_nat n = Some (node_info e n) /\
  bind_to_numa_node e (instance e) n =
    match (node_info e n).(cpu_ids) with [] => Some false | cpu :: _ => Some (bind_to_cpu e cpu) end.
Proof.
  intros Hok Hn. rewrite instance_eq by done. unfold bind_to_numa_node.
  cbn [is_available num_nodes nodes numa_available_ num_nodes_ nodes_ negb orb].
  assert (map (node_info e) (seqZ 0 (numa_max_node e + 1)) !! Z.to_nat n = Some (node_info e n)) as El.
  { rewrite list_lookup_fmap, lookup_seqZ_lt by lia. cbn. do 2 f_equal. lia. }
  split; [done|]. destruct (Z.leb_spec (numa_max_node e + 1) n); [lia|].
  rewrite length_map, length_seqZ, Z2Nat.id by lia. destruct (Z.ltb_spec n (numa_max_node e + 1)); [|lia].
  destruct (Z.ltb_spec n 0); [lia|]. by rewrite El.
Qed.

(** With NUMA available, detection yields one entry per node, in order; an
    entry whose mask could be read lists exactly the CPUs of the mask, each
    once, and counts them; binding to a valid node binds the thread to the
    smallest CPU of that node, and fails without a system call on a node
    without CPUs, on a number past the last node, and when NUMA is not
    available.  A negative node number indexes the vector out of range. *)
Theorem numa_binds_first_cpu e :
  machine_ok e ->
  let t := instance e in
  is_available t = true /\ num_nodes t = e.(numa_max_node) + 1 /\
  map node_id (nodes t) = seqZ 0 (num_nodes t) /\
  (forall n cpus, 0 <= n < num_nodes t -> e.(numa_node_to_cpus) n = Some cpus ->
     exists info, nodes t !! Z.to_nat n = Some info /\ info.(node_id) = n /\
       (forall c, c ∈ info.(cpu_ids) <-> c ∈ cpus) /\ NoDup info.(cpu_ids) /\
       info.(num_cpus) = Some (Z.of_nat (length info.(cpu_ids))) /\
       (cpus = ∅ -> bind_to_numa_node e t n = Some false) /\
       (forall c, c ∈ cpus -> (forall c', c' ∈ cpus -> c <= c') ->
          bind_to_numa_node e t n = Some (e.(setaffinity) e.(pthread_self) {[ c ]} =? 0))) /\
  (forall n, num_nodes t <= n -> bind_to_numa_node e t n = Some false) /\
  (forall n, n < 0 -> bind_to_numa_node e t n = None).
Proof.
  intros Hok. pose proof Hok as (_ & Hm & _). cbv zeta.
  assert (is_available (instance e) = true /\ num_nodes (instance e) = numa_max_node e + 1 /\
    nodes (instance e) = map (node_info e) (seqZ 0 (numa_max_node e + 1))) as (E1 & E2 & E3)
    by (by rewrite instance_eq).
  rewrite E2. split; [done|]. split; [done|]. split; [|split; [|split]].
  - rewrite E3, map_map. erewrite map_ext; [by rewrite map_id|]. apply node_id_info.
  - intros n cpus Hn E. exists (node_info e n). destruct (bind_valid e n Hok Hn) as [El ->].
    destruct (node_cpus e n cpus Hok E) as (H1 & H2 & H3).
    split; [done|]. split; [apply node_id_info|]. split; [done|]. split; [done|]. split; [done|]. split.
    + intros ->. destruct (cpu_ids (node_info e n)) as [|c l] eqn:El'; [done|].
      exfalso. apply (not_elem_of_empty (C := gset Z) c). apply H1. by left.
    + intros c. apply (first_cpu e cpus); [done|done|]. unfold node_info. by rewrite E.
  - intros n Hn. unfold bind_to_numa_node. rewrite E1, E2. by destruct (Z.leb_spec (numa_max_node e + 1) n); [|lia].
  - intros n Hn. unfold bind_to_numa_node. rewrite E1, E2, E3. cbn [negb orb].
    destruct (Z.leb_spec (numa_max_node e + 1) n); [lia|]. rewrite length_map, length_seqZ.
    destruct (Z.ltb_spec n (Z.of_nat (Z.to_nat (numa_max_node e + 1)))); [|lia]. by destruct (Z.ltb_spec n 0); [|lia].
Qed.

(** Two nodes; the mask of the second cannot be read. *)
Definition demo_machine : machine :=
  mkMachine 0 1 (fun n => if n =? 0 then Some {[4; 2]} else None) 8 (fun _ => 2048) 2
    (fun _ => 0) 7 (fun _ s => if decide (s = {[2]}) then 0 else 22).

Lemma numa_binds_first_cpu_witness :
  bind_to_numa_node demo_machine (instance demo_machine) 0 = Some true /\
  bind_to_numa_node demo_machine (instance demo_machine) 1 = Some false /\
  bind_to_numa_node demo_machine (instance demo_machine) (-1) = None.
Proof.
  assert (machine_ok demo_machine) as Hok.
  { split_and!; try (cbn; unfold CPU_SETSIZE; lia). intros n cpus c. cbn. destruct (n =? 0); [|discriminate].
    intros [= <-]. rewrite elem_of_union, !elem_of_singleton. lia. }
  destruct (numa_binds_first_cpu demo_machine Hok) as (_ & _ & _ & H & _ & Hneg).
  split; [vm_compute; reflexivity|]. split; [vm_compute; reflexivity|]. apply Hneg. lia.
Defined.
